(* ===== verification/_CoqProject ===== *)
-Q . S2P
Prelude.v
StateError.v
Pkcs11.v
Handles.v
PinCrypto.v
TokenFiles.v
Token.v
TokenDemo.v
TokenProofs.v
TokenRestart.v
TokenPolicy.v
Hash.v
Session.v
SessionManager.v
SessionProofs.v
SessionCache.v
Dates.v
Objects.v
ObjectProofs.v
ObjectStore.v
ObjectStoreProofs.v
ObjectPersist.v
AuditChain.v
AuditProofs.v
Encrypt.v
EncryptProofs.v
Abi.v
AbiProofs.v
AbiDemo.v
RateLimit.v
Mechanisms.v
Sign.v
SignProofs.v
Operations.v
OperationProofs.v
OperationDemo.v
EntropyHealth.v
Drbg.v
KeyCrypto.v
KeyCryptoProofs.v
KeyManagement.v
KeyProofs.v
KeyDemo.v
Config.v
Backup.v
ImportParse.v
ImportProofs.v
Admin.v
AdminProofs.v
AdminDemo.v
Throttle.v
Daemon.v
DaemonProofs.v
DaemonDemo.v
Backend.v
AwsLc.v
AwsLcProofs.v
SelfTest.v
SelfTestProofs.v
SelfTestDemo.v
AuditExport.v
AuditExportProofs.v
Info.v
InfoProofs.v
Spy.v
SpyProofs.v
DaemonStart.v
DaemonStartProofs.v
AuditQueue.v
AuditQueueProofs.v
Metrics.v
KeyMaterial.v
StoreOpen.v
AdminMain.v
