(* ===== verification/Prelude.v ===== *)
(** * Craton HSM core: a verification development

    Craton HSM is a PKCS#11 module in software, written in Rust.  A library (src/src/)
    keeps tokens, sessions and objects and offers the C interface of PKCS#11; a gRPC
    daemon (src/craton-hsm-daemon/) offers it over TLS; an administration tool and a
    logging wrapper are under src/tools/.  This development translates these programs into
    executable definitions and proves what makes them correct.  File names in the doc
    comments of the other files are relative to the repository's root, src/ here; those of
    the library are given below without their leading src/src/.

    ** The program and the files that model it

    An application calls the C interface (pkcs11_abi/functions.rs).  Each function takes
    the one core (core.rs), finds the session (session/), asks the token (token/) about
    logins, finds objects (store/), calls a crypto backend (crypto/) and records the
    outcome in the audit log (audit/).

    - Foundations: [Prelude] (results, bytes, record update, tactics), [StateError] (steps
      with state and errors), [Pkcs11] (constants, error type), [Hash].
    - Handles and sessions: [Handles] (session/handle.rs, permutation and allocators, also
      under interleaving), [Session], [SessionManager], [SessionProofs], [SessionCache]
      (session/session.rs, session/manager.rs; sessions live in a heap because the code
      shares them).
    - Tokens: [PinCrypto], [TokenFiles], [Token] and their theorems in [TokenProofs],
      [TokenRestart], [TokenPolicy] (token/, store/lockout_store.rs).
    - Objects: [Dates], [Objects], [ObjectStore] with [ObjectProofs], [ObjectStoreProofs],
      [ObjectPersist] (store/object.rs, store/attributes.rs, store/encrypted_store.rs);
      [StoreOpen] opens the database under its lock; [KeyMaterial] is the memory of keys
      (store/key_material.rs, crypto/mlock.rs).
    - Audit log: [AuditChain], [AuditProofs] (hash chain and files), [AuditQueue],
      [AuditQueueProofs] (callers and worker), [AuditExport], [AuditExportProofs].
    - Cryptography: [Encrypt], [Sign], [KeyCrypto] with their proofs, [Mechanisms],
      [EntropyHealth], [Drbg], [Backend], [AwsLc], [SelfTest], [RateLimit], [Metrics]
      (crypto/).
    - The C interface: [Abi] (library, tokens, sessions, login, objects), [Operations]
      (encryption, signatures, digests), [KeyManagement] (generation, wrapping,
      derivation), [Info] (information functions), with [AbiProofs], [OperationProofs],
      [KeyProofs], [InfoProofs].
    - Around the library: [Config] (config/config.rs), [Backup] (store/backup.rs),
      [ImportParse], [Admin], [AdminMain] (tools/craton-hsm-admin), [Throttle], [Daemon],
      [DaemonStart] (craton-hsm-daemon), [Spy] (tools/pkcs11-spy), each with its proofs.
    - The files named Demo hold concrete runs on which witnesses evaluate theorems.

    ** How code is translated

    A struct is a record, an enum an inductive type with the source's constructors, an
    operation a function from its arguments and the state to its result and the new state,
    errors included.  Integers are in Z with wrap-around written out where the width
    matters; bytes are lists of Z.  A C pointer is an option or a flag for null.  What an
    operation observes of its surroundings (clock, random bytes, outcomes of system calls)
    is an argument, so a theorem holds for every behaviour of them.  Concurrency is a step
    relation or a list of events at the granularity of shared accesses.

    Third-party code is a type class of operations with a second class of laws: PBKDF2 and
    AES-GCM ([PinPrimitives]), hashes, ciphers, signature and key crates, serde codecs,
    aws-lc-rs, rustls, and the iteration orders of hash maps.  Laws state documented
    behaviour, and toy instances show that they can hold together.

    ** What is proved

    - Access: the number of PIN guesses is bounded across restarts; the token refines a
      three-state login machine; sessions follow logins; private objects and signatures
      need a login; the daemon keeps slots apart, demands logins and throttles guesses.
    - Keys: protected keys stay confined over all calls, never leave the daemon, wrap and
      unwrap to themselves; pairs are consistent; a dropped key is erased in memory.
    - Cryptography: GCM nonces and tracked IVs never repeat; multi-part equals
      single-part; caches are transparent; the backends interoperate; the generator is
      HMAC_DRBG and its monitor accepts exactly healthy input; no service precedes the
      self-tests.
    - Persistence: token and objects survive restarts; a database is open in one process
      at a time; backups restore exactly, once, and only with the SO PIN.
    - Audit: the file is tamper-evident, the worker's confirmations are true and a dropped
      log is drained, exports can be read back.
    - Programs: the daemon starts only in a safe state and never loses mutual TLS; the spy
      is transparent, hides secrets and writes JSON; metrics are exact under concurrency.

    Some theorems show where the code departs from its documentation, for example key
    agreement between the two parties, the accept loop of the daemon and the audit
    commands of the administration tool.

    ** Recursion and bounds

    Recursion is structural, or takes fuel: the length of the text it consumes or the number
    of digits of a 64-bit number, which each round uses up.  A loop whose length the
    environment decides (object handles, the draining worker, exchanges that fail without
    reason) runs through the steps the environment makes, and the theorems say that it ends
    or what holds once it has ended.  The platform is a
    64-bit Unix (LP64), a release build without the fips feature, so that arithmetic wraps.

    ** Not modelled

    The Windows branches and platform_acl.rs (calls into Windows only); the mathematics
    inside the cryptographic crates; parsers and serialisers of crates (TOML, JSON, ASN.1,
    clap); the tonic server, its limits and shutdown signals; log messages; the layout of
    printed tables; zeroisation of temporary copies outside [KeyMaterial]; timing; generated
    gRPC code, build scripts, tests, benchmarks, fuzz targets and deployment files. *)

From Stdlib Require Export ZArith Lia Bool.
From stdpp Require Export base tactics numbers list gmap strings.

#[global] Open Scope Z_scope.

(** ** Notations of the development *)

Declare Scope hsm_scope.
Delimit Scope hsm_scope with hsm.
#[global] Open Scope hsm_scope.

(** A byte is an integer in [0, 256); byte strings are lists of them. *)
Abbreviation bytes := (list Z).

(** ** Results: Rust's [Result<A, E>] *)

Inductive Result (E A : Type) : Type :=
| Ok (a : A)
| Err (e : E).

Arguments Ok {E A} a.
Arguments Err {E A} e.

#[export] Instance Result_eq_dec {E A} `{EqDecision E, EqDecision A} :
  EqDecision (Result E A).
Proof. solve_decision. Defined.

(** The [?] operator: evaluate, return early on [Err]. *)
Notation "'let?' x ':=' c 'in' k" :=
  (match c with Ok x => k | Err e => Err e end)
  (at level 10, x pattern, c at level 200, k at level 200)
  : hsm_scope.

Definition is_ok {E A} (r : Result E A) : bool :=
  match r with Ok _ => true | Err _ => false end.

(** [Option::ok_or]. *)
Definition ok_or {E A} (o : option A) (e : E) : Result E A :=
  match o with Some a => Ok a | None => Err e end.

(** A computation that may panic. *)
Inductive MayPanic (A : Type) : Type := Returns (a : A) | Panicked.
Arguments Returns {A} a.
Arguments Panicked {A}.

(** ** Machine integers

    A [w]-bit unsigned integer is a [Z] in [0, 2^w). *)

Definition wrap (w z : Z) : Z := z mod 2 ^ w.
Definition u8_max : Z := 2 ^ 8 - 1.
Definition u32_max : Z := 2 ^ 32 - 1.
Definition u64_max : Z := 2 ^ 64 - 1.
Definition u128_max : Z := 2 ^ 128 - 1.

Definition in_width (w z : Z) : Prop := 0 <= z < 2 ^ w.

Definition saturating_add (m a b : Z) : Z := Z.min (a + b) m.
Definition saturating_mul (m a b : Z) : Z := Z.min (a * b) m.
Definition saturating_sub (a b : Z) : Z := Z.max (a - b) 0.
Definition checked_add (m a b : Z) : option Z :=
  if a + b <=? m then Some (a + b) else None.

Definition is_byte (b : Z) : Prop := 0 <= b < 256.

(** ** Automation *)

Create HintDb hsm.
Create Rewrite HintDb hsm_list.

(** Split every test of the goal and hypotheses that a [match] or [if]
    inspects, discarding the impossible branches. *)
Ltac split_tests :=
  repeat (case_match; simplify_eq/=; try discriminate).

Tactic Notation "case_match" "in" hyp(H) :=
  match type of H with
  | context [ match ?x with _ => _ end ] => destruct x eqn:?
  end.

(** The same on one hypothesis, leaving the goal's own tests alone. *)
Ltac split_tests_in H :=
  repeat (case_match in H; simplify_eq/=; try discriminate).

(** Turn boolean comparisons in the context into propositions. *)
Ltac bool_to_prop :=
  repeat match goal with
  | H : negb _ = true |- _ => apply negb_true_iff in H
  | H : negb _ = false |- _ => apply negb_false_iff in H
  | H : (_ && _)%bool = true |- _ => apply andb_true_iff in H as [? ?]
  | H : (_ || _)%bool = false |- _ => apply orb_false_iff in H as [? ?]
  | H : (_ =? _) = true |- _ => apply Z.eqb_eq in H
  | H : (_ =? _) = false |- _ => apply Z.eqb_neq in H
  | H : (_ <=? _) = true |- _ => apply Z.leb_le in H
  | H : (_ <=? _) = false |- _ => apply Z.leb_gt in H
  | H : (_ <? _) = true |- _ => apply Z.ltb_lt in H
  | H : (_ <? _) = false |- _ => apply Z.ltb_ge in H
  | H : bool_decide _ = true |- _ => apply bool_decide_eq_true in H
  | H : bool_decide _ = false |- _ => apply bool_decide_eq_false in H
  end.

(** ** Widths *)

Section Widths.
Context (w : Z).
Hypothesis Hw : 0 <= w.

Lemma wrap_in_width z : in_width w (wrap w z).
Proof using Hw. apply Z.mod_pos_bound. by apply Z.pow_pos_nonneg. Qed.

Lemma wrap_small z : in_width w z → wrap w z = z.
Proof. apply Z.mod_small. Qed.

Lemma in_width_testbit z i : in_width w z → w <= i → Z.testbit z i = false.
Proof using Hw.
  intros Hz Hi. rewrite <- (wrap_small _ Hz). unfold wrap.
  by apply Z.mod_pow2_bits_high.
Qed.

Lemma in_width_bits z :
  0 <= z → (∀ i, w <= i → Z.testbit z i = false) → in_width w z.
Proof using Hw.
  intros Hz Hb. assert (z = wrap w z) as ->; [|apply wrap_in_width].
  apply Z.bits_inj'. intros i Hi. unfold wrap.
  destruct (Z.lt_ge_cases i w).
  - by rewrite Z.mod_pow2_bits_low.
  - rewrite Z.mod_pow2_bits_high by lia. by apply Hb.
Qed.

Lemma lxor_in_width a b : in_width w a → in_width w b → in_width w (Z.lxor a b).
Proof using Hw.
  intros Ha Hb. apply in_width_bits.
  - apply Z.lxor_nonneg. unfold in_width in *. lia.
  - intros i Hi. by rewrite Z.lxor_spec, !in_width_testbit.
Qed.
End Widths.

#[export] Hint Resolve wrap_in_width lxor_in_width : hsm.

(** ** Little-endian byte codecs ([to_le_bytes], [from_le_bytes]) *)

Fixpoint to_le_bytes (n : nat) (z : Z) : bytes :=
  match n with
  | O => []
  | S n => z mod 256 :: to_le_bytes n (z / 256)
  end.

Fixpoint from_le_bytes (bs : bytes) : Z :=
  match bs with
  | [] => 0
  | b :: bs => b + 256 * from_le_bytes bs
  end.

Lemma length_to_le_bytes n z : length (to_le_bytes n z) = n.
Proof. revert z; induction n; intros; simpl; auto. Qed.

Lemma to_le_bytes_bytes n z : Forall is_byte (to_le_bytes n z).
Proof.
  revert z; induction n; intros z; simpl; constructor; auto.
  unfold is_byte. apply Z.mod_pos_bound. lia.
Qed.

Lemma from_to_le_bytes n z :
  0 <= z < 256 ^ Z.of_nat n → from_le_bytes (to_le_bytes n z) = z.
Proof.
  revert z; induction n as [|n IH]; intros z Hz; simpl.
  - change (256 ^ Z.of_nat 0) with 1 in Hz. lia.
  - rewrite Nat2Z.inj_succ, Z.pow_succ_r in Hz by lia. rewrite IH.
    + pose proof (Z.div_mod z 256). lia.
    + split; [apply Z.div_pos; lia|]. apply Z.div_lt_upper_bound; lia.
Qed.

Lemma from_le_bytes_bound bs :
  Forall is_byte bs → 0 <= from_le_bytes bs < 256 ^ Z.of_nat (length bs).
Proof.
  induction 1 as [|b bs Hb _ IH]; cbn [from_le_bytes length].
  - change (256 ^ Z.of_nat 0) with 1. lia.
  - rewrite Nat2Z.inj_succ, Z.pow_succ_r by lia. unfold is_byte in Hb. lia.
Qed.

Lemma to_from_le_bytes bs :
  Forall is_byte bs → to_le_bytes (length bs) (from_le_bytes bs) = bs.
Proof.
  induction 1 as [|b bs Hb _ IH]; cbn [from_le_bytes to_le_bytes length]; [done|].
  unfold is_byte in Hb. f_equal.
  - rewrite (Z.mul_comm 256), Z.mod_add, Z.mod_small; lia.
  - rewrite (Z.mul_comm 256), Z.div_add, Z.div_small by lia.
    by rewrite Z.add_0_l.
Qed.

Lemma to_le_bytes_inj n a b :
  0 <= a < 256 ^ Z.of_nat n → 0 <= b < 256 ^ Z.of_nat n →
  to_le_bytes n a = to_le_bytes n b → a = b.
Proof.
  intros Ha Hb E. rewrite <- (from_to_le_bytes n a), <- (from_to_le_bytes n b) by done.
  by rewrite E.
Qed.

Lemma is_byte_forallb (l : bytes) :
  forallb (λ b, (0 <=? b) && (b <? 256)) l = true → Forall is_byte l.
Proof.
  induction l as [|b l IH]; simpl; [constructor|].
  intros [Hb Hl]%andb_true_iff. constructor; [|auto]. unfold is_byte. lia.
Qed.

#[export] Hint Rewrite length_to_le_bytes @length_app @length_take @length_drop
  @length_replicate : hsm_list.

(** ** Slices: Rust's [&v[i..j]] *)

Definition slice {A} (l : list A) (i j : nat) : list A := take (j - i) (drop i l).

Lemma slice_app_here {A} (a b c : list A) i j :
  length a = i → j = (i + length b)%nat → slice (a ++ b ++ c) i j = b.
Proof.
  intros Ha Hj. unfold slice. rewrite drop_app_length' by done.
  by rewrite take_app_length' by lia.
Qed.

(** The form parsers use: the concatenation is given up to associativity. *)
Lemma slice_at {A} (a b c l : list A) i j :
  l = a ++ b ++ c → length a = i → j = (i + length b)%nat → slice l i j = b.
Proof. intros ->. apply slice_app_here. Qed.

Lemma slice_app_end {A} (a b : list A) i j :
  length a = i → j = (i + length b)%nat → slice (a ++ b) i j = b.
Proof.
  intros Ha Hj. unfold slice. rewrite drop_app_length' by done.
  by rewrite take_ge by lia.
Qed.

Lemma length_slice {A} (l : list A) i j :
  (j <= length l)%nat → length (slice l i j) = (j - i)%nat.
Proof. intros. unfold slice. rewrite length_take, length_drop. lia. Qed.

(** ** Folds *)

(** A loop whose every step is related by a preorder, on a view of its state. *)
Lemma foldl_preorder {S T B} (R : T → T → Prop) `{!PreOrder R} (view : S → T)
    (f : S → B → S) l a :
  (∀ a b, R (view a) (view (f a b))) → R (view a) (view (foldl f a l)).
Proof.
  intros Hf. revert a. induction l as [|b l IH]; intros a; simpl; [reflexivity|].
  etrans; [apply Hf|apply IH].
Qed.

(** ** Finite maps *)

(** Every value of a map satisfies [P]. *)
Abbreviation map_all P m := (map_Forall (λ _ v, P v) m).

(** The number of values of a map that satisfy a test. *)
Definition map_count {V} (P : V → bool) (m : gmap Z V) : nat :=
  size (filter (λ kv : Z * V, P kv.2 = true) m).

Section MapCount.
Context {V : Type} (P : V → bool).
Implicit Types (m : gmap Z V).

Lemma map_count_insert m k v :
  m !! k = None → map_count P (<[k := v]> m) = (map_count P m + Nat.b2n (P v))%nat.
Proof.
  intros Hk. unfold map_count.
  assert (filter (λ kv : Z * V, P kv.2 = true) m !! k = None) as Hf.
  { apply map_lookup_filter_None. by left. }
  destruct (P v) eqn:E; simpl.
  - rewrite map_filter_insert_True, map_size_insert_None by done. lia.
  - rewrite map_filter_insert_False, delete_id by (simpl; congruence). lia.
Qed.

Lemma map_count_delete m k v :
  m !! k = Some v → map_count P m = (map_count P (delete k m) + Nat.b2n (P v))%nat.
Proof.
  intros Hk. rewrite <- (insert_delete_id m k v) at 1 by done.
  by rewrite map_count_insert by apply lookup_delete_eq.
Qed.

Lemma map_count_update m k v v' :
  m !! k = Some v → P v' = P v → map_count P (<[k := v']> m) = map_count P m.
Proof.
  intros Hk HP. rewrite (map_count_delete m k v Hk), <- HP.
  by rewrite <- insert_delete_eq, map_count_insert by apply lookup_delete_eq.
Qed.

Lemma map_count_replace m k v v' :
  m !! k = Some v →
  (map_count P (<[k := v']> m) + Nat.b2n (P v) = map_count P m + Nat.b2n (P v'))%nat.
Proof.
  intros Hk. rewrite (map_count_delete m k v Hk), <- insert_delete_eq.
  rewrite map_count_insert by apply lookup_delete_eq. lia.
Qed.

Lemma map_count_mono (Q : V → bool) m :
  (∀ v, P v = true → Q v = true) → (map_count P m <= map_count Q m)%nat.
Proof.
  intros HPQ. apply map_subseteq_size, map_filter_subseteq_ext. intros k v _. apply HPQ.
Qed.

Lemma map_count_empty : map_count P ∅ = 0%nat.
Proof. unfold map_count. by rewrite map_filter_empty, map_size_empty. Qed.

Lemma map_count_none m : (∀ k v, m !! k = Some v → P v = false) → map_count P m = 0%nat.
Proof.
  intros Hn. unfold map_count. apply map_size_empty_iff, map_empty. intros k.
  apply map_lookup_filter_None. right. intros v Hv. simpl. by rewrite (Hn k v Hv).
Qed.

Lemma map_count_le m : (map_count P m <= size m)%nat.
Proof. apply map_subseteq_size, map_filter_subseteq. Qed.
End MapCount.

(** ** Record update

    [r <| f := v |>] is [r] with field [f] set to [v].  A record type gives
    its expansion [r = Build (f1 r) .. (fn r)] once, as a [FieldExpansion]
    instance; the setter of a field is obtained from it by abstracting the
    projection. *)

Class FieldExpansion (R : Type) := expand_fields : R → R.

Class SetField {R T : Type} (proj : R → T) := set_field : T → R → R.
Arguments set_field {R T} proj {SetField} v r /.

Ltac derive_set_field proj :=
  lazymatch type of proj with
  | ?R → _ =>
    let inst := constr:(_ : FieldExpansion R) in
    let body := eval hnf in inst in
    match eval pattern proj in body with
    | ?f _ => let g := eval cbv beta in (λ v r, f (λ _, v) r) in exact g
    end
  end.

#[export] Hint Extern 0 (SetField ?proj) => derive_set_field proj : typeclass_instances.

#[warnings="-postfix-notation-not-level-1"]
Notation "r '<|' f ':=' v '|>'" := (set_field f v r)
  (at level 12, left associativity, f constr at level 11, v constr at level 200)
  : hsm_scope.
