(* ===== verification/StateError.v ===== *)
(** * Commands with state and errors

    The administration tool and the daemon are sequences of steps that change a
    state and may end early with an error.  [Run S E T] is such a step; [keeps]
    says that it leaves a view of the state alone, and [preserves] that it
    keeps an invariant.  The hints and [run_step] prove both by the structure of
    the step. *)

From S2P Require Import Prelude.

Definition Run (S E T : Type) : Type := S → Result E T * S.

Section Run.
Context {S E : Type}.

Definition rret {T} (v : T) : Run S E T := λ s, (Ok v, s).
Definition rfail {T} (x : E) : Run S E T := λ s, (Err x, s).
Definition rbind {T U} (m : Run S E T) (k : T → Run S E U) : Run S E U :=
  λ s, match m s with (Ok v, s) => k v s | (Err x, s) => (Err x, s) end.
Definition rget {T} (f : S → T) : Run S E T := λ s, (Ok (f s), s).
Definition rmod (f : S → S) : Run S E unit := λ s, (Ok tt, f s).
(** A step that runs an operation with its own result. *)
Definition rcall {T} (f : S → T * S) : Run S E T := λ s, let '(v, s) := f s in (Ok v, s).
Definition rlift {E' T} (f : E' → E) (r : Result E' T) : Run S E T :=
  λ s, (match r with Ok v => Ok v | Err x => Err (f x) end, s).
Definition rwhen (b : bool) (x : E) : Run S E unit := λ s, (if b then Err x else Ok tt, s).
End Run.

Notation "'do!' x ':=' m 'in' k" := (rbind m (λ x, k))
  (at level 10, x name, m at level 100, k at level 200) : hsm_scope.

Section Keeps.
Context {S E V : Type} (view : S → V).

Definition keeps {T} (m : Run S E T) : Prop := ∀ s, view (m s).2 = view s.

Lemma keeps_ret {T} (v : T) : keeps (rret v).
Proof. by intros s. Qed.
Lemma keeps_fail {T} x : keeps (rfail (T:=T) x).
Proof. by intros s. Qed.
Lemma keeps_get {T} (f : S → T) : keeps (rget f).
Proof. by intros s. Qed.
Lemma keeps_lift {E' T} (f : E' → E) (r : Result E' T) : keeps (rlift f r).
Proof. by intros s. Qed.
Lemma keeps_when b x : keeps (rwhen b x).
Proof. by intros s. Qed.
Lemma keeps_bind {T U} (m : Run S E T) (k : T → Run S E U) :
  keeps m → (∀ v, keeps (k v)) → keeps (rbind m k).
Proof.
  intros Hm Hk s. unfold rbind. specialize (Hm s).
  destruct (m s) as [[v|x] s']; simpl in *; [|done]. by rewrite Hk.
Qed.
Lemma keeps_call {T} (f : S → T * S) : (∀ s, view (f s).2 = view s) → keeps (rcall f).
Proof. intros Hf s. specialize (Hf s). unfold rcall. by destruct (f s). Qed.
End Keeps.

Section Preserves.
Context {S E : Type} (I : S → Prop).

Definition preserves {T} (m : Run S E T) : Prop := ∀ s, I s → I (m s).2.

Lemma preserves_ret {T} (v : T) : preserves (rret v).
Proof. by intros s. Qed.
Lemma preserves_fail {T} x : preserves (rfail (T:=T) x).
Proof. by intros s. Qed.
Lemma preserves_get {T} (f : S → T) : preserves (rget f).
Proof. by intros s. Qed.
Lemma preserves_lift {E' T} (f : E' → E) (r : Result E' T) : preserves (rlift f r).
Proof. by intros s. Qed.
Lemma preserves_when b x : preserves (rwhen b x).
Proof. by intros s. Qed.
Lemma preserves_bind {T U} (m : Run S E T) (k : T → Run S E U) :
  preserves m → (∀ v, preserves (k v)) → preserves (rbind m k).
Proof.
  intros Hm Hk s Hs. unfold rbind. specialize (Hm s Hs).
  destruct (m s) as [[v|x] s']; simpl in *; [|done]. by apply Hk.
Qed.
Lemma preserves_call {T} (f : S → T * S) : (∀ s, I s → I (f s).2) → preserves (rcall f).
Proof. intros Hf s Hs. specialize (Hf s Hs). unfold rcall. by destruct (f s). Qed.
End Preserves.

Create HintDb run.
#[export] Hint Resolve keeps_ret keeps_fail keeps_get keeps_lift keeps_when preserves_ret
  preserves_fail preserves_get preserves_lift preserves_when : run.

Ltac run_step :=
  repeat match goal with
  | |- keeps _ (rbind _ _) => apply keeps_bind; [|intros ?]
  | |- preserves _ (rbind _ _) => apply preserves_bind; [|intros ?]
  | |- keeps _ (if ?b then _ else _) => destruct b
  | |- preserves _ (if ?b then _ else _) => destruct b
  | |- keeps _ (match ?r with _ => _ end) => destruct r
  | |- preserves _ (match ?r with _ => _ end) => destruct r
  end; auto with run.

(** The first step of a sequence, when the sequence succeeds. *)
Lemma rbind_ok {S E T U} (m : Run S E T) (k : T → Run S E U) s v s' :
  rbind m k s = (Ok v, s') → ∃ x s1, m s = (Ok x, s1) ∧ k x s1 = (Ok v, s').
Proof.
  unfold rbind. destruct (m s) as [[x|x] s1] eqn:E1; [|done]. intros H. by exists x, s1.
Qed.
