(* ===== verification/Pkcs11.v ===== *)
(** * PKCS#11 constants and the error type

    The constants of src/pkcs11_abi/constants.rs that the model uses, the error
    enumeration of src/error.rs and its conversion to a return value.
    [CK_ULONG] is [c_ulong]: 64 bits on the LP64 targets modelled here. *)

From S2P Require Import Prelude.

Definition CK_ULONG_bits : Z := 64.
Definition CK_ULONG_MAX : Z := 2 ^ CK_ULONG_bits - 1.

(** ** Return values *)

Definition CKR_OK : Z := 0x00000000.
Definition CKR_CRYPTOKI_NOT_INITIALIZED : Z := 0x00000190.
Definition CKR_CRYPTOKI_ALREADY_INITIALIZED : Z := 0x00000191.
Definition CKR_ARGUMENTS_BAD : Z := 0x00000007.
Definition CKR_SLOT_ID_INVALID : Z := 0x00000003.
Definition CKR_TOKEN_NOT_PRESENT : Z := 0x000000E0.
Definition CKR_TOKEN_NOT_RECOGNIZED : Z := 0x000000E1.
Definition CKR_SESSION_HANDLE_INVALID : Z := 0x000000B3.
Definition CKR_SESSION_COUNT : Z := 0x000000B1.
Definition CKR_SESSION_READ_ONLY : Z := 0x000000B5.
Definition CKR_SESSION_PARALLEL_NOT_SUPPORTED : Z := 0x000000B4.
Definition CKR_SESSION_EXISTS : Z := 0x000000B6.
Definition CKR_SESSION_READ_ONLY_EXISTS : Z := 0x000000B7.
Definition CKR_SESSION_READ_WRITE_SO_EXISTS : Z := 0x000000B8.
Definition CKR_USER_ALREADY_LOGGED_IN : Z := 0x00000100.
Definition CKR_USER_NOT_LOGGED_IN : Z := 0x00000101.
Definition CKR_USER_TYPE_INVALID : Z := 0x00000103.
Definition CKR_USER_ANOTHER_ALREADY_LOGGED_IN : Z := 0x00000104.
Definition CKR_USER_PIN_NOT_INITIALIZED : Z := 0x00000102.
Definition CKR_PIN_INCORRECT : Z := 0x000000A0.
Definition CKR_PIN_INVALID : Z := 0x000000A1.
Definition CKR_PIN_LEN_RANGE : Z := 0x000000A2.
Definition CKR_PIN_LOCKED : Z := 0x000000A4.
Definition CKR_OBJECT_HANDLE_INVALID : Z := 0x00000082.
Definition CKR_ATTRIBUTE_TYPE_INVALID : Z := 0x00000012.
Definition CKR_ATTRIBUTE_VALUE_INVALID : Z := 0x00000013.
Definition CKR_ATTRIBUTE_READ_ONLY : Z := 0x00000010.
Definition CKR_ATTRIBUTE_SENSITIVE : Z := 0x00000011.
Definition CKR_TEMPLATE_INCOMPLETE : Z := 0x000000D0.
Definition CKR_TEMPLATE_INCONSISTENT : Z := 0x000000D1.
Definition CKR_MECHANISM_INVALID : Z := 0x00000070.
Definition CKR_MECHANISM_PARAM_INVALID : Z := 0x00000071.
Definition CKR_KEY_HANDLE_INVALID : Z := 0x00000060.
Definition CKR_KEY_TYPE_INCONSISTENT : Z := 0x00000063.
Definition CKR_KEY_SIZE_RANGE : Z := 0x00000062.
Definition CKR_KEY_FUNCTION_NOT_PERMITTED : Z := 0x00000068.
Definition CKR_OPERATION_ACTIVE : Z := 0x00000090.
Definition CKR_OPERATION_NOT_INITIALIZED : Z := 0x00000091.
Definition CKR_DATA_INVALID : Z := 0x00000020.
Definition CKR_DATA_LEN_RANGE : Z := 0x00000021.
Definition CKR_ENCRYPTED_DATA_INVALID : Z := 0x00000040.
Definition CKR_ENCRYPTED_DATA_LEN_RANGE : Z := 0x00000041.
Definition CKR_SIGNATURE_INVALID : Z := 0x000000C0.
Definition CKR_SIGNATURE_LEN_RANGE : Z := 0x000000C1.
Definition CKR_BUFFER_TOO_SMALL : Z := 0x00000150.
Definition CKR_FUNCTION_NOT_SUPPORTED : Z := 0x00000054.
Definition CKR_GENERAL_ERROR : Z := 0x00000005.
Definition CKR_HOST_MEMORY : Z := 0x00000002.
Definition CKR_DEVICE_MEMORY : Z := 0x00000031.
Definition CKR_TOKEN_WRITE_PROTECTED : Z := 0x000000E2.
Definition CKR_RANDOM_SEED_NOT_SUPPORTED : Z := 0x00000120.
Definition CKR_SESSION_CLOSED : Z := 0x000000B0.
Definition CKR_KEY_INDIGESTIBLE : Z := 0x00000067.
Definition CKR_SAVED_STATE_INVALID : Z := 0x00000160.
Definition CKR_STATE_UNSAVEABLE : Z := 0x00000180.

(** ** Object classes *)

Definition CKO_DATA : Z := 0x00000000.
Definition CKO_CERTIFICATE : Z := 0x00000001.
Definition CKO_PUBLIC_KEY : Z := 0x00000002.
Definition CKO_PRIVATE_KEY : Z := 0x00000003.
Definition CKO_SECRET_KEY : Z := 0x00000004.

(** ** Key types used by the object layer *)

Definition CKK_ML_DSA : Z := 0x80000002.

(** ** Attribute types *)

Definition CKA_CLASS : Z := 0x00000000.
Definition CKA_TOKEN : Z := 0x00000001.
Definition CKA_PRIVATE : Z := 0x00000002.
Definition CKA_LABEL : Z := 0x00000003.
Definition CKA_VALUE : Z := 0x00000011.
Definition CKA_KEY_TYPE : Z := 0x00000100.
Definition CKA_ID : Z := 0x00000102.
Definition CKA_SENSITIVE : Z := 0x00000103.
Definition CKA_ENCRYPT : Z := 0x00000104.
Definition CKA_DECRYPT : Z := 0x00000105.
Definition CKA_WRAP : Z := 0x00000106.
Definition CKA_UNWRAP : Z := 0x00000107.
Definition CKA_SIGN : Z := 0x00000108.
Definition CKA_VERIFY : Z := 0x0000010A.
Definition CKA_DERIVE : Z := 0x0000010C.
Definition CKA_START_DATE : Z := 0x00000110.
Definition CKA_END_DATE : Z := 0x00000111.
Definition CKA_MODULUS : Z := 0x00000120.
Definition CKA_MODULUS_BITS : Z := 0x00000121.
Definition CKA_PUBLIC_EXPONENT : Z := 0x00000122.
Definition CKA_PRIVATE_EXPONENT : Z := 0x00000123.
Definition CKA_PRIME_1 : Z := 0x00000124.
Definition CKA_PRIME_2 : Z := 0x00000125.
Definition CKA_EXPONENT_1 : Z := 0x00000126.
Definition CKA_EXPONENT_2 : Z := 0x00000127.
Definition CKA_COEFFICIENT : Z := 0x00000128.
Definition CKA_EC_PARAMS : Z := 0x00000180.
Definition CKA_EC_POINT : Z := 0x00000181.
Definition CKA_VALUE_LEN : Z := 0x00000161.
Definition CKA_EXTRACTABLE : Z := 0x00000162.
Definition CKA_MODIFIABLE : Z := 0x00000170.
Definition CKA_COPYABLE : Z := 0x00000171.
Definition CKA_DESTROYABLE : Z := 0x00000172.

(** ** Session flags, session states, user types *)

Definition CKF_RW_SESSION : Z := 0x00000002.
Definition CKF_SERIAL_SESSION : Z := 0x00000004.
Definition CKS_RO_PUBLIC_SESSION : Z := 0.
Definition CKS_RO_USER_FUNCTIONS : Z := 1.
Definition CKS_RW_PUBLIC_SESSION : Z := 2.
Definition CKS_RW_USER_FUNCTIONS : Z := 3.
Definition CKS_RW_SO_FUNCTIONS : Z := 4.
Definition CKU_SO : Z := 0.
Definition CKU_USER : Z := 1.

(** ** Token flags *)

Definition CKF_RNG : Z := 0x00000001.
Definition CKF_LOGIN_REQUIRED : Z := 0x00000004.
Definition CKF_USER_PIN_INITIALIZED : Z := 0x00000008.
Definition CKF_TOKEN_INITIALIZED : Z := 0x00000400.
Definition CKF_USER_PIN_LOCKED : Z := 0x00040000.
Definition CKF_SO_PIN_LOCKED : Z := 0x00400000.

(** ** Other *)

Definition CK_UNAVAILABLE_INFORMATION : Z := CK_ULONG_MAX.

(** ** [HsmError] (src/error.rs) *)

Inductive HsmError : Type :=
| NotInitialized
| AlreadyInitialized
| ArgumentsBad
| SlotIdInvalid
| TokenNotPresent
| TokenNotInitialized
| SessionHandleInvalid
| SessionCount
| SessionReadOnly
| SessionParallelNotSupported
| SessionExists
| SessionReadOnlyExists
| SessionReadWriteSoExists
| UserAlreadyLoggedIn
| UserNotLoggedIn
| UserTypeInvalid
| UserAnotherAlreadyLoggedIn
| UserPinNotInitialized
| PinIncorrect
| PinInvalid
| PinLenRange
| PinLocked
| PinRateLimited
| ObjectHandleInvalid
| AttributeTypeInvalid
| AttributeValueInvalid
| AttributeReadOnly
| AttributeSensitive
| TemplateIncomplete
| TemplateInconsistent
| MechanismInvalid
| MechanismParamInvalid
| KeyHandleInvalid
| KeyTypeInconsistent
| KeySizeRange
| KeyFunctionNotPermitted
| OperationActive
| OperationNotInitialized
| DataInvalid
| DataLenRange
| EncryptedDataInvalid
| EncryptedDataLenRange
| SignatureInvalid
| SignatureLenRange
| BufferTooSmall
| FunctionNotSupported
| GeneralError
| HostMemory
| DeviceMemory
| TokenWriteProtected
| RandomSeedNotSupported
| ConfigError (reason : string)
| AuditChainBroken (reason : string)
| SessionClosed.

#[export] Instance HsmError_eq_dec : EqDecision HsmError.
Proof. solve_decision. Defined.

(** [HsmResult<T>]. *)
Abbreviation HsmResult A := (Result HsmError A).

(** [impl From<HsmError> for CK_RV]. *)
Definition error_to_rv (e : HsmError) : Z :=
  match e with
  | NotInitialized => CKR_CRYPTOKI_NOT_INITIALIZED
  | AlreadyInitialized => CKR_CRYPTOKI_ALREADY_INITIALIZED
  | ArgumentsBad => CKR_ARGUMENTS_BAD
  | SlotIdInvalid => CKR_SLOT_ID_INVALID
  | TokenNotPresent => CKR_TOKEN_NOT_PRESENT
  | TokenNotInitialized => CKR_TOKEN_NOT_RECOGNIZED
  | SessionHandleInvalid => CKR_SESSION_HANDLE_INVALID
  | SessionCount => CKR_SESSION_COUNT
  | SessionReadOnly => CKR_SESSION_READ_ONLY
  | SessionParallelNotSupported => CKR_SESSION_PARALLEL_NOT_SUPPORTED
  | SessionExists => CKR_SESSION_EXISTS
  | SessionReadOnlyExists => CKR_SESSION_READ_ONLY_EXISTS
  | SessionReadWriteSoExists => CKR_SESSION_READ_WRITE_SO_EXISTS
  | UserAlreadyLoggedIn => CKR_USER_ALREADY_LOGGED_IN
  | UserNotLoggedIn => CKR_USER_NOT_LOGGED_IN
  | UserTypeInvalid => CKR_USER_TYPE_INVALID
  | UserAnotherAlreadyLoggedIn => CKR_USER_ANOTHER_ALREADY_LOGGED_IN
  | UserPinNotInitialized => CKR_USER_PIN_NOT_INITIALIZED
  | PinIncorrect => CKR_PIN_INCORRECT
  | PinInvalid => CKR_PIN_INVALID
  | PinLenRange => CKR_PIN_LEN_RANGE
  | PinLocked => CKR_PIN_LOCKED
  | PinRateLimited => CKR_PIN_LOCKED
  | ObjectHandleInvalid => CKR_OBJECT_HANDLE_INVALID
  | AttributeTypeInvalid => CKR_ATTRIBUTE_TYPE_INVALID
  | AttributeValueInvalid => CKR_ATTRIBUTE_VALUE_INVALID
  | AttributeReadOnly => CKR_ATTRIBUTE_READ_ONLY
  | AttributeSensitive => CKR_ATTRIBUTE_SENSITIVE
  | TemplateIncomplete => CKR_TEMPLATE_INCOMPLETE
  | TemplateInconsistent => CKR_TEMPLATE_INCONSISTENT
  | MechanismInvalid => CKR_MECHANISM_INVALID
  | MechanismParamInvalid => CKR_MECHANISM_PARAM_INVALID
  | KeyHandleInvalid => CKR_KEY_HANDLE_INVALID
  | KeyTypeInconsistent => CKR_KEY_TYPE_INCONSISTENT
  | KeySizeRange => CKR_KEY_SIZE_RANGE
  | KeyFunctionNotPermitted => CKR_KEY_FUNCTION_NOT_PERMITTED
  | OperationActive => CKR_OPERATION_ACTIVE
  | OperationNotInitialized => CKR_OPERATION_NOT_INITIALIZED
  | DataInvalid => CKR_DATA_INVALID
  | DataLenRange => CKR_DATA_LEN_RANGE
  | EncryptedDataInvalid => CKR_ENCRYPTED_DATA_INVALID
  | EncryptedDataLenRange => CKR_ENCRYPTED_DATA_LEN_RANGE
  | SignatureInvalid => CKR_SIGNATURE_INVALID
  | SignatureLenRange => CKR_SIGNATURE_LEN_RANGE
  | BufferTooSmall => CKR_BUFFER_TOO_SMALL
  | FunctionNotSupported => CKR_FUNCTION_NOT_SUPPORTED
  | GeneralError => CKR_GENERAL_ERROR
  | HostMemory => CKR_HOST_MEMORY
  | DeviceMemory => CKR_DEVICE_MEMORY
  | TokenWriteProtected => CKR_TOKEN_WRITE_PROTECTED
  | RandomSeedNotSupported => CKR_RANDOM_SEED_NOT_SUPPORTED
  | ConfigError _ => CKR_GENERAL_ERROR
  | AuditChainBroken _ => CKR_GENERAL_ERROR
  | SessionClosed => CKR_SESSION_CLOSED
  end.

(** The value an ABI function returns for a [HsmResult<()>]: [err_to_rv]
    on the error side, [CKR_OK] otherwise. *)
Definition rv_of {A} (r : HsmResult A) : Z :=
  match r with Ok _ => CKR_OK | Err e => error_to_rv e end.

(** Errors that callers of the C interface cannot tell apart: the rate limit
    is reported as a locked PIN, configuration and audit-chain failures as
    the general error. *)
Inductive ErrorClass : Type :=
| ClassGeneral
| ClassPinLocked
| ClassOther (e : HsmError).

#[export] Instance ErrorClass_eq_dec : EqDecision ErrorClass.
Proof. solve_decision. Defined.

Definition error_class (e : HsmError) : ErrorClass :=
  match e with
  | GeneralError | ConfigError _ | AuditChainBroken _ => ClassGeneral
  | PinLocked | PinRateLimited => ClassPinLocked
  | e => ClassOther e
  end.

Lemma error_to_rv_not_ok e : error_to_rv e ≠ CKR_OK.
Proof. by destruct e. Qed.

(** an error never reaches the C caller as [CKR_OK], and two errors are
    reported by the same return value only when both are general failures
    (GeneralError, ConfigError, AuditChainBroken) or both are PIN lockouts
    (PinLocked, PinRateLimited): the conversion loses nothing else. *)
Theorem error_to_rv_faithful e1 e2 :
  error_to_rv e1 ≠ CKR_OK ∧
  (error_to_rv e1 = error_to_rv e2 ↔ error_class e1 = error_class e2).
Proof.
  split; [by destruct e1|].
  split; destruct e1, e2; intros H; first [done | by inversion H].
Qed.
