(* ===== verification/Handles.v ===== *)
(** * Handle allocation (src/session/handle.rs)

    Session and object handles are a counter passed through a keyed 4-round
    Feistel permutation.  The file models the round functions, the permutation
    and its inverse at both widths of [CK_ULONG], the two allocators as
    sequential operations (the compare-exchange loop run by one thread, every
    attempt of which succeeds) and the session allocator as a step relation in
    which any number of threads interleave their load and compare-exchange
    steps and a compare-exchange may fail spuriously. *)

From S2P Require Import Prelude Pkcs11.

(** ** The Feistel permutation *)

Definition round_fn_16 (half key : Z) : Z :=
  let x := wrap 64 (half * Z.lor key 1) in
  wrap 16 (Z.lxor (Z.shiftr x 16) x).

Definition round_fn_32 (half key : Z) : Z :=
  let x := wrap 64 (half * Z.lor key 1) in
  wrap 32 (Z.lxor (Z.shiftr x 32) x).

Section Feistel.
Context (h : Z) (round_fn : Z → Z → Z).

Definition forward_round (st : Z * Z) (key : Z) : Z * Z :=
  let '(lft, rgt) := st in
  let f := round_fn rgt key in
  (rgt, Z.lxor lft f).

Definition inverse_round (st : Z * Z) (key : Z) : Z * Z :=
  let '(lft, rgt) := st in
  let f := round_fn lft key in
  (Z.lxor rgt f, lft).

Definition split_halves (input : Z) : Z * Z :=
  (wrap h (Z.shiftr input h), wrap h input).

Definition join_halves (st : Z * Z) : Z :=
  let '(lft, rgt) := st in Z.lor (Z.shiftl lft h) rgt.

Definition feistel_forward (keys : list Z) (input : Z) : Z :=
  join_halves (fold_left forward_round keys (split_halves input)).

Definition feistel_inverse (keys : list Z) (input : Z) : Z :=
  join_halves (fold_left inverse_round (rev keys) (split_halves input)).

Hypothesis Hh : 0 < h.
Hypothesis round_fn_width : ∀ half key, in_width h (round_fn half key).

Definition halves_ok (st : Z * Z) : Prop := in_width h st.1 ∧ in_width h st.2.

Lemma split_halves_ok input : halves_ok (split_halves input).
Proof using Hh. split; apply wrap_in_width; lia. Qed.

Lemma join_in_width st : halves_ok st → in_width (2 * h) (join_halves st).
Proof using Hh.
  destruct st as [l r]. intros [Hl Hr]; simpl in *. apply in_width_bits; [lia| |].
  - apply Z.lor_nonneg. unfold in_width in *.
    split; [apply Z.shiftl_nonneg|]; lia.
  - intros i Hi. rewrite Z.lor_spec, Z.shiftl_spec by lia.
    rewrite (in_width_testbit h) by (auto; lia).
    by rewrite (in_width_testbit h) by (auto; lia).
Qed.

Lemma split_join st : halves_ok st → split_halves (join_halves st) = st.
Proof using Hh.
  destruct st as [l r]. intros [Hl Hr]; simpl in *. unfold split_halves. f_equal.
  - rewrite Z.shiftr_lor, Z.shiftr_shiftl_l, Z.sub_diag, Z.shiftl_0_r by lia.
    rewrite (Z.shiftr_div_pow2 r), Z.div_small, Z.lor_0_r by (auto; lia).
    by apply wrap_small.
  - unfold wrap. rewrite <- Z.land_ones by lia. apply Z.bits_inj'. intros i Hi.
    rewrite Z.land_spec, Z.lor_spec, Z.testbit_ones_nonneg, Z.shiftl_spec by lia.
    destruct (Z.ltb_spec i h).
    + rewrite Z.testbit_neg_r, orb_false_l, andb_true_r by lia. done.
    + by rewrite andb_false_r, (in_width_testbit h) by (auto; lia).
Qed.

Lemma join_split input : in_width (2 * h) input → join_halves (split_halves input) = input.
Proof using Hh.
  intros Hin. unfold split_halves, join_halves. apply Z.bits_inj'. intros i Hi.
  rewrite Z.lor_spec, Z.shiftl_spec by lia. unfold wrap.
  destruct (Z.lt_ge_cases i h).
  - rewrite Z.testbit_neg_r, orb_false_l by lia. by rewrite Z.mod_pow2_bits_low.
  - rewrite (Z.mod_pow2_bits_high input), orb_false_r by lia.
    destruct (Z.lt_ge_cases (i - h) h).
    + rewrite Z.mod_pow2_bits_low, Z.shiftr_spec by lia. f_equal; lia.
    + rewrite Z.mod_pow2_bits_high by lia.
      by rewrite (in_width_testbit (2 * h)) by (auto; lia).
Qed.

Lemma forward_round_ok st key : halves_ok st → halves_ok (forward_round st key).
Proof using Hh round_fn_width.
  destruct st as [l r]. intros [Hl Hr]. split; simpl in *; [done|].
  apply lxor_in_width; auto; lia.
Qed.

Lemma inverse_round_ok st key : halves_ok st → halves_ok (inverse_round st key).
Proof using Hh round_fn_width.
  destruct st as [l r]. intros [Hl Hr]. split; simpl in *; [|done].
  apply lxor_in_width; auto; lia.
Qed.

Lemma inverse_forward_round st key : inverse_round (forward_round st key) key = st.
Proof.
  destruct st as [l r]. simpl. by rewrite Z.lxor_assoc, Z.lxor_nilpotent, Z.lxor_0_r.
Qed.

Lemma forward_inverse_round st key : forward_round (inverse_round st key) key = st.
Proof.
  destruct st as [l r]. simpl. by rewrite Z.lxor_assoc, Z.lxor_nilpotent, Z.lxor_0_r.
Qed.

Lemma forward_rounds_ok keys st :
  halves_ok st → halves_ok (fold_left forward_round keys st).
Proof using Hh round_fn_width.
  revert st. induction keys; intros st Hst; simpl; auto using forward_round_ok.
Qed.

Lemma inverse_rounds_ok keys st :
  halves_ok st → halves_ok (fold_left inverse_round keys st).
Proof using Hh round_fn_width.
  revert st. induction keys; intros st Hst; simpl; auto using inverse_round_ok.
Qed.

Lemma inverse_forward_rounds keys st :
  fold_left inverse_round (rev keys) (fold_left forward_round keys st) = st.
Proof.
  revert st. induction keys as [|k keys IH]; intros st; simpl; [done|].
  rewrite fold_left_app, IH. simpl. apply inverse_forward_round.
Qed.

Lemma forward_inverse_rounds keys st :
  fold_left forward_round keys (fold_left inverse_round (rev keys) st) = st.
Proof.
  revert st. induction keys as [|k keys IH]; intros st; simpl; [done|].
  rewrite fold_left_app. simpl. by rewrite forward_inverse_round, IH.
Qed.

Lemma feistel_forward_in_width keys x : in_width (2 * h) (feistel_forward keys x).
Proof using Hh round_fn_width.
  apply join_in_width, forward_rounds_ok, split_halves_ok.
Qed.

Lemma feistel_inverse_forward keys x :
  in_width (2 * h) x → feistel_inverse keys (feistel_forward keys x) = x.
Proof using Hh round_fn_width.
  intros Hx. unfold feistel_inverse, feistel_forward.
  rewrite split_join by apply forward_rounds_ok, split_halves_ok.
  rewrite inverse_forward_rounds. by apply join_split.
Qed.

Lemma feistel_forward_inverse keys x :
  in_width (2 * h) x → feistel_forward keys (feistel_inverse keys x) = x.
Proof using Hh round_fn_width.
  intros Hx. unfold feistel_inverse, feistel_forward.
  rewrite split_join by apply inverse_rounds_ok, split_halves_ok.
  rewrite forward_inverse_rounds. by apply join_split.
Qed.
End Feistel.

Definition feistel32_forward (round_keys : list Z) (input : Z) : Z :=
  feistel_forward 16 round_fn_16 round_keys input.
Definition feistel32_inverse (round_keys : list Z) (input : Z) : Z :=
  feistel_inverse 16 round_fn_16 round_keys input.
Definition feistel64_forward (round_keys : list Z) (input : Z) : Z :=
  feistel_forward 32 round_fn_32 round_keys input.
Definition feistel64_inverse (round_keys : list Z) (input : Z) : Z :=
  feistel_inverse 32 round_fn_32 round_keys input.

(** ** The scrambler and the allocators

    [ub] is the width of [CK_ULONG], 32 or 64. *)

Section Allocators.
Context (ub : Z).

Definition MAX_HANDLE : Z := 2 ^ ub - 1.

(** [HandleScrambler]: its four round keys. *)
Record HandleScrambler := { round_keys : list Z }.

Definition scramble (s : HandleScrambler) (counter : Z) : Z :=
  if MAX_HANDLE =? u32_max
  then feistel32_forward (round_keys s) (wrap 32 counter)
  else feistel64_forward (round_keys s) counter.

Definition unscramble (s : HandleScrambler) (handle : Z) : Z :=
  if MAX_HANDLE =? u32_max
  then feistel32_inverse (round_keys s) (wrap 32 handle)
  else feistel64_inverse (round_keys s) handle.

(** The counter after claiming [current]: it wraps at [MAX_HANDLE]. *)
Definition next_counter (current : Z) : Z :=
  if current =? MAX_HANDLE then 0 else current + 1.

Record SessionHandleAllocator := {
  sess_next : Z;
  sess_scrambler : HandleScrambler;
}.

(** [SessionHandleAllocator::new] with the four words drawn from the OS. *)
Definition SessionHandleAllocator_new (keys : list Z) : SessionHandleAllocator :=
  {| sess_next := 0; sess_scrambler := {| round_keys := keys |} |}.

(** The loop of [SessionHandleAllocator::next]; [None] is fuel exhausted. *)
Fixpoint session_next_loop (fuel : nat) (a : SessionHandleAllocator) :
    option (Z * SessionHandleAllocator) :=
  match fuel with
  | O => None
  | S fuel =>
    let current := sess_next a in
    let a' := {| sess_next := next_counter current;
                 sess_scrambler := sess_scrambler a |} in
    let handle := scramble (sess_scrambler a) current in
    if negb (handle =? 0) then Some (handle, a') else session_next_loop fuel a'
  end.

(** Two rounds always suffice ([session_next_total]), so the default is
    never taken. *)
Definition session_next (a : SessionHandleAllocator) :
    HsmResult Z * SessionHandleAllocator :=
  match session_next_loop 2 a with
  | Some (handle, a') => (Ok handle, a')
  | None => (Err GeneralError, a)
  end.

Record ObjectHandleAllocator := {
  obj_next : Z;
  obj_scrambler : HandleScrambler;
  obj_reserved : gset Z;
}.

Definition ObjectHandleAllocator_new (keys : list Z) : ObjectHandleAllocator :=
  {| obj_next := 0; obj_scrambler := {| round_keys := keys |}; obj_reserved := ∅ |}.

Definition ensure_past (a : ObjectHandleAllocator) (handle : Z) : ObjectHandleAllocator :=
  {| obj_next := obj_next a; obj_scrambler := obj_scrambler a;
     obj_reserved := {[handle]} ∪ obj_reserved a |}.

Definition object_handle_skipped (a : ObjectHandleAllocator) (handle : Z) : bool :=
  (handle =? 0) || bool_decide (handle ∈ obj_reserved a).

Fixpoint object_next_loop (fuel : nat) (a : ObjectHandleAllocator) :
    option (Z * ObjectHandleAllocator) :=
  match fuel with
  | O => None
  | S fuel =>
    let current := obj_next a in
    let a' := {| obj_next := next_counter current; obj_scrambler := obj_scrambler a;
                 obj_reserved := obj_reserved a |} in
    let handle := scramble (obj_scrambler a) current in
    if object_handle_skipped a handle then object_next_loop fuel a'
    else Some (handle, a')
  end.

(** Fuel: one round per reserved handle, one for handle 0, one to succeed. *)
Definition object_next_fuel (a : ObjectHandleAllocator) : nat :=
  (size (obj_reserved a) + 2)%nat.

(** [ObjectHandleAllocator::next]; the loop does not terminate in the code
    when every non-zero handle is reserved, which [None] stands for. *)
Definition object_next (a : ObjectHandleAllocator) :
    option (HsmResult Z * ObjectHandleAllocator) :=
  match object_next_loop (object_next_fuel a) a with
  | Some (handle, a') => Some (Ok handle, a')
  | None => None
  end.

(** ** The permutation *)

Hypothesis Hub : ub = 32 ∨ ub = 64.

Lemma scramble_in_width s c : in_width ub (scramble s c).
Proof using Hub.
  unfold scramble, MAX_HANDLE, feistel32_forward, feistel64_forward.
  destruct Hub as [-> | ->]; simpl.
  - apply (feistel_forward_in_width 16); [lia|]. intros; apply wrap_in_width; lia.
  - apply (feistel_forward_in_width 32); [lia|]. intros; apply wrap_in_width; lia.
Qed.

Lemma unscramble_scramble s c : in_width ub c → unscramble s (scramble s c) = c.
Proof using Hub.
  intros Hc. unfold scramble, unscramble, MAX_HANDLE.
  unfold feistel32_forward, feistel64_forward, feistel32_inverse, feistel64_inverse.
  assert (∀ half key, in_width 16 (round_fn_16 half key)) as H16
    by (intros; apply wrap_in_width; lia).
  assert (∀ half key, in_width 32 (round_fn_32 half key)) as H32
    by (intros; apply wrap_in_width; lia).
  destruct Hub as [-> | ->]; simpl.
  - rewrite (wrap_small 32 c) by done.
    rewrite wrap_small by (apply (feistel_forward_in_width 16); [lia|done]).
    apply feistel_inverse_forward; [lia|done|done].
  - apply feistel_inverse_forward; [lia|done|done].
Qed.

Lemma scramble_unscramble s x : in_width ub x → scramble s (unscramble s x) = x.
Proof using Hub.
  intros Hx. unfold scramble, unscramble, MAX_HANDLE.
  unfold feistel32_forward, feistel64_forward, feistel32_inverse, feistel64_inverse.
  assert (∀ half key, in_width 16 (round_fn_16 half key)) as H16
    by (intros; apply wrap_in_width; lia).
  assert (∀ half key, in_width 32 (round_fn_32 half key)) as H32
    by (intros; apply wrap_in_width; lia).
  destruct Hub as [-> | ->]; simpl.
  - rewrite (wrap_small 32 x) by done.
    rewrite wrap_small; [apply feistel_forward_inverse; [lia|done|done]|].
    apply join_in_width; [lia|].
    apply inverse_rounds_ok; [lia|done|apply split_halves_ok; lia].
  - apply feistel_forward_inverse; [lia|done|done].
Qed.

Lemma scramble_inj s c1 c2 :
  in_width ub c1 → in_width ub c2 → scramble s c1 = scramble s c2 → c1 = c2.
Proof using Hub.
  intros H1 H2 E.
  rewrite <- (unscramble_scramble s c1), <- (unscramble_scramble s c2) by done.
  by rewrite E.
Qed.

(** the handle scrambler is a permutation of the handle space: scrambling
    then unscrambling, and the reverse, is the identity on every value of the
    platform's [CK_ULONG], and scrambling never leaves that width. *)
Theorem scramble_permutation s x (Hx : in_width ub x) :
  unscramble s (scramble s x) = x ∧ scramble s (unscramble s x) = x
  ∧ in_width ub (scramble s x).
Proof using Hub.
  auto using unscramble_scramble, scramble_unscramble, scramble_in_width.
Qed.

(** ** The counter *)

Lemma width_pos : 0 < 2 ^ ub.
Proof using Hub. destruct Hub as [-> | ->]; lia. Qed.

Lemma next_counter_mod c : in_width ub c → next_counter c = (c + 1) mod 2 ^ ub.
Proof using Hub.
  pose proof width_pos. unfold in_width, next_counter, MAX_HANDLE. intros Hc.
  destruct (Z.eqb_spec c (2 ^ ub - 1)) as [->|].
  - by rewrite Z.sub_add, Z.mod_same by lia.
  - rewrite Z.mod_small; lia.
Qed.

(** The counter [k] claims after [c]. *)
Definition counter_after (c : Z) (k : nat) : Z := (c + Z.of_nat k) mod 2 ^ ub.

Lemma counter_after_in_width c k : in_width ub (counter_after c k).
Proof using Hub. apply wrap_in_width. destruct Hub; lia. Qed.

Lemma counter_after_0 c : in_width ub c → counter_after c 0 = c.
Proof. intros. unfold counter_after. rewrite Z.add_0_r. by apply Z.mod_small. Qed.

Lemma counter_after_S c k :
  in_width ub c → counter_after c (S k) = counter_after (next_counter c) k.
Proof using Hub.
  intros Hc. pose proof width_pos. unfold counter_after.
  rewrite next_counter_mod, Zplus_mod_idemp_l by done. f_equal. lia.
Qed.

Lemma next_counter_in_width c : in_width ub c → in_width ub (next_counter c).
Proof using Hub.
  intros. rewrite next_counter_mod by done. apply wrap_in_width. destruct Hub; lia.
Qed.

Lemma counter_after_inj c i j :
  Z.of_nat i < 2 ^ ub → Z.of_nat j < 2 ^ ub →
  counter_after c i = counter_after c j → i = j.
Proof using Hub.
  pose proof width_pos. unfold counter_after. intros Hi Hj E.
  apply Nat2Z.inj.
  assert ((Z.of_nat i - Z.of_nat j) mod 2 ^ ub = 0) as E'.
  { replace (Z.of_nat i - Z.of_nat j)
      with ((c + Z.of_nat i) - (c + Z.of_nat j)) by lia.
    by rewrite Zminus_mod, E, Z.sub_diag, Z.mod_0_l by lia. }
  apply Z.mod_divide in E' as [q Hq]; [|lia].
  assert (q = 0) by nia. lia.
Qed.

(** ** The sequential allocators *)

Lemma session_next_total a :
  in_width ub (sess_next a) →
  ∃ k h, (k < 2)%nat
    ∧ h = scramble (sess_scrambler a) (counter_after (sess_next a) k) ∧ h ≠ 0
    ∧ session_next a =
        (Ok h, {| sess_next := counter_after (sess_next a) (S k);
                  sess_scrambler := sess_scrambler a |}).
Proof using Hub.
  intros Hc. pose proof (next_counter_in_width _ Hc) as Hn.
  assert (1 < 2 ^ ub) as Hbig by (destruct Hub as [-> | ->]; lia).
  unfold session_next. simpl.
  destruct (Z.eqb_spec (scramble (sess_scrambler a) (sess_next a)) 0) as [E0|E0]; simpl.
  - destruct (Z.eqb_spec (scramble (sess_scrambler a) (next_counter (sess_next a))) 0)
      as [E1|E1]; simpl.
    + exfalso.
      assert (counter_after (sess_next a) 0 = counter_after (sess_next a) 1) as E.
      { rewrite counter_after_S, !counter_after_0 by done.
        by apply (scramble_inj (sess_scrambler a)); [done|done|congruence]. }
      apply counter_after_inj in E; lia.
    + exists 1%nat. eexists. split_and!; [lia|done| |].
      * by rewrite counter_after_S, counter_after_0.
      * rewrite !counter_after_S, !counter_after_0;
          auto using next_counter_in_width.
  - exists 0%nat. eexists. split_and!; [lia|done| |].
    + by rewrite counter_after_0.
    + by rewrite counter_after_S, !counter_after_0.
Qed.

(** What one run of the object allocator's loop did: the handle it returns is
    the first of the scrambled counters that is not skipped. *)
Lemma object_next_loop_Some fuel a h a' :
  in_width ub (obj_next a) →
  object_next_loop fuel a = Some (h, a') →
  ∃ k, (k < fuel)%nat
    ∧ h = scramble (obj_scrambler a) (counter_after (obj_next a) k)
    ∧ object_handle_skipped a h = false
    ∧ a' = {| obj_next := counter_after (obj_next a) (S k);
              obj_scrambler := obj_scrambler a; obj_reserved := obj_reserved a |}.
Proof using Hub.
  revert a. induction fuel as [|fuel IH]; intros a Hc E; simpl in E; [done|].
  destruct (object_handle_skipped a _) eqn:Hs.
  - apply IH in E as (k & Hk & -> & Hs' & ->);
      [|by apply next_counter_in_width]. simpl in *.
    exists (S k). rewrite !(counter_after_S (obj_next a)) by done.
    split_and!; [lia|done|done|done].
  - injection E as <- <-. exists 0%nat. rewrite counter_after_S by done.
    rewrite !counter_after_0 by auto using next_counter_in_width.
    split_and!; [lia|done|done|done].
Qed.

Lemma object_next_loop_None fuel a k :
  in_width ub (obj_next a) →
  object_next_loop fuel a = None → (k < fuel)%nat →
  object_handle_skipped a
    (scramble (obj_scrambler a) (counter_after (obj_next a) k)) = true.
Proof using Hub.
  revert a k. induction fuel as [|fuel IH]; intros a k Hc E Hk; simpl in E; [lia|].
  destruct (object_handle_skipped a _) eqn:Hs; [|done].
  destruct k as [|k]; [by rewrite counter_after_0|].
  rewrite counter_after_S by done.
  by apply (IH _ k) in E; [|apply next_counter_in_width|lia].
Qed.

(** Pigeonhole: fewer handles are skipped than the rounds the fuel allows. *)
Lemma object_next_loop_total a :
  in_width ub (obj_next a) → Z.of_nat (object_next_fuel a) <= 2 ^ ub →
  object_next_loop (object_next_fuel a) a ≠ None.
Proof using Hub.
  intros Hc Hsize E.
  set (hs := (λ k, scramble (obj_scrambler a) (counter_after (obj_next a) k))
               <$> seq 0 (object_next_fuel a)).
  assert (NoDup hs) as Hnd.
  { apply NoDup_fmap_2_strong; [|apply NoDup_seq].
    intros i j Hi%elem_of_seq Hj%elem_of_seq Heq.
    apply scramble_inj in Heq; try apply counter_after_in_width.
    apply counter_after_inj in Heq; lia. }
  assert (list_to_set hs ⊆ {[0]} ∪ obj_reserved a) as Hsub.
  { intros x Hx. apply elem_of_list_to_set, list_elem_of_fmap in Hx
      as (k & -> & Hk%elem_of_seq).
    apply (object_next_loop_None _ _ k) in E; [|done|lia].
    unfold object_handle_skipped in E. apply orb_true_iff in E as [E|E].
    - apply Z.eqb_eq in E. set_solver.
    - apply bool_decide_eq_true in E. set_solver. }
  apply subseteq_size in Hsub.
  rewrite (size_list_to_set (C:=gset Z)) in Hsub by done.
  unfold hs in Hsub. rewrite length_fmap, length_seq in Hsub.
  pose proof (size_union_alt ({[0]} : gset Z) (obj_reserved a)) as Hu.
  rewrite size_singleton in Hu.
  pose proof (subseteq_size (obj_reserved a ∖ {[0]}) (obj_reserved a) ltac:(set_solver)).
  unfold object_next_fuel in Hsub. lia.
Qed.

(** C40: [ObjectHandleAllocator::next] terminates whenever fewer than all but
    two of the handles are reserved, and the handle it returns is non-zero, of
    the platform's width and not one of the reserved (persisted) handles; the
    reserved set is unchanged. *)
Theorem object_next_terminates_fresh a
    (Hc : in_width ub (obj_next a))
    (Hsize : Z.of_nat (size (obj_reserved a)) + 2 <= 2 ^ ub) :
  ∃ h a', object_next a = Some (Ok h, a')
    ∧ h ≠ 0 ∧ in_width ub h ∧ h ∉ obj_reserved a
    ∧ obj_reserved a' = obj_reserved a ∧ in_width ub (obj_next a').
Proof using Hub.
  unfold object_next.
  destruct (object_next_loop _ a) as [[h a']|] eqn:E; cycle 1.
  { exfalso. apply (object_next_loop_total a); [done|unfold object_next_fuel; lia|done]. }
  apply object_next_loop_Some in E as (k & _ & -> & Hs & ->); [|done].
  unfold object_handle_skipped in Hs. bool_to_prop. eexists _, _.
  split_and!; simpl; eauto using scramble_in_width, counter_after_in_width.
Qed.

(** ** Concurrent allocation

    Threads share the counter; each loads it and later tries to exchange it.
    [c_issued] collects the handles returned, newest first, and [c_claims]
    counts the successful exchanges. *)

Context (scr : HandleScrambler).

Record ConcState := {
  c_next : Z;
  c_loaded : gmap nat Z;
  c_issued : list Z;
  c_claims : nat;
}.

Definition conc_init : ConcState :=
  {| c_next := 0; c_loaded := ∅; c_issued := []; c_claims := 0 |}.

(** The handle a claimed counter value stands for, unless it is 0. *)
Definition issue (issued : list Z) (current : Z) : list Z :=
  let handle := scramble scr current in
  if negb (handle =? 0) then handle :: issued else issued.

Inductive conc_step (s : ConcState) : ConcState → Prop :=
| step_load t :
    c_loaded s !! t = None →
    conc_step s {| c_next := c_next s; c_loaded := <[t := c_next s]> (c_loaded s);
                   c_issued := c_issued s; c_claims := c_claims s |}
| step_cas_ok t current :
    c_loaded s !! t = Some current → c_next s = current →
    conc_step s {| c_next := next_counter current; c_loaded := delete t (c_loaded s);
                   c_issued := issue (c_issued s) current; c_claims := S (c_claims s) |}
| step_cas_fail t current :
    c_loaded s !! t = Some current →
    conc_step s {| c_next := c_next s; c_loaded := delete t (c_loaded s);
                   c_issued := c_issued s; c_claims := c_claims s |}.

(** The handles of the first [n] counter values, newest first. *)
Fixpoint handles_upto (n : nat) : list Z :=
  match n with O => [] | S n => issue (handles_upto n) (counter_after 0 n) end.

Lemma zero_in_width : in_width ub 0.
Proof using Hub. pose proof width_pos. unfold in_width. lia. Qed.

Lemma conc_invariant s :
  rtc conc_step conc_init s →
  c_next s = counter_after 0 (c_claims s) ∧ c_issued s = handles_upto (c_claims s).
Proof using Hub.
  revert s. apply (rtc_ind_r _ conc_init).
  - simpl. by rewrite counter_after_0 by apply zero_in_width.
  - intros s s' _ Hstep [Hn Hi]. destruct Hstep as [t|t c Ht Hc|t c Ht]; simpl; auto.
    rewrite <- Hc, Hn, Hi. split; [|done].
    rewrite next_counter_mod by apply counter_after_in_width.
    unfold counter_after. rewrite Zplus_mod_idemp_l. f_equal. lia.
Qed.

Lemma handles_upto_elem n h :
  h ∈ handles_upto n →
  h ≠ 0 ∧ ∃ i, (i < n)%nat ∧ h = scramble scr (counter_after 0 i).
Proof.
  induction n as [|n IH]; simpl; [by intros ?%not_elem_of_nil|]. unfold issue.
  destruct (Z.eqb_spec (scramble scr (counter_after 0 n)) 0); simpl.
  - intros (? & i & ? & ->)%IH. split; [done|]. exists i; split; [lia|done].
  - intros [->|(? & i & ? & ->)%IH]%elem_of_cons; (split; [done|]).
    + exists n; split; [lia|done].
    + exists i; split; [lia|done].
Qed.

Lemma handles_upto_NoDup n : Z.of_nat n <= 2 ^ ub → NoDup (handles_upto n).
Proof using Hub.
  induction n as [|n IH]; simpl; intros Hn; [constructor|]. unfold issue.
  destruct (_ =? 0); simpl; [apply IH; lia|]. constructor; [|apply IH; lia].
  intros (_ & i & Hi & E)%handles_upto_elem.
  apply scramble_inj in E; try apply counter_after_in_width.
  apply counter_after_inj in E; lia.
Qed.

(** whatever the interleaving of the threads' load and compare-exchange
    steps, and however often the weak exchange fails, the session handles
    issued are pairwise distinct, non-zero and of the platform's width, as
    long as the counter has not been claimed more than 2^width times. *)
Theorem concurrent_session_handles_unique s
    (Hrun : rtc conc_step conc_init s)
    (Hclaims : Z.of_nat (c_claims s) <= 2 ^ ub) :
  NoDup (c_issued s) ∧ ∀ h, h ∈ c_issued s → h ≠ 0 ∧ in_width ub h.
Proof using Hub.
  apply conc_invariant in Hrun as [_ ->]. split; [by apply handles_upto_NoDup|].
  intros h (? & i & _ & ->)%handles_upto_elem. auto using scramble_in_width.
Qed.
End Allocators.

Lemma scramble_permutation_witness :
  in_width 64 7 ∧
  unscramble 64 {| round_keys := [3; 5; 7; 11] |}
    (scramble 64 {| round_keys := [3; 5; 7; 11] |} 7) = 7.
Proof.
  split; [by vm_compute|].
  refine (proj1 (scramble_permutation 64 _ {| round_keys := [3; 5; 7; 11] |} 7 _));
    [by right|by vm_compute].
Defined.

Lemma object_next_terminates_fresh_witness :
  ∃ h a', object_next 32
      (ensure_past (ObjectHandleAllocator_new [1; 2; 3; 4]) 9) = Some (Ok h, a')
    ∧ h ≠ 0 ∧ in_width 32 h ∧ h ∉ ({[9]} : gset Z)
    ∧ obj_reserved a' = {[9]} ∪ ∅ ∧ in_width 32 (obj_next a').
Proof.
  destruct (object_next_terminates_fresh 32 (or_introl eq_refl)
              (ensure_past (ObjectHandleAllocator_new [1; 2; 3; 4]) 9))
    as (h & a' & ? & ? & ? & ? & ? & ?).
  - by vm_compute.
  - by vm_compute.
  - exists h, a'. split_and!; [done|done|done|set_solver|done|done].
Defined.

Lemma concurrent_session_handles_unique_witness :
  ∃ s, rtc (conc_step 64 {| round_keys := [1; 2; 3; 4] |}) conc_init s
    ∧ c_claims s = 1%nat ∧ NoDup (c_issued s).
Proof.
  eexists. split; [|split].
  - eapply rtc_l; [apply (step_load _ _ _ 0%nat); reflexivity|].
    eapply rtc_l; [apply (step_load _ _ _ 1%nat); reflexivity|].
    eapply rtc_l; [apply (step_cas_ok _ _ _ 1%nat 0); reflexivity|].
    eapply rtc_l; [apply (step_cas_fail _ _ _ 0%nat 0); reflexivity|].
    apply rtc_refl.
  - reflexivity.
  - refine (proj1 (concurrent_session_handles_unique 64 (or_intror eq_refl)
                     {| round_keys := [1; 2; 3; 4] |} _ _ _)); [|by vm_compute].
    eapply rtc_l; [apply (step_load _ _ _ 0%nat); reflexivity|].
    eapply rtc_l; [apply (step_load _ _ _ 1%nat); reflexivity|].
    eapply rtc_l; [apply (step_cas_ok _ _ _ 1%nat 0); reflexivity|].
    eapply rtc_l; [apply (step_cas_fail _ _ _ 0%nat 0); reflexivity|].
    apply rtc_refl.
Defined.
