(* ===== verification/PinCrypto.v ===== *)
(** * PIN-derived keys (src/store/encrypted_store.rs, lines 473-587)

    PBKDF2 and AES-256-GCM come from third-party crates and are parameters, as
    the type class [PinPrimitives]; [PinPrimitivesLaws] states what the code
    relies on.  Randomness drawn from the DRBG is an argument. *)

From S2P Require Import Prelude Pkcs11.

Definition PBKDF2_ITERATIONS : Z := 1000000.
Definition SALT_LEN : nat := 32.
Definition NONCE_LEN : nat := 12.
Definition KEY_LEN : nat := 32.

(** The third-party primitives. *)
Class PinPrimitives := {
  (** [pbkdf2_hmac::<Sha256>(pin, salt, iterations, &mut [u8; 32])] *)
  pbkdf2_hmac_sha256 : bytes → bytes → Z → bytes;
  (** [Aes256Gcm::encrypt] / [decrypt] under a key and a nonce *)
  aes_gcm_encrypt : bytes → bytes → bytes → option bytes;
  aes_gcm_decrypt : bytes → bytes → bytes → option bytes;
}.

Class PinPrimitivesLaws (P : PinPrimitives) := {
  pbkdf2_length pin salt iters :
    length (pbkdf2_hmac_sha256 pin salt iters) = KEY_LEN;
  gcm_decrypts key nonce plain cipher :
    aes_gcm_encrypt key nonce plain = Some cipher →
    aes_gcm_decrypt key nonce cipher = Some plain;
  (** [encrypt] only fails on a plaintext beyond the GCM limit. *)
  gcm_encrypts key nonce plain :
    length key = KEY_LEN → length nonce = NONCE_LEN →
    Z.of_nat (length plain) <= 2 ^ 36 → is_Some (aes_gcm_encrypt key nonce plain);
}.

(** The primitives work on bytes. *)
Class PinPrimitivesBytes (P : PinPrimitives) := {
  pbkdf2_bytes pin salt iters : Forall is_byte pin → Forall is_byte salt →
    Forall is_byte (pbkdf2_hmac_sha256 pin salt iters);
  gcm_bytes key nonce plain cipher :
    Forall is_byte key → Forall is_byte nonce → Forall is_byte plain →
    aes_gcm_encrypt key nonce plain = Some cipher → Forall is_byte cipher;
  gcm_plain_bytes key nonce plain cipher :
    Forall is_byte key → Forall is_byte nonce → Forall is_byte cipher →
    aes_gcm_decrypt key nonce cipher = Some plain → Forall is_byte plain;
}.

Section PinKeys.
Context {P : PinPrimitives}.

(** [derive_key_from_pin]: [fresh] is what the generated salt buffer holds
    when no salt is given. *)
Definition derive_key_from_pin (pin : bytes) (salt : option bytes)
    (iterations : option Z) (fresh : bytes) : bytes * bytes :=
  let salt_bytes := match salt with Some s => s | None => fresh end in
  let iters := default PBKDF2_ITERATIONS iterations in
  (pbkdf2_hmac_sha256 pin salt_bytes iters, salt_bytes).

(** [verify_pin_pbkdf2]. *)
Definition verify_pin_pbkdf2 (stored_hash pin : bytes) (iterations : option Z) : bool :=
  if negb (length stored_hash =? SALT_LEN + KEY_LEN)%nat then false
  else
    let salt := take SALT_LEN stored_hash in
    let stored_key := drop SALT_LEN stored_hash in
    let derived_key := (derive_key_from_pin pin (Some salt) iterations []).1 in
    bool_decide (stored_key = derived_key).

(** [hash_pin_pbkdf2]. *)
Definition hash_pin_pbkdf2 (pin : bytes) (iterations : option Z) (fresh : bytes) : bytes :=
  let '(derived_key, salt) := derive_key_from_pin pin None iterations fresh in
  salt ++ derived_key.

(** [wrap_key]: [nonce] is the outcome of drawing [NONCE_LEN] DRBG bytes. *)
Definition wrap_key (kek key : bytes) (nonce : HsmResult bytes) : HsmResult bytes :=
  let? nonce_bytes := nonce in
  match aes_gcm_encrypt kek nonce_bytes key with
  | None => Err GeneralError
  | Some ciphertext => Ok (nonce_bytes ++ ciphertext)
  end.

(** [unwrap_key]. *)
Definition unwrap_key (kek wrapped : bytes) : HsmResult bytes :=
  if (length wrapped <? NONCE_LEN)%nat then Err EncryptedDataInvalid
  else
    let nonce := take NONCE_LEN wrapped in
    let ciphertext := drop NONCE_LEN wrapped in
    match aes_gcm_decrypt kek nonce ciphertext with
    | None => Err EncryptedDataInvalid
    | Some plaintext =>
      if negb (length plaintext =? KEY_LEN)%nat then Err EncryptedDataInvalid
      else Ok plaintext
    end.

Context {L : PinPrimitivesLaws P}.

(** A PIN verifies against the hash of another exactly when the two derive
    the same key under the hash's salt. *)
Lemma verify_hash_pin pin pin' iters fresh :
  length fresh = SALT_LEN →
  verify_pin_pbkdf2 (hash_pin_pbkdf2 pin iters fresh) pin' iters
  = bool_decide ((derive_key_from_pin pin (Some fresh) iters []).1
                 = (derive_key_from_pin pin' (Some fresh) iters []).1).
Proof using L.
  intros Hlen. unfold verify_pin_pbkdf2, hash_pin_pbkdf2. simpl.
  rewrite length_app, Hlen, pbkdf2_length. simpl.
  by rewrite take_app_length', drop_app_length' by done.
Qed.

Lemma verify_hash_same pin iters fresh :
  length fresh = SALT_LEN →
  verify_pin_pbkdf2 (hash_pin_pbkdf2 pin iters fresh) pin iters = true.
Proof using L. intros. rewrite verify_hash_pin by done. by apply bool_decide_eq_true. Qed.

Lemma unwrap_wrap_key kek key nonce wrapped :
  length key = KEY_LEN → (∀ n, nonce = Ok n → length n = NONCE_LEN) →
  wrap_key kek key nonce = Ok wrapped → unwrap_key kek wrapped = Ok key.
Proof using L.
  intros Hkey Hnonce. unfold wrap_key. destruct nonce as [n|e]; [|done].
  specialize (Hnonce _ eq_refl).
  destruct (aes_gcm_encrypt kek n key) as [c|] eqn:Henc; [|done]. intros [= <-].
  unfold unwrap_key. rewrite length_app, Hnonce.
  destruct (Nat.ltb_spec (NONCE_LEN + length c) NONCE_LEN); [lia|].
  rewrite take_app_length', drop_app_length' by done.
  rewrite (gcm_decrypts _ _ _ _ Henc), Hkey. by rewrite Nat.eqb_refl.
Qed.

Lemma wrap_key_succeeds kek key n :
  length kek = KEY_LEN → length key = KEY_LEN → length n = NONCE_LEN →
  is_ok (wrap_key kek key (Ok n)) = true.
Proof using L.
  intros Hkek Hkey Hn. unfold wrap_key.
  destruct (gcm_encrypts kek n key) as [c ->]; [done|done| |done]. by rewrite Hkey.
Qed.

Lemma length_unwrap_key kek wrapped key :
  unwrap_key kek wrapped = Ok key → length key = KEY_LEN.
Proof.
  unfold unwrap_key. intros. split_tests. bool_to_prop. by apply Nat.eqb_eq.
Qed.

Context {B : PinPrimitivesBytes P}.

Lemma hash_pin_bytes pin iters fresh :
  Forall is_byte pin → Forall is_byte fresh →
  Forall is_byte (hash_pin_pbkdf2 pin iters fresh).
Proof using B.
  intros. unfold hash_pin_pbkdf2. simpl. apply Forall_app. split; [done|].
  by apply pbkdf2_bytes.
Qed.

Lemma wrap_key_bytes kek key n wrapped :
  Forall is_byte kek → Forall is_byte key → Forall is_byte n →
  wrap_key kek key (Ok n) = Ok wrapped → Forall is_byte wrapped.
Proof using B.
  unfold wrap_key. destruct (aes_gcm_encrypt kek n key) eqn:E; [|done].
  intros ??? [= <-]. apply Forall_app. split; [done|]. by apply (gcm_bytes kek n key).
Qed.

Lemma unwrap_key_bytes kek wrapped key :
  Forall is_byte kek → Forall is_byte wrapped →
  unwrap_key kek wrapped = Ok key → Forall is_byte key.
Proof using B.
  unfold unwrap_key. intros Hk Hw H. split_tests.
  eapply gcm_plain_bytes; [| | |done]; auto using Forall_take, Forall_drop.
Qed.
End PinKeys.

#[export] Hint Resolve hash_pin_bytes wrap_key_bytes unwrap_key_bytes pbkdf2_bytes : hsm.

(** A toy instance, on which the laws hold: the key is the PIN padded to its
    length, the tag the key itself. *)
Definition toy_key (pin : bytes) : bytes :=
  take KEY_LEN (pin ++ replicate KEY_LEN 0).

Definition toy_primitives : PinPrimitives := {|
  pbkdf2_hmac_sha256 pin _ _ := toy_key pin;
  aes_gcm_encrypt key _ plain := Some (key ++ plain);
  aes_gcm_decrypt key _ cipher :=
    if bool_decide (take (length key) cipher = key)
    then Some (drop (length key) cipher) else None;
|}.

#[export] Instance toy_primitives_laws : PinPrimitivesLaws toy_primitives.
Proof.
  split.
  - intros. unfold pbkdf2_hmac_sha256; simpl. unfold toy_key.
    rewrite length_take, length_app, length_replicate. unfold KEY_LEN. lia.
  - intros key nonce plain cipher [= <-]. simpl.
    rewrite take_app_length, drop_app_length. by rewrite bool_decide_eq_true_2.
  - intros. by eexists.
Defined.

#[export] Instance toy_primitives_bytes : PinPrimitivesBytes toy_primitives.
Proof.
  split.
  - intros. apply Forall_take, Forall_app. split; [done|].
    apply Forall_replicate. unfold is_byte. lia.
  - intros key nonce plain cipher ??? [= <-]. by apply Forall_app.
  - intros key nonce plain cipher Hk Hn Hc. simpl. case_bool_decide; [|done].
    intros [= <-]. by apply Forall_drop.
Defined.
