(* ===== verification/TokenFiles.v ===== *)
(** * The token's persistent files

    [LockoutStore] (src/store/lockout_store.rs) keeps the failed-login counters
    and the lock flags; [TokenStateStore] (src/token/token_state_store.rs)
    keeps the PIN hashes, the label and the initialisation flags.  Both write
    a JSON document through a temporary file and a rename.

    A file is what a reader finds in it: nothing, something that cannot be read
    or parsed, or a document.  The outcome of every system call of [save] is an
    argument.  The [hex] crate is a parameter. *)

From S2P Require Import Prelude Pkcs11.

(** ** Files and the atomic write *)

Inductive File (A : Type) : Type :=
| Missing
| Unreadable
| Corrupt
| Contents (a : A).
Arguments Missing {A}.
Arguments Unreadable {A}.
Arguments Corrupt {A}.
Arguments Contents {A} a.

(** The outcome of each fallible call of [save], [true] meaning success. *)
Record SaveIO := {
  io_serialize : bool;
  io_create_dir : bool;
  io_open_tmp : bool;
  io_restrict_tmp : bool;
  io_write : bool;
  io_sync : bool;
  io_rename : bool;
  io_restrict_final : bool;
  io_remove_tmp : bool;
}.

Definition save_io_ok : SaveIO :=
  {| io_serialize := true; io_create_dir := true; io_open_tmp := true;
     io_restrict_tmp := true; io_write := true; io_sync := true;
     io_rename := true; io_restrict_final := true;
     io_remove_tmp := true |}.

(** The final path and the temporary path beside it. *)
Record Dir (A : Type) := { d_final : File A; d_tmp : File A }.
Arguments d_final {A} d.
Arguments d_tmp {A} d.
Arguments Build_Dir {A} d_final d_tmp.

Section AtomicSave.
Context {A : Type}.

(** [save]: the states the directory goes through, oldest first and the
    current one excluded, and the result.  A write that fails, and the time
    before a write, leave the temporary file without a parsable document. *)
Definition save_states (io : SaveIO) (data : A) (d : Dir A) :
    list (Dir A) * HsmResult unit :=
  let opened := Build_Dir (d_final d) Corrupt in
  let written := Build_Dir (d_final d) (Contents data) in
  let removed tmp :=
    Build_Dir (d_final d) (if io_remove_tmp io then Missing else tmp) in
  let renamed := Build_Dir (Contents data) Missing in
  if negb (io_serialize io) then ([], Err GeneralError)
  else if negb (io_create_dir io) then ([], Err GeneralError)
  else if negb (io_open_tmp io) then ([], Err GeneralError)
  else if negb (io_restrict_tmp io)
  then ([opened; removed Corrupt], Err GeneralError)
  else if negb (io_write io)
  then ([opened; removed Corrupt], Err GeneralError)
  else if negb (io_sync io)
  then ([opened; written; removed (Contents data)], Err GeneralError)
  else if negb (io_rename io)
  then ([opened; written; removed (Contents data)], Err GeneralError)
  else if negb (io_restrict_final io)
  then ([opened; written; renamed], Err GeneralError)
  else ([opened; written; renamed], Ok tt).

Definition save (io : SaveIO) (data : A) (d : Dir A) : HsmResult unit * Dir A :=
  let '(states, r) := save_states io data d in (r, default d (last states)).

(** [clear]: remove the final file; [ok] is the outcome of the removal. *)
Definition clear_file (ok : bool) (d : Dir A) : Dir A :=
  if ok then Build_Dir Missing (d_tmp d) else d.

Lemma save_states_old_or_new io data d d' :
  d' ∈ (save_states io data d).1 →
  d_final d' = d_final d ∨ d_final d' = Contents data.
Proof.
  destruct io as [[] [] [] [] [] [] [] [] []]; cbn;
    rewrite ?elem_of_cons, ?elem_of_nil; intros Hin;
    repeat (destruct Hin as [->|Hin]; [by auto|]); done.
Qed.

Lemma save_ok_contents io data d :
  (save io data d).1 = Ok tt → d_final (save io data d).2 = Contents data.
Proof. by destruct io as [[] [] [] [] [] [] [] [] []]. Qed.

Lemma save_io_ok_eq data d :
  save save_io_ok data d = (Ok tt, Build_Dir (Contents data) Missing).
Proof. done. Qed.

(** A crash between any two system calls of [save] leaves the previous
    document or the new one on disk, never a partial one, and success means
    that the new one is there and the temporary file is not. *)
Theorem save_crash_atomic io data d d'
    (Hcrash : d' = d ∨ d' ∈ (save_states io data d).1) :
  (d_final d' = d_final d ∨ d_final d' = Contents data) ∧
  ((save io data d).1 = Ok tt →
   (save io data d).2 = Build_Dir (Contents data) Missing).
Proof.
  split.
  - destruct Hcrash as [->|Hin]; [by left|by eapply save_states_old_or_new].
  - by destruct io as [[] [] [] [] [] [] [] [] []].
Qed.
End AtomicSave.

Lemma save_crash_atomic_witness :
  d_final (Build_Dir (Contents 1) (Contents 2)) = Contents 1
  ∧ (d_final (Build_Dir (Contents 1) (Contents 2)) = Contents 1
     ∨ d_final (Build_Dir (Contents 1) (Contents 2)) = Contents 2).
Proof.
  split; [done|].
  refine (proj1 (save_crash_atomic save_io_ok 2 (Build_Dir (Contents 1) Missing)
                   (Build_Dir (Contents 1) (Contents 2)) _)).
  right. cbn. apply elem_of_cons. right. apply elem_of_cons. by left.
Defined.

(** ** Lockout counters *)

Record LockoutData := {
  ld_failed_user_logins : Z;
  ld_failed_so_logins : Z;
  ld_failed_init_token_logins : Z;
  ld_user_pin_locked : bool;
  ld_so_pin_locked : bool;
}.

Definition LockoutData_default : LockoutData :=
  {| ld_failed_user_logins := 0; ld_failed_so_logins := 0;
     ld_failed_init_token_logins := 0;
     ld_user_pin_locked := false; ld_so_pin_locked := false |}.

(** The state assumed when the file is there but cannot be used. *)
Definition LockoutData_locked : LockoutData :=
  {| ld_failed_user_logins := u32_max; ld_failed_so_logins := u32_max;
     ld_failed_init_token_logins := u32_max;
     ld_user_pin_locked := true; ld_so_pin_locked := true |}.

(** [LockoutStore::load]. *)
Definition lockout_load (f : File LockoutData) : LockoutData :=
  match f with
  | Contents data => data
  | Corrupt => LockoutData_locked
  | Missing => LockoutData_default
  | Unreadable => LockoutData_locked
  end.

(** ** Token initialisation state *)

(** The [hex] crate. *)
Class HexCodec := {
  hex_encode : bytes → string;
  hex_decode : string → option bytes;
}.
Class HexCodecLaws (X : HexCodec) := {
  hex_decode_encode b : Forall is_byte b → hex_decode (hex_encode b) = Some b;
}.

Record TokenStateData := {
  ts_initialized : bool;
  ts_user_pin_initialized : bool;
  ts_label_hex : string;
  ts_so_pin_hash_hex : option string;
  ts_user_pin_hash_hex : option string;
  ts_object_key_salt_hex : option string;
  ts_object_master_key_wrapped_hex : option string;
}.

Record RestoredTokenState := {
  rs_initialized : bool;
  rs_user_pin_initialized : bool;
  rs_label : option bytes;
  rs_so_pin_hash : option bytes;
  rs_user_pin_hash : option bytes;
  rs_object_key_salt : option bytes;
  rs_object_master_key_wrapped : option bytes;
}.

Section TokenState.
Context {X : HexCodec}.

Definition decode_opt (o : option string) : option bytes := o ≫= hex_decode.

(** [TokenStateStore::load]. *)
Definition token_state_load (f : File TokenStateData) : option RestoredTokenState :=
  match f with
  | Missing | Unreadable | Corrupt => None
  | Contents data =>
    let so_pin_hash := decode_opt (ts_so_pin_hash_hex data) in
    let user_pin_hash := decode_opt (ts_user_pin_hash_hex data) in
    let initialized := ts_initialized data && bool_decide (is_Some so_pin_hash) in
    let user_pin_initialized :=
      ts_user_pin_initialized data && bool_decide (is_Some user_pin_hash) in
    let label :=
      match hex_decode (ts_label_hex data) with
      | Some b => if (length b =? 32)%nat then Some b else None
      | None => None
      end in
    let object_key_salt :=
      match decode_opt (ts_object_key_salt_hex data) with
      | Some s => if (length s =? 32)%nat then Some s else None
      | None => None
      end in
    Some {| rs_initialized := initialized;
            rs_user_pin_initialized := user_pin_initialized;
            rs_label := label;
            rs_so_pin_hash := so_pin_hash;
            rs_user_pin_hash := user_pin_hash;
            rs_object_key_salt := object_key_salt;
            rs_object_master_key_wrapped :=
              decode_opt (ts_object_master_key_wrapped_hex data) |}
  end.

Context {L : HexCodecLaws X}.

Lemma decode_opt_encode (o : option bytes) :
  (∀ b, o = Some b → Forall is_byte b) → decode_opt (hex_encode <$> o) = o.
Proof using L.
  destruct o as [b|]; intros H; [|done]. simpl.
  by rewrite hex_decode_encode by auto.
Qed.
End TokenState.
