(* ===== verification/Token.v ===== *)
(** * The token: PINs, lockout, login state and session counters

    Models [Token] of src/token/token.rs.  The [auth] mutex is held across each
    operation, so an operation is one atomic transition on the pair of the
    token's memory and the disk.  What an operation reads from its surroundings
    (the clock, random bytes, the outcome of system calls) is an [Env].
    Instants are nanoseconds; [u32] counters wrap, as in a release build. *)

From S2P Require Import Prelude Pkcs11 PinCrypto TokenFiles.

(** ** Constants and data *)

Definition OBJECT_KEY_SALT_LEN : nat := 32.
Definition OBJECT_MASTER_KEY_LEN : nat := 32.
Definition DEFAULT_MAX_SESSIONS : Z := 100.
Definition DEFAULT_MAX_RW_SESSIONS : Z := 10.
Definition DEFAULT_PIN_MIN_LEN : nat := 8.
Definition DEFAULT_PIN_MAX_LEN : nat := 64.
Definition DEFAULT_MAX_FAILED_LOGINS : Z := 5.
Definition PIN_MIN_DISTINCT_BYTES : nat := 3.
Definition PIN_MIN_CHAR_CLASSES : nat := 2.
Definition FAILED_LOGIN_BASE_DELAY_MS : Z := 100.
Definition FAILED_LOGIN_MAX_DELAY_MS : Z := 5000.

Inductive LoginState := Public | UserLoggedIn | SoLoggedIn.
#[export] Instance LoginState_eq_dec : EqDecision LoginState.
Proof. solve_decision. Defined.

Record AuthState := {
  a_login : LoginState;
  a_initialized : bool;
  a_user_pin_initialized : bool;
  a_failed_user_logins : Z;
  a_failed_so_logins : Z;
  a_failed_init_token_logins : Z;
  a_user_pin_locked : bool;
  a_so_pin_locked : bool;
  a_user_next_allowed : option Z;
  a_so_next_allowed : option Z;
  a_init_token_next_allowed : option Z;
}.

#[export] Instance AuthState_expand : FieldExpansion AuthState := λ a,
  Build_AuthState (a_login a) (a_initialized a) (a_user_pin_initialized a)
    (a_failed_user_logins a) (a_failed_so_logins a) (a_failed_init_token_logins a)
    (a_user_pin_locked a) (a_so_pin_locked a) (a_user_next_allowed a)
    (a_so_next_allowed a) (a_init_token_next_allowed a).

(** [AuthState::new]. *)
Definition AuthState_new : AuthState :=
  {| a_login := Public; a_initialized := false; a_user_pin_initialized := false;
     a_failed_user_logins := 0; a_failed_so_logins := 0;
     a_failed_init_token_logins := 0;
     a_user_pin_locked := false; a_so_pin_locked := false;
     a_user_next_allowed := None; a_so_next_allowed := None;
     a_init_token_next_allowed := None |}.

(** [AuthState::reset_for_init]. *)
Definition reset_for_init (a : AuthState) : AuthState :=
  a <| a_login := Public |>
    <| a_user_pin_initialized := false |>
    <| a_failed_user_logins := 0 |>
    <| a_failed_so_logins := 0 |>
    <| a_failed_init_token_logins := 0 |>
    <| a_user_pin_locked := false |>
    <| a_so_pin_locked := false |>
    <| a_user_next_allowed := None |>
    <| a_so_next_allowed := None |>
    <| a_init_token_next_allowed := None |>.

(** [t_lockout_store] tells whether a lockout store is configured,
    [t_token_state_store] the slot whose token-state file the token uses. *)
Record Token := {
  t_label : bytes;
  t_so_pin_hash : option bytes;
  t_user_pin_hash : option bytes;
  t_auth : AuthState;
  t_session_count : Z;
  t_rw_session_count : Z;
  t_max_sessions : Z;
  t_max_rw_sessions : Z;
  t_pin_min_len : nat;
  t_pin_max_len : nat;
  t_max_failed_logins : Z;
  t_pbkdf2_iterations : Z;
  t_lockout_store : bool;
  t_token_state_store : option Z;
  t_object_key_salt : option bytes;
  t_object_master_key_wrapped : option bytes;
}.

#[export] Instance Token_expand : FieldExpansion Token := λ t,
  Build_Token (t_label t) (t_so_pin_hash t) (t_user_pin_hash t) (t_auth t)
    (t_session_count t) (t_rw_session_count t) (t_max_sessions t)
    (t_max_rw_sessions t) (t_pin_min_len t) (t_pin_max_len t)
    (t_max_failed_logins t) (t_pbkdf2_iterations t) (t_lockout_store t)
    (t_token_state_store t) (t_object_key_salt t) (t_object_master_key_wrapped t).

(** The storage directory: one lockout file, whatever the slot, and a
    token-state file per slot. *)
Record Disk := {
  disk_lockout : Dir LockoutData;
  disk_token_state : gmap Z (Dir TokenStateData);
}.

#[export] Instance Disk_expand : FieldExpansion Disk := λ d,
  Build_Disk (disk_lockout d) (disk_token_state d).

Definition disk_empty : Disk :=
  {| disk_lockout := Build_Dir Missing Missing; disk_token_state := ∅ |}.

Definition token_state_dir (d : Disk) (slot : Z) : Dir TokenStateData :=
  default (Build_Dir Missing Missing) (disk_token_state d !! slot).

(** What one operation observes: the clock at its rate-limit check and when
    it stores a deadline, the outcome of the system calls of the two stores,
    the bytes drawn for a PIN salt, and the outcomes of the three DRBG draws
    of object-key provisioning. *)
Record Env := {
  now_check : Z;
  now_fail : Z;
  lockout_io : SaveIO;
  lockout_clear_ok : bool;
  token_state_io : SaveIO;
  pin_salt : bytes;
  drbg_object_salt : HsmResult bytes;
  drbg_object_key : HsmResult bytes;
  drbg_wrap_nonce : HsmResult bytes;
}.

(** The part of the configuration a token reads ([TokenConfig] and
    [SecurityConfig]). *)
Record TokenSettings := {
  cfg_label : bytes;
  cfg_max_sessions : Z;
  cfg_max_rw_sessions : Z;
  cfg_pin_min_length : nat;
  cfg_pin_max_length : nat;
  cfg_max_failed_logins : Z;
  cfg_pbkdf2_iterations : Z;
  cfg_persist_objects : bool;
}.

Definition TokenWorld : Type := Token * Disk.

(** ** PIN policy, backoff and rate limit *)

(** The loop of [validate_pin]: the bytes seen so far, and which classes. *)
Record PinScan := {
  ps_seen : gset Z;
  ps_distinct : nat;
  ps_lower : bool;
  ps_upper : bool;
  ps_digit : bool;
  ps_other : bool;
  ps_non_ascii : bool;
}.

#[export] Instance PinScan_expand : FieldExpansion PinScan := λ p,
  Build_PinScan (ps_seen p) (ps_distinct p) (ps_lower p) (ps_upper p)
    (ps_digit p) (ps_other p) (ps_non_ascii p).

Definition PinScan_start : PinScan :=
  {| ps_seen := ∅; ps_distinct := 0; ps_lower := false; ps_upper := false;
     ps_digit := false; ps_other := false; ps_non_ascii := false |}.

Definition between (lo b hi : Z) : bool := (lo <=? b) && (b <=? hi).

Definition pin_scan_byte (p : PinScan) (b : Z) : PinScan :=
  let p :=
    if bool_decide (b ∈ ps_seen p) then p
    else p <| ps_seen := {[b]} ∪ ps_seen p |> <| ps_distinct := S (ps_distinct p) |> in
  if between 97 b 122 then p <| ps_lower := true |>
  else if between 65 b 90 then p <| ps_upper := true |>
  else if between 48 b 57 then p <| ps_digit := true |>
  else if between 32 b 126 then p <| ps_other := true |>
  else p <| ps_non_ascii := true |>.

Definition count_true (bs : list bool) : nat := length (filter (λ b : bool, b) bs).

Definition validate_pin (t : Token) (pin : bytes) : HsmResult unit :=
  if (length pin <? t_pin_min_len t)%nat || (t_pin_max_len t <? length pin)%nat
  then Err PinLenRange
  else
    let p := foldl pin_scan_byte PinScan_start pin in
    if (ps_distinct p <? PIN_MIN_DISTINCT_BYTES)%nat then Err PinInvalid
    else if negb (ps_non_ascii p)
         && (count_true [ps_lower p; ps_upper p; ps_digit p; ps_other p]
             <? PIN_MIN_CHAR_CLASSES)%nat
    then Err PinInvalid
    else Ok tt.

(** [backoff_duration], in milliseconds. *)
Definition backoff_duration (failures : Z) : Z :=
  if failures =? 0 then 0
  else
    let shift := Z.min (saturating_sub failures 1) 31 in
    let delay_ms :=
      saturating_mul u64_max FAILED_LOGIN_BASE_DELAY_MS (wrap 64 (Z.shiftl 1 shift)) in
    Z.min delay_ms FAILED_LOGIN_MAX_DELAY_MS.

(** [Instant::now() + backoff_duration(failures)], in nanoseconds. *)
Definition backoff_deadline (now failures : Z) : Z :=
  now + backoff_duration failures * 1000000.

Definition check_rate_limit (next_allowed : option Z) (now : Z) : HsmResult unit :=
  match next_allowed with
  | Some deadline => if now <? deadline then Err PinRateLimited else Ok tt
  | None => Ok tt
  end.

(** ** Operations *)

Section TokenOps.
Context {P : PinPrimitives} {X : HexCodec}.

(** [new_with_config_for_slot]; [debug] is [cfg!(debug_assertions)]. *)
Definition pad_label (src : bytes) : bytes :=
  take 32 src ++ replicate (32 - length (take 32 src)) 32.

Definition default_label : bytes :=
  [67; 114; 97; 116; 111; 110; 32; 72; 83; 77; 32; 84; 111; 107; 101; 110; 32; 48].

Definition lockout_of_auth (a : AuthState) : LockoutData :=
  {| ld_failed_user_logins := a_failed_user_logins a;
     ld_failed_so_logins := a_failed_so_logins a;
     ld_failed_init_token_logins := a_failed_init_token_logins a;
     ld_user_pin_locked := a_user_pin_locked a;
     ld_so_pin_locked := a_so_pin_locked a |}.

Definition restore_lockout (data : LockoutData) (a : AuthState) : AuthState :=
  a <| a_failed_user_logins := ld_failed_user_logins data |>
    <| a_failed_so_logins := ld_failed_so_logins data |>
    <| a_failed_init_token_logins := ld_failed_init_token_logins data |>
    <| a_user_pin_locked := ld_user_pin_locked data |>
    <| a_so_pin_locked := ld_so_pin_locked data |>.

Definition restore_token_state (r : RestoredTokenState) (t : Token) : Token :=
  t <| t_auth := t_auth t <| a_initialized := rs_initialized r |>
                          <| a_user_pin_initialized := rs_user_pin_initialized r |> |>
    <| t_label := default (t_label t) (rs_label r) |>
    <| t_so_pin_hash := rs_so_pin_hash r |>
    <| t_user_pin_hash := rs_user_pin_hash r |>
    <| t_object_key_salt := rs_object_key_salt r |>
    <| t_object_master_key_wrapped := rs_object_master_key_wrapped r |>.

Definition new_with_config_for_slot (debug : bool) (config : option TokenSettings)
    (slot_id : Z) (d : Disk) : Token :=
  let get {A} (f : TokenSettings → A) (dflt : A) : A :=
    match config with Some c => f c | None => dflt end in
  let auth :=
    match config with
    | Some _ => restore_lockout (lockout_load (d_final (disk_lockout d))) AuthState_new
    | None => AuthState_new
    end in
  let token_state_store :=
    match config with
    | Some c => if cfg_persist_objects c then Some slot_id else None
    | None => None
    end in
  let t :=
    {| t_label := pad_label (get cfg_label default_label);
       t_so_pin_hash := None;
       t_user_pin_hash := None;
       t_auth := auth;
       t_session_count := 0;
       t_rw_session_count := 0;
       t_max_sessions := get cfg_max_sessions DEFAULT_MAX_SESSIONS;
       t_max_rw_sessions := get cfg_max_rw_sessions DEFAULT_MAX_RW_SESSIONS;
       t_pin_min_len := get cfg_pin_min_length DEFAULT_PIN_MIN_LEN;
       t_pin_max_len := get cfg_pin_max_length DEFAULT_PIN_MAX_LEN;
       t_max_failed_logins := get cfg_max_failed_logins DEFAULT_MAX_FAILED_LOGINS;
       t_pbkdf2_iterations := get cfg_pbkdf2_iterations (if debug then 1 else 600000);
       t_lockout_store := match config with Some _ => true | None => false end;
       t_token_state_store := token_state_store;
       t_object_key_salt := None;
       t_object_master_key_wrapped := None |} in
  match token_state_store with
  | Some slot =>
    match token_state_load (d_final (token_state_dir d slot)) with
    | Some restored => restore_token_state restored t
    | None => t
    end
  | None => t
  end.

(** [persist_token_state]: the document, and the save whose failure is only
    logged. *)
Definition token_state_of (t : Token) : TokenStateData :=
  {| ts_initialized := a_initialized (t_auth t);
     ts_user_pin_initialized := a_user_pin_initialized (t_auth t);
     ts_label_hex := hex_encode (t_label t);
     ts_so_pin_hash_hex := hex_encode <$> t_so_pin_hash t;
     ts_user_pin_hash_hex := hex_encode <$> t_user_pin_hash t;
     ts_object_key_salt_hex := hex_encode <$> t_object_key_salt t;
     ts_object_master_key_wrapped_hex := hex_encode <$> t_object_master_key_wrapped t |}.

Definition persist_token_state (e : Env) (t : Token) (d : Disk) : Disk :=
  match t_token_state_store t with
  | None => d
  | Some slot =>
    let dir' := (save (token_state_io e) (token_state_of t) (token_state_dir d slot)).2 in
    d <| disk_token_state := <[slot := dir']> (disk_token_state d) |>
  end.

(** [persist_lockout]; a failed save is only logged. *)
Definition persist_lockout (e : Env) (t : Token) (d : Disk) : Disk :=
  if t_lockout_store t
  then d <| disk_lockout :=
              (save (lockout_io e) (lockout_of_auth (t_auth t)) (disk_lockout d)).2 |>
  else d.

Definition clear_lockout (e : Env) (t : Token) (d : Disk) : Disk :=
  if t_lockout_store t
  then d <| disk_lockout := clear_file (lockout_clear_ok e) (disk_lockout d) |>
  else d.

Definition hash_pin (t : Token) (pin fresh : bytes) : bytes :=
  hash_pin_pbkdf2 pin (Some (t_pbkdf2_iterations t)) fresh.

Definition verify_pin (t : Token) (stored_hash provided_pin : bytes) : bool :=
  verify_pin_pbkdf2 stored_hash provided_pin (Some (t_pbkdf2_iterations t)).

Definition object_kek (t : Token) (pin salt : bytes) : bytes :=
  (derive_key_from_pin pin (Some salt) (Some (t_pbkdf2_iterations t)) []).1.

Definition unwrap_object_key (t : Token) (user_pin : bytes) : option bytes :=
  match t_object_key_salt t, t_object_master_key_wrapped t with
  | Some salt, Some wrapped =>
    match unwrap_key (object_kek t user_pin salt) wrapped with
    | Ok omk => Some omk
    | Err _ => None
    end
  | _, _ => None
  end.

Definition provision_object_key (e : Env) (user_pin : bytes) (t : Token) : HsmResult Token :=
  let? salt := drbg_object_salt e in
  let? omk := drbg_object_key e in
  let? wrapped := wrap_key (object_kek t user_pin salt) omk (drbg_wrap_nonce e) in
  Ok (t <| t_object_key_salt := Some salt |>
        <| t_object_master_key_wrapped := Some wrapped |>).

Definition rewrap_object_key (e : Env) (old_pin new_pin : bytes) (t : Token) :
    HsmResult Token :=
  match t_object_key_salt t, t_object_master_key_wrapped t with
  | Some salt, Some wrapped =>
    let? omk := unwrap_key (object_kek t old_pin salt) wrapped in
    let? rewrapped := wrap_key (object_kek t new_pin salt) omk (drbg_wrap_nonce e) in
    Ok (t <| t_object_master_key_wrapped := Some rewrapped |>)
  | _, _ => Ok t
  end.

Definition upd_auth (f : AuthState → AuthState) (t : Token) : Token :=
  t <| t_auth := f (t_auth t) |>.

(** A failed PIN verification in [login] and [set_pin], for each role: count
    it, set the deadline, lock at the limit, persist. *)
Definition user_pin_failure (e : Env) (w : TokenWorld) : HsmResult unit * TokenWorld :=
  let '(t, d) := w in
  let failures := wrap 32 (a_failed_user_logins (t_auth t) + 1) in
  let t := upd_auth (λ a,
    a <| a_failed_user_logins := failures |>
      <| a_user_next_allowed := Some (backoff_deadline (now_fail e) failures) |>
      <| a_user_pin_locked :=
           if t_max_failed_logins t <=? failures then true else a_user_pin_locked a |>) t in
  let d := persist_lockout e t d in
  if a_user_pin_locked (t_auth t) then (Err PinLocked, (t, d))
  else (Err PinIncorrect, (t, d)).

Definition so_pin_failure (e : Env) (w : TokenWorld) : HsmResult unit * TokenWorld :=
  let '(t, d) := w in
  let failures := wrap 32 (a_failed_so_logins (t_auth t) + 1) in
  let t := upd_auth (λ a,
    a <| a_failed_so_logins := failures |>
      <| a_so_next_allowed := Some (backoff_deadline (now_fail e) failures) |>
      <| a_so_pin_locked :=
           if t_max_failed_logins t <=? failures then true else a_so_pin_locked a |>) t in
  let d := persist_lockout e t d in
  if a_so_pin_locked (t_auth t) then (Err PinLocked, (t, d))
  else (Err PinIncorrect, (t, d)).

Definition user_pin_success (e : Env) (w : TokenWorld) : TokenWorld :=
  let '(t, d) := w in
  let t := upd_auth (λ a, a <| a_failed_user_logins := 0 |>
                            <| a_user_next_allowed := None |>) t in
  (t, persist_lockout e t d).

Definition so_pin_success (e : Env) (w : TokenWorld) : TokenWorld :=
  let '(t, d) := w in
  let t := upd_auth (λ a, a <| a_failed_so_logins := 0 |>
                            <| a_so_next_allowed := None |>) t in
  (t, persist_lockout e t d).

(** [init_token], after the SO PIN has been accepted. *)
Definition init_token_reset (so_pin label : bytes) (e : Env) (w : TokenWorld) :
    HsmResult unit * TokenWorld :=
  let '(t, d) := w in
  let t := t <| t_so_pin_hash := Some (hash_pin t so_pin (pin_salt e)) |>
             <| t_label := label |>
             <| t_user_pin_hash := None |>
             <| t_object_key_salt := None |>
             <| t_object_master_key_wrapped := None |> in
  let t := upd_auth (λ a, reset_for_init a <| a_initialized := true |>) t in
  let d := persist_lockout e t d in
  let d := clear_lockout e t d in
  let d := persist_token_state e t d in
  (Ok tt, (t <| t_session_count := 0 |> <| t_rw_session_count := 0 |>, d)).

Definition init_token (so_pin label : bytes) (e : Env) (w : TokenWorld) :
    HsmResult unit * TokenWorld :=
  let '(t, d) := w in
  match validate_pin t so_pin with
  | Err x => (Err x, w)
  | Ok _ =>
    if negb (a_initialized (t_auth t)) then init_token_reset so_pin label e w
    else
      match check_rate_limit (a_init_token_next_allowed (t_auth t)) (now_check e) with
      | Err x => (Err x, w)
      | Ok _ =>
        match t_so_pin_hash t with
        | Some stored =>
          if negb (verify_pin t stored so_pin) then
            let failures := wrap 32 (a_failed_init_token_logins (t_auth t) + 1) in
            let t := upd_auth (λ a,
              a <| a_failed_init_token_logins := failures |>
                <| a_init_token_next_allowed :=
                     Some (backoff_deadline (now_fail e) failures) |>) t in
            (Err PinIncorrect, (t, persist_lockout e t d))
          else init_token_reset so_pin label e w
        | None => init_token_reset so_pin label e w
        end
      end
  end.

Definition init_pin (pin : bytes) (e : Env) (w : TokenWorld) :
    HsmResult unit * TokenWorld :=
  let '(t, d) := w in
  if bool_decide (a_login (t_auth t) ≠ SoLoggedIn) then (Err UserNotLoggedIn, w)
  else
    match validate_pin t pin with
    | Err x => (Err x, w)
    | Ok _ =>
      let t := t <| t_user_pin_hash := Some (hash_pin t pin (pin_salt e)) |> in
      let t :=
        if bool_decide (is_Some (t_token_state_store t))
           && bool_decide (t_object_key_salt t = None)
        then match provision_object_key e pin t with Ok t' => t' | Err _ => t end
        else t in
      let t := upd_auth (λ a,
        a <| a_user_pin_initialized := true |>
          <| a_failed_user_logins := 0 |>
          <| a_user_pin_locked := false |>
          <| a_user_next_allowed := None |>) t in
      let d := persist_lockout e t d in
      (Ok tt, (t, persist_token_state e t d))
    end.

Definition set_pin (old_pin new_pin : bytes) (e : Env) (w : TokenWorld) :
    HsmResult unit * TokenWorld :=
  let '(t, d) := w in
  match validate_pin t new_pin with
  | Err x => (Err x, w)
  | Ok _ =>
    match a_login (t_auth t) with
    | UserLoggedIn =>
      if a_user_pin_locked (t_auth t) then (Err PinLocked, w)
      else
        match check_rate_limit (a_user_next_allowed (t_auth t)) (now_check e) with
        | Err x => (Err x, w)
        | Ok _ =>
          match t_user_pin_hash t with
          | None => (Err UserPinNotInitialized, w)
          | Some stored =>
            if negb (verify_pin t stored old_pin) then user_pin_failure e w
            else
              let '(t, d) := user_pin_success e w in
              let t := t <| t_user_pin_hash := Some (hash_pin t new_pin (pin_salt e)) |> in
              let t := match rewrap_object_key e old_pin new_pin t with
                       | Ok t' => t' | Err _ => t end in
              (Ok tt, (t, persist_token_state e t d))
          end
        end
    | SoLoggedIn =>
      if a_so_pin_locked (t_auth t) then (Err PinLocked, w)
      else
        match check_rate_limit (a_so_next_allowed (t_auth t)) (now_check e) with
        | Err x => (Err x, w)
        | Ok _ =>
          match t_so_pin_hash t with
          | None => (Err PinIncorrect, w)
          | Some stored =>
            if negb (verify_pin t stored old_pin) then so_pin_failure e w
            else
              let '(t, d) := so_pin_success e w in
              let t := t <| t_so_pin_hash := Some (hash_pin t new_pin (pin_salt e)) |> in
              (Ok tt, (t, persist_token_state e t d))
          end
        end
    | Public => (Err UserNotLoggedIn, w)
    end
  end.

Definition login_user (pin : bytes) (e : Env) (w : TokenWorld) :
    HsmResult unit * TokenWorld :=
  let '(t, d) := w in
  if bool_decide (a_login (t_auth t) = UserLoggedIn) then (Err UserAlreadyLoggedIn, w)
  else if bool_decide (a_login (t_auth t) = SoLoggedIn)
  then (Err UserAnotherAlreadyLoggedIn, w)
  else if negb (a_user_pin_initialized (t_auth t)) then (Err UserPinNotInitialized, w)
  else
    match check_rate_limit (a_user_next_allowed (t_auth t)) (now_check e) with
    | Err x => (Err x, w)
    | Ok _ =>
      match t_user_pin_hash t with
      | None => (Err UserPinNotInitialized, w)
      | Some stored =>
        let pin_correct := verify_pin t stored pin in
        if a_user_pin_locked (t_auth t) then (Err PinLocked, w)
        else if negb pin_correct then user_pin_failure e w
        else
          let '(t, d) := user_pin_success e w in
          (Ok tt, (upd_auth (λ a, a <| a_login := UserLoggedIn |>) t, d))
      end
    end.

Definition login_so (pin : bytes) (e : Env) (w : TokenWorld) :
    HsmResult unit * TokenWorld :=
  let '(t, d) := w in
  if bool_decide (a_login (t_auth t) = SoLoggedIn) then (Err UserAlreadyLoggedIn, w)
  else if bool_decide (a_login (t_auth t) = UserLoggedIn)
  then (Err UserAnotherAlreadyLoggedIn, w)
  else
    match check_rate_limit (a_so_next_allowed (t_auth t)) (now_check e) with
    | Err x => (Err x, w)
    | Ok _ =>
      match t_so_pin_hash t with
      | None => (Err PinIncorrect, w)
      | Some stored =>
        let pin_correct := verify_pin t stored pin in
        if a_so_pin_locked (t_auth t) then (Err PinLocked, w)
        else if negb pin_correct then so_pin_failure e w
        else
          let '(t, d) := so_pin_success e w in
          (Ok tt, (upd_auth (λ a, a <| a_login := SoLoggedIn |>) t, d))
      end
    end.

Definition login (user_type : Z) (pin : bytes) (e : Env) (w : TokenWorld) :
    HsmResult unit * TokenWorld :=
  if negb (a_initialized (t_auth w.1)) then (Err TokenNotInitialized, w)
  else if user_type =? CKU_USER then login_user pin e w
  else if user_type =? CKU_SO then login_so pin e w
  else (Err UserTypeInvalid, w).

Definition logout (e : Env) (w : TokenWorld) : HsmResult unit * TokenWorld :=
  let '(t, d) := w in
  if bool_decide (a_login (t_auth t) = Public) then (Err UserNotLoggedIn, w)
  else
    let t := upd_auth (λ a,
      a <| a_login := Public |>
        <| a_failed_user_logins := 0 |>
        <| a_failed_so_logins := 0 |>
        <| a_user_next_allowed := None |>
        <| a_so_next_allowed := None |>) t in
    (Ok tt, (t, persist_lockout e t d)).
End TokenOps.

Definition is_initialized (t : Token) : bool := a_initialized (t_auth t).
Definition is_user_pin_initialized (t : Token) : bool := a_user_pin_initialized (t_auth t).
Definition login_state (t : Token) : LoginState := a_login (t_auth t).

Definition require_login (t : Token) (expected : LoginState) : HsmResult unit :=
  if bool_decide (a_login (t_auth t) = expected) then Ok tt
  else if bool_decide (a_login (t_auth t) = Public) then Err UserNotLoggedIn
  else Err UserAnotherAlreadyLoggedIn.

(** [with_login_state]: [f] runs under the lock. *)
Definition with_login_state {T : Type} (t : Token) (expected : LoginState)
    (f : unit → HsmResult T) : HsmResult T :=
  if bool_decide (a_login (t_auth t) = expected) then f tt
  else if bool_decide (a_login (t_auth t) = Public) then Err UserNotLoggedIn
  else Err UserAnotherAlreadyLoggedIn.

Definition flags (t : Token) : Z :=
  let f := Z.lor CKF_RNG CKF_LOGIN_REQUIRED in
  let f := if a_initialized (t_auth t) then Z.lor f CKF_TOKEN_INITIALIZED else f in
  let f := if a_user_pin_initialized (t_auth t)
           then Z.lor f CKF_USER_PIN_INITIALIZED else f in
  let f := if a_user_pin_locked (t_auth t) then Z.lor f CKF_USER_PIN_LOCKED else f in
  if a_so_pin_locked (t_auth t) then Z.lor f CKF_SO_PIN_LOCKED else f.

Definition increment_session_count (rw : bool) (t : Token) : HsmResult unit * Token :=
  let current := t_session_count t in
  if t_max_sessions t <=? current then (Err SessionCount, t)
  else
    let t := t <| t_session_count := current + 1 |> in
    if rw then
      let rw_current := t_rw_session_count t in
      if t_max_rw_sessions t <=? rw_current
      then (Err SessionCount, t <| t_session_count := current |>)
      else (Ok tt, t <| t_rw_session_count := rw_current + 1 |>)
    else (Ok tt, t).

Definition decrement_session_count (rw : bool) (t : Token) : HsmResult unit * Token :=
  let current := t_session_count t in
  if current =? 0 then (Err GeneralError, t)
  else
    let t := t <| t_session_count := current - 1 |> in
    if rw then
      let rw_current := t_rw_session_count t in
      if rw_current =? 0 then (Err GeneralError, t)
      else (Ok tt, t <| t_rw_session_count := rw_current - 1 |>)
    else (Ok tt, t).

Definition reset_session_counts (t : Token) : Token :=
  t <| t_rw_session_count := 0 |> <| t_session_count := 0 |>.

(** ** Operations as steps *)

Inductive TokenOp :=
| OpInitToken (so_pin label : bytes)
| OpInitPin (pin : bytes)
| OpSetPin (old_pin new_pin : bytes)
| OpLogin (user_type : Z) (pin : bytes)
| OpLogout
| OpIncrement (rw : bool)
| OpDecrement (rw : bool)
| OpResetCounts
| OpRestart (config : TokenSettings) (slot_id : Z).

Section TokenRuns.
Context {P : PinPrimitives} {X : HexCodec}.

Definition run_op (op : TokenOp) (e : Env) (w : TokenWorld) : HsmResult unit * TokenWorld :=
  match op with
  | OpInitToken so_pin label => init_token so_pin label e w
  | OpInitPin pin => init_pin pin e w
  | OpSetPin old_pin new_pin => set_pin old_pin new_pin e w
  | OpLogin user_type pin => login user_type pin e w
  | OpLogout => logout e w
  | OpIncrement rw => let '(r, t) := increment_session_count rw w.1 in (r, (t, w.2))
  | OpDecrement rw => let '(r, t) := decrement_session_count rw w.1 in (r, (t, w.2))
  | OpResetCounts => (Ok tt, (reset_session_counts w.1, w.2))
  | OpRestart config slot_id =>
    (Ok tt, (new_with_config_for_slot false (Some config) slot_id w.2, w.2))
  end.

(** A run: the operations with what each observed, and the answers. *)
Fixpoint run_ops (ops : list (TokenOp * Env)) (w : TokenWorld) :
    list (HsmResult unit) * TokenWorld :=
  match ops with
  | [] => ([], w)
  | (op, e) :: ops =>
    let '(r, w') := run_op op e w in
    let '(rs, w'') := run_ops ops w' in
    (r :: rs, w'')
  end.
End TokenRuns.
