(* ===== verification/TokenDemo.v ===== *)
(** * Concrete tokens

    A small configuration, an environment in which every system call and every
    draw succeeds, and tokens at successive stages of their life, on the toy
    primitives.  The witnesses of the token's theorems evaluate them. *)

From S2P Require Import Prelude Pkcs11 PinCrypto TokenFiles Token.

Definition demo_settings : TokenSettings :=
  {| cfg_label := [72; 83; 77]; cfg_max_sessions := 10; cfg_max_rw_sessions := 4;
     cfg_pin_min_length := 4; cfg_pin_max_length := 64; cfg_max_failed_logins := 3;
     cfg_pbkdf2_iterations := 1; cfg_persist_objects := true |}.

Definition demo_env (now : Z) : Env :=
  {| now_check := now; now_fail := now; lockout_io := save_io_ok;
     lockout_clear_ok := true; token_state_io := save_io_ok;
     pin_salt := replicate 32 7;
     drbg_object_salt := Ok (replicate 32 8);
     drbg_object_key := Ok (replicate 32 9);
     drbg_wrap_nonce := Ok (replicate 12 1) |}.

(** PINs ["so-pin1"], ["user01"], ["user02"] and ["wrong9"]. *)
Definition demo_so_pin : bytes := [115; 111; 45; 112; 105; 110; 49].
Definition demo_user_pin : bytes := [117; 115; 101; 114; 48; 49].
Definition demo_new_pin : bytes := [117; 115; 101; 114; 48; 50].
Definition demo_wrong_pin : bytes := [119; 114; 111; 110; 103; 57].
Definition demo_label : bytes := replicate 32 65.

(** A toy codec: every byte becomes one character. *)
Definition byte_ascii (b : Z) : Ascii.ascii := Ascii.ascii_of_N (Z.to_N b).
Definition ascii_byte (a : Ascii.ascii) : Z := Z.of_N (Ascii.N_of_ascii a).
Definition toy_hex : HexCodec := {|
  hex_encode b := String.string_of_list_ascii (byte_ascii <$> b);
  hex_decode s := Some (ascii_byte <$> String.list_ascii_of_string s);
|}.

#[export] Instance toy_hex_laws : HexCodecLaws toy_hex.
Proof.
  split. intros b Hb. simpl. rewrite String.list_ascii_of_string_of_list_ascii.
  f_equal. induction Hb as [|x b Hx _ IH]; simpl; [done|]. f_equal; [|done].
  unfold ascii_byte, byte_ascii, is_byte in *. rewrite Ascii.N_ascii_embedding by lia. lia.
Defined.

Section DemoWorlds.
#[local] Existing Instance toy_primitives.
#[local] Existing Instance toy_hex.

(** A blank token, then initialised, then with the SO logged in, the user PIN
    set, and the user logged in. *)
Definition demo_blank : TokenWorld :=
  (new_with_config_for_slot false (Some demo_settings) 0 disk_empty, disk_empty).
Definition demo_steps : list (TokenOp * Env) :=
  [(OpInitToken demo_so_pin demo_label, demo_env 0);
   (OpLogin CKU_SO demo_so_pin, demo_env 0);
   (OpInitPin demo_user_pin, demo_env 0);
   (OpLogout, demo_env 0)].
Definition demo_ready : TokenWorld := (run_ops demo_steps demo_blank).2.
End DemoWorlds.
