(* ===== verification/TokenRestart.v ===== *)
(** * Restarting a token from its files

    The token-state file mirrors the persistent part of a token along every
    run, so a restart brings the token back.  The [hex] crate's round trip and
    the byte range of the cryptographic primitives are class laws. *)

From S2P Require Import Prelude Pkcs11 PinCrypto TokenFiles Token TokenDemo TokenProofs.

(** ** Restarting a token from its files *)

Section Restart.
Context {P : PinPrimitives} {X : HexCodec} {B : PinPrimitivesBytes P} {H : HexCodecLaws X}.

(** What a restart is to bring back. *)
Definition persistent_view (t : Token) :=
  (a_initialized (t_auth t), a_user_pin_initialized (t_auth t), t_label t,
   t_so_pin_hash t, t_user_pin_hash t, t_object_key_salt t,
   t_object_master_key_wrapped t).

Definition opt_bytes (o : option bytes) : Prop := ∀ b, o = Some b → Forall is_byte b.

Record token_wf (t : Token) : Prop := {
  wf_label : Forall is_byte (t_label t) ∧ length (t_label t) = 32%nat;
  wf_so_hash : opt_bytes (t_so_pin_hash t);
  wf_user_hash : opt_bytes (t_user_pin_hash t);
  wf_salt : ∀ s, t_object_key_salt t = Some s →
              Forall is_byte s ∧ length s = OBJECT_KEY_SALT_LEN;
  wf_wrapped : opt_bytes (t_object_master_key_wrapped t);
  wf_initialized : a_initialized (t_auth t) = true → is_Some (t_so_pin_hash t);
  wf_user_init : a_user_pin_initialized (t_auth t) = true → is_Some (t_user_pin_hash t);
}.

Lemma token_wf_view t t' : persistent_view t = persistent_view t' → token_wf t → token_wf t'.
Proof. 
  intros [= E1 E2 E3 E4 E5 E6 E7] [].
  split; rewrite <- ?E1, <- ?E2, <- ?E3, <- ?E4, <- ?E5, <- ?E6, <- ?E7; auto.
Qed.

(** Random bytes, PINs and labels are byte strings of the right length. *)
Definition env_wf (e : Env) : Prop :=
  Forall is_byte (pin_salt e) ∧
  (∀ s, drbg_object_salt e = Ok s → Forall is_byte s ∧ length s = OBJECT_KEY_SALT_LEN) ∧
  (∀ k, drbg_object_key e = Ok k → Forall is_byte k) ∧
  (∀ n, drbg_wrap_nonce e = Ok n → Forall is_byte n).

Definition op_wf (op : TokenOp) : Prop :=
  match op with
  | OpInitToken so_pin label =>
    Forall is_byte so_pin ∧ Forall is_byte label ∧ length label = 32%nat
  | OpInitPin pin => Forall is_byte pin
  | OpSetPin old_pin new_pin => Forall is_byte old_pin ∧ Forall is_byte new_pin
  | _ => True
  end.

Lemma provision_wf e pin t t' :
  env_wf e → Forall is_byte pin → token_wf t →
  provision_object_key e pin t = Ok t' → token_wf t'.
Proof using B.
  intros (_ & Hs & Hk & Hn) Hp [] Hpr. unfold provision_object_key in Hpr.
  destruct (drbg_object_salt e) as [s|]; [|done]. destruct (Hs s eq_refl) as [Hs1 Hs2].
  destruct (drbg_object_key e) as [k|]; [|done].
  destruct (drbg_wrap_nonce e) as [n|]; [|done].
  destruct (wrap_key _ _ _) as [wr|] eqn:Hw; simplify_eq. split; simpl; auto.
  - by intros ? [= <-].
  - intros ? [= <-]. eapply wrap_key_bytes, Hw; auto. by apply pbkdf2_bytes.
Qed.

Lemma rewrap_wf e old_pin new_pin t t' :
  env_wf e → Forall is_byte old_pin → Forall is_byte new_pin → token_wf t →
  rewrap_object_key e old_pin new_pin t = Ok t' → token_wf t'.
Proof using B.
  intros (_ & _ & _ & Hn) Ho Hp Hwf Hr. pose proof Hwf as []. unfold rewrap_object_key in Hr.
  destruct (t_object_key_salt t) as [s|] eqn:Es; [|congruence].
  destruct (wf_salt0 s eq_refl) as [Hs1 Hs2].
  destruct (t_object_master_key_wrapped t) as [wr|] eqn:Ew; [|congruence].
  destruct (unwrap_key _ wr) as [k|] eqn:Hk; [|done].
  destruct (drbg_wrap_nonce e) as [n|]; [|done].
  destruct (wrap_key _ k _) as [wr'|] eqn:Hw; simplify_eq. split; simpl; try done.
  - by rewrite Es.
  - intros ? [= <-]. eapply wrap_key_bytes, Hw; auto; [by apply pbkdf2_bytes|].
    eapply unwrap_key_bytes, Hk; [by apply pbkdf2_bytes|by apply wf_wrapped0].
Qed.

Lemma set_user_hash_wf t h :
  Forall is_byte h → token_wf t → token_wf (t <| t_user_pin_hash := Some h |>).
Proof. intros Hh []. split; simpl; eauto; by intros ? [= <-]. Qed.

Lemma set_so_hash_wf t h :
  Forall is_byte h → token_wf t → token_wf (t <| t_so_pin_hash := Some h |>).
Proof. intros Hh []. split; simpl; eauto; by intros ? [= <-]. Qed.

(** Updates of the counters and the login leave [persistent_view] alone. *)
Lemma upd_auth_view f t :
  a_initialized (f (t_auth t)) = a_initialized (t_auth t) →
  a_user_pin_initialized (f (t_auth t)) = a_user_pin_initialized (t_auth t) →
  persistent_view (upd_auth f t) = persistent_view t.
Proof. unfold persistent_view. simpl. by intros -> ->. Qed.

(** ** The file mirrors the token *)

Definition state_on_disk (slot : Z) (w : TokenWorld) : Prop :=
  t_token_state_store w.1 = Some slot ∧
  d_final (token_state_dir w.2 slot) = Contents (token_state_of w.1).

Definition state_saved (e : Env) : Prop := token_state_io e = save_io_ok.

Lemma token_state_of_view t t' :
  persistent_view t = persistent_view t' → token_state_of t = token_state_of t'.
Proof. unfold token_state_of. by intros [= -> -> -> -> -> -> ->]. Qed.

Lemma persist_token_state_file slot e t d :
  state_saved e → t_token_state_store t = Some slot →
  d_final (token_state_dir (persist_token_state e t d) slot) = Contents (token_state_of t).
Proof.
  unfold state_saved, persist_token_state, token_state_dir. intros -> ->. simpl.
  by rewrite lookup_insert_eq.
Qed.

Lemma persist_lockout_token_state e t d slot :
  token_state_dir (persist_lockout e t d) slot = token_state_dir d slot.
Proof. unfold persist_lockout. by destruct (t_lockout_store t). Qed.

Lemma clear_lockout_token_state e t d slot :
  token_state_dir (clear_lockout e t d) slot = token_state_dir d slot.
Proof. unfold clear_lockout. by destruct (t_lockout_store t). Qed.

(** The token a restart builds. *)
Lemma restart_view config slot d t :
  cfg_persist_objects config = true → token_wf t →
  d_final (token_state_dir d slot) = Contents (token_state_of t) →
  let t' := new_with_config_for_slot false (Some config) slot d in
  persistent_view t' = persistent_view t ∧ t_token_state_store t' = Some slot.
Proof using H.
  intros Hcfg [[Hl Hl32] Hso Hus Hsalt Hwr Hi Hu] Hd. unfold new_with_config_for_slot.
  rewrite Hcfg. simpl. rewrite Hd. unfold token_state_load. simpl.
  rewrite !decode_opt_encode, hex_decode_encode, Hl32 by (auto; naive_solver). simpl.
  split; [|done]. unfold persistent_view. simpl.
  destruct (t_object_key_salt t) as [s|] eqn:Es; simpl;
    [destruct (Hsalt s eq_refl) as [_ ->]; simpl|];
    destruct (a_initialized (t_auth t)), (a_user_pin_initialized (t_auth t)); simpl;
    rewrite ?bool_decide_eq_true_2 by auto; done.
Qed.

Definition mirrored (slot : Z) (w : TokenWorld) : Prop :=
  token_wf w.1 ∧ state_on_disk slot w.

Lemma mirrored_view slot t d t' d' :
  persistent_view t = persistent_view t' →
  t_token_state_store t' = t_token_state_store t →
  token_state_dir d' slot = token_state_dir d slot →
  mirrored slot (t, d) → mirrored slot (t', d').
Proof.
  intros Hv Hs Hd [Hwf [Hst Hf]]. simpl in *. split; [by eapply token_wf_view|].
  split; simpl; [congruence|]. by rewrite Hd, Hf, (token_state_of_view _ _ Hv).
Qed.

Lemma mirrored_persist slot e t d :
  token_wf t → t_token_state_store t = Some slot → state_saved e →
  mirrored slot (t, persist_token_state e t d).
Proof. intros. split; [done|]. split; [done|]. by apply persist_token_state_file. Qed.

Lemma init_token_reset_mirrored slot so_pin label e t d :
  Forall is_byte so_pin ∧ Forall is_byte label ∧ length label = 32%nat →
  env_wf e → state_saved e → t_token_state_store t = Some slot →
  mirrored slot (init_token_reset so_pin label e (t, d)).2.
Proof using B.
  intros (Hp & Hl & Hl32) (He & _) Hsv Hs. unfold init_token_reset. simpl.
  match goal with |- mirrored _ (_, persist_token_state _ ?t1 ?d1) =>
    apply (mirrored_view slot t1 (persist_token_state e t1 d1)); [done..|] end.
  apply mirrored_persist; [|done|done]. split; simpl; try done.
  intros ? [= <-]. by apply hash_pin_bytes.
Qed.

Definition restarts_on (slot : Z) (op : TokenOp) : Prop :=
  match op with
  | OpRestart config slot' => slot' = slot ∧ cfg_persist_objects config = true
  | _ => True
  end.

(** The token after an update of counters or login only. *)
Ltac same_view :=
  eapply mirrored_view; [| | |eassumption]; [done|done|];
  rewrite ?persist_lockout_token_state; done.

Lemma user_pin_failure_mirrored slot e w :
  mirrored slot w → mirrored slot (user_pin_failure e w).2.
Proof. destruct w. intros. unfold user_pin_failure. simpl. case_match; same_view. Qed.

Lemma so_pin_failure_mirrored slot e w :
  mirrored slot w → mirrored slot (so_pin_failure e w).2.
Proof. destruct w. intros. unfold so_pin_failure. simpl. case_match; same_view. Qed.

Lemma set_pin_mirrored slot old_pin new_pin e w :
  Forall is_byte old_pin ∧ Forall is_byte new_pin → env_wf e → state_saved e →
  mirrored slot w → mirrored slot (set_pin old_pin new_pin e w).2.
Proof using B.
  destruct w as [t d]. intros [Ho Hn] He Hsv Hm. pose proof Hm as [Hwf [Hs Hf]].
  unfold set_pin. destruct (validate_pin t new_pin); [|done].
  destruct (a_login (t_auth t)); [done| |]; (case_match; [done|]); (case_match; [|done]);
    (case_match; [|done]); (case_match; [auto using user_pin_failure_mirrored,
      so_pin_failure_mirrored|]); simpl.
  - match goal with |- context [rewrap_object_key e old_pin new_pin ?u] =>
      assert (token_wf u) as Hu; [|assert (t_token_state_store u = Some slot) as Hsu by done;
        destruct (rewrap_object_key e old_pin new_pin u) as [t2|] eqn:Hr] end.
    + eapply token_wf_view, (set_user_hash_wf t); [done| |done].
      apply hash_pin_bytes; [done|]. by destruct He.
    + apply mirrored_persist; [exact (rewrap_wf _ _ _ _ _ He Ho Hn Hu Hr)| |done].
      rewrite <- Hsu. clear -Hr. unfold rewrap_object_key in Hr. by split_tests.
    + by apply mirrored_persist.
  - apply mirrored_persist; [|done|done].
    eapply token_wf_view, (set_so_hash_wf t); [done| |done].
    apply hash_pin_bytes; [done|]. by destruct He.
Qed.

Lemma init_pin_mirrored slot pin e w :
  Forall is_byte pin → env_wf e → state_saved e →
  mirrored slot w → mirrored slot (init_pin pin e w).2.
Proof using B.
  destruct w as [t d]. intros Hp He Hsv Hm. pose proof Hm as [Hwf [Hs Hf]].
  unfold init_pin. case_match; [done|]. case_match; [|done]. cbn zeta.
  set (t1 := t <| t_user_pin_hash := _ |>).
  match goal with |- context [if ?b then ?x else t1] =>
    set (t2 := if b then x else t1) end.
  assert (token_wf t2 ∧ is_Some (t_user_pin_hash t2) ∧ t_token_state_store t2 = Some slot)
    as (Hwf2 & Hh2 & Hs2).
  { assert (token_wf t1) as Hwf1.
    { apply set_user_hash_wf; [|done]. apply hash_pin_bytes; [done|]. by destruct He. }
    subst t2. case_match; [|by split_and!; [|eexists|]].
    destruct (provision_object_key e pin t1) as [t3|] eqn:Hpr; [|by split_and!; [|eexists|]].
    split; [exact (provision_wf _ _ _ _ He Hp Hwf1 Hpr)|]. unfold provision_object_key in Hpr. by split_tests; split; [eexists|]. }
  simpl. apply mirrored_persist; [|done|done]. destruct Hwf2. split; simpl; auto.
Qed.

Lemma run_op_mirrored slot op e w :
  op_wf op → restarts_on slot op → env_wf e → state_saved e →
  mirrored slot w → mirrored slot (run_op op e w).2.
Proof using B H.
  destruct w as [t d]. intros Hop Hre He Hsv Hm. destruct op; cbn [run_op].
  - unfold init_token. destruct Hm as [Hwf [Hs Hf]]. assert (mirrored slot (t, d)) by done.
    repeat case_match; try done; try same_view; by apply init_token_reset_mirrored.
  - by apply init_pin_mirrored.
  - by apply set_pin_mirrored.
  - unfold login, login_user, login_so. simpl.
    repeat (case_match; try done); auto using user_pin_failure_mirrored, so_pin_failure_mirrored;
      simpl in *; simplify_eq; same_view.
  - unfold logout. case_match; [done|]. same_view.
  - unfold increment_session_count. simpl. split_tests; same_view.
  - unfold decrement_session_count. simpl. split_tests; same_view.
  - same_view.
  - destruct Hre as [-> Hc], Hm as [Hwf [Hs Hf]]. simpl in *.
    destruct (restart_view config slot d t Hc Hwf Hf) as [Hv Hst].
    eapply mirrored_view; [exact (eq_sym Hv)|congruence|done|done].
Qed.

Definition run_wf (slot : Z) (step : TokenOp * Env) : Prop :=
  op_wf step.1 ∧ restarts_on slot step.1 ∧ env_wf step.2 ∧ state_saved step.2.

Lemma run_ops_mirrored slot ops w :
  Forall (run_wf slot) ops → mirrored slot w → mirrored slot (run_ops ops w).2.
Proof using B H.
  intros Hops. revert w. induction Hops as [|[op e] ops (? & ? & ? & ?) _ IH]; intros w Hm; simpl.
  - done.
  - destruct (run_op op e w) as [r w1] eqn:Hop, (run_ops ops w1) as [rs w2] eqn:Hr. simpl.
    change w2 with (rs, w2).2. rewrite <- Hr. apply IH.
    change w1 with (r, w1).2. rewrite <- Hop. by apply run_op_mirrored.
Qed.

(** A token survives restarts.  After a successful [init_token] and any
    run of operations whose saves succeed, a new process that opens the same
    slot has the same label, PIN hashes, initialisation flags and wrapped
    object key, with nobody logged in. *)
Theorem restart_restores_token so_pin label e0 t0 d0 w ops config slot
    (Hinit : init_token so_pin label e0 (t0, d0) = (Ok tt, w))
    (Hstore : t_token_state_store t0 = Some slot)
    (Hstep : run_wf slot (OpInitToken so_pin label, e0))
    (Hops : Forall (run_wf slot) ops)
    (Hcfg : cfg_persist_objects config = true) :
  let w' := (run_ops ops w).2 in
  let t' := new_with_config_for_slot false (Some config) slot w'.2 in
  persistent_view t' = persistent_view w'.1 ∧ login_state t' = Public.
Proof using B H.
  assert (mirrored slot w) as Hm.
  { destruct Hstep as (Hop & _ & He & Hsv). unfold init_token in Hinit.
    repeat case_match in Hinit; try discriminate;
      by rewrite <- (f_equal snd Hinit : _ = w); apply init_token_reset_mirrored. }
  apply (run_ops_mirrored slot ops) in Hm as [Hwf [_ Hf]]; [|done].
  split; [by apply restart_view|]. apply restart_public.
Qed.
End Restart.

Section RestartWitness.
#[local] Existing Instance toy_primitives.
#[local] Existing Instance toy_hex.

Lemma demo_env_wf now : env_wf (demo_env now).
Proof.
  split; [by apply is_byte_forallb|]. split; [|split]; simpl; intros ? [= <-].
  - split; [by apply is_byte_forallb|done].
  - by apply is_byte_forallb.
  - by apply is_byte_forallb.
Qed.

Definition demo_initialized : TokenWorld :=
  (init_token demo_so_pin demo_label (demo_env 0) demo_blank).2.
Definition demo_setup : list (TokenOp * Env) :=
  [(OpLogin CKU_SO demo_so_pin, demo_env 0); (OpInitPin demo_user_pin, demo_env 0)].

Lemma restart_restores_token_witness :
  let w' := (run_ops demo_setup demo_initialized).2 in
  let t' := new_with_config_for_slot false (Some demo_settings) 0 w'.2 in
  persistent_view t' = persistent_view w'.1 ∧ login_state t' = Public.
Proof.
  refine (restart_restores_token (P:=toy_primitives) demo_so_pin demo_label (demo_env 0)
    demo_blank.1 demo_blank.2 demo_initialized demo_setup demo_settings 0 _ _ _ _ _).
  - vm_compute. reflexivity.
  - vm_compute. reflexivity.
  - split; [|split; [exact I|split; [apply demo_env_wf|reflexivity]]].
    split; [|split]; [apply is_byte_forallb; reflexivity..|reflexivity].
  - apply Forall_cons; split; [|apply Forall_cons; split; [|apply Forall_nil; exact I]].
    + split; [exact I|split; [exact I|split; [apply demo_env_wf|reflexivity]]].
    + split; [|split; [exact I|split; [apply demo_env_wf|reflexivity]]].
      apply is_byte_forallb. reflexivity.
  - reflexivity.
Defined.
End RestartWitness.
