(* ===== verification/TokenPolicy.v ===== *)
(** * The PIN policy and the login backoff

    [validate_pin] against a declarative policy, [backoff_duration] against
    its closed form, and what a failed login imposes on the next one.  The two
    last sections show where the object key and the [init_token] rate limit do
    not behave as their comments say. *)

From S2P Require Import Prelude Pkcs11 PinCrypto TokenFiles Token TokenDemo TokenProofs.

(** ** PIN policy *)

Definition is_lower (b : Z) : bool := between 97 b 122.
Definition is_upper (b : Z) : bool := between 65 b 90.
Definition is_digit (b : Z) : bool := between 48 b 57.
Definition is_printable (b : Z) : bool := between 32 b 126.
Definition is_symbol (b : Z) : bool :=
  is_printable b && negb (is_lower b) && negb (is_upper b) && negb (is_digit b).

(** Distinct bytes and character classes, counted on the PIN as a set. *)
Definition distinct_bytes (pin : bytes) : nat := size (list_to_set pin : gset Z).
Definition char_classes (pin : bytes) : nat :=
  count_true [existsb is_lower pin; existsb is_upper pin; existsb is_digit pin;
              existsb is_symbol pin].

Definition pin_acceptable (t : Token) (pin : bytes) : Prop :=
  (t_pin_min_len t <= length pin <= t_pin_max_len t)%nat ∧
  (PIN_MIN_DISTINCT_BYTES <= distinct_bytes pin)%nat ∧
  (forallb is_printable pin = false ∨ (PIN_MIN_CHAR_CLASSES <= char_classes pin)%nat).

Ltac classify b :=
  unfold is_symbol, is_printable, is_lower, is_upper, is_digit, between in *;
  repeat match goal with
  | |- context [?x <=? ?y] => destruct (Z.leb_spec x y)
  end; simpl in *; try lia.

(** What the loop computes. *)
Lemma pin_scan_byte_eq p b :
  pin_scan_byte p b =
  {| ps_seen := {[b]} ∪ ps_seen p;
     ps_distinct := if bool_decide (b ∈ ps_seen p) then ps_distinct p
                    else S (ps_distinct p);
     ps_lower := is_lower b || ps_lower p;
     ps_upper := is_upper b || ps_upper p;
     ps_digit := is_digit b || ps_digit p;
     ps_other := is_symbol b || ps_other p;
     ps_non_ascii := negb (is_printable b) || ps_non_ascii p |}.
Proof.
  assert (b ∈ ps_seen p → {[b]} ∪ ps_seen p = ps_seen p) as Hin by set_solver.
  destruct p as [seen n l u d o a]. unfold pin_scan_byte. simpl in *.
  case_bool_decide as E; [rewrite Hin by done|]; simpl;
    classify b; f_equal; auto.
Qed.

Lemma pin_scan_spec pin p :
  ps_distinct p = size (ps_seen p) →
  let q := foldl pin_scan_byte p pin in
  ps_distinct q = size (ps_seen q) ∧
  ps_seen q = ps_seen p ∪ list_to_set pin ∧
  ps_lower q = existsb is_lower pin || ps_lower p ∧
  ps_upper q = existsb is_upper pin || ps_upper p ∧
  ps_digit q = existsb is_digit pin || ps_digit p ∧
  ps_other q = existsb is_symbol pin || ps_other p ∧
  ps_non_ascii q = negb (forallb is_printable pin) || ps_non_ascii p.
Proof.
  revert p. induction pin as [|b pin IH]; intros p Hp; simpl.
  - repeat split; auto. set_solver.
  - destruct (IH (pin_scan_byte p b)) as (H1 & H2 & H3 & H4 & H5 & H6 & H7);
      rewrite ?pin_scan_byte_eq in *; simpl in *.
    + case_bool_decide as E.
      * by replace ({[b]} ∪ ps_seen p) with (ps_seen p) by set_solver.
      * rewrite size_union, size_singleton by set_solver. lia.
    + rewrite H1, H2, H3, H4, H5, H6, H7, ?negb_andb. repeat split.
      * set_solver.
      * by destruct (is_lower b), (existsb is_lower pin).
      * by destruct (is_upper b), (existsb is_upper pin).
      * by destruct (is_digit b), (existsb is_digit pin).
      * by destruct (is_symbol b), (existsb is_symbol pin).
      * by destruct (is_printable b), (forallb is_printable pin).
Qed.

(** The PIN policy.  [validate_pin] accepts exactly the PINs of an allowed
    length with at least three distinct bytes which contain a byte outside
    printable ASCII or use at least two character classes; a length outside the
    bounds is [PinLenRange] and every other rejection [PinInvalid]. *)
Theorem validate_pin_policy t pin :
  (validate_pin t pin = Ok tt ↔ pin_acceptable t pin) ∧
  (validate_pin t pin = Err PinLenRange ↔
   ¬ (t_pin_min_len t <= length pin <= t_pin_max_len t)%nat) ∧
  (validate_pin t pin = Ok tt ∨ validate_pin t pin = Err PinLenRange
   ∨ validate_pin t pin = Err PinInvalid).
Proof.
  unfold validate_pin, pin_acceptable, distinct_bytes, char_classes.
  destruct (pin_scan_spec pin PinScan_start eq_refl) as (H1 & H2 & H3 & H4 & H5 & H6 & H7).
  simpl in *. rewrite H1, H2, H3, H4, H5, H6, H7, !orb_false_r, negb_involutive.
  rewrite (left_id_L ∅ (∪)).
  destruct (Nat.ltb_spec (length pin) (t_pin_min_len t)); simpl;
    [naive_solver lia|].
  destruct (Nat.ltb_spec (t_pin_max_len t) (length pin)); [naive_solver lia|].
  destruct (Nat.ltb_spec (size (list_to_set pin : gset Z)) PIN_MIN_DISTINCT_BYTES);
    [naive_solver lia|].
  destruct (forallb is_printable pin); simpl; [|naive_solver lia].
  destruct (Nat.ltb_spec (count_true [existsb is_lower pin; existsb is_upper pin;
    existsb is_digit pin; existsb is_symbol pin]) PIN_MIN_CHAR_CLASSES); naive_solver lia.
Qed.

(** ** Backoff *)

(** The backoff is [min (100 * 2^(failures-1)) 5000] milliseconds for
    every [u32] failure count: neither the shift bound nor the saturating
    product changes the value. *)
Theorem backoff_duration_closed_form failures (Hu32 : in_width 32 failures) :
  backoff_duration failures
  = if failures =? 0 then 0
    else Z.min (FAILED_LOGIN_BASE_DELAY_MS * 2 ^ (failures - 1)) FAILED_LOGIN_MAX_DELAY_MS.
Proof.
  unfold backoff_duration. destruct (Z.eqb_spec failures 0) as [|Hnz]; [done|].
  unfold in_width in Hu32. unfold saturating_sub. rewrite Z.max_l by lia.
  set (s := Z.min (failures - 1) 31). assert (0 <= s <= 31) as Hs by lia.
  assert (1 <= 2 ^ s <= 2 ^ 31) as Hp.
  { split; [change 1 with (2 ^ 0)|]; apply Z.pow_le_mono_r; lia. }
  rewrite Z.shiftl_1_l, wrap_small by (unfold in_width; lia).
  unfold saturating_mul, u64_max, FAILED_LOGIN_BASE_DELAY_MS, FAILED_LOGIN_MAX_DELAY_MS in *.
  rewrite (Z.min_l (100 * 2 ^ s)) by lia.
  destruct (Z.le_gt_cases (failures - 1) 31); [by subst s; rewrite (Z.min_l (failures - 1)) by lia|].
  subst s. rewrite (Z.min_r (failures - 1) 31) by lia.
  assert (2 ^ 31 <= 2 ^ (failures - 1)) by (apply Z.pow_le_mono_r; lia). lia.
Qed.

Lemma backoff_duration_closed_form_witness :
  in_width 32 6 ∧ backoff_duration 6 = 3200 ∧ backoff_duration 7 = 5000.
Proof.
  split; [unfold in_width; lia|]. split.
  - refine (eq_trans (backoff_duration_closed_form 6 _) _); [unfold in_width; lia|reflexivity].
  - refine (eq_trans (backoff_duration_closed_form 7 _) _); [unfold in_width; lia|reflexivity].
Defined.

(** ** A reset user PIN cannot unwrap the object key *)

Section DemoWorlds.
#[local] Existing Instance toy_primitives.
#[local] Existing Instance toy_hex.


(** The SO sets the user PIN a second time: the object master key stays
    wrapped under the key of the first PIN, which the new PIN cannot derive,
    so objects persisted so far are lost to the user. *)
Theorem init_pin_again_strands_object_key :
  let w := (run_ops [(OpLogin CKU_SO demo_so_pin, demo_env 0);
                     (OpInitPin demo_new_pin, demo_env 0)] demo_ready).2 in
  is_Some (unwrap_object_key demo_ready.1 demo_user_pin) ∧
  user_pin_matches w.1 demo_new_pin = true ∧
  unwrap_object_key w.1 demo_new_pin = None ∧
  unwrap_object_key w.1 demo_user_pin = unwrap_object_key demo_ready.1 demo_user_pin.
Proof. vm_compute. repeat split; try done. by eexists. Qed.
End DemoWorlds.

Section Backoffs.
Context {P : PinPrimitives} {X : HexCodec}.

(** ** The attempt after a failed one *)

(** A wrong user PIN closes the account for the backoff period: until the
    deadline every user login, with any PIN, is answered [PinRateLimited], and
    it changes nothing, neither the counters nor the files. *)
Theorem failed_login_closes_account pin pin' e e' w w1
    (Hfail : login CKU_USER pin e w = (Err PinIncorrect, w1))
    (Hearly : now_check e' < now_fail e + backoff_duration (user_failures w1) * 1000000) :
  login CKU_USER pin' e' w1 = (Err PinRateLimited, w1).
Proof.
  destruct w as [t d]. revert Hfail. unfold login. simpl.
  destruct (negb (a_initialized (t_auth t))) eqn:Hi; [done|].
  unfold login_user at 1.
  destruct (bool_decide (a_login (t_auth t) = UserLoggedIn)) eqn:E1; [done|].
  destruct (bool_decide (a_login (t_auth t) = SoLoggedIn)) eqn:E2; [done|].
  destruct (negb (a_user_pin_initialized (t_auth t))) eqn:Hu; [done|].
  destruct (check_rate_limit _ _) eqn:Hr;
    [|by intros [= -> _]; apply check_rate_limit_err in Hr].
  destruct (t_user_pin_hash t); [|done].
  case_match; [done|]. case_match; [|by unfold user_pin_success].
  unfold user_pin_failure. simpl. intros Hw.
  case_match; [case_match; done|]. case_match; [done|]. injection Hw as <-.
  unfold user_failures in Hearly. simpl in *. rewrite Hi.
  unfold login_user. simpl. rewrite E1, E2, Hu.
  unfold backoff_deadline. by rewrite (proj2 (Z.ltb_lt _ _) Hearly).
Qed.

(** ** The [init_token] counter after a corrupted lockout file *)

(** A corrupted lockout file loads every counter as [u32::MAX].  One wrong SO
    PIN then wraps the [init_token] counter to zero, and the deadline it sets is
    the current time: no delay at all. *)
Lemma init_token_backoff_wraps so_pin label stored e t d
    (Hpin : validate_pin t so_pin = Ok tt)
    (Hinit : a_initialized (t_auth t) = true)
    (Hrate : a_init_token_next_allowed (t_auth t) = None)
    (Hstored : t_so_pin_hash t = Some stored)
    (Hwrong : verify_pin t stored so_pin = false)
    (Hcorrupt : lockout_of_auth (t_auth t) = lockout_load Corrupt) :
  let w' := (init_token so_pin label e (t, d)).2 in
  a_failed_init_token_logins (t_auth w'.1) = 0 ∧
  a_init_token_next_allowed (t_auth w'.1) = Some (now_fail e).
Proof.
  unfold init_token. rewrite Hpin, Hinit, Hrate, Hstored. simpl. rewrite Hwrong. simpl.
  injection Hcorrupt as _ _ -> _ _. unfold backoff_deadline. split; [done|].
  f_equal. replace (backoff_duration _) with 0 by done. lia.
Qed.
End Backoffs.

Section BackoffWitness.
#[local] Existing Instance toy_primitives.
#[local] Existing Instance toy_hex.

Lemma failed_login_closes_account_witness :
  let w1 := (login CKU_USER demo_wrong_pin (demo_env 5) demo_ready).2 in
  login CKU_USER demo_user_pin (demo_env 100000004) w1 = (Err PinRateLimited, w1).
Proof.
  intros w1.
  apply (failed_login_closes_account (P:=toy_primitives) demo_wrong_pin _ (demo_env 5)
           _ demo_ready); subst w1; vm_compute; reflexivity.
Defined.
End BackoffWitness.
