(* ===== verification/Hash.v ===== *)
(** * Hash primitives

    SHA-256 and HMAC-SHA256 of the [sha2] and [hmac] crates, as parameters,
    with the output length and range their documentation fixes. *)

From S2P Require Import Prelude.

Class HashPrimitives := {
  sha256 : bytes → bytes;
  hmac_sha256 : bytes → bytes → bytes;
}.

Definition HASH_LEN : nat := 32.

Class HashPrimitivesLaws (P : HashPrimitives) := {
  sha256_length m : length (sha256 m) = HASH_LEN;
  sha256_bytes m : Forall is_byte (sha256 m);
  hmac_length k m : length (hmac_sha256 k m) = HASH_LEN;
  hmac_bytes k m : Forall is_byte (hmac_sha256 k m);
}.

#[export] Hint Resolve sha256_bytes hmac_bytes : hsm.

(** A toy instance: a polynomial checksum written on 32 bytes. *)
Definition toy_checksum (m : bytes) : Z :=
  foldl (λ acc b, (acc * 257 + b + 1) mod 2 ^ 256) 1 m.

Definition toy_hash : HashPrimitives := {|
  sha256 m := to_le_bytes HASH_LEN (toy_checksum m);
  hmac_sha256 k m := to_le_bytes HASH_LEN (toy_checksum (k ++ m));
|}.

#[export] Instance toy_hash_laws : HashPrimitivesLaws toy_hash.
Proof.
  split; intros; first [apply length_to_le_bytes|apply to_le_bytes_bytes].
Defined.
