(* ===== verification/Session.v ===== *)
(** * Sessions and operation-state blobs

    [SessionState], [ActiveOperation], [Session] and their methods, and the
    authenticated serialisation of an operation's state, from
    src/session/session.rs.

    A running digest ([DigestAccumulator]) is the bytes it has been fed; a
    cached object reference is the location of the shared object. *)

From S2P Require Import Prelude Pkcs11 Hash.

(** ** Session state *)

Inductive SessionState := RoPublic | RoUser | RwPublic | RwUser | RwSO.
#[export] Instance SessionState_eq_dec : EqDecision SessionState.
Proof. solve_decision. Defined.

Definition to_ck_state (s : SessionState) : Z :=
  match s with
  | RoPublic => CKS_RO_PUBLIC_SESSION
  | RoUser => CKS_RO_USER_FUNCTIONS
  | RwPublic => CKS_RW_PUBLIC_SESSION
  | RwUser => CKS_RW_USER_FUNCTIONS
  | RwSO => CKS_RW_SO_FUNCTIONS
  end.

Definition state_is_rw (s : SessionState) : bool :=
  match s with RwPublic | RwUser | RwSO => true | _ => false end.
Definition is_logged_in (s : SessionState) : bool :=
  match s with RoUser | RwUser | RwSO => true | _ => false end.
Definition is_so (s : SessionState) : bool :=
  match s with RwSO => true | _ => false end.

(** ** Active operations *)

Inductive ActiveOperation :=
| OpEncrypt (mechanism key_handle : Z) (mechanism_param data : bytes) (cached : option Z)
| OpDecrypt (mechanism key_handle : Z) (mechanism_param data : bytes) (cached : option Z)
| OpSign (mechanism key_handle : Z) (data : bytes) (hasher : option bytes) (cached : option Z)
| OpVerify (mechanism key_handle : Z) (data : bytes) (hasher : option bytes) (cached : option Z)
| OpDigest (mechanism : Z) (hasher : option bytes) (accumulated_input : bytes).

Definition OP_TYPE_ENCRYPT : Z := 0.
Definition OP_TYPE_DECRYPT : Z := 1.
Definition OP_TYPE_SIGN : Z := 2.
Definition OP_TYPE_VERIFY : Z := 3.
Definition OP_TYPE_DIGEST : Z := 4.
Definition OP_STATE_HMAC_LEN : nat := 32.
Definition OP_STATE_MAX_PARAM_LEN : Z := 64 * 1024.
Definition OP_STATE_MAX_DATA_LEN : Z := 4 * 1024 * 1024.
(** ["OPS1"] *)
Definition OP_STATE_MAGIC : bytes := [79; 80; 83; 49].

Definition BIND_LEN : nat := 4 + 8 + 8.
Definition INNER_HEADER_LEN : nat := 1 + 8 + 8 + 4.
Definition HEADER_LEN : nat := BIND_LEN + INNER_HEADER_LEN.

Definition zlen (b : bytes) : Z := Z.of_nat (length b).

(** [write_field]: what is appended, or the error. *)
Definition write_field (field : bytes) (max : Z) : HsmResult bytes :=
  if max <? zlen field then Err DataLenRange
  else Ok (to_le_bytes 4 (zlen field) ++ field).

Section OperationState.
Context {P : HashPrimitives}.

Definition serialize_fields (op_type mechanism key_handle : Z) (param : HsmResult bytes)
    (data : bytes) : HsmResult bytes :=
  let? p := param in
  let? d := write_field data OP_STATE_MAX_DATA_LEN in
  Ok ([op_type] ++ to_le_bytes 8 mechanism ++ to_le_bytes 8 key_handle ++ p ++ d).

Definition no_param : HsmResult bytes := Ok (to_le_bytes 4 0).

Definition serialize_body (op : ActiveOperation) : HsmResult bytes :=
  match op with
  | OpEncrypt m k p d _ =>
    serialize_fields OP_TYPE_ENCRYPT m k (write_field p OP_STATE_MAX_PARAM_LEN) d
  | OpDecrypt m k p d _ =>
    serialize_fields OP_TYPE_DECRYPT m k (write_field p OP_STATE_MAX_PARAM_LEN) d
  | OpSign m k d _ _ => serialize_fields OP_TYPE_SIGN m k no_param d
  | OpVerify m k d _ _ => serialize_fields OP_TYPE_VERIFY m k no_param d
  | OpDigest m _ d => serialize_fields OP_TYPE_DIGEST m 0 no_param d
  end.

Definition serialize_state (op : ActiveOperation) (state_hmac_key : bytes)
    (session_handle slot_id : Z) : HsmResult bytes :=
  let? body := serialize_body op in
  let buf := OP_STATE_MAGIC ++ to_le_bytes 8 session_handle ++ to_le_bytes 8 slot_id ++ body in
  Ok (buf ++ hmac_sha256 state_hmac_key buf).

Definition known_op_type (t : Z) : bool :=
  bool_decide (t ∈ [OP_TYPE_ENCRYPT; OP_TYPE_DECRYPT; OP_TYPE_SIGN; OP_TYPE_VERIFY;
                    OP_TYPE_DIGEST]).

Definition deserialize_state (blob state_hmac_key : bytes) (expected_session expected_slot : Z) :
    HsmResult (Z * Z * Z * bytes * bytes) :=
  let n := length blob in
  if (n <? HEADER_LEN + OP_STATE_HMAC_LEN)%nat then Err DataInvalid
  else
    let payload := slice blob 0 (n - OP_STATE_HMAC_LEN) in
    let provided_tag := slice blob (n - OP_STATE_HMAC_LEN) n in
    if bool_decide (hmac_sha256 state_hmac_key payload ≠ provided_tag) then Err DataInvalid
    else if bool_decide (slice payload 0 4 ≠ OP_STATE_MAGIC) then Err DataInvalid
    else
      let blob_session := from_le_bytes (slice payload 4 12) in
      let blob_slot := from_le_bytes (slice payload 12 20) in
      if negb (blob_session =? expected_session) || negb (blob_slot =? expected_slot)
      then Err DataInvalid
      else
        let op_type := nth BIND_LEN payload 0 in
        if negb (known_op_type op_type) then Err DataInvalid
        else
          let mechanism := from_le_bytes (slice payload (BIND_LEN + 1) (BIND_LEN + 9)) in
          let key_handle := from_le_bytes (slice payload (BIND_LEN + 9) (BIND_LEN + 17)) in
          let param_len := from_le_bytes (slice payload (BIND_LEN + 17) (BIND_LEN + 21)) in
          if OP_STATE_MAX_PARAM_LEN <? param_len then Err DataInvalid
          else
            let param_len := Z.to_nat param_len in
            if (length payload <? HEADER_LEN + param_len + 4)%nat then Err DataInvalid
            else
              let mechanism_param := slice payload HEADER_LEN (HEADER_LEN + param_len) in
              let data_offset := (HEADER_LEN + param_len)%nat in
              let data_len := from_le_bytes (slice payload data_offset (data_offset + 4)) in
              if OP_STATE_MAX_DATA_LEN <? data_len then Err DataInvalid
              else
                let data_len := Z.to_nat data_len in
                if (length payload <? data_offset + 4 + data_len)%nat then Err DataInvalid
                else
                  let data := slice payload (data_offset + 4) (data_offset + 4 + data_len) in
                  Ok (op_type, mechanism, key_handle, mechanism_param, data).
End OperationState.

(** ** Sessions *)

Record FindContext := { fc_results : list Z; fc_position : nat }.

Record Session := {
  s_handle : Z;
  s_slot_id : Z;
  s_flags : Z;
  s_state : SessionState;
  s_active_operation : option ActiveOperation;
  s_find_context : option FindContext;
  s_last_operation_fips_approved : option bool;
  s_last_activity : Z;
  s_closed : bool;
}.

#[export] Instance Session_expand : FieldExpansion Session := λ s,
  Build_Session (s_handle s) (s_slot_id s) (s_flags s) (s_state s)
    (s_active_operation s) (s_find_context s) (s_last_operation_fips_approved s)
    (s_last_activity s) (s_closed s).

(** [Session::new]; [now] is the clock. *)
Definition Session_new (handle slot_id flags now : Z) : Session :=
  let is_rw := negb (Z.land flags CKF_RW_SESSION =? 0) in
  {| s_handle := handle; s_slot_id := slot_id; s_flags := flags;
     s_state := if is_rw then RwPublic else RoPublic;
     s_active_operation := None; s_find_context := None;
     s_last_operation_fips_approved := None;
     s_last_activity := now; s_closed := false |}.

Definition touch (now : Z) (s : Session) : Session := s <| s_last_activity := now |>.
Definition idle_duration (now : Z) (s : Session) : Z := saturating_sub now (s_last_activity s).
Definition session_is_rw (s : Session) : bool := state_is_rw (s_state s).

Definition on_user_login (s : Session) : HsmResult Session :=
  match s_state s with
  | RoPublic => Ok (s <| s_state := RoUser |>)
  | RwPublic => Ok (s <| s_state := RwUser |>)
  | st => if is_logged_in st then Err UserAlreadyLoggedIn else Err GeneralError
  end.

Definition on_so_login (s : Session) : HsmResult Session :=
  match s_state s with
  | RwPublic => Ok (s <| s_state := RwSO |>)
  | RoPublic => Err SessionReadOnly
  | st => if is_logged_in st then Err UserAlreadyLoggedIn else Err GeneralError
  end.

Definition on_logout (s : Session) : HsmResult Session :=
  let? st := match s_state s with
             | RoUser => Ok RoPublic
             | RwUser => Ok RwPublic
             | RwSO => Ok RwPublic
             | _ => Err UserNotLoggedIn
             end in
  Ok (s <| s_state := st |> <| s_active_operation := None |> <| s_find_context := None |>).

(** [CK_SESSION_INFO] *)
Record CK_SESSION_INFO := {
  si_slot_id : Z; si_state : Z; si_flags : Z; si_device_error : Z
}.
Definition get_info (s : Session) : CK_SESSION_INFO :=
  {| si_slot_id := s_slot_id s; si_state := to_ck_state (s_state s);
     si_flags := s_flags s; si_device_error := 0 |}.

(** ** Serialised operation state *)

(** What a blob carries of an operation. *)
Definition op_fields (op : ActiveOperation) : Z * Z * Z * bytes * bytes :=
  match op with
  | OpEncrypt m k p d _ => (OP_TYPE_ENCRYPT, m, k, p, d)
  | OpDecrypt m k p d _ => (OP_TYPE_DECRYPT, m, k, p, d)
  | OpSign m k d _ _ => (OP_TYPE_SIGN, m, k, [], d)
  | OpVerify m k d _ _ => (OP_TYPE_VERIFY, m, k, [], d)
  | OpDigest m _ d => (OP_TYPE_DIGEST, m, 0, [], d)
  end.

Definition op_words_ok (op : ActiveOperation) : Prop :=
  let '(_, m, k, _, _) := op_fields op in in_width 64 m ∧ in_width 64 k.

Section OperationStateLemmas.
Context {P : HashPrimitives} {L : HashPrimitivesLaws P}.

Lemma write_field_ok field max b :
  write_field field max = Ok b →
  b = to_le_bytes 4 (zlen field) ++ field ∧ zlen field <= max.
Proof.
  unfold write_field. destruct (Z.ltb_spec max (zlen field)); [done|]. by intros [= <-].
Qed.

(** Every successful body is one layout. *)
Lemma serialize_body_layout op body :
  serialize_body op = Ok body →
  let '(t, m, k, p, d) := op_fields op in
  body = [t] ++ to_le_bytes 8 m ++ to_le_bytes 8 k
         ++ to_le_bytes 4 (zlen p) ++ p ++ to_le_bytes 4 (zlen d) ++ d
  ∧ known_op_type t = true ∧ zlen p <= OP_STATE_MAX_PARAM_LEN
  ∧ zlen d <= OP_STATE_MAX_DATA_LEN.
Proof.
  destruct op; simpl; unfold serialize_fields, no_param;
    try (destruct (write_field mechanism_param _) as [p|] eqn:Hp; [|done];
         apply write_field_ok in Hp as [-> Hp]);
    match goal with |- context [write_field ?d _] =>
      destruct (write_field d _) as [b|] eqn:Hd; [|done];
      apply write_field_ok in Hd as [-> Hd] end;
    intros [= <-]; rewrite <- ?app_assoc; repeat split; done.
Qed.

Definition layout (s sl t m k : Z) (p d : bytes) : bytes :=
  OP_STATE_MAGIC ++ to_le_bytes 8 s ++ to_le_bytes 8 sl ++ [t]
  ++ to_le_bytes 8 m ++ to_le_bytes 8 k ++ to_le_bytes 4 (zlen p) ++ p
  ++ to_le_bytes 4 (zlen d) ++ d.

Lemma length_layout s sl t m k p d :
  length (layout s sl t m k p d) = (HEADER_LEN + length p + 4 + length d)%nat.
Proof. unfold layout. autorewrite with hsm_list. simpl. lia. Qed.

Ltac layout_slice pre post :=
  apply (slice_at pre _ post);
  repeat match goal with h := _ |- _ => subst h end;
  [unfold layout; by rewrite <- ?app_assoc, ?app_nil_r
  |unfold HEADER_LEN, INNER_HEADER_LEN, BIND_LEN; autorewrite with hsm_list; simpl; lia..].

Lemma layout_slices s sl t m k p d :
  let buf := layout s sl t m k p d in
  slice buf 0 4 = OP_STATE_MAGIC ∧
  slice buf 4 12 = to_le_bytes 8 s ∧
  slice buf 12 20 = to_le_bytes 8 sl ∧
  nth BIND_LEN buf 0 = t ∧
  slice buf (BIND_LEN + 1) (BIND_LEN + 9) = to_le_bytes 8 m ∧
  slice buf (BIND_LEN + 9) (BIND_LEN + 17) = to_le_bytes 8 k ∧
  slice buf (BIND_LEN + 17) (BIND_LEN + 21) = to_le_bytes 4 (zlen p) ∧
  slice buf HEADER_LEN (HEADER_LEN + length p) = p ∧
  slice buf (HEADER_LEN + length p) (HEADER_LEN + length p + 4) = to_le_bytes 4 (zlen d) ∧
  slice buf (HEADER_LEN + length p + 4) (HEADER_LEN + length p + 4 + length d) = d.
Proof.
  intros buf. subst buf.
  set (h1 := OP_STATE_MAGIC ++ to_le_bytes 8 s ++ to_le_bytes 8 sl).
  set (h2 := to_le_bytes 8 m ++ to_le_bytes 8 k).
  set (h3 := to_le_bytes 4 (zlen p)). set (h4 := to_le_bytes 4 (zlen d)).
  split_and!.
  - layout_slice (@nil Z) (to_le_bytes 8 s ++ to_le_bytes 8 sl ++ [t] ++ h2 ++ h3 ++ p ++ h4 ++ d).
  - layout_slice OP_STATE_MAGIC (to_le_bytes 8 sl ++ [t] ++ h2 ++ h3 ++ p ++ h4 ++ d).
  - layout_slice (OP_STATE_MAGIC ++ to_le_bytes 8 s) ([t] ++ h2 ++ h3 ++ p ++ h4 ++ d).
  - unfold layout, BIND_LEN.
    do 3 (rewrite app_nth2 by (rewrite ?length_to_le_bytes; simpl; lia);
          rewrite ?length_to_le_bytes). done.
  - layout_slice (h1 ++ [t]) (to_le_bytes 8 k ++ h3 ++ p ++ h4 ++ d).
  - layout_slice (h1 ++ [t] ++ to_le_bytes 8 m) (h3 ++ p ++ h4 ++ d).
  - layout_slice (h1 ++ [t] ++ h2) (p ++ h4 ++ d).
  - layout_slice (h1 ++ [t] ++ h2 ++ h3) (h4 ++ d).
  - layout_slice (h1 ++ [t] ++ h2 ++ h3 ++ p) d.
  - layout_slice (h1 ++ [t] ++ h2 ++ h3 ++ p ++ h4) (@nil Z).
Qed.

Lemma from_to_le_u64 z : in_width 64 z → from_le_bytes (to_le_bytes 8 z) = z.
Proof. intros. by apply from_to_le_bytes. Qed.

Lemma from_to_le_len b : zlen b <= 2 ^ 31 → from_le_bytes (to_le_bytes 4 (zlen b)) = zlen b.
Proof. intros. apply from_to_le_bytes. unfold zlen in *. lia. Qed.

(** Reading the layout back, whatever the caller expects. *)
Lemma deserialize_layout key s sl s' sl' t m k p d :
  in_width 64 s → in_width 64 sl → in_width 64 m → in_width 64 k →
  known_op_type t = true → zlen p <= OP_STATE_MAX_PARAM_LEN →
  zlen d <= OP_STATE_MAX_DATA_LEN →
  let buf := layout s sl t m k p d in
  deserialize_state (buf ++ hmac_sha256 key buf) key s' sl' =
  if negb (s =? s') || negb (sl =? sl') then Err DataInvalid else Ok (t, m, k, p, d).
Proof using L.
  intros Hs Hsl Hm Hk Ht Hp Hd buf. unfold deserialize_state.
  pose proof (length_layout s sl t m k p d) as Hlen. fold buf in Hlen.
  destruct (layout_slices s sl t m k p d) as (E1 & E2 & E3 & E4 & E5 & E6 & E7 & E8 & E9 & E10).
  fold buf in E1, E2, E3, E4, E5, E6, E7, E8, E9, E10.
  rewrite length_app, hmac_length, (proj2 (Nat.ltb_ge _ _)) by (rewrite Hlen; unfold HASH_LEN,
    OP_STATE_HMAC_LEN; lia).
  change OP_STATE_HMAC_LEN with HASH_LEN. rewrite (Nat.add_sub (length buf) HASH_LEN).
  rewrite (slice_at [] buf (hmac_sha256 key buf)) by done.
  rewrite (slice_at buf (hmac_sha256 key buf) []) by (rewrite ?app_nil_r, ?hmac_length; done).
  rewrite bool_decide_eq_false_2 by tauto. rewrite E1, bool_decide_eq_false_2 by tauto.
  rewrite E2, E3, !from_to_le_u64 by done. destruct (_ || _); [done|].
  rewrite E4, Ht. cbn [negb]. rewrite E5, E6, E7, !from_to_le_u64 by done.
  unfold OP_STATE_MAX_PARAM_LEN, OP_STATE_MAX_DATA_LEN in *.
  rewrite from_to_le_len, (proj2 (Z.ltb_ge _ _) Hp) by lia.
  replace (Z.to_nat (zlen p)) with (length p) by (unfold zlen; lia).
  rewrite Hlen, (proj2 (Nat.ltb_ge _ _)) by lia.
  rewrite E9, from_to_le_len, (proj2 (Z.ltb_ge _ _) Hd) by lia.
  replace (Z.to_nat (zlen d)) with (length d) by (unfold zlen; lia).
  rewrite (proj2 (Nat.ltb_ge _ _)) by lia. by rewrite E8, E10.
Qed.

Lemma deserialize_serialized op key s sl s' sl' blob :
  in_width 64 s → in_width 64 sl → op_words_ok op → serialize_state op key s sl = Ok blob →
  deserialize_state blob key s' sl' =
  if bool_decide (s = s' ∧ sl = sl') then Ok (op_fields op) else Err DataInvalid.
Proof using L.
  intros Hs Hsl Hop Hser. unfold serialize_state in Hser. destruct (serialize_body op) as [body|] eqn:Hb; [|done].
  apply serialize_body_layout in Hb. unfold op_words_ok in Hop.
  destruct (op_fields op) as [[[[t m] k] p] d]. destruct Hb as (-> & Ht & Hp & Hd), Hop as [Hm Hk].
  injection Hser as <-. etrans; [by apply (deserialize_layout key s sl s' sl' t m k p d)|].
  destruct (Z.eqb_spec s s'), (Z.eqb_spec sl sl'); simpl; case_bool_decide; naive_solver.
Qed.

(** Operation-state blobs are bound to their session.  A blob saved by
    [serialize_state] restores exactly the operation's fields in the session
    and slot it was saved from, and is [DataInvalid] in every other: a blob
    cannot be replayed into another session or slot of the same process. *)
Theorem operation_state_bound_to_session op key s sl s' sl' blob
    (Hs : in_width 64 s) (Hsl : in_width 64 sl) (Hop : op_words_ok op)
    (Hser : serialize_state op key s sl = Ok blob) :
  deserialize_state blob key s' sl' =
  if bool_decide (s = s' ∧ sl = sl') then Ok (op_fields op) else Err DataInvalid.
Proof using L. by apply deserialize_serialized. Qed.

(** Oversized operations are refused, never truncated: serialisation
    succeeds exactly when the parameter and the data fit the limits the reader
    accepts, and is [DataLenRange] otherwise. *)
Theorem serialize_state_limits op key s sl :
  let '(_, _, _, p, d) := op_fields op in
  (zlen p <= OP_STATE_MAX_PARAM_LEN ∧ zlen d <= OP_STATE_MAX_DATA_LEN ∧
   is_ok (serialize_state op key s sl) = true) ∨
  ((OP_STATE_MAX_PARAM_LEN < zlen p ∨ OP_STATE_MAX_DATA_LEN < zlen d) ∧
   serialize_state op key s sl = Err DataLenRange).
Proof.
  unfold serialize_state. destruct op; simpl; unfold serialize_fields, no_param, write_field;
    repeat match goal with |- context [?x <? ?y] => destruct (Z.ltb_spec x y) end;
    simpl; auto; left; repeat split; auto; unfold zlen; simpl; vm_compute; discriminate.
Qed.
End OperationStateLemmas.

Section OperationStateWitness.
#[local] Existing Instance toy_hash.

Lemma operation_state_bound_to_session_witness :
  let op := OpEncrypt 4230 7 [1; 2; 3] [4; 5] None in
  ∃ blob, serialize_state op (replicate 32 5) 11 0 = Ok blob ∧
    deserialize_state blob (replicate 32 5) 11 0 = Ok (op_fields op) ∧
    deserialize_state blob (replicate 32 5) 12 0 = Err DataInvalid.
Proof.
  eexists. split; [vm_compute; reflexivity|]. split.
  - refine (operation_state_bound_to_session (P:=toy_hash)
      (OpEncrypt 4230 7 [1; 2; 3] [4; 5] None) (replicate 32 5) 11 0 11 0 _ _ _ _ _);
      [unfold in_width; lia..|split; unfold in_width; lia|vm_compute; reflexivity].
  - refine (operation_state_bound_to_session (P:=toy_hash)
      (OpEncrypt 4230 7 [1; 2; 3] [4; 5] None) (replicate 32 5) 11 0 12 0 _ _ _ _ _);
      [unfold in_width; lia..|split; unfold in_width; lia|vm_compute; reflexivity].
Defined.
End OperationStateWitness.
