(* ===== verification/SessionManager.v ===== *)
(** * The session manager

    Models [SessionManager] of src/session/manager.rs.  A session lives at a
    location of a heap, since [Arc<RwLock<Session>>] is shared between the
    [DashMap], the thread-local cache of each thread and any caller that keeps
    a reference.  The handle allocator is used through the interface
    [HandleSource]; the order in which a [DashMap] visits its entries is the
    parameter [DashOrder]. *)

From S2P Require Import Prelude Pkcs11 Handles Hash PinCrypto TokenFiles Token Session.

(** ** Interfaces *)

(** What the manager needs of the handle allocator: as long as there is room,
    a handle that has not been issued before. *)
Class HandleSource (A : Type) := {
  alloc_next : A → HsmResult Z * A;
  alloc_issued : A → Z → Prop;
  alloc_room : A → Prop;
}.

Class HandleSourceLaws (A : Type) {S : HandleSource A} := {
  alloc_next_fresh a : alloc_room a →
    ∃ h a', alloc_next a = (Ok h, a') ∧ ¬ alloc_issued a h ∧ h ≠ 0 ∧
      alloc_issued a' h ∧ (∀ x, alloc_issued a x → alloc_issued a' x);
}.

(** [DashMap] iteration visits every entry once, in an unspecified order. *)
Class DashOrder := dash_keys : gmap Z Z → list Z.
Class DashOrderLaws (D : DashOrder) := {
  dash_keys_elem m h : h ∈ dash_keys m ↔ is_Some (m !! h);
  dash_keys_NoDup m : NoDup (dash_keys m);
}.

(** ** State *)

Record SessionManager (A : Type) := {
  sm_sessions : gmap Z Z;
  sm_heap : gmap Z Session;
  sm_next_loc : Z;
  sm_alloc : A;
  sm_idle_timeout : Z;
  sm_generation : Z;
}.
Arguments sm_sessions {A} s.
Arguments sm_heap {A} s.
Arguments sm_next_loc {A} s.
Arguments sm_alloc {A} s.
Arguments sm_idle_timeout {A} s.
Arguments sm_generation {A} s.
Arguments Build_SessionManager {A}.

#[export] Instance SessionManager_expand {A} : FieldExpansion (SessionManager A) := λ m,
  Build_SessionManager (sm_sessions m) (sm_heap m) (sm_next_loc m) (sm_alloc m)
    (sm_idle_timeout m) (sm_generation m).

(** [TLS_SESSION_CACHE] of one thread: handle, generation, location. *)
Definition TlsCache : Type := option (Z * Z * Z).

Definition SessionManager_new {A} (alloc : A) : SessionManager A :=
  {| sm_sessions := ∅; sm_heap := ∅; sm_next_loc := 0; sm_alloc := alloc;
     sm_idle_timeout := 0; sm_generation := 0 |}.

(** Clearing what a closing session holds. *)
Definition close_mark (s : Session) : Session :=
  s <| s_closed := true |> <| s_active_operation := None |> <| s_find_context := None |>.

Definition invalidate_session_cache (handle : Z) (c : TlsCache) : TlsCache :=
  match c with
  | Some (cached_handle, _, _) => if cached_handle =? handle then None else c
  | None => None
  end.
Definition invalidate_all_session_caches (c : TlsCache) : TlsCache := None.

Section Manager.
Context {A : Type} {HS : HandleSource A} {D : DashOrder}.
Implicit Types (m : SessionManager A) (t : Token).

(** The session a handle maps to, with its location. *)
Definition lookup_session m (h : Z) : option (Z * Session) :=
  match sm_sessions m !! h with
  | Some l => match sm_heap m !! l with Some s => Some (l, s) | None => None end
  | None => None
  end.

Definition write_session (l : Z) (s : Session) m : SessionManager A :=
  m <| sm_heap := <[l := s]> (sm_heap m) |>.

(** [AtomicU64::fetch_add] wraps. *)
Definition bump_generation m : SessionManager A :=
  m <| sm_generation := wrap 64 (sm_generation m + 1) |>.

Definition remove_session (h : Z) m : SessionManager A :=
  m <| sm_sessions := delete h (sm_sessions m) |>.

Definition sessions_len m : nat := size (sm_sessions m).
Definition set_idle_timeout (timeout : Z) m : SessionManager A :=
  m <| sm_idle_timeout := timeout |>.

(** [cleanup_idle_sessions]; [now h] is the clock when [h] is visited. *)
Definition cleanup_visit (now : Z → Z) (timeout : Z) (acc : list Z * SessionManager A) (h : Z) :
    list Z * SessionManager A :=
  let '(closed_handles, m) := acc in
  match lookup_session m h with
  | Some (l, s) =>
    if timeout <? idle_duration (now h) s
    then (closed_handles ++ [h], remove_session h (write_session l (close_mark s) m))
    else (closed_handles, m)
  | None => (closed_handles, m)
  end.

Definition cleanup_idle_sessions (now : Z → Z) m : list Z * SessionManager A :=
  if sm_idle_timeout m =? 0 then ([], m)
  else
    let '(closed_handles, m') :=
      foldl (cleanup_visit now (sm_idle_timeout m)) ([], m) (dash_keys (sm_sessions m)) in
    if bool_decide (closed_handles = []) then ([], m')
    else (closed_handles, bump_generation m').

(** [open_session]: the result, the manager and the token. *)
Definition open_session (slot_id flags now : Z) m t : HsmResult Z * SessionManager A * Token :=
  if Z.land flags CKF_SERIAL_SESSION =? 0
  then (Err SessionParallelNotSupported, m, t)
  else
    let is_rw := negb (Z.land flags CKF_RW_SESSION =? 0) in
    if negb is_rw && bool_decide (login_state t = SoLoggedIn)
    then (Err SessionReadWriteSoExists, m, t)
    else
      match increment_session_count is_rw t with
      | (Err x, t) => (Err x, m, t)
      | (Ok _, t) =>
        let '(next, alloc) := alloc_next (sm_alloc m) in
        let m := m <| sm_alloc := alloc |> in
        match next with
        | Err x => (Err x, m, t)
        | Ok handle =>
          let session := Session_new handle slot_id flags now in
          let login_result :=
            match login_state t with
            | UserLoggedIn => on_user_login session
            | SoLoggedIn => on_so_login session
            | Public => Ok session
            end in
          match login_result with
          | Err x => (Err x, m, (decrement_session_count is_rw t).2)
          | Ok session =>
            let l := sm_next_loc m in
            (Ok handle,
             m <| sm_heap := <[l := session]> (sm_heap m) |>
               <| sm_next_loc := l + 1 |>
               <| sm_sessions := <[handle := l]> (sm_sessions m) |>,
             t)
          end
        end
      end.

Definition close_session (handle : Z) m t (c : TlsCache) :
    HsmResult unit * SessionManager A * Token * TlsCache :=
  match lookup_session m handle with
  | None => (Err SessionHandleInvalid, m, t, c)
  | Some (l, s) =>
    let m := bump_generation (remove_session handle m) in
    let c := invalidate_session_cache handle c in
    let m := write_session l (close_mark s) m in
    let '(r, t) := decrement_session_count (session_is_rw s) t in
    (r, m, t, c)
  end.

Definition close_all_visit (slot_id : Z) (acc : bool * SessionManager A * Token) (h : Z) :
    bool * SessionManager A * Token :=
  let '(any_removed, m, t) := acc in
  match lookup_session m h with
  | Some (l, s) =>
    if s_slot_id s =? slot_id
    then (true, remove_session h (write_session l (close_mark s) m),
          (decrement_session_count (session_is_rw s) t).2)
    else (any_removed, m, t)
  | None => (any_removed, m, t)
  end.

Definition close_all_sessions (slot_id : Z) m t (c : TlsCache) :
    SessionManager A * Token * TlsCache :=
  let c := invalidate_all_session_caches c in
  let '(any_removed, m', t') :=
    foldl (close_all_visit slot_id) (false, m, t) (dash_keys (sm_sessions m)) in
  (if any_removed then bump_generation m' else m', t', c).

Definition get_session m (handle : Z) : HsmResult Z :=
  ok_or (sm_sessions m !! handle) SessionHandleInvalid.

Definition get_session_cached m (handle : Z) (c : TlsCache) : HsmResult Z * TlsCache :=
  let current_gen := sm_generation m in
  let cached :=
    match c with
    | Some (cached_handle, cached_gen, session) =>
      if (cached_handle =? handle) && (cached_gen =? current_gen) then Some session else None
    | None => None
    end in
  match cached with
  | Some session => (Ok session, c)
  | None =>
    match get_session m handle with
    | Err x => (Err x, c)
    | Ok session => (Ok session, Some (handle, current_gen, session))
    end
  end.

(** [login_all]: phase 1 collects the handles of the slot, phase 2 logs each
    in and rolls back at the first error. *)
Definition slot_handles (slot_id : Z) m : list Z :=
  List.filter (λ h, match lookup_session m h with
                    | Some (_, s) => s_slot_id s =? slot_id
                    | None => false
                    end) (dash_keys (sm_sessions m)).

Definition on_login (user_type : Z) (s : Session) : HsmResult Session :=
  if user_type =? CKU_USER then on_user_login s else on_so_login s.

Definition logout_handle m (h : Z) : SessionManager A :=
  match lookup_session m h with
  | Some (l, s) =>
    match on_logout s with Ok s' => write_session l s' m | Err _ => m end
  | None => m
  end.

Fixpoint login_each (slot_id user_type : Z) (handles logged_in : list Z) m :
    HsmResult unit * SessionManager A :=
  match handles with
  | [] => (Ok tt, m)
  | h :: handles =>
    match lookup_session m h with
    | None => login_each slot_id user_type handles logged_in m
    | Some (l, s) =>
      if negb (s_slot_id s =? slot_id) then login_each slot_id user_type handles logged_in m
      else
        match on_login user_type s with
        | Err e => (Err e, foldl logout_handle m logged_in)
        | Ok s' =>
          login_each slot_id user_type handles (logged_in ++ [h]) (write_session l s' m)
        end
    end
  end.

Definition login_all (slot_id user_type : Z) m : HsmResult unit * SessionManager A :=
  if negb (user_type =? CKU_USER) && negb (user_type =? CKU_SO)
  then (Err UserTypeInvalid, m)
  else login_each slot_id user_type (slot_handles slot_id m) [] m.

Definition cancel_visit (slot_id : Z) m (h : Z) : SessionManager A :=
  match lookup_session m h with
  | Some (l, s) =>
    if negb (s_slot_id s =? slot_id) then m
    else
      let s := s <| s_active_operation := None |> <| s_find_context := None |> in
      write_session l (match on_logout s with Ok s' => s' | Err _ => s end) m
  | None => m
  end.

Definition cancel_sessions_for_slot (slot_id : Z) m : SessionManager A :=
  foldl (cancel_visit slot_id) m (dash_keys (sm_sessions m)).

Definition logout_visit (slot_id : Z) (acc : option HsmError * SessionManager A) (h : Z) :
    option HsmError * SessionManager A :=
  let '(first_err, m) := acc in
  match lookup_session m h with
  | Some (l, s) =>
    if (s_slot_id s =? slot_id) && is_logged_in (s_state s) then
      match on_logout s with
      | Ok s' => (first_err, write_session l s' m)
      | Err e => (match first_err with None => Some e | Some x => Some x end, m)
      end
    else (first_err, m)
  | None => (first_err, m)
  end.

Definition logout_all (slot_id : Z) m : HsmResult unit * SessionManager A :=
  let '(first_err, m') := foldl (logout_visit slot_id) (None, m) (dash_keys (sm_sessions m)) in
  (match first_err with Some e => Err e | None => Ok tt end, m').

(** [check_and_touch]; [now] is the clock of the idle check, [now'] of
    [touch]. *)
Definition check_and_touch (handle now now' : Z) m (c : TlsCache) :
    HsmResult unit * SessionManager A * TlsCache :=
  match lookup_session m handle with
  | None => (Err SessionHandleInvalid, m, c)
  | Some (l, s) =>
    if negb (sm_idle_timeout m =? 0) && (sm_idle_timeout m <? idle_duration now s)
    then (Err SessionClosed,
          bump_generation (remove_session handle (write_session l (close_mark s) m)),
          invalidate_session_cache handle c)
    else (Ok tt, write_session l (touch now' s) m, c)
  end.

Definition has_ro_sessions (slot_id : Z) m : bool :=
  existsb (λ h, match lookup_session m h with
                | Some (_, s) => (s_slot_id s =? slot_id) && negb (session_is_rw s)
                | None => false
                end) (dash_keys (sm_sessions m)).
End Manager.
