(* ===== verification/SessionProofs.v ===== *)
(** * Correctness of the session manager

    The manager refines a finite map from handles to sessions ([live]); its
    well-formedness invariant, exactness of the token's session counters, and
    the sessions' login states. *)

From S2P Require Import Prelude Pkcs11 Handles Hash PinCrypto TokenFiles Token Session SessionManager.

(** ** The allocator discharges [HandleSource] *)

#[export] Instance session_allocator_source : HandleSource SessionHandleAllocator := {|
  alloc_next := session_next 64;
  alloc_issued a h := ∃ c, 0 <= c < sess_next a ∧ h = scramble 64 (sess_scrambler a) c;
  alloc_room a := 0 <= sess_next a ∧ sess_next a + 2 < 2 ^ 64;
|}.

#[export] Instance session_allocator_laws : HandleSourceLaws SessionHandleAllocator.
Proof.
  split. intros a [Hlo Hhi]. simpl.
  destruct (session_next_total 64 (or_intror eq_refl) a) as (k & h & Hk & Hh & Hnz & Hnext).
  { unfold in_width. lia. }
  assert (counter_after 64 (sess_next a) k = sess_next a + Z.of_nat k) as Hc.
  { apply Z.mod_small. lia. }
  assert (counter_after 64 (sess_next a) (S k) = sess_next a + Z.of_nat k + 1) as Hc'.
  { unfold counter_after. rewrite Z.mod_small; lia. }
  rewrite Hc in Hh. rewrite Hc' in Hnext.
  eexists _, _. split; [exact Hnext|]. split_and!; [|done| |]; simpl.
  - intros (c & Hcr & E). rewrite Hh in E.
    apply (scramble_inj 64 (or_intror eq_refl)) in E; unfold in_width; lia.
  - exists (sess_next a + Z.of_nat k). split; [lia|done].
  - intros x (c & Hcr & ->). exists c. split; [lia|done].
Qed.

(** ** The token's counters *)

Lemma increment_counts rw t r t' :
  increment_session_count rw t = (r, t') →
  t_max_sessions t' = t_max_sessions t ∧ t_max_rw_sessions t' = t_max_rw_sessions t ∧
  login_state t' = login_state t ∧
  match r with
  | Ok _ => t_session_count t' = t_session_count t + 1 ∧
            t_rw_session_count t' = t_rw_session_count t + Z.b2z rw ∧
            t_session_count t' <= t_max_sessions t ∧
            (rw = true → t_rw_session_count t' <= t_max_rw_sessions t)
  | Err _ => t_session_count t' = t_session_count t ∧
             t_rw_session_count t' = t_rw_session_count t
  end.
Proof.
  unfold increment_session_count. intros. split_tests; bool_to_prop; simpl;
    split_and!; try done; lia.
Qed.

Lemma decrement_counts rw t :
  0 < t_session_count t → (rw = true → 0 < t_rw_session_count t) →
  ∃ t', decrement_session_count rw t = (Ok tt, t') ∧
  t_max_sessions t' = t_max_sessions t ∧ t_max_rw_sessions t' = t_max_rw_sessions t ∧
  login_state t' = login_state t ∧
  t_session_count t' = t_session_count t - 1 ∧
  t_rw_session_count t' = t_rw_session_count t - Z.b2z rw.
Proof.
  intros Hc Hr. unfold decrement_session_count. rewrite (proj2 (Z.eqb_neq _ _)) by lia.
  destruct rw; [rewrite (proj2 (Z.eqb_neq _ _)) by (simpl; lia)|];
    eexists; (split; [done|]); simpl; split_and!; try done; lia.
Qed.

Section ManagerProofs.
Context {A : Type} {HS : HandleSource A} {HL : HandleSourceLaws A}.
Context {D : DashOrder} {DL : DashOrderLaws D}.
Implicit Types (m : SessionManager A) (t : Token).

(** ** The abstract map *)

Definition live m : gmap Z Session := omap (λ l, sm_heap m !! l) (sm_sessions m).

(** Every mapped handle has an open session that knows its handle; every
    session outside the map is closed and holds no operation. *)
Record sm_wf m : Prop := {
  wf_mapped h l : sm_sessions m !! h = Some l →
    ∃ s, sm_heap m !! l = Some s ∧ s_handle s = h ∧ s_closed s = false;
  wf_heap l s : sm_heap m !! l = Some s →
    l < sm_next_loc m ∧ alloc_issued (sm_alloc m) (s_handle s) ∧
    (sm_sessions m !! s_handle s = Some l ∨
     s_closed s = true ∧ s_active_operation s = None ∧ s_find_context s = None);
}.

Lemma live_lookup m h s :
  live m !! h = Some s ↔ ∃ l, lookup_session m h = Some (l, s).
Proof.
  unfold live, lookup_session. rewrite lookup_omap.
  destruct (sm_sessions m !! h) as [l|]; simpl; [|naive_solver].
  destruct (sm_heap m !! l); naive_solver.
Qed.

Lemma lookup_session_None m h : lookup_session m h = None → live m !! h = None.
Proof.
  intros Hn. destruct (live m !! h) eqn:E; [|done].
  apply live_lookup in E as [? E]. congruence.
Qed.

Lemma lookup_session_Some m h l s :
  lookup_session m h = Some (l, s) → sm_sessions m !! h = Some l ∧ sm_heap m !! l = Some s.
Proof. unfold lookup_session. intros. by split_tests. Qed.

Lemma lookup_session_live m h l s : lookup_session m h = Some (l, s) → live m !! h = Some s.
Proof. intros. apply live_lookup. eauto. Qed.

(** Writing a session under its handle. *)
Lemma live_write m h l s s' :
  sm_wf m → lookup_session m h = Some (l, s) →
  live (write_session l s' m) = <[h := s']> (live m).
Proof.
  intros Hwf Hl. apply lookup_session_Some in Hl as [Hh Hs].
  apply map_eq. intros h'. unfold live. simpl. rewrite lookup_omap.
  destruct (decide (h' = h)) as [->|Hne].
  - by rewrite lookup_insert_eq, Hh; simpl; rewrite lookup_insert_eq.
  - rewrite lookup_insert_ne, lookup_omap by done.
    destruct (sm_sessions m !! h') as [l'|] eqn:E'; simpl; [|done].
    rewrite lookup_insert_ne; [done|]. intros ->.
    destruct (wf_mapped _ Hwf _ _ Hh) as (s1 & ? & ? & _).
    destruct (wf_mapped _ Hwf _ _ E') as (s2 & ? & ? & _). congruence.
Qed.

Lemma live_remove m h : live (remove_session h m) = delete h (live m).
Proof. unfold live. simpl. by rewrite omap_delete. Qed.

Lemma live_bump m : live (bump_generation m) = live m.
Proof. done. Qed.

(** ** Preservation *)

Lemma wf_bump m : sm_wf m → sm_wf (bump_generation m).
Proof. by intros [H1 H2]; split. Qed.

(** An update that keeps the handle and does not close. *)
Lemma wf_write m h l s s' :
  sm_wf m → lookup_session m h = Some (l, s) →
  s_handle s' = s_handle s → s_closed s' = s_closed s → sm_wf (write_session l s' m).
Proof.
  intros Hwf Hl Hh Hc. apply lookup_session_Some in Hl as [Hm Hs]. split; simpl.
  - intros h' l' Hm'. destruct (wf_mapped _ Hwf _ _ Hm') as (s1 & Hs1 & ? & ?).
    destruct (decide (l' = l)) as [->|].
    + rewrite lookup_insert_eq. exists s'. split_and!; congruence.
    + rewrite lookup_insert_ne by done. eauto.
  - intros l' s1. destruct (decide (l' = l)) as [->|].
    + rewrite lookup_insert_eq. intros [= <-].
      destruct (wf_mapped _ Hwf _ _ Hm) as (s2 & Hs2 & Hh2 & _).
      destruct (wf_heap _ Hwf _ _ Hs) as (? & ? & _). rewrite Hh.
      split_and!; [done|done|left; congruence].
    + rewrite lookup_insert_ne by done. apply (wf_heap _ Hwf).
Qed.

(** Closing: mark and unmap. *)
Lemma wf_close m h l s :
  sm_wf m → lookup_session m h = Some (l, s) →
  sm_wf (remove_session h (write_session l (close_mark s) m)).
Proof.
  intros Hwf Hl. apply lookup_session_Some in Hl as [Hm Hs].
  destruct (wf_mapped _ Hwf _ _ Hm) as (s2 & Hs2 & Hh2 & _). simplify_eq. split; simpl.
  - intros h' l' [Hne Hm']%lookup_delete_Some.
    destruct (wf_mapped _ Hwf _ _ Hm') as (s1 & Hs1 & ? & ?).
    rewrite lookup_insert_ne by (intros ->; congruence). eauto.
  - intros l' s1. destruct (decide (l' = l)) as [->|].
    + rewrite lookup_insert_eq. intros [= <-]. destruct (wf_heap _ Hwf _ _ Hs) as (? & ? & _).
      split_and!; auto.
    + rewrite lookup_insert_ne by done. intros Hs1.
      destruct (wf_heap _ Hwf _ _ Hs1) as (? & ? & [Hx|Hx]); split_and!; auto.
      left. rewrite lookup_delete_ne; [done|]. intros E. rewrite <- E in Hx. congruence.
Qed.

(** ** Counting sessions *)

Definition of_slot (slot : Z) (s : Session) : bool := s_slot_id s =? slot.
Definition rw_of_slot (slot : Z) (s : Session) : bool := of_slot slot s && session_is_rw s.
Lemma of_slot_same slot s : s_slot_id s = slot → of_slot slot s = true.
Proof. intros <-. apply Z.eqb_refl. Qed.
Lemma of_slot_other slot s : s_slot_id s ≠ slot → of_slot slot s = false.
Proof. apply Z.eqb_neq. Qed.
Lemma rw_of_slot_same slot s : s_slot_id s = slot → rw_of_slot slot s = session_is_rw s.
Proof. intros. unfold rw_of_slot. by rewrite of_slot_same. Qed.
Lemma rw_of_slot_other slot s : s_slot_id s ≠ slot → rw_of_slot slot s = false.
Proof. intros. unfold rw_of_slot. by rewrite of_slot_other. Qed.

Definition slot_count (slot : Z) m : nat := map_count (of_slot slot) (live m).
Definition slot_rw_count (slot : Z) m : nat := map_count (rw_of_slot slot) (live m).

(** A change of a session that keeps what the manager counts by. *)
Definition same_frame (s s' : Session) : Prop :=
  s_handle s' = s_handle s ∧ s_slot_id s' = s_slot_id s ∧
  s_closed s' = s_closed s ∧ session_is_rw s' = session_is_rw s.

Lemma on_user_login_frame s s' : on_user_login s = Ok s' → same_frame s s'.
Proof.
  unfold on_user_login, same_frame, session_is_rw.
  destruct (s_state s) eqn:E; intros [= <-]; simpl; by rewrite ?E.
Qed.
Lemma on_so_login_frame s s' : on_so_login s = Ok s' → same_frame s s'.
Proof.
  unfold on_so_login, same_frame, session_is_rw.
  destruct (s_state s) eqn:E; intros [= <-]; simpl; by rewrite ?E.
Qed.
Lemma on_logout_frame s s' : on_logout s = Ok s' → same_frame s s'.
Proof.
  unfold on_logout, same_frame, session_is_rw.
  destruct (s_state s) eqn:E; intros [= <-]; simpl; by rewrite ?E.
Qed.

(** Manager steps that keep every count. *)
Definition keeps_counts m m' : Prop :=
  sm_wf m → sm_wf m' ∧ sm_alloc m' = sm_alloc m ∧
  (∀ slot, slot_count slot m' = slot_count slot m ∧
           slot_rw_count slot m' = slot_rw_count slot m).

#[local] Instance keeps_counts_preorder : PreOrder keeps_counts.
Proof.
  split.
  - by intros m Hwf.
  - intros m1 m2 m3 H12 H23 Hwf. destruct (H12 Hwf) as (Hwf2 & Ha & Hc).
    destruct (H23 Hwf2) as (Hwf3 & Ha3 & Hc3). split; [done|]. split; [congruence|].
    intros slot. destruct (Hc slot), (Hc3 slot). split; congruence.
Qed.

Lemma write_keeps_counts m h l s s' :
  lookup_session m h = Some (l, s) → same_frame s s' → keeps_counts m (write_session l s' m).
Proof.
  intros Hl (Hh & Hs & Hc & Hr) Hwf. split; [by eapply wf_write|]. split; [done|].
  intros slot. unfold slot_count, slot_rw_count. rewrite (live_write m h l s) by done.
  pose proof (lookup_session_live _ _ _ _ Hl) as Hlive.
  split; eapply map_count_update; try done; unfold rw_of_slot, of_slot; congruence.
Qed.

Lemma bump_keeps_counts m : keeps_counts m (bump_generation m).
Proof. intros Hwf. split; [by apply wf_bump|done]. Qed.

Lemma logout_handle_keeps m h : keeps_counts m (logout_handle m h).
Proof.
  unfold logout_handle. destruct (lookup_session m h) as [[l s]|] eqn:Hl; [|reflexivity].
  destruct (on_logout s) eqn:Ho; [|reflexivity].
  eapply write_keeps_counts; [done|]. by apply on_logout_frame.
Qed.

Lemma login_each_keeps slot ty handles logged m :
  keeps_counts m (login_each slot ty handles logged m).2.
Proof.
  revert logged m. induction handles as [|h handles IH]; intros logged m; simpl; [reflexivity|].
  destruct (lookup_session m h) as [[l s]|] eqn:Hl; [|apply IH].
  destruct (negb _); [apply IH|]. destruct (on_login ty s) as [s'|] eqn:Ho.
  - etrans; [|apply IH]. eapply write_keeps_counts; [done|].
    unfold on_login in Ho. destruct (ty =? CKU_USER);
      [by apply on_user_login_frame|by apply on_so_login_frame].
  - simpl. apply (foldl_preorder keeps_counts id). apply logout_handle_keeps.
Qed.

Lemma login_all_keeps slot ty m : keeps_counts m (login_all slot ty m).2.
Proof.
  unfold login_all. destruct (_ && _); [reflexivity|]. apply login_each_keeps.
Qed.

Lemma cancel_visit_keeps slot m h : keeps_counts m (cancel_visit slot m h).
Proof.
  unfold cancel_visit. destruct (lookup_session m h) as [[l s]|] eqn:Hl; [|reflexivity].
  destruct (negb _); [reflexivity|]. eapply write_keeps_counts; [done|].
  destruct (on_logout _) eqn:Ho; [|done]. apply on_logout_frame in Ho. by destruct Ho as (?&?&?&?).
Qed.

Lemma cancel_keeps slot m : keeps_counts m (cancel_sessions_for_slot slot m).
Proof. apply (foldl_preorder keeps_counts id). apply cancel_visit_keeps. Qed.

Lemma logout_all_keeps slot m : keeps_counts m (logout_all slot m).2.
Proof.
  unfold logout_all. destruct (foldl _ _ _) as [fe m'] eqn:Hf. simpl.
  change m' with (fe, m').2. rewrite <- Hf.
  apply (foldl_preorder keeps_counts snd (logout_visit slot) _ (None, m)).
  intros [fe0 m0] h. simpl. unfold logout_visit.
  destruct (lookup_session m0 h) as [[l s]|] eqn:Hl; [|reflexivity].
  destruct (_ && _); [|reflexivity]. destruct (on_logout s) eqn:Ho; [|reflexivity].
  eapply write_keeps_counts; [done|]. by apply on_logout_frame.
Qed.

(** ** Opening and closing *)

(** The counters of a slot's token are the numbers of its live sessions. *)
Definition counts_exact (slot : Z) m t : Prop :=
  t_session_count t = Z.of_nat (slot_count slot m) ∧
  t_rw_session_count t = Z.of_nat (slot_rw_count slot m).

Definition counts_bounded t : Prop :=
  t_session_count t <= t_max_sessions t ∧ t_rw_session_count t <= t_max_rw_sessions t.

Lemma closed_counts m h l s slot :
  sm_wf m → lookup_session m h = Some (l, s) →
  let m' := remove_session h (write_session l (close_mark s) m) in
  slot_count slot m = (slot_count slot m' + Nat.b2n (of_slot slot s))%nat ∧
  slot_rw_count slot m = (slot_rw_count slot m' + Nat.b2n (rw_of_slot slot s))%nat.
Proof.
  intros Hwf Hl m'. unfold slot_count, slot_rw_count. subst m'.
  rewrite live_remove, (live_write m h l s) by done. rewrite delete_insert_eq.
  pose proof (lookup_session_live _ _ _ _ Hl). by split; apply map_count_delete.
Qed.

(** One session of the token's slot is closed and counted down. *)
Lemma close_exact m h l s t :
  sm_wf m → lookup_session m h = Some (l, s) →
  counts_exact (s_slot_id s) m t → counts_bounded t →
  ∃ t', decrement_session_count (session_is_rw s) t = (Ok tt, t') ∧
    counts_exact (s_slot_id s) (remove_session h (write_session l (close_mark s) m)) t' ∧
    counts_bounded t'.
Proof.
  intros Hwf Hl [Hc Hr] [Hbc Hbr].
  destruct (closed_counts m h l s (s_slot_id s) Hwf Hl) as [E1 E2].
  unfold rw_of_slot, of_slot in *. rewrite Z.eqb_refl in *. simpl in *.
  destruct (decrement_counts (session_is_rw s) t) as (t' & -> & Hm & Hmr & _ & Hc' & Hr').
  { lia. }
  { intros Hrw. rewrite Hrw in E2. simpl in E2. lia. }
  exists t'. split; [done|].
  unfold counts_exact, counts_bounded. rewrite Hm, Hmr, Hc', Hr'.
  destruct (session_is_rw s); simpl in *; lia.
Qed.

Lemma close_other m h l s slot t :
  sm_wf m → lookup_session m h = Some (l, s) → s_slot_id s ≠ slot →
  counts_exact slot m t →
  counts_exact slot (remove_session h (write_session l (close_mark s) m)) t.
Proof.
  intros Hwf Hl Hne [Hc Hr]. destruct (closed_counts m h l s slot Hwf Hl) as [E1 E2].
  unfold rw_of_slot, of_slot in *. rewrite (proj2 (Z.eqb_neq _ _) Hne) in *. simpl in *.
  split; lia.
Qed.

(** A successful [open_session]: a fresh handle bound to a new session of the
    slot, with the access the flags ask for. *)
Lemma open_session_cases slot flags now m t :
  alloc_room (sm_alloc m) →
  (∃ x m' t', open_session slot flags now m t = (Err x, m', t') ∧
     live m' = live m ∧ sm_heap m' = sm_heap m ∧ sm_alloc m' = sm_alloc m ∧
     sm_sessions m' = sm_sessions m ∧ sm_next_loc m' = sm_next_loc m ∧
     t_session_count t' = t_session_count t ∧ t_rw_session_count t' = t_rw_session_count t ∧
     t_max_sessions t' = t_max_sessions t ∧ t_max_rw_sessions t' = t_max_rw_sessions t)
  ∨ ∃ h alloc s t',
     open_session slot flags now m t =
       (Ok h, m <| sm_alloc := alloc |>
                <| sm_heap := <[sm_next_loc m := s]> (sm_heap m) |>
                <| sm_next_loc := sm_next_loc m + 1 |>
                <| sm_sessions := <[h := sm_next_loc m]> (sm_sessions m) |>, t') ∧
     alloc_next (sm_alloc m) = (Ok h, alloc) ∧
     increment_session_count (session_is_rw s) t = (Ok tt, t') ∧
     s_handle s = h ∧ s_slot_id s = slot ∧ s_closed s = false ∧
     session_is_rw s = negb (Z.land flags CKF_RW_SESSION =? 0).
Proof using HL.
  intros Hroom. unfold open_session.
  destruct (Z.land flags CKF_SERIAL_SESSION =? 0); [left; eauto 20|].
  set (rw := negb (Z.land flags CKF_RW_SESSION =? 0)).
  destruct (negb rw && bool_decide (login_state t = SoLoggedIn)) eqn:Hso; [left; eauto 20|].
  destruct (increment_session_count rw t) as [[[]|x] t'] eqn:Hinc;
    pose proof (increment_counts _ _ _ _ Hinc) as (Hm & Hmr & Hls & Hcs).
  - destruct (alloc_next_fresh _ Hroom) as (h & a' & Hn & _). rewrite Hn. right.
    unfold Session_new. fold rw. rewrite Hls.
    destruct (login_state t) eqn:Ht; simpl; unfold on_user_login, on_so_login; simpl;
      destruct rw eqn:Hrw; simpl in *; try done; do 4 eexists; (split; [reflexivity|]);
      split_and!; done || exact Hinc.
  - left. destruct Hcs. eauto 20.
Qed.

Lemma open_wf m h alloc s :
  sm_wf m → alloc_room (sm_alloc m) → alloc_next (sm_alloc m) = (Ok h, alloc) →
  s_handle s = h → s_closed s = false →
  let m' := m <| sm_alloc := alloc |>
              <| sm_heap := <[sm_next_loc m := s]> (sm_heap m) |>
              <| sm_next_loc := sm_next_loc m + 1 |>
              <| sm_sessions := <[h := sm_next_loc m]> (sm_sessions m) |> in
  sm_wf m' ∧ live m' = <[h := s]> (live m) ∧ live m !! h = None.
Proof using HL.
  intros Hwf Hroom Hn Hh Hc m'.
  destruct (alloc_next_fresh _ Hroom) as (h0 & a0 & Hn0 & Hfresh & _ & Hiss & Hmono).
  rewrite Hn in Hn0. injection Hn0 as <- <-.
  assert (sm_sessions m !! h = None) as Hnone.
  { destruct (sm_sessions m !! h) as [l|] eqn:E; [|done]. exfalso.
    destruct (wf_mapped _ Hwf _ _ E) as (s1 & Hs1 & <- & _).
    apply Hfresh. by destruct (wf_heap _ Hwf _ _ Hs1) as (_ & ? & _). }
  assert (∀ l s1, sm_heap m !! l = Some s1 → l ≠ sm_next_loc m) as Hlt.
  { intros l s1 Hs1 ->. destruct (wf_heap _ Hwf _ _ Hs1) as (? & _). lia. }
  split_and!.
  - split; simpl.
    + intros h' l' [[<- <-]|[Hne Hm]]%lookup_insert_Some.
      * rewrite lookup_insert_eq. eauto.
      * destruct (wf_mapped _ Hwf _ _ Hm) as (s1 & Hs1 & ? & ?).
        rewrite lookup_insert_ne by (by apply not_eq_sym, (Hlt _ s1)). eauto.
    + intros l' s' [[<- <-]|[Hne Hs']]%lookup_insert_Some.
      * rewrite Hh, lookup_insert_eq. split_and!; [lia|done|by left].
      * destruct (wf_heap _ Hwf _ _ Hs') as (? & ? & Hx). split_and!; [lia|by apply Hmono|].
        destruct Hx as [Hx|Hx]; [|by right]. left. rewrite lookup_insert_ne; [done|].
        intros E. rewrite E in Hnone. congruence.
  - apply map_eq. intros h'. unfold live. simpl. rewrite lookup_omap.
    destruct (decide (h' = h)) as [->|Hne].
    + by rewrite !lookup_insert_eq; simpl; rewrite lookup_insert_eq.
    + rewrite !lookup_insert_ne, lookup_omap by done.
      destruct (sm_sessions m !! h') as [l'|] eqn:E; simpl; [|done].
      destruct (wf_mapped _ Hwf _ _ E) as (s1 & Hs1 & _).
      by rewrite lookup_insert_ne by (by apply not_eq_sym, (Hlt _ s1)).
  - unfold live. rewrite lookup_omap, Hnone. done.
Qed.

(** [close_all_sessions] on the visited handles [hs]. *)
Definition closing_slot (slot : Z) (hs : list Z) m0 m : Prop :=
  ∀ h, live m !! h =
    match live m0 !! h with
    | Some s => if bool_decide (h ∈ hs) && of_slot slot s then None else Some s
    | None => None
    end.

Lemma close_all_visit_spec slot hs h any m0 m t any' m' t' :
  sm_wf m → counts_exact slot m t → counts_bounded t → closing_slot slot hs m0 m →
  close_all_visit slot (any, m, t) h = (any', m', t') →
  sm_wf m' ∧ counts_exact slot m' t' ∧ counts_bounded t' ∧
  closing_slot slot (hs ++ [h]) m0 m' ∧
  (∀ slot' t1, slot' ≠ slot → counts_exact slot' m t1 → counts_exact slot' m' t1).
Proof.
  intros Hwf Hce Hcb Hcl. unfold close_all_visit.
  assert (∀ m1, (∀ h', live m1 !! h' = if decide (h' = h) then
            match live m !! h with Some s => if of_slot slot s then None else Some s
                                 | None => None end else live m !! h') →
    closing_slot slot (hs ++ [h]) m0 m1) as Hnext.
  { intros m1 Hm1 h'. rewrite Hm1. destruct (decide (h' = h)) as [->|Hne]; rewrite Hcl.
    - rewrite (bool_decide_eq_true_2 (h ∈ hs ++ [h])) by set_solver.
      destruct (live m0 !! h) as [s0|]; [|done]. destruct (of_slot slot s0) eqn:E;
        rewrite ?andb_true_r, ?andb_false_r; simpl; [|by rewrite E].
      case_bool_decide; [done|by rewrite E].
    - destruct (live m0 !! h'); [|done].
      by rewrite (bool_decide_ext (h' ∈ hs ++ [h]) (h' ∈ hs)) by set_solver. }
  destruct (lookup_session m h) as [[l s]|] eqn:Hl.
  - pose proof (lookup_session_live _ _ _ _ Hl) as Hlive.
    destruct (Z.eqb_spec (s_slot_id s) slot) as [<-|Hne]; intros [= <- <- <-].
    + destruct (close_exact m h l s t Hwf Hl Hce Hcb) as (t2 & -> & He & Hb).
      split_and!; [by apply wf_close|done|done| |].
      * apply Hnext. intros h'. rewrite live_remove, (live_write m h l s) by done.
        destruct (decide (h' = h)) as [->|].
        -- rewrite lookup_delete_eq, Hlive. unfold of_slot. by rewrite Z.eqb_refl.
        -- by rewrite lookup_delete_ne, lookup_insert_ne.
      * intros slot' t1 Hne' H1. by apply close_other.
    + split_and!; try done. apply Hnext. intros h'. destruct (decide (h' = h)) as [->|]; [|done].
      rewrite Hlive. unfold of_slot. by rewrite (proj2 (Z.eqb_neq _ _) Hne).
  - intros [= <- <- <-]. split_and!; try done. apply Hnext. intros h'.
    destruct (decide (h' = h)) as [->|]; [|done]. by rewrite (lookup_session_None _ _ Hl).
Qed.

Lemma close_all_fold slot keys hs any m0 m t any' m' t' :
  sm_wf m → counts_exact slot m t → counts_bounded t → closing_slot slot hs m0 m →
  foldl (close_all_visit slot) (any, m, t) keys = (any', m', t') →
  sm_wf m' ∧ counts_exact slot m' t' ∧ counts_bounded t' ∧
  closing_slot slot (hs ++ keys) m0 m' ∧
  (∀ slot' t1, slot' ≠ slot → counts_exact slot' m t1 → counts_exact slot' m' t1).
Proof.
  revert hs any m t. induction keys as [|h keys IH]; intros hs any m t Hwf He Hb Hc;
    cbn [foldl].
  - intros [= <- <- <-]. by rewrite app_nil_r.
  - destruct (close_all_visit slot (any, m, t) h) as [[any1 m1] t1] eqn:Hv. intros Hf.
    destruct (close_all_visit_spec _ _ _ _ _ _ _ _ _ _ Hwf He Hb Hc Hv)
      as (Hwf1 & He1 & Hb1 & Hc1 & Ho1).
    destruct (IH _ _ _ _ Hwf1 He1 Hb1 Hc1 Hf) as (? & ? & ? & Hc2 & Ho2).
    rewrite <- app_assoc in Hc2. split_and!; auto.
Qed.

(** What [close_all_sessions] leaves: the sessions of the other slots. *)
Lemma close_all_spec slot m t c m' t' c' :
  sm_wf m → counts_exact slot m t → counts_bounded t →
  close_all_sessions slot m t c = (m', t', c') →
  sm_wf m' ∧ counts_exact slot m' t' ∧ counts_bounded t' ∧
  live m' = filter (λ kv, of_slot slot kv.2 = false) (live m) ∧
  (∀ slot' t1, slot' ≠ slot → counts_exact slot' m t1 → counts_exact slot' m' t1).
Proof using HL DL.
  intros Hwf He Hb. unfold close_all_sessions.
  destruct (foldl _ _ _) as [[any m1] t1] eqn:Hf. intros [= <- <- <-].
  assert (closing_slot slot [] m m) as H0.
  { intros h. by destruct (live m !! h). }
  destruct (close_all_fold _ _ _ _ _ _ _ _ _ _ Hwf He Hb H0 Hf) as (Hwf1 & He1 & Hb1 & Hc1 & Ho1).
  assert (live m1 = filter (λ kv, of_slot slot kv.2 = false) (live m)) as Hlive.
  { apply map_eq. intros h. rewrite Hc1, map_lookup_filter. simpl.
    destruct (live m !! h) as [s|] eqn:E; simpl; [|done].
    rewrite bool_decide_eq_true_2; [by destruct (of_slot slot s)|].
    apply dash_keys_elem. apply live_lookup in E as [l E].
    apply lookup_session_Some in E as [-> _]. eauto. }
  destruct any; [|done]. by split_and!; [apply wf_bump|..].
Qed.

(** ** Every slot with its token *)

Record SessWorld := { sw_mgr : SessionManager A; sw_tokens : gmap Z Token }.

Inductive SessOp :=
| SOpen (slot flags now : Z)
| SClose (handle : Z)
| SCloseAll (slot : Z)
| SLoginAll (slot user_type : Z)
| SLogoutAll (slot : Z)
| SCancel (slot : Z)
| STouch (handle now now' : Z).

(** The calls the ABI makes, each with the token of the slot concerned. *)
Definition sess_step (op : SessOp) (w : SessWorld) : SessWorld :=
  let m := sw_mgr w in
  let with_mgr m' := {| sw_mgr := m'; sw_tokens := sw_tokens w |} in
  match op with
  | SOpen slot flags now =>
    match sw_tokens w !! slot with
    | Some t => let '(_, m', t') := open_session slot flags now m t in
                {| sw_mgr := m'; sw_tokens := <[slot := t']> (sw_tokens w) |}
    | None => w
    end
  | SClose handle =>
    match lookup_session m handle with
    | Some (_, s) =>
      match sw_tokens w !! s_slot_id s with
      | Some t => let '(_, m', t', _) := close_session handle m t None in
                  {| sw_mgr := m'; sw_tokens := <[s_slot_id s := t']> (sw_tokens w) |}
      | None => w
      end
    | None => w
    end
  | SCloseAll slot =>
    match sw_tokens w !! slot with
    | Some t => let '(m', t', _) := close_all_sessions slot m t None in
                {| sw_mgr := m'; sw_tokens := <[slot := t']> (sw_tokens w) |}
    | None => w
    end
  | SLoginAll slot user_type => with_mgr (login_all slot user_type m).2
  | SLogoutAll slot => with_mgr (logout_all slot m).2
  | SCancel slot => with_mgr (cancel_sessions_for_slot slot m)
  | STouch handle now now' => with_mgr (check_and_touch handle now now' m None).1.2
  end.

Definition world_ok (w : SessWorld) : Prop :=
  sm_wf (sw_mgr w) ∧
  ∀ slot t, sw_tokens w !! slot = Some t →
    counts_exact slot (sw_mgr w) t ∧ counts_bounded t.

Lemma world_ok_keeps m m' ts :
  keeps_counts m m' → world_ok {| sw_mgr := m; sw_tokens := ts |} →
  world_ok {| sw_mgr := m'; sw_tokens := ts |}.
Proof.
  intros Hk [Hwf Hts]. destruct (Hk Hwf) as (Hwf' & _ & Hc). split; [done|].
  intros slot t Ht. destruct (Hts _ _ Ht) as [[H1 H2] Hb]. destruct (Hc slot) as [E1 E2].
  split; [|done]. split; simpl in *; congruence.
Qed.

(** A step that only concerns one slot's token. *)
Lemma world_ok_token m' ts slot t' :
  sm_wf m' → counts_exact slot m' t' → counts_bounded t' →
  (∀ slot' t1, slot' ≠ slot → ts !! slot' = Some t1 →
     counts_exact slot' m' t1 ∧ counts_bounded t1) →
  world_ok {| sw_mgr := m'; sw_tokens := <[slot := t']> ts |}.
Proof.
  intros Hwf He Hb Ho. split; [done|]. simpl.
  intros slot' t1 [[<- <-]|[Hne H1]]%lookup_insert_Some; [done|]. apply Ho; auto.
Qed.

(** The handle counter is not exhausted, and a touched session has not
    expired. *)
Definition admissible (op : SessOp) (w : SessWorld) : Prop :=
  match op with
  | SOpen _ _ _ => alloc_room (sm_alloc (sw_mgr w))
  | STouch handle now _ =>
    sm_idle_timeout (sw_mgr w) = 0 ∨
    ∀ l s, lookup_session (sw_mgr w) handle = Some (l, s) →
           idle_duration now s <= sm_idle_timeout (sw_mgr w)
  | _ => True
  end.

Lemma step_open_ok slot flags now w :
  world_ok w → alloc_room (sm_alloc (sw_mgr w)) → world_ok (sess_step (SOpen slot flags now) w).
Proof using HL.
  intros [Hwf Hts] Hroom. simpl. destruct (sw_tokens w !! slot) as [t|] eqn:Ht; [|done].
  destruct (Hts _ _ Ht) as [[Hc Hr] [Hbc Hbr]].
  destruct (open_session_cases slot flags now (sw_mgr w) t Hroom)
    as [(x & m' & t' & -> & Hl & Hh & Ha & Hs & Hn & E1 & E2 & E3 & E4)
       |(h & alloc & s & t' & -> & Hnext & Hinc & Hsh & Hss & Hsc & Hrw)].
  - assert (sm_wf m') as Hwf'.
    { destruct Hwf as [H1 H2]. split; rewrite ?Hh, ?Ha, ?Hs, ?Hn; auto. }
    apply world_ok_token; [done| | |].
    + unfold counts_exact, slot_count, slot_rw_count in *. rewrite Hl. split; congruence.
    + unfold counts_bounded. rewrite E1, E2, E3, E4. done.
    + intros slot' t1 _ H1. destruct (Hts _ _ H1) as [[] ?]. split; [|done].
      unfold counts_exact, slot_count, slot_rw_count in *. rewrite Hl. done.
  - destruct (open_wf _ h alloc s Hwf Hroom Hnext Hsh Hsc) as (Hwf' & Hlive & Hnone).
    destruct (increment_counts _ _ _ _ Hinc) as (Hm & Hmr & _ & F1 & F2 & F3 & F4).
    apply world_ok_token; [done| | |].
    + unfold counts_exact, slot_count, slot_rw_count in *. rewrite Hlive.
      rewrite !map_count_insert, F1, F2, of_slot_same, rw_of_slot_same by done.
      destruct (session_is_rw s); simpl; lia.
    + unfold counts_bounded. rewrite Hm, Hmr. split; [done|].
      destruct (session_is_rw s); [auto|]. rewrite F2. simpl. lia.
    + intros slot' t1 Hne H1. destruct (Hts _ _ H1) as [[C1 C2] ?]. split; [|done].
      unfold counts_exact, slot_count, slot_rw_count in *. rewrite Hlive.
      rewrite !map_count_insert, of_slot_other, rw_of_slot_other by congruence.
      by rewrite !Nat.add_0_r.
Qed.

Lemma step_close_ok handle w : world_ok w → world_ok (sess_step (SClose handle) w).
Proof using HL.
  intros Hok. pose proof Hok as [Hwf Hts]. simpl.
  destruct (lookup_session (sw_mgr w) handle) as [[l s]|] eqn:Hl; [|done].
  destruct (sw_tokens w !! s_slot_id s) as [t|] eqn:Ht; [|done].
  destruct (Hts _ _ Ht) as [He Hb].
  destruct (close_exact _ _ _ _ _ Hwf Hl He Hb) as (t' & Hdec & He' & Hb').
  unfold close_session. rewrite Hl, Hdec. apply world_ok_token; [|done|done|].
  - by apply (wf_bump (remove_session handle (write_session l (close_mark s) (sw_mgr w)))), wf_close.
  - intros slot' t1 Hne H1. destruct (Hts _ _ H1) as [H1e ?]. split; [|done].
    by apply (close_other _ _ _ _ slot' t1 Hwf Hl).
Qed.

Lemma step_close_all_ok slot w : world_ok w → world_ok (sess_step (SCloseAll slot) w).
Proof using HL DL.
  intros Hok. pose proof Hok as [Hwf Hts]. cbn [sess_step].
  destruct (sw_tokens w !! slot) as [t|] eqn:Ht; [|done]. destruct (Hts _ _ Ht) as [He Hb].
  destruct (close_all_sessions slot (sw_mgr w) t None) as [[m' t'] c'] eqn:Hc.
  destruct (close_all_spec _ _ _ _ _ _ _ Hwf He Hb Hc) as (Hwf' & He' & Hb' & _ & Ho).
  apply world_ok_token; [done..|]. intros slot' t1 Hne H1.
  destruct (Hts _ _ H1). auto.
Qed.

Lemma step_ok op w : world_ok w → admissible op w → world_ok (sess_step op w).
Proof using HL DL.
  destruct w as [m ts]. intros Hok Had. destruct op.
  - by apply step_open_ok.
  - by apply step_close_ok.
  - by apply step_close_all_ok.
  - eapply world_ok_keeps, Hok. apply login_all_keeps.
  - eapply world_ok_keeps, Hok. apply logout_all_keeps.
  - eapply world_ok_keeps, Hok. apply cancel_keeps.
  - eapply world_ok_keeps, Hok. simpl. unfold check_and_touch.
    destruct (lookup_session m handle) as [[l s]|] eqn:Hl; [|reflexivity].
    destruct (_ && _) eqn:E; [|by eapply write_keeps_counts].
    exfalso. apply andb_true_iff in E as [E1 E2]. bool_to_prop.
    destruct Had as [Hz|Hle]; [done|]. specialize (Hle _ _ Hl). simpl in Hle. lia.
Qed.

Definition world_step (w w' : SessWorld) : Prop :=
  ∃ op, admissible op w ∧ w' = sess_step op w.


(** ** Login states of the sessions *)

(** The state a session of a token must be in. *)
Definition state_for (login : LoginState) (rw : bool) : SessionState :=
  match login, rw with
  | Public, false => RoPublic
  | Public, true => RwPublic
  | UserLoggedIn, false => RoUser
  | UserLoggedIn, true => RwUser
  | SoLoggedIn, _ => RwSO
  end.

(** A session agrees with its token's login; while the SO is logged in it is
    read-write. *)
Definition agrees (login : LoginState) (s : Session) : Prop :=
  s_state s = state_for login (session_is_rw s) ∧
  (login = SoLoggedIn → session_is_rw s = true).

Definition slot_agrees (slot : Z) (login : LoginState) m : Prop :=
  ∀ h s, live m !! h = Some s → s_slot_id s = slot → agrees login s.

Definition login_of (user_type : Z) : LoginState :=
  if user_type =? CKU_USER then UserLoggedIn else SoLoggedIn.

Lemma on_login_agrees ty s :
  agrees Public s → (login_of ty = SoLoggedIn → session_is_rw s = true) →
  ∃ s', on_login ty s = Ok s' ∧ agrees (login_of ty) s' ∧ s_slot_id s' = s_slot_id s ∧
        same_frame s s'.
Proof.
  unfold agrees, on_login, login_of, on_user_login, on_so_login, same_frame, session_is_rw.
  intros [Hs _] Hrw. destruct (ty =? CKU_USER).
  - destruct (s_state s); simpl in *; try done;
      (eexists; split; [reflexivity|]); simpl; repeat split; done.
  - specialize (Hrw eq_refl). destruct (s_state s); simpl in *; try done;
      (eexists; split; [reflexivity|]); simpl; repeat split; done.
Qed.

Lemma on_logout_agrees login s :
  login ≠ Public → agrees login s →
  ∃ s', on_logout s = Ok s' ∧ agrees Public s' ∧ s_slot_id s' = s_slot_id s ∧ same_frame s s'.
Proof.
  unfold agrees, on_logout, same_frame, session_is_rw. intros Hl [Hs Hso].
  destruct login; [done| |specialize (Hso eq_refl)];
    destruct (s_state s); simpl in *; try done;
      (eexists; split; [reflexivity|]); simpl; repeat split; done.
Qed.

(** Phase 2 of [login_all] on sessions that can all log in. *)
Lemma login_each_agrees slot ty handles logged m :
  sm_wf m → NoDup handles →
  (∀ h, h ∈ handles → ∃ s, live m !! h = Some s ∧ s_slot_id s = slot ∧ agrees Public s ∧
                           (login_of ty = SoLoggedIn → session_is_rw s = true)) →
  ∃ m', login_each slot ty handles logged m = (Ok tt, m') ∧ sm_wf m' ∧
    ∀ h, if bool_decide (h ∈ handles)
         then ∃ s', live m' !! h = Some s' ∧ s_slot_id s' = slot ∧ agrees (login_of ty) s'
         else live m' !! h = live m !! h.
Proof.
  revert logged m. induction handles as [|h handles IH]; intros logged m Hwf Hnd Hall;
    cbn [login_each].
  - exists m. split_and!; [done|done|]. intros h. by rewrite bool_decide_eq_false_2 by set_solver.
  - destruct (Hall h) as (s & Hs & Hsl & Hag & Hso); [set_solver|].
    apply live_lookup in Hs as [l Hl]. rewrite Hl, Hsl, Z.eqb_refl. simpl.
    destruct (on_login_agrees ty s Hag Hso) as (s' & -> & Hag' & Hsl' & Hfr).
    inversion Hnd as [|?? Hni Hnd']; subst.
    pose proof (live_write m h l s s' Hwf Hl) as Hlw.
    destruct (IH (logged ++ [h]) (write_session l s' m)) as (m' & -> & Hwf' & Hm').
    + destruct Hfr as (? & ? & ? & ?). by eapply wf_write.
    + done.
    + intros h' Hh'. rewrite Hlw, lookup_insert_ne by (intros ->; done). apply Hall. set_solver.
    + exists m'. split_and!; [done|done|]. intros h'. specialize (Hm' h').
      destruct (decide (h' = h)) as [->|Hne].
      * rewrite bool_decide_eq_false_2 in Hm' by done. rewrite bool_decide_eq_true_2 by set_solver.
        exists s'. rewrite Hm', Hlw, lookup_insert_eq. done.
      * rewrite (bool_decide_ext (h' ∈ h :: handles) (h' ∈ handles)) by set_solver.
        case_bool_decide; [done|]. by rewrite Hm', Hlw, lookup_insert_ne.
Qed.

Lemma slot_handles_elem slot m h :
  h ∈ slot_handles slot m ↔ ∃ s, live m !! h = Some s ∧ s_slot_id s = slot.
Proof using HL DL.
  unfold slot_handles. rewrite list_elem_of_In, filter_In, <- list_elem_of_In, dash_keys_elem.
  split.
  - intros [[l Hl] Hf]. destruct (lookup_session m h) as [[l' s]|] eqn:E; [|done].
    exists s. apply Z.eqb_eq in Hf. split; [|done]. by eapply lookup_session_live.
  - intros (s & Hs & <-). apply live_lookup in Hs as [l Hl]. rewrite Hl, Z.eqb_refl.
    apply lookup_session_Some in Hl as [-> _]. eauto.
Qed.

Lemma slot_handles_NoDup slot m : NoDup (slot_handles slot m).
Proof using HL DL.
  apply NoDup_ListNoDup. apply List.NoDup_filter, NoDup_ListNoDup, dash_keys_NoDup.
Qed.

(** A slot whose sessions are all public logs in as a whole. *)
Lemma login_all_agrees slot ty m :
  sm_wf m → ty = CKU_USER ∨ ty = CKU_SO → slot_agrees slot Public m →
  (ty = CKU_SO → has_ro_sessions slot m = false) →
  ∃ m', login_all slot ty m = (Ok tt, m') ∧ sm_wf m' ∧ slot_agrees slot (login_of ty) m' ∧
    (∀ slot' login, slot' ≠ slot → slot_agrees slot' login m → slot_agrees slot' login m') ∧
    dom (live m') = dom (live m).
Proof using HL DL.
  intros Hwf Hty Hag Hro. unfold login_all.
  replace (negb (ty =? CKU_USER) && negb (ty =? CKU_SO)) with false
    by (by destruct Hty as [-> | ->]).
  destruct (login_each_agrees slot ty (slot_handles slot m) [] m Hwf (slot_handles_NoDup _ _))
    as (m' & -> & Hwf' & Hm').
  { intros h (s & Hs & Hsl)%slot_handles_elem. exists s. split_and!; eauto.
    intros Hso. destruct Hty as [-> | ->]; [done|]. specialize (Hro eq_refl).
    destruct (session_is_rw s) eqn:Hrw; [done|]. exfalso.
    apply live_lookup in Hs as [l Hl]. unfold has_ro_sessions in Hro.
    apply not_true_iff_false in Hro. apply Hro. apply existsb_exists. exists h.
    rewrite Hl, Hsl, Z.eqb_refl, Hrw. split; [|done].
    apply list_elem_of_In, dash_keys_elem. apply lookup_session_Some in Hl as [-> _]. eauto. }
  exists m'. split_and!; [done|done| | |].
  - intros h s Hs Hsl. specialize (Hm' h). case_bool_decide as Hin.
    + destruct Hm' as (s' & Hs' & _ & Ha). congruence.
    + exfalso. apply Hin, slot_handles_elem. exists s. split; [congruence|done].
  - intros slot' login Hne Ha h s Hs Hsl. specialize (Hm' h). case_bool_decide as Hin.
    + destruct Hm' as (s' & Hs' & Hsl' & _). congruence.
    + apply (Ha h s); congruence.
  - apply set_eq. intros h. rewrite !elem_of_dom. specialize (Hm' h). case_bool_decide as Hin.
    + apply slot_handles_elem in Hin as (s & -> & _). destruct Hm' as (s' & -> & _). split; eauto.
    + by rewrite Hm'.
Qed.

(** Every session of the slot visited by a loop that logs it out. *)
Definition logged_out (slot : Z) (hs : list Z) m0 m : Prop :=
  sm_wf m ∧ ∀ h,
    match live m0 !! h with
    | Some s => ∃ s', live m !! h = Some s' ∧ same_frame s s' ∧
        (if bool_decide (h ∈ hs) && of_slot slot s
         then agrees Public s' ∧ s_active_operation s' = None ∧ s_find_context s' = None
         else s' = s)
    | None => live m !! h = None
    end.

Lemma same_frame_refl s : same_frame s s.
Proof. done. Qed.

Lemma logged_out_write slot hs m0 m h l s s' :
  logged_out slot hs m0 m → lookup_session m h = Some (l, s) → same_frame s s' →
  (if of_slot slot s then agrees Public s' ∧ s_active_operation s' = None ∧
                          s_find_context s' = None else s' = s) →
  logged_out slot (hs ++ [h]) m0 (write_session l s' m).
Proof.
  intros [Hwf Hlo] Hl Hfr Hs'. pose proof (lookup_session_live _ _ _ _ Hl) as Hlive.
  split; [destruct Hfr as (? & ? & ? & ?); by eapply wf_write|]. intros h'.
  rewrite (live_write m h l s) by done. specialize (Hlo h').
  destruct (decide (h' = h)) as [->|Hne].
  - rewrite lookup_insert_eq. destruct (live m0 !! h) as [s0|]; [|congruence].
    destruct Hlo as (s1 & E1 & (Fh & Fs & Fc & Fr) & Hs1). simplify_eq.
    exists s'. split; [done|]. destruct Hfr as (Gh & Gs & Gc & Gr).
    split; [split_and!; congruence|].
    rewrite bool_decide_eq_true_2 by set_solver. simpl.
    replace (of_slot slot s0) with (of_slot slot s1) by (unfold of_slot; congruence).
    destruct (of_slot slot s1) eqn:Eo; [done|]. subst s'.
    replace (of_slot slot s0) with false in Hs1 by (unfold of_slot in *; congruence).
    by rewrite andb_false_r in Hs1.
  - rewrite lookup_insert_ne by done. destruct (live m0 !! h') as [s0|]; [|done].
    destruct Hlo as (s1 & E1 & F1 & Hs1). exists s1. split_and!; [done|done|].
    by rewrite (bool_decide_ext (h' ∈ hs ++ [h]) (h' ∈ hs)) by set_solver.
Qed.

Lemma logged_out_skip slot hs m0 m h :
  logged_out slot hs m0 m →
  (∀ s, live m !! h = Some s → of_slot slot s = false) →
  logged_out slot (hs ++ [h]) m0 m.
Proof.
  intros [Hwf Hlo] Hno. split; [done|]. intros h'. specialize (Hlo h').
  destruct (live m0 !! h') as [s0|]; [|done]. destruct Hlo as (s1 & E1 & F1 & Hs1).
  exists s1. split_and!; [done|done|]. destruct (decide (h' = h)) as [->|Hne].
  - replace (of_slot slot s0) with false in *; [by rewrite andb_false_r in *|].
    symmetry. rewrite <- (Hno _ E1). unfold of_slot. by destruct F1 as (_ & -> & _).
  - by rewrite (bool_decide_ext (h' ∈ hs ++ [h]) (h' ∈ hs)) by set_solver.
Qed.

(** A session that is public once its operations are cancelled. *)
Lemma cancelled_agrees login s :
  agrees login s →
  let s1 := s <| s_active_operation := None |> <| s_find_context := None |> in
  let s2 := match on_logout s1 with Ok s' => s' | Err _ => s1 end in
  same_frame s s2 ∧ agrees Public s2 ∧ s_active_operation s2 = None ∧ s_find_context s2 = None.
Proof.
  unfold agrees, on_logout, same_frame, session_is_rw. intros [Hs Hso]. simpl.
  destruct login; [| |specialize (Hso eq_refl)];
    destruct (s_state s) eqn:E; simpl in *; rewrite ?E in *; simpl in *; split_and!; done.
Qed.

Lemma cancel_visit_spec slot login hs h m0 m :
  slot_agrees slot login m0 → h ∉ hs → logged_out slot hs m0 m →
  logged_out slot (hs ++ [h]) m0 (cancel_visit slot m h).
Proof.
  intros Hag Hni Hlo. unfold cancel_visit.
  destruct (lookup_session m h) as [[l s]|] eqn:Hl.
  - pose proof (lookup_session_live _ _ _ _ Hl) as Hlive.
    destruct (Z.eqb_spec (s_slot_id s) slot) as [Hsl|Hsl]; cbn [negb].
    + assert (agrees login s) as Ha.
      { destruct Hlo as [_ Hlo]. specialize (Hlo h).
        destruct (live m0 !! h) as [s0|] eqn:E0; [|congruence].
        destruct Hlo as (s1 & E1 & _ & Hs1). rewrite bool_decide_eq_false_2 in Hs1 by done.
        simplify_eq/=. by eapply Hag. }
      destruct (cancelled_agrees _ _ Ha) as (F & Hrest).
      eapply logged_out_write; [done|done|done|]. by rewrite of_slot_same.
    + apply logged_out_skip; [done|]. intros s' Hs'. simplify_eq. by apply of_slot_other.
  - apply logged_out_skip; [done|]. intros s' Hs'. by rewrite (lookup_session_None _ _ Hl) in Hs'.
Qed.

Lemma cancel_fold slot login keys hs m0 m :
  slot_agrees slot login m0 → NoDup (hs ++ keys) → logged_out slot hs m0 m →
  logged_out slot (hs ++ keys) m0 (foldl (cancel_visit slot) m keys).
Proof.
  intros Hag. revert hs m. induction keys as [|h keys IH]; intros hs m Hnd Hlo; cbn [foldl].
  - by rewrite app_nil_r.
  - rewrite (cons_middle h hs keys). rewrite app_assoc. apply IH.
    + by rewrite <- app_assoc.
    + eapply cancel_visit_spec; [done| |done]. apply NoDup_app in Hnd as (_ & Hd & _).
      intros Hin. eapply Hd; [done|]. set_solver.
Qed.

(** After a cancellation every session of the slot is public and idle; the
    others are untouched. *)
Lemma cancel_agrees slot login m :
  sm_wf m → slot_agrees slot login m →
  let m' := cancel_sessions_for_slot slot m in
  sm_wf m' ∧ slot_agrees slot Public m' ∧
  (∀ h s, live m' !! h = Some s → s_slot_id s = slot →
     s_active_operation s = None ∧ s_find_context s = None) ∧
  (∀ slot' login', slot' ≠ slot → slot_agrees slot' login' m → slot_agrees slot' login' m').
Proof using HL DL.
  intros Hwf Hag m'.
  assert (logged_out slot (dash_keys (sm_sessions m)) m m') as [Hwf' Hlo].
  { apply (cancel_fold slot login _ [] m m Hag (dash_keys_NoDup _)). split; [done|].
    intros h. destruct (live m !! h) as [s|]; [|done]. exists s. by rewrite bool_decide_eq_false_2 by set_solver. }
  assert (∀ h s', live m' !! h = Some s' → ∃ s, live m !! h = Some s ∧ same_frame s s' ∧
    if of_slot slot s then agrees Public s' ∧ s_active_operation s' = None ∧
                           s_find_context s' = None else s' = s) as Hall.
  { intros h s' Hs'. specialize (Hlo h). destruct (live m !! h) as [s|] eqn:E; [|congruence].
    destruct Hlo as (s1 & E1 & F1 & Hs1). simplify_eq. exists s. split_and!; [done|done|].
    rewrite bool_decide_eq_true_2 in Hs1; [done|]. apply dash_keys_elem.
    apply live_lookup in E as [l E]. apply lookup_session_Some in E as [-> _]. eauto. }
  split_and!; [done| | |].
  - intros h s' Hs' Hsl. destruct (Hall _ _ Hs') as (s & _ & (_ & Es & _) & Hr).
    rewrite of_slot_same in Hr by congruence. by destruct Hr.
  - intros h s' Hs' Hsl. destruct (Hall _ _ Hs') as (s & _ & (_ & Es & _) & Hr).
    rewrite of_slot_same in Hr by congruence. by destruct Hr.
  - intros slot' login' Hne Ha h s' Hs' Hsl.
    destruct (Hall _ _ Hs') as (s & E & (_ & Es & _) & Hr).
    rewrite of_slot_other in Hr by congruence. subst s'. by eapply Ha.
Qed.
End ManagerProofs.

(** ** Concrete sessions *)

(** An iteration order. *)
Definition toy_order : DashOrder := λ m, (map_to_list m).*1.

#[export] Instance toy_order_laws : DashOrderLaws toy_order.
Proof.
  split.
  - intros m h. unfold dash_keys, toy_order. rewrite list_elem_of_fmap. split.
    + intros ([h' l] & -> & Hl%elem_of_map_to_list). eauto.
    + intros [l Hl]. exists (h, l). by rewrite elem_of_map_to_list.
  - intros m. apply NoDup_fst_map_to_list.
Defined.

Section SessionWitness.
#[local] Existing Instance toy_order.

Definition demo_alloc : SessionHandleAllocator := SessionHandleAllocator_new [3; 5; 7; 11].
Definition demo_token : Token :=
  {| t_label := []; t_so_pin_hash := None; t_user_pin_hash := None; t_auth := AuthState_new;
     t_session_count := 0; t_rw_session_count := 0; t_max_sessions := 1;
     t_max_rw_sessions := 1; t_pin_min_len := 4; t_pin_max_len := 64;
     t_max_failed_logins := 3; t_pbkdf2_iterations := 1; t_lockout_store := false;
     t_token_state_store := None; t_object_key_salt := None;
     t_object_master_key_wrapped := None |}.
Definition demo_mgr : SessionManager SessionHandleAllocator :=
  set_idle_timeout 1000 (SessionManager_new demo_alloc).
Definition rw_flags : Z := Z.lor CKF_SERIAL_SESSION CKF_RW_SESSION.

Lemma demo_world_ok : world_ok {| sw_mgr := demo_mgr; sw_tokens := {[0 := demo_token]} |}.
Proof.
  split.
  - split; simpl; intros ?? H; by rewrite lookup_empty in H.
  - simpl. intros slot t [<- <-]%lookup_singleton_Some. unfold counts_exact, slot_count,
      slot_rw_count, live, counts_bounded. simpl. rewrite omap_empty, !map_count_empty. done.
Qed.


(** Idle expiry leaks the token's counters.  A token that allows one
    session opens it; the session expires and is removed by
    [cleanup_idle_sessions], which has no token to count down; no session is
    live, yet the next [open_session] is refused with [SessionCount]. *)
Theorem idle_cleanup_leaks_session_count :
  let '(r1, m1, t1) := open_session 0 rw_flags 0 demo_mgr demo_token in
  let '(closed, m2) := cleanup_idle_sessions (λ _, 5000) m1 in
  is_ok r1 = true ∧ length closed = 1%nat ∧ sessions_len m2 = 0%nat ∧
  (open_session 0 rw_flags 6000 m2 t1).1.1 = Err SessionCount.
Proof. vm_compute. done. Qed.
End SessionWitness.
