(* ===== verification/SessionCache.v ===== *)
(** * The thread-local session cache under concurrency

    [get_session_cached] of src/session/manager.rs, interleaved with the
    operations that remove sessions, at the granularity of their accesses to
    shared memory: the load of the generation counter, the [DashMap] lookup,
    the removal of an entry and the later increment of the generation.  The
    cache itself is private to its thread. *)

From S2P Require Import Prelude Pkcs11 Handles Hash PinCrypto TokenFiles Token Session SessionManager.

(** ** Sequential behaviour *)

Section Sequential.
Context {A : Type}.
Implicit Types (m : SessionManager A).

(** What a cache entry promises while nothing has been removed since. *)
Definition cache_sound m (c : TlsCache) : Prop :=
  ∀ h g l, c = Some (h, g, l) → g = sm_generation m → sm_sessions m !! h = Some l.

Lemma cached_lookup_agrees m h c :
  cache_sound m c →
  (get_session_cached m h c).1 = get_session m h ∧ cache_sound m (get_session_cached m h c).2.
Proof.
  intros Hs. unfold get_session_cached.
  assert (∀ l, get_session m h = Ok l → cache_sound m (Some (h, sm_generation m, l))) as Hnew.
  { intros l Hl h' g' l' [= <- <- <-] _. unfold get_session in Hl.
    destruct (sm_sessions m !! h); simpl in Hl; congruence. }
  destruct c as [[[h0 g0] l0]|].
  - destruct (Z.eqb_spec h0 h) as [->|]; simpl.
    + destruct (Z.eqb_spec g0 (sm_generation m)) as [->|]; simpl.
      * unfold get_session. by rewrite (Hs _ _ _ eq_refl eq_refl).
      * destruct (get_session m h) eqn:E; simpl; auto.
    + destruct (get_session m h) eqn:E; simpl; auto.
  - destruct (get_session m h) eqn:E; simpl; auto.
Qed.
End Sequential.

(** ** Interleavings *)

(** A call of [get_session_cached] after its load of the generation, with what
    the map held at that moment, and whether the handle had then been removed
    by a thread that had not yet increased the generation. *)
Record CacheCall := {
  call_handle : Z;
  call_gen : Z;
  call_snapshot : option Z;
  call_racing : bool;
}.

(** [cs_unpublished] gives, for each thread, the handles it has removed since
    it last increased the generation; [cs_returned] records every answer that
    came out of a cache. *)
Record CacheState := {
  cs_map : gmap Z Z;
  cs_gen : Z;
  cs_used : gset Z;
  cs_unpublished : gmap Z (gset Z);
  cs_cache : gmap Z (Z * Z * Z);
  cs_calls : gmap Z CacheCall;
  cs_returned : list (CacheCall * Z);
}.

#[export] Instance CacheState_expand : FieldExpansion CacheState := λ s,
  Build_CacheState (cs_map s) (cs_gen s) (cs_used s) (cs_unpublished s) (cs_cache s)
    (cs_calls s) (cs_returned s).

Definition unpublished (s : CacheState) (h : Z) : bool :=
  bool_decide (map_Exists (λ _ hs, h ∈ hs) (cs_unpublished s)).

Definition removed_by (s : CacheState) (th : Z) : gset Z :=
  default ∅ (cs_unpublished s !! th).

Inductive cache_step (s : CacheState) : CacheState → Prop :=
(** [open_session]: the allocator never issues a handle twice. *)
| step_open h l :
    h ∉ cs_used s →
    cache_step s (s <| cs_map := <[h := l]> (cs_map s) |>
                    <| cs_used := {[h]} ∪ cs_used s |>)
(** [sessions.remove] or [retain], by thread [th]. *)
| step_remove th h l :
    cs_map s !! h = Some l →
    cache_step s (s <| cs_map := delete h (cs_map s) |>
                    <| cs_unpublished :=
                         <[th := {[h]} ∪ removed_by s th]> (cs_unpublished s) |>)
(** [generation.fetch_add(1)] by thread [th]. *)
| step_publish th :
    cs_gen s < u64_max →
    cache_step s (s <| cs_gen := cs_gen s + 1 |>
                    <| cs_unpublished := delete th (cs_unpublished s) |>)
(** [invalidate_session_cache] on the own cache. *)
| step_invalidate th :
    cs_calls s !! th = None →
    cache_step s (s <| cs_cache := delete th (cs_cache s) |>)
(** [generation.load] at the start of [get_session_cached]. *)
| step_load th h :
    cs_calls s !! th = None →
    cache_step s (s <| cs_calls :=
      <[th := {| call_handle := h; call_gen := cs_gen s;
                 call_snapshot := cs_map s !! h;
                 call_racing := unpublished s h |}]> (cs_calls s) |>)
(** A cache hit. *)
| step_hit th c l :
    cs_calls s !! th = Some c →
    cs_cache s !! th = Some (call_handle c, call_gen c, l) →
    cache_step s (s <| cs_calls := delete th (cs_calls s) |>
                    <| cs_returned := (c, l) :: cs_returned s |>)
(** A miss: the lookup, which fills the cache with the generation loaded. *)
| step_miss th c l :
    cs_calls s !! th = Some c →
    (∀ l', cs_cache s !! th ≠ Some (call_handle c, call_gen c, l')) →
    cs_map s !! call_handle c = Some l →
    cache_step s (s <| cs_calls := delete th (cs_calls s) |>
                    <| cs_cache := <[th := (call_handle c, call_gen c, l)]> (cs_cache s) |>)
| step_miss_none th c :
    cs_calls s !! th = Some c →
    cs_map s !! call_handle c = None →
    cache_step s (s <| cs_calls := delete th (cs_calls s) |>).

Definition cache_init : CacheState :=
  {| cs_map := ∅; cs_gen := 0; cs_used := ∅; cs_unpublished := ∅; cs_cache := ∅;
     cs_calls := ∅; cs_returned := [] |}.

(** ** Invariant *)

(** The answer a call may give from its cache. *)
Definition answer_ok (c : CacheCall) (l : Z) : Prop :=
  call_snapshot c = Some l ∨ call_racing c = true.

Record cache_inv (s : CacheState) : Prop := {
  inv_map h l : cs_map s !! h = Some l → h ∈ cs_used s;
  inv_cache th h g l : cs_cache s !! th = Some (h, g, l) →
    h ∈ cs_used s ∧ g <= cs_gen s ∧
    (g = cs_gen s → cs_map s !! h = Some l ∨ unpublished s h = true);
  inv_call th c : cs_calls s !! th = Some c →
    call_gen c <= cs_gen s ∧
    ∀ l, cs_cache s !! th = Some (call_handle c, call_gen c, l) → answer_ok c l;
  inv_returned : Forall (λ cl, answer_ok cl.1 cl.2) (cs_returned s);
}.

Lemma unpublished_true s h : unpublished s h = true ↔ ∃ th, h ∈ removed_by s th.
Proof.
  unfold unpublished, removed_by. rewrite bool_decide_eq_true. split.
  - intros (th & hs & Hl & Hin). exists th. by rewrite Hl.
  - intros [th Hin]. destruct (cs_unpublished s !! th) as [hs|] eqn:E; simpl in Hin;
      [by exists th, hs|set_solver].
Qed.

Lemma inv_remove s th h l :
  cache_inv s → cs_map s !! h = Some l →
  cache_inv (s <| cs_map := delete h (cs_map s) |>
               <| cs_unpublished := <[th := {[h]} ∪ removed_by s th]> (cs_unpublished s) |>).
Proof.
  intros [Hm Hc Hk Hr] Hh. split; simpl; [| |done|done].
  - intros h' l' [_ ?]%lookup_delete_Some. eauto.
  - intros th' h' g l' Hc'. destruct (Hc _ _ _ _ Hc') as (? & ? & Hg). split_and!; [done|done|].
    intros ->. destruct (Hg eq_refl) as [Hml|Hu].
    + destruct (decide (h' = h)) as [->|]; [|left; by rewrite lookup_delete_ne].
      right. apply unpublished_true. exists th. unfold removed_by. simpl.
      rewrite lookup_insert_eq. simpl. set_solver.
    + right. apply unpublished_true in Hu as [th1 Hin]. apply unpublished_true.
      exists th1. unfold removed_by. simpl. destruct (decide (th1 = th)) as [->|].
      * rewrite lookup_insert_eq. simpl. set_solver.
      * by rewrite lookup_insert_ne.
Qed.

Lemma cache_step_inv s s' : cache_inv s → cache_step s s' → cache_inv s'.
Proof.
  intros Hinv Hstep. pose proof Hinv as [Hm Hc Hk Hr]. destruct Hstep.
  - split; simpl; [| |done|done].
    + intros h' l' [[<- _]|[_ ?]]%lookup_insert_Some; [set_solver|]. apply elem_of_union. eauto.
    + intros th h' g l' Hc'. destruct (Hc _ _ _ _ Hc') as (Hu & ? & Hg).
      split_and!; [set_solver|done|]. intros Eg. destruct (Hg Eg); [left|by right].
      rewrite lookup_insert_ne; [done|]. intros ->. done.
  - by eapply inv_remove.
  - split; simpl; [done| | |done].
    + intros th' h g l Hc'. destruct (Hc _ _ _ _ Hc') as (? & ? & _). split_and!; [done|lia|lia].
    + intros th' c Hc'. destruct (Hk _ _ Hc') as [? Ha]. split; [lia|done].
  - split; simpl; [done| | |done].
    + intros th' h g l [_ ?]%lookup_delete_Some. eauto.
    + intros th' c Hc'. destruct (Hk _ _ Hc') as [? Ha]. split; [done|].
      intros l [_ ?]%lookup_delete_Some. eauto.
  - split; simpl; [done|done| |done].
    intros th' c [[<- <-]|[_ Hc']]%lookup_insert_Some; [|eauto]. simpl. split; [done|].
    intros l Hl. destruct (Hc _ _ _ _ Hl) as (_ & _ & Hg). exact (Hg eq_refl).
  - split; simpl; [done|done| |].
    + intros th' c' [_ ?]%lookup_delete_Some. eauto.
    + constructor; [|done]. simpl. destruct (Hk _ _ H) as [_ Ha]. auto.
  - split; simpl; [done| | |done].
    + intros th' h g l' [[<- [= <- <- <-]]|[_ ?]]%lookup_insert_Some; [|eauto].
      destruct (Hk _ _ H) as [? _]. split_and!; [eauto|done|by left].
    + intros th' c' [Hne Hc']%lookup_delete_Some. destruct (Hk _ _ Hc') as [? Ha].
      split; [done|]. intros l'. rewrite lookup_insert_ne by done. eauto.
  - split; simpl; [done|done| |done]. intros th' c' [_ ?]%lookup_delete_Some. eauto.
Qed.

Lemma cache_init_inv : cache_inv cache_init.
Proof. split; simpl; [intros ??..|]; by rewrite ?lookup_empty. Qed.

Lemma cache_steps_inv s s' : cache_inv s → rtc cache_step s s' → cache_inv s'.
Proof. intros Hi Hr. induction Hr; [done|]. eauto using cache_step_inv. Qed.

(** The session cache never resurrects a closed session.  In every
    interleaving of lookups with opens and removals by other threads, a session
    answered from a thread's cache was mapped to the handle when the call
    loaded the generation; the only exception is a removal whose thread had not
    yet increased the generation at that moment. *)
Theorem cached_session_was_mapped s c l
    (Hreach : rtc cache_step cache_init s) (Hret : (c, l) ∈ cs_returned s) :
  call_snapshot c = Some l ∨ call_racing c = true.
Proof.
  assert (cache_inv s) as [_ _ _ Hr].
  { eapply cache_steps_inv; [apply cache_init_inv|done]. }
  rewrite Forall_forall in Hr. by apply (Hr (c, l)).
Qed.

(** Open a session, look it up twice: the second answer is cached. *)
Lemma cached_session_was_mapped_witness :
  let c := {| call_handle := 9; call_gen := 0; call_snapshot := Some 1; call_racing := false |} in
  call_snapshot c = Some 1 ∨ call_racing c = true.
Proof.
  intros c. eapply (cached_session_was_mapped _ c 1).
  - eapply rtc_l; [apply (step_open _ 9 1); set_solver|].
    eapply rtc_l; [apply (step_load _ 1 9); reflexivity|].
    eapply rtc_l; [apply (step_miss _ 1 c 1); [reflexivity|vm_compute; discriminate|reflexivity]|].
    eapply rtc_l; [apply (step_load _ 1 9); reflexivity|].
    eapply rtc_l; [apply (step_hit _ 1 c 1); reflexivity|]. apply rtc_refl.
  - apply elem_of_cons. by left.
Defined.
