(* ===== verification/Dates.v ===== *)
(** * Dates of key lifecycles

    [ck_date_to_epoch] of src/store/object.rs and what it uses of the standard
    library: [std::str::from_utf8], string slicing by byte index (which panics
    off a character boundary) and [u64::from_str].  The closed-form day count
    is compared with counting the days of every year and month. *)

From S2P Require Import Prelude.

(** ** Strings of the standard library *)

Definition is_cont (b : Z) : bool := (128 <=? b) && (b <=? 191).
Definition in_range (lo b hi : Z) : bool := (lo <=? b) && (b <=? hi).

(** [std::str::from_utf8]: well-formed byte sequences.  [fuel] is the length
    of the input, and each round consumes at least one byte. *)
Fixpoint utf8_valid (fuel : nat) (bs : bytes) : bool :=
  match fuel with
  | O => match bs with [] => true | _ => false end
  | S fuel =>
    match bs with
    | [] => true
    | b0 :: r0 =>
      if in_range 0 b0 127 then utf8_valid fuel r0
      else
        match r0 with
        | [] => false
        | b1 :: r1 =>
          if in_range 194 b0 223 then is_cont b1 && utf8_valid fuel r1
          else
            match r1 with
            | [] => false
            | b2 :: r2 =>
              let second3 :=
                if b0 =? 224 then in_range 160 b1 191
                else if b0 =? 237 then in_range 128 b1 159
                else (in_range 225 b0 236 || in_range 238 b0 239) && is_cont b1 in
              if in_range 224 b0 239 then second3 && is_cont b2 && utf8_valid fuel r2
              else
                match r2 with
                | [] => false
                | b3 :: r3 =>
                  let second4 :=
                    if b0 =? 240 then in_range 144 b1 191
                    else if b0 =? 244 then in_range 128 b1 143
                    else in_range 241 b0 243 && is_cont b1 in
                  in_range 240 b0 244 && second4 && is_cont b2 && is_cont b3
                  && utf8_valid fuel r3
                end
            end
        end
    end
  end.

Definition from_utf8 (bs : bytes) : option bytes :=
  if utf8_valid (length bs) bs then Some bs else None.

(** [str::is_char_boundary]. *)
Definition is_char_boundary (s : bytes) (i : nat) : bool :=
  match s !! i with
  | Some b => negb (is_cont b)
  | None => (i =? length s)%nat
  end.

(** [u64::from_str]: an optional [+], then at least one digit. *)
Definition is_ascii_digit (b : Z) : bool := in_range 48 b 57.
Definition parse_digits (ds : bytes) : option Z :=
  if forallb is_ascii_digit ds
  then checked_add u64_max 0 (foldl (λ acc d, acc * 10 + (d - 48)) 0 ds) else None.
Definition parse_u64 (s : bytes) : option Z :=
  match s with
  | [] => None
  | b :: rest =>
    if b =? 43 then match rest with [] => None | _ => parse_digits rest end
    else parse_digits s
  end.

(** ** The calendar *)

Definition is_leap_year (year : Z) : bool :=
  ((year mod 4 =? 0) && negb (year mod 100 =? 0)) || (year mod 400 =? 0).

Definition leap_years_before (y : Z) : Z :=
  if y =? 0 then 0 else let y := y - 1 in y / 4 - y / 100 + y / 400.

Definition CUMULATIVE_DAYS : list Z :=
  [0; 0; 31; 59; 90; 120; 151; 181; 212; 243; 273; 304; 334].

Definition date_fields_ok (year month day : Z) : bool :=
  in_range 1970 year 2200 && in_range 1 month 12 && in_range 1 day 31.

(** The arithmetic of [ck_date_to_epoch], on checked fields. *)
Definition epoch_of_fields (year month day : Z) : Z :=
  let leaps := leap_years_before year - leap_years_before 1970 in
  let years_elapsed := year - 1970 in
  let days := years_elapsed * 365 + leaps in
  let days := days + nth (Z.to_nat month) CUMULATIVE_DAYS 0 in
  let days := if (2 <? month) && is_leap_year year then days + 1 else days in
  let days := days + (day - 1) in
  days * 86400.

(** The outcomes: a value of [Option<u64>], or a panic. *)
Inductive DateOutcome := NoDate | Epoch (e : Z) | DatePanic.

Definition ck_date_to_epoch (date : bytes) : DateOutcome :=
  match from_utf8 date with
  | None => NoDate
  | Some s =>
    if negb (is_char_boundary s 4) then DatePanic
    else
      match parse_u64 (slice s 0 4) with
      | None => NoDate
      | Some year =>
        if negb (is_char_boundary s 6) then DatePanic
        else
          match parse_u64 (slice s 4 6) with
          | None => NoDate
          | Some month =>
            match parse_u64 (slice s 6 8) with
            | None => NoDate
            | Some day =>
              if negb (date_fields_ok year month day) then NoDate
              else Epoch (epoch_of_fields year month day)
            end
          end
      end
  end.

(** ** The reference calendar *)

Definition month_length (year month : Z) : Z :=
  if month =? 2 then if is_leap_year year then 29 else 28
  else if bool_decide (month ∈ [4; 6; 9; 11]) then 30 else 31.

Definition year_length (year : Z) : Z := if is_leap_year year then 366 else 365.

Fixpoint sum_from (f : Z → Z) (start : Z) (n : nat) : Z :=
  match n with O => 0 | S n => f start + sum_from f (start + 1) n end.

(** Days from 1 January 1970: whole years, whole months, days. *)
Definition days_since_epoch (year month day : Z) : Z :=
  sum_from year_length 1970 (Z.to_nat (year - 1970))
  + sum_from (month_length year) 1 (Z.to_nat (month - 1)) + (day - 1).

(** The date written as eight ASCII digits. *)
Definition two_digits (n : Z) : bytes := [48 + n / 10; 48 + n mod 10].
Definition format_date (year month day : Z) : bytes :=
  two_digits (year / 100) ++ two_digits (year mod 100) ++ two_digits month ++ two_digits day.

(** ** The closed form *)

Lemma leap_years_step y :
  1 <= y → leap_years_before (y + 1) = leap_years_before y + Z.b2z (is_leap_year y).
Proof.
  intros Hy. unfold leap_years_before, is_leap_year.
  rewrite !(proj2 (Z.eqb_neq _ _)) by lia. replace (y + 1 - 1) with y by lia.
  destruct (Z.eqb_spec (y mod 4) 0), (Z.eqb_spec (y mod 100) 0), (Z.eqb_spec (y mod 400) 0);
    simpl; Z.to_euclidean_division_equations; lia.
Qed.

Lemma years_closed_form n y :
  1 <= y →
  sum_from year_length y n
  = Z.of_nat n * 365 + leap_years_before (y + Z.of_nat n) - leap_years_before y.
Proof.
  revert y. induction n as [|n IH]; intros y Hy; cbn [sum_from].
  - replace (y + Z.of_nat 0) with y by lia. lia.
  - rewrite IH by lia. replace (y + Z.of_nat (S n)) with (y + 1 + Z.of_nat n) by lia.
    pose proof (leap_years_step y Hy) as Hs. unfold year_length.
    destruct (is_leap_year y); simpl in Hs; lia.
Qed.

Lemma months_closed_form year month :
  1 <= month <= 12 →
  sum_from (month_length year) 1 (Z.to_nat (month - 1))
  = nth (Z.to_nat month) CUMULATIVE_DAYS 0
    + (if (2 <? month) && is_leap_year year then 1 else 0).
Proof.
  intros Hm.
  assert (month = 1 ∨ month = 2 ∨ month = 3 ∨ month = 4 ∨ month = 5 ∨ month = 6 ∨
          month = 7 ∨ month = 8 ∨ month = 9 ∨ month = 10 ∨ month = 11 ∨ month = 12) as Hc by lia.
  unfold month_length.
  repeat (destruct Hc as [->|Hc]); [..|subst month]; simpl; destruct (is_leap_year year); done.
Qed.

Lemma epoch_of_fields_days year month day :
  1970 <= year → 1 <= month <= 12 →
  epoch_of_fields year month day = 86400 * days_since_epoch year month day.
Proof.
  intros Hy Hm. unfold epoch_of_fields, days_since_epoch.
  rewrite months_closed_form, years_closed_form by lia.
  replace (1970 + Z.of_nat (Z.to_nat (year - 1970))) with year by lia.
  destruct (_ && _); lia.
Qed.

(** ** Reading a formatted date *)

Definition digit (d : Z) : Prop := 0 <= d <= 9.

Lemma digit_ascii d : digit d → is_ascii_digit (48 + d) = true.
Proof. unfold digit, is_ascii_digit, in_range. intros. apply andb_true_iff. lia. Qed.

Lemma parse_2 a b : digit a → digit b → parse_u64 [48 + a; 48 + b] = Some (10 * a + b).
Proof.
  intros Ha Hb. unfold parse_u64, parse_digits. unfold digit in *.
  rewrite (proj2 (Z.eqb_neq _ _)) by lia. simpl. rewrite !digit_ascii by done. simpl.
  unfold checked_add. rewrite (proj2 (Z.leb_le _ _)) by (unfold u64_max; lia). f_equal. lia.
Qed.

Lemma parse_4 a b c d :
  digit a → digit b → digit c → digit d →
  parse_u64 [48 + a; 48 + b; 48 + c; 48 + d] = Some (1000 * a + 100 * b + 10 * c + d).
Proof.
  intros Ha Hb Hc Hd. unfold parse_u64, parse_digits. unfold digit in *.
  rewrite (proj2 (Z.eqb_neq _ _)) by lia. simpl. rewrite !digit_ascii by done. simpl.
  unfold checked_add. rewrite (proj2 (Z.leb_le _ _)) by (unfold u64_max; lia). f_equal. lia.
Qed.

Lemma ascii_utf8 bs fuel :
  forallb (λ b, in_range 0 b 127) bs = true → (length bs <= fuel)%nat →
  utf8_valid fuel bs = true.
Proof.
  revert fuel. induction bs as [|b bs IH]; intros [|fuel] Hb Hl; simpl in *; try done; [lia|].
  apply andb_true_iff in Hb as [-> Hb]. apply IH; [done|lia].
Qed.

Lemma digit_low d : digit d → in_range 0 (48 + d) 127 = true.
Proof. unfold digit, in_range. intros. apply andb_true_iff. lia. Qed.

Lemma digit_not_cont d : digit d → is_cont (48 + d) = false.
Proof. unfold digit, is_cont. intros. apply andb_false_iff. lia. Qed.

Lemma ck_date_digits a b c d e f g h :
  digit a → digit b → digit c → digit d → digit e → digit f → digit g → digit h →
  let year := 1000 * a + 100 * b + 10 * c + d in
  let month := 10 * e + f in
  let day := 10 * g + h in
  ck_date_to_epoch [48+a; 48+b; 48+c; 48+d; 48+e; 48+f; 48+g; 48+h]
  = if date_fields_ok year month day then Epoch (epoch_of_fields year month day) else NoDate.
Proof.
  intros Ha Hb Hc Hd He Hf Hg Hh year month day. unfold ck_date_to_epoch, from_utf8.
  rewrite ascii_utf8 by (simpl; rewrite ?digit_low by done; done).
  unfold is_char_boundary, slice. cbn [lookup list_lookup take drop Nat.sub].
  rewrite (digit_not_cont e), (digit_not_cont g) by done. cbn [negb].
  rewrite parse_4, (parse_2 e f), (parse_2 g h) by done.
  fold year month day. by destruct (date_fields_ok year month day).
Qed.

(** Dates.  Every date from 1970 to 2200 written as eight digits converts
    to the number of seconds since the epoch obtained by counting the days of
    each year and month, leap years included; the closed-form leap count loses
    or gains no day. *)
Theorem ck_date_to_epoch_calendar year month day
    (Hy : 1970 <= year <= 2200) (Hm : 1 <= month <= 12) (Hd : 1 <= day <= 31) :
  ck_date_to_epoch (format_date year month day)
  = Epoch (86400 * days_since_epoch year month day).
Proof.
  unfold format_date, two_digits. simpl.
  rewrite ck_date_digits by (unfold digit; Z.to_euclidean_division_equations; lia).
  replace (1000 * (year / 100 / 10) + 100 * ((year / 100) mod 10) + 10 * (year mod 100 / 10)
           + (year mod 100) mod 10) with year by (Z.to_euclidean_division_equations; lia).
  replace (10 * (month / 10) + month mod 10) with month
    by (Z.to_euclidean_division_equations; lia).
  replace (10 * (day / 10) + day mod 10) with day by (Z.to_euclidean_division_equations; lia).
  unfold date_fields_ok, in_range.
  rewrite !(proj2 (Z.leb_le _ _)) by lia. simpl.
  by rewrite epoch_of_fields_days by lia.
Qed.

Lemma ck_date_to_epoch_calendar_witness :
  ck_date_to_epoch (format_date 2024 3 1) = Epoch (86400 * days_since_epoch 2024 3 1)
  ∧ 86400 * days_since_epoch 2024 3 1 = 1709251200.
Proof.
  split; [|vm_compute; reflexivity].
  apply (ck_date_to_epoch_calendar 2024 3 1); lia.
Defined.

(** A stored date need not be ASCII: eight bytes of valid UTF-8 whose fifth
    byte continues a character make the conversion panic. *)
Lemma ck_date_to_epoch_panics :
  ck_date_to_epoch [50; 48; 50; 195; 169; 48; 48; 49] = DatePanic.
Proof. vm_compute. reflexivity. Qed.
