(* ===== verification/Objects.v ===== *)
(** * Objects: attributes, templates and lifecycle

    [StoredObject] and its methods (src/store/object.rs), and the attribute
    functions [apply_attribute] and [read_attribute] (src/store/attributes.rs).
    Key material is its bytes; [CK_ULONG] is eight little-endian bytes. *)

From S2P Require Import Prelude Pkcs11 Dates.

(** ** Data *)

Inductive KeyLifecycleState := PreActivation | Active | Deactivated | Compromised | Destroyed.
#[export] Instance KeyLifecycleState_eq_dec : EqDecision KeyLifecycleState.
Proof. solve_decision. Defined.

Record StoredObject := {
  o_handle : Z;
  o_slot_id : Z;
  o_class : Z;
  o_key_type : option Z;
  o_label : bytes;
  o_id : bytes;
  o_token_object : bool;
  o_private : bool;
  o_sensitive : bool;
  o_extractable : bool;
  o_modifiable : bool;
  o_destroyable : bool;
  o_copyable : bool;
  o_can_encrypt : bool;
  o_can_decrypt : bool;
  o_can_sign : bool;
  o_can_verify : bool;
  o_can_wrap : bool;
  o_can_unwrap : bool;
  o_can_derive : bool;
  o_key_material : option bytes;
  o_public_key_data : option bytes;
  o_modulus : option bytes;
  o_modulus_bits : option Z;
  o_public_exponent : option bytes;
  o_ec_params : option bytes;
  o_ec_point : option bytes;
  o_value_len : option Z;
  o_extra_attributes : gmap Z bytes;
  o_start_date : option bytes;
  o_end_date : option bytes;
  o_lifecycle_state : KeyLifecycleState;
  o_creation_time : Z;
}.

#[export] Instance StoredObject_expand : FieldExpansion StoredObject := λ o,
  Build_StoredObject
    (o_handle o) (o_slot_id o) (o_class o) (o_key_type o) (o_label o) (o_id o)
    (o_token_object o) (o_private o) (o_sensitive o) (o_extractable o)
    (o_modifiable o) (o_destroyable o) (o_copyable o) (o_can_encrypt o)
    (o_can_decrypt o) (o_can_sign o) (o_can_verify o) (o_can_wrap o)
    (o_can_unwrap o) (o_can_derive o) (o_key_material o) (o_public_key_data o)
    (o_modulus o) (o_modulus_bits o) (o_public_exponent o) (o_ec_params o)
    (o_ec_point o) (o_value_len o) (o_extra_attributes o) (o_start_date o)
    (o_end_date o) (o_lifecycle_state o) (o_creation_time o).

(** [StoredObject::new]; [now] is the wall clock in seconds. *)
Definition StoredObject_new (handle class now : Z) : StoredObject :=
  {|
    o_handle := handle; o_slot_id := 0; o_class := class; o_key_type := None;
    o_label := []; o_id := []; o_token_object := false; o_private := true;
    o_sensitive := true; o_extractable := false; o_modifiable := true;
    o_destroyable := true; o_copyable := true; o_can_encrypt := false;
    o_can_decrypt := false; o_can_sign := false; o_can_verify := false;
    o_can_wrap := false; o_can_unwrap := false; o_can_derive := false;
    o_key_material := None; o_public_key_data := None; o_modulus := None;
    o_modulus_bits := None; o_public_exponent := None; o_ec_params := None;
    o_ec_point := None; o_value_len := None; o_extra_attributes := ∅;
    o_start_date := None; o_end_date := None; o_lifecycle_state := Active;
    o_creation_time := now |}.

(** A list of attributes, as the ABI parses it. *)
Definition Template : Type := list (Z * bytes).

(** ** Attribute encodings *)

Definition CK_ULONG_SIZE : nat := 8.

(** [read_ck_ulong] of attributes.rs: at least eight bytes, the rest ignored. *)
Definition read_ck_ulong (b : bytes) : option Z :=
  if (length b <? CK_ULONG_SIZE)%nat then None
  else Some (from_le_bytes (take CK_ULONG_SIZE b)).

(** [read_ck_ulong] of object.rs: exactly eight bytes. *)
Definition read_ck_ulong_exact (b : bytes) : option Z :=
  if negb (length b =? CK_ULONG_SIZE)%nat then None else Some (from_le_bytes b).

Definition ck_ulong_to_bytes (v : Z) : bytes := to_le_bytes CK_ULONG_SIZE v.

(** [!value.is_empty() && value[0] != 0]. *)
Definition value_true (value : bytes) : bool :=
  match value with b :: _ => negb (b =? 0) | [] => false end.

Definition bool_byte (b : bool) : bytes := [if b then 1 else 0].

(** The attribute types the two functions know, in the order of their
    [match]. *)
Inductive Attr :=
| A_CLASS | A_KEY_TYPE | A_LABEL | A_ID | A_TOKEN | A_PRIVATE | A_SENSITIVE
| A_EXTRACTABLE | A_MODIFIABLE | A_DESTROYABLE | A_ENCRYPT | A_DECRYPT | A_SIGN
| A_VERIFY | A_WRAP | A_UNWRAP | A_DERIVE | A_VALUE | A_MODULUS | A_MODULUS_BITS
| A_PUBLIC_EXPONENT | A_EC_PARAMS | A_EC_POINT | A_VALUE_LEN | A_START_DATE
| A_END_DATE | A_OTHER (t : Z).
#[export] Instance Attr_eq_dec : EqDecision Attr.
Proof. solve_decision. Defined.

Definition known_attributes : list (Z * Attr) :=
  [(CKA_CLASS, A_CLASS); (CKA_KEY_TYPE, A_KEY_TYPE); (CKA_LABEL, A_LABEL); (CKA_ID, A_ID);
   (CKA_TOKEN, A_TOKEN); (CKA_PRIVATE, A_PRIVATE); (CKA_SENSITIVE, A_SENSITIVE);
   (CKA_EXTRACTABLE, A_EXTRACTABLE); (CKA_MODIFIABLE, A_MODIFIABLE);
   (CKA_DESTROYABLE, A_DESTROYABLE); (CKA_ENCRYPT, A_ENCRYPT); (CKA_DECRYPT, A_DECRYPT);
   (CKA_SIGN, A_SIGN); (CKA_VERIFY, A_VERIFY); (CKA_WRAP, A_WRAP); (CKA_UNWRAP, A_UNWRAP);
   (CKA_DERIVE, A_DERIVE); (CKA_VALUE, A_VALUE); (CKA_MODULUS, A_MODULUS);
   (CKA_MODULUS_BITS, A_MODULUS_BITS); (CKA_PUBLIC_EXPONENT, A_PUBLIC_EXPONENT);
   (CKA_EC_PARAMS, A_EC_PARAMS); (CKA_EC_POINT, A_EC_POINT); (CKA_VALUE_LEN, A_VALUE_LEN);
   (CKA_START_DATE, A_START_DATE); (CKA_END_DATE, A_END_DATE)].

Definition attr_of (t : Z) : Attr :=
  match List.find (λ p, p.1 =? t) known_attributes with
  | Some (_, a) => a
  | None => A_OTHER t
  end.

(** ** Template matching *)

Definition b2u (b : bool) : Z := if b then 1 else 0.

Definition ct_bytes_eq (a b : bytes) : Z :=
  if negb (length a =? length b)%nat then 0 else b2u (bool_decide (a = b)).

(** A flag attribute of a template: an empty value matches anything. *)
Definition flag_match (value : bytes) (flag : bool) : Z :=
  match value with [] => 1 | b :: _ => b2u (Bool.eqb (negb (b =? 0)) flag) end.

Definition attr_match (o : StoredObject) (attr_type : Z) (value : bytes) : Z :=
  if attr_type =? CKA_CLASS then
    match read_ck_ulong_exact value with Some c => b2u (c =? o_class o) | None => 0 end
  else if attr_type =? CKA_KEY_TYPE then
    match o_key_type o, read_ck_ulong_exact value with
    | Some kt, Some v => b2u (v =? kt)
    | _, _ => 0
    end
  else if attr_type =? CKA_LABEL then ct_bytes_eq value (o_label o)
  else if attr_type =? CKA_ID then ct_bytes_eq value (o_id o)
  else if attr_type =? CKA_TOKEN then flag_match value (o_token_object o)
  else if attr_type =? CKA_PRIVATE then flag_match value (o_private o)
  else if attr_type =? CKA_SENSITIVE then flag_match value (o_sensitive o)
  else if attr_type =? CKA_SIGN then flag_match value (o_can_sign o)
  else if attr_type =? CKA_VERIFY then flag_match value (o_can_verify o)
  else if attr_type =? CKA_ENCRYPT then flag_match value (o_can_encrypt o)
  else if attr_type =? CKA_DECRYPT then flag_match value (o_can_decrypt o)
  else match o_extra_attributes o !! attr_type with
       | Some stored => ct_bytes_eq stored value
       | None => 0
       end.

Definition matches_template (o : StoredObject) (template : Template) : bool :=
  foldl (λ matched '(t, v), Z.land matched (attr_match o t v)) 1 template =? 1.

(** [approximate_size]; [struct_size] is [size_of::<StoredObject>()]. *)
Definition opt_len (o : option bytes) : Z :=
  match o with Some b => Z.of_nat (length b) | None => 0 end.
Definition approximate_size (struct_size : Z) (o : StoredObject) : Z :=
  let add a b := saturating_add u64_max a b in
  add (add (add (add (add struct_size (opt_len (o_key_material o)))
    (opt_len (o_public_key_data o))) (opt_len (o_modulus o)))
    (Z.of_nat (length (o_label o)))) (Z.of_nat (length (o_id o))).

(** ** Lifecycle *)

(** Whether the clock is past a stored date, in the given sense; a missing or
    unparsable date is never past. *)
Definition date_test (test : Z → bool) (date : option bytes) : MayPanic bool :=
  match date with
  | None => Returns false
  | Some d =>
    match ck_date_to_epoch d with
    | NoDate => Returns false
    | Epoch e => Returns (test e)
    | DatePanic => Panicked
    end
  end.

Definition compute_date_based_state (now : Z) (o : StoredObject) : MayPanic KeyLifecycleState :=
  match date_test (λ start_epoch, now <? start_epoch) (o_start_date o) with
  | Panicked => Panicked
  | Returns true => Returns PreActivation
  | Returns false =>
    match date_test (λ end_epoch, end_epoch <? now) (o_end_date o) with
    | Panicked => Panicked
    | Returns true => Returns Deactivated
    | Returns false => Returns Active
    end
  end.

Definition effective_lifecycle_state (now : Z) (o : StoredObject) : MayPanic KeyLifecycleState :=
  if bool_decide (o_lifecycle_state o ≠ Active) then Returns (o_lifecycle_state o)
  else
    match date_test (λ start_epoch, now <? start_epoch) (o_start_date o) with
    | Panicked => Panicked
    | Returns true => Returns PreActivation
    | Returns false =>
      match date_test (λ end_epoch, end_epoch <? now) (o_end_date o) with
      | Panicked => Panicked
      | Returns true => Returns Deactivated
      | Returns false => Returns Active
      end
    end.

Definition check_lifecycle (now : Z) (operation : string) (o : StoredObject) :
    MayPanic (HsmResult unit) :=
  match effective_lifecycle_state now o with
  | Panicked => Panicked
  | Returns Active => Returns (Ok tt)
  | Returns PreActivation => Returns (Err KeyFunctionNotPermitted)
  | Returns Deactivated =>
    if bool_decide (operation ∈ ["verify"; "decrypt"; "unwrap"]%string)
    then Returns (Ok tt) else Returns (Err KeyFunctionNotPermitted)
  | Returns Compromised => Returns (Err KeyFunctionNotPermitted)
  | Returns Destroyed => Returns (Err ObjectHandleInvalid)
  end.

Definition transition_lifecycle_if_needed (now : Z) (o : StoredObject) :
    MayPanic (option (KeyLifecycleState * KeyLifecycleState) * StoredObject) :=
  if bool_decide (o_lifecycle_state o ∈ [Compromised; Destroyed]) then Returns (None, o)
  else
    match compute_date_based_state now o with
    | Panicked => Panicked
    | Returns new_state =>
      if bool_decide (new_state ≠ o_lifecycle_state o)
      then Returns (Some (o_lifecycle_state o, new_state),
                    o <| o_lifecycle_state := new_state |>)
      else Returns (None, o)
    end.

Definition set_compromised (o : StoredObject) : option KeyLifecycleState * StoredObject :=
  match o_lifecycle_state o with
  | Compromised | Destroyed => (None, o)
  | other => (Some other, o <| o_lifecycle_state := Compromised |>)
  end.

Definition set_destroyed (o : StoredObject) : option KeyLifecycleState * StoredObject :=
  if bool_decide (o_lifecycle_state o = Destroyed) then (None, o)
  else (Some (o_lifecycle_state o), o <| o_lifecycle_state := Destroyed |>).

(** ** Attributes *)

Definition MAX_KEY_MATERIAL_LEN : Z := 8192.
Definition MAX_EXTRA_VALUE_LEN : Z := 8192.
Definition MAX_EXTRA_ATTRIBUTES : Z := 64.

(** The three outcomes of a date attribute. *)
Definition date_value (value : bytes) : HsmResult (option bytes) :=
  if (length value =? 8)%nat then Ok (Some value)
  else match value with [] => Ok None | _ => Err GeneralError end.

Definition apply_attribute (o : StoredObject) (attr_type : Z) (value : bytes) :
    HsmResult StoredObject :=
  match attr_of attr_type with
  | A_CLASS =>
    let? v := ok_or (read_ck_ulong value) AttributeValueInvalid in Ok (o <| o_class := v |>)
  | A_KEY_TYPE =>
    let? v := ok_or (read_ck_ulong value) AttributeValueInvalid in
    Ok (o <| o_key_type := Some v |>)
  | A_LABEL => Ok (o <| o_label := value |>)
  | A_ID => Ok (o <| o_id := value |>)
  | A_TOKEN => Ok (o <| o_token_object := value_true value |>)
  | A_PRIVATE => Ok (o <| o_private := value_true value |>)
  | A_SENSITIVE =>
    if o_sensitive o && negb (value_true value) then Err AttributeReadOnly
    else Ok (o <| o_sensitive := value_true value |>)
  | A_EXTRACTABLE =>
    if negb (o_extractable o) && value_true value then Err AttributeReadOnly
    else Ok (o <| o_extractable := value_true value |>)
  | A_MODIFIABLE => Ok (o <| o_modifiable := value_true value |>)
  | A_DESTROYABLE => Ok (o <| o_destroyable := value_true value |>)
  | A_ENCRYPT => Ok (o <| o_can_encrypt := value_true value |>)
  | A_DECRYPT => Ok (o <| o_can_decrypt := value_true value |>)
  | A_SIGN => Ok (o <| o_can_sign := value_true value |>)
  | A_VERIFY => Ok (o <| o_can_verify := value_true value |>)
  | A_WRAP => Ok (o <| o_can_wrap := value_true value |>)
  | A_UNWRAP => Ok (o <| o_can_unwrap := value_true value |>)
  | A_DERIVE => Ok (o <| o_can_derive := value_true value |>)
  | A_VALUE =>
    if MAX_KEY_MATERIAL_LEN <? Z.of_nat (length value) then Err AttributeValueInvalid
    else Ok (o <| o_key_material := Some value |>)
  | A_MODULUS => Ok (o <| o_modulus := Some value |>)
  | A_MODULUS_BITS =>
    let? v := ok_or (read_ck_ulong value) AttributeValueInvalid in
    Ok (o <| o_modulus_bits := Some v |>)
  | A_PUBLIC_EXPONENT => Ok (o <| o_public_exponent := Some value |>)
  | A_EC_PARAMS => Ok (o <| o_ec_params := Some value |>)
  | A_EC_POINT => Ok (o <| o_ec_point := Some value |>)
  | A_VALUE_LEN =>
    let? v := ok_or (read_ck_ulong value) AttributeValueInvalid in
    Ok (o <| o_value_len := Some v |>)
  | A_START_DATE => let? d := date_value value in Ok (o <| o_start_date := d |>)
  | A_END_DATE => let? d := date_value value in Ok (o <| o_end_date := d |>)
  | A_OTHER t =>
    if MAX_EXTRA_VALUE_LEN <? Z.of_nat (length value) then Err ArgumentsBad
    else if (MAX_EXTRA_ATTRIBUTES <=? Z.of_nat (size (o_extra_attributes o)))
            && bool_decide (o_extra_attributes o !! t = None) then Err ArgumentsBad
    else Ok (o <| o_extra_attributes := <[t := value]> (o_extra_attributes o) |>)
  end.

Definition read_attribute (o : StoredObject) (attr_type : Z) (is_logged_in : bool) :
    HsmResult (option bytes) :=
  if o_private o && negb is_logged_in then Err ObjectHandleInvalid
  else
    match attr_of attr_type with
    | A_CLASS => Ok (Some (ck_ulong_to_bytes (o_class o)))
    | A_KEY_TYPE => Ok (ck_ulong_to_bytes <$> o_key_type o)
    | A_LABEL => Ok (Some (o_label o))
    | A_ID => Ok (Some (o_id o))
    | A_TOKEN => Ok (Some (bool_byte (o_token_object o)))
    | A_PRIVATE => Ok (Some (bool_byte (o_private o)))
    | A_SENSITIVE => Ok (Some (bool_byte (o_sensitive o)))
    | A_EXTRACTABLE => Ok (Some (bool_byte (o_extractable o)))
    | A_MODIFIABLE => Ok (Some (bool_byte (o_modifiable o)))
    | A_DESTROYABLE => Ok (Some (bool_byte (o_destroyable o)))
    | A_ENCRYPT => Ok (Some (bool_byte (o_can_encrypt o)))
    | A_DECRYPT => Ok (Some (bool_byte (o_can_decrypt o)))
    | A_SIGN => Ok (Some (bool_byte (o_can_sign o)))
    | A_VERIFY => Ok (Some (bool_byte (o_can_verify o)))
    | A_WRAP => Ok (Some (bool_byte (o_can_wrap o)))
    | A_UNWRAP => Ok (Some (bool_byte (o_can_unwrap o)))
    | A_DERIVE => Ok (Some (bool_byte (o_can_derive o)))
    | A_VALUE =>
      if o_sensitive o && negb (o_extractable o) then Err AttributeSensitive
      else Ok (o_key_material o)
    | A_MODULUS => Ok (o_modulus o)
    | A_MODULUS_BITS => Ok (ck_ulong_to_bytes <$> o_modulus_bits o)
    | A_PUBLIC_EXPONENT => Ok (o_public_exponent o)
    | A_EC_PARAMS => Ok (o_ec_params o)
    | A_EC_POINT => Ok (o_ec_point o)
    | A_VALUE_LEN => Ok (ck_ulong_to_bytes <$> o_value_len o)
    | A_START_DATE => Ok (o_start_date o)
    | A_END_DATE => Ok (o_end_date o)
    | A_OTHER t => Ok (o_extra_attributes o !! t)
    end.

Definition validate_deserialized_object (o : StoredObject) : bool :=
  if o_handle o =? 0 then false
  else if bool_decide (is_Some (o_key_material o)) && negb (o_sensitive o)
          && negb (o_extractable o) then false
  else if bool_decide (o_lifecycle_state o = Destroyed) then false
  else true.
