(* ===== verification/ObjectProofs.v ===== *)
(** * Attribute access and lifecycle of objects: theorems

    Writing an attribute and reading it back, the one-way protection flags,
    and the SP 800-57 lifecycle as a state machine. *)

From S2P Require Import Prelude Pkcs11 Dates Objects.

(** ** Attribute types *)

(** The attribute type of a constructor. *)
Definition attr_type (a : Attr) : Z :=
  match a with
  | A_OTHER t => t
  | _ =>
    match List.find (λ p, bool_decide (p.2 = a)) known_attributes with
    | Some (t, _) => t
    | None => 0
    end
  end.

Lemma attr_type_known : Forall (λ p, attr_type p.2 = p.1) known_attributes.
Proof. repeat constructor. Qed.

Lemma attr_type_of t : attr_type (attr_of t) = t.
Proof.
  unfold attr_of. destruct (List.find _ _) as [[t' a]|] eqn:E; [|done].
  apply List.find_some in E as [Hin Ht]. simpl in Ht. apply Z.eqb_eq in Ht as <-.
  pose proof attr_type_known as K. rewrite Forall_forall in K.
  apply (K (t', a)). by apply list_elem_of_In.
Qed.

Lemma attr_of_inj t t' : attr_of t = attr_of t' → t = t'.
Proof. intros H. by rewrite <- (attr_type_of t), H, attr_type_of. Qed.

(** ** Writing and reading *)

(** What an attribute reads as after [value] was written to it. *)
Definition stored_value (a : Attr) (value : bytes) : option bytes :=
  match a with
  | A_CLASS | A_KEY_TYPE | A_MODULUS_BITS | A_VALUE_LEN => Some (take CK_ULONG_SIZE value)
  | A_TOKEN | A_PRIVATE | A_SENSITIVE | A_EXTRACTABLE | A_MODIFIABLE | A_DESTROYABLE
  | A_ENCRYPT | A_DECRYPT | A_SIGN | A_VERIFY | A_WRAP | A_UNWRAP | A_DERIVE =>
    Some (bool_byte (value_true value))
  | A_START_DATE | A_END_DATE => match value with [] => None | _ => Some value end
  | _ => Some value
  end.

(** The value of the object is not disclosed. *)
Definition hidden (o : StoredObject) : bool := o_sensitive o && negb (o_extractable o).

Lemma read_ck_ulong_bytes v z e :
  Forall is_byte v → ok_or (read_ck_ulong v) e = Ok (E:=HsmError) z →
  ck_ulong_to_bytes z = take CK_ULONG_SIZE v.
Proof.
  unfold read_ck_ulong, ck_ulong_to_bytes, ok_or. intros Hv.
  destruct (Nat.ltb_spec (length v) CK_ULONG_SIZE); [done|]. intros [= <-].
  replace CK_ULONG_SIZE with (length (take CK_ULONG_SIZE v)) at 1
    by (rewrite length_take; lia).
  by apply to_from_le_bytes, Forall_take.
Qed.

Lemma date_value_stored v d :
  date_value v = Ok d → d = match v with [] => None | _ => Some v end.
Proof. unfold date_value. destruct v; simpl; [by intros [= <-]|]. case_match; congruence. Qed.

#[local] Arguments Nat.ltb : simpl never.
#[local] Arguments Nat.leb : simpl never.

(** Case analysis of a successful [apply_attribute] on the attribute written. *)
Ltac invert_apply H :=
  unfold apply_attribute in H;
  match type of H with context [attr_of ?t] => destruct (attr_of t) eqn:? end;
  repeat case_match in H; simplify_eq.

(** A written attribute reads back. *)
Lemma apply_read o t v o' :
  Forall is_byte v → apply_attribute o t v = Ok o' →
  read_attribute o' t true =
    if bool_decide (t = CKA_VALUE) && hidden o' then Err AttributeSensitive
    else Ok (stored_value (attr_of t) v).
Proof.
  intros Hv H.
  assert (Hval : bool_decide (t = CKA_VALUE) =
                 match attr_of t with A_VALUE => true | _ => false end).
  { case_bool_decide as E; [by subst|]. destruct (attr_of t) eqn:Ea; try done.
    destruct E. by apply attr_of_inj. }
  rewrite Hval. unfold read_attribute, hidden. rewrite andb_false_r.
  invert_apply H; simpl;
    repeat match goal with
    | H : ok_or _ _ = Ok _ |- _ => apply (read_ck_ulong_bytes _ _ _ Hv) in H; rewrite H
    | H : date_value _ = Ok _ |- _ => apply date_value_stored in H; subst
    end; try reflexivity.
  by rewrite lookup_insert_eq.
Qed.

(** The other attributes keep their values, except that the two protection
    flags decide whether [CKA_VALUE] is disclosed. *)
Lemma apply_frame o t v o' t' :
  apply_attribute o t v = Ok o' → t' ≠ t →
  (t' = CKA_VALUE → t ≠ CKA_SENSITIVE ∧ t ≠ CKA_EXTRACTABLE) →
  read_attribute o' t' true = read_attribute o t' true.
Proof.
  intros H Hne Hval. assert (Ha : attr_of t' ≠ attr_of t) by (intros E; by apply Hne, attr_of_inj).
  assert (Hs : attr_of t' = A_VALUE → attr_of t ≠ A_SENSITIVE ∧ attr_of t ≠ A_EXTRACTABLE).
  { intros E. destruct Hval as [H1 H2]; [by apply attr_of_inj|].
    split; intros E'; [apply H1|apply H2]; by apply attr_of_inj. }
  unfold read_attribute. rewrite !andb_false_r.
  invert_apply H; destruct (attr_of t') eqn:?; simpl;
    try reflexivity; try congruence; try (by destruct Hs).
  rewrite lookup_insert_ne; [done|congruence].
Qed.

(** The two protection flags are one-way, and identity and lifecycle are
    beyond the reach of attributes. *)
Definition protects (o o' : StoredObject) : Prop :=
  (o_sensitive o = true → o_sensitive o' = true) ∧
  (o_extractable o = false → o_extractable o' = false) ∧
  o_handle o' = o_handle o ∧ o_slot_id o' = o_slot_id o ∧
  o_lifecycle_state o' = o_lifecycle_state o ∧ o_creation_time o' = o_creation_time o.

#[export] Instance protects_preorder : PreOrder protects.
Proof. unfold protects. split; repeat intro; naive_solver congruence. Qed.

Lemma apply_protects o t v o' : apply_attribute o t v = Ok o' → protects o o'.
Proof.
  intros H. unfold protects.
  invert_apply H; simpl; repeat split; try done; intros E; rewrite E in *; simpl in *;
    try done; by destruct (value_true v).
Qed.

(** writing an attribute.  A successful [apply_attribute] makes the
    attribute read back as written (numbers as their eight bytes, flags as one
    byte, an empty date as absent), a hidden [CKA_VALUE] staying unreadable;
    every other attribute reads as before, [CKA_VALUE] apart when a protection
    flag is the one written; the protection flags only ever tighten; and
    handle, slot, lifecycle state and creation time are untouched. *)
Theorem attribute_write_read o t v o'
    (Hv : Forall is_byte v) (H : apply_attribute o t v = Ok o') :
  read_attribute o' t true =
    (if bool_decide (t = CKA_VALUE) && hidden o' then Err AttributeSensitive
     else Ok (stored_value (attr_of t) v)) ∧
  (∀ t', t' ≠ t → (t' = CKA_VALUE → t ≠ CKA_SENSITIVE ∧ t ≠ CKA_EXTRACTABLE) →
     read_attribute o' t' true = read_attribute o t' true) ∧
  protects o o'.
Proof.
  split; [exact (apply_read _ _ _ _ Hv H)|]. split; [|exact (apply_protects _ _ _ _ H)].
  intros t' Hne Hval. exact (apply_frame _ _ _ _ _ H Hne Hval).
Qed.

Lemma attribute_write_read_witness :
  let o := StoredObject_new 7 CKO_SECRET_KEY 0 in
  let o' := o <| o_label := [104; 115; 109] |> in
  read_attribute o' CKA_LABEL true = Ok (Some [104; 115; 109]) ∧ protects o o'.
Proof.
  intros o o'.
  assert (Hb : Forall is_byte [104; 115; 109]) by (repeat constructor; done).
  destruct (attribute_write_read o CKA_LABEL [104; 115; 109] o' Hb eq_refl) as (H & _ & P).
  split; [exact H|exact P].
Defined.

(** ** The lifecycle state machine *)

Inductive lifecycle_step : StoredObject → StoredObject → Prop :=
| step_sweep now ev o o' :
    transition_lifecycle_if_needed now o = Returns (ev, o') → lifecycle_step o o'
| step_compromise o : lifecycle_step o (set_compromised o).2
| step_destroy o : lifecycle_step o (set_destroyed o).2.

(** The moves SP 800-57 allows: nothing leaves Destroyed and only Destroyed
    follows Compromised. *)
Definition lifecycle_allowed (s s' : KeyLifecycleState) : Prop :=
  match s with
  | Destroyed => s' = Destroyed
  | Compromised => s' = Compromised ∨ s' = Destroyed
  | _ => True
  end.

Definition lifecycle_move (o o' : StoredObject) : Prop :=
  lifecycle_allowed (o_lifecycle_state o) (o_lifecycle_state o') ∧
  o' = o <| o_lifecycle_state := o_lifecycle_state o' |>.

#[export] Instance lifecycle_move_preorder : PreOrder lifecycle_move.
Proof.
  unfold lifecycle_move. split.
  - intros []; split; simpl; [|done]. unfold lifecycle_allowed. case_match; auto.
  - intros o1 o2 o3 [A12 E12] [A23 E23]. split.
    + revert A12 A23. unfold lifecycle_allowed. repeat case_match; naive_solver.
    + by rewrite E23, E12.
Qed.

Lemma lifecycle_move_to o s :
  lifecycle_allowed (o_lifecycle_state o) s → lifecycle_move o (o <| o_lifecycle_state := s |>).
Proof. by split. Qed.

Lemma lifecycle_step_move o o' : lifecycle_step o o' → lifecycle_move o o'.
Proof.
  intros [now ev o1 o2 H|o1|o1].
  - unfold transition_lifecycle_if_needed in H. split_tests_in H; try reflexivity.
    apply lifecycle_move_to. bool_to_prop. destruct (o_lifecycle_state o1); set_solver.
  - unfold set_compromised. destruct (o_lifecycle_state o1) eqn:E; try reflexivity;
      apply lifecycle_move_to; rewrite E; simpl; auto.
  - unfold set_destroyed. case_match; try reflexivity. apply lifecycle_move_to.
    destruct (o_lifecycle_state o1); simpl; auto.
Qed.

Lemma lifecycle_steps_move o o' : rtc lifecycle_step o o' → lifecycle_move o o'.
Proof.
  induction 1 as [|o1 o2 o3 H _ IH]; [reflexivity|].
  etrans; [by apply lifecycle_step_move|done].
Qed.

(** lifecycle transitions.  Along any sequence of date sweeps and manual
    markings, at any clock values, only the lifecycle state of the object
    changes; a destroyed key stays destroyed, a compromised key can only become
    destroyed, and a key that is compromised or destroyed is refused for every
    operation at every later time. *)
Theorem lifecycle_one_way o o' (H : rtc lifecycle_step o o') :
  lifecycle_allowed (o_lifecycle_state o) (o_lifecycle_state o') ∧
  o' = o <| o_lifecycle_state := o_lifecycle_state o' |> ∧
  (o_lifecycle_state o ∈ [Compromised; Destroyed] →
   ∀ now operation, ∃ e, check_lifecycle now operation o' = Returns (Err e)).
Proof.
  destruct (lifecycle_steps_move _ _ H) as [A E]. split; [done|]. split; [done|].
  intros Hs now op. unfold check_lifecycle, effective_lifecycle_state.
  destruct (o_lifecycle_state o) eqn:Eo; try (exfalso; set_solver);
    simpl in A; [destruct A as [-> | ->]|rewrite A]; simpl; eauto.
Qed.

Lemma lifecycle_one_way_witness :
  let o := StoredObject_new 7 CKO_SECRET_KEY 0 <| o_lifecycle_state := Compromised |> in
  ∃ e, check_lifecycle 100 "verify" (set_destroyed o).2 = Returns (Err e).
Proof.
  intros o. apply (lifecycle_one_way o).
  - apply rtc_once, step_destroy.
  - simpl. set_solver.
Defined.

(** The two readings of the date fields agree. *)
Lemma effective_active now o :
  o_lifecycle_state o = Active →
  effective_lifecycle_state now o = compute_date_based_state now o.
Proof. intros E. unfold effective_lifecycle_state. by rewrite E. Qed.

Lemma check_lifecycle_effective now op o o' :
  effective_lifecycle_state now o = effective_lifecycle_state now o' →
  check_lifecycle now op o = check_lifecycle now op o'.
Proof. unfold check_lifecycle. by intros ->. Qed.

Definition terminal (s : KeyLifecycleState) : Prop := s ∈ [Compromised; Destroyed].

Lemma compute_date_based_not_terminal now o s :
  compute_date_based_state now o = Returns s → ¬ terminal s.
Proof. unfold compute_date_based_state, terminal. intros H. split_tests_in H; set_solver. Qed.

Lemma set_same_state o : o <| o_lifecycle_state := o_lifecycle_state o |> = o.
Proof. by destruct o. Qed.

(** What a sweep does to one object. *)
Lemma transition_cases now o ev o' :
  transition_lifecycle_if_needed now o = Returns (ev, o') →
  (terminal (o_lifecycle_state o) ∧ ev = None ∧ o' = o) ∨
  (¬ terminal (o_lifecycle_state o) ∧
   ∃ s, compute_date_based_state now o = Returns s ∧
        o' = o <| o_lifecycle_state := s |> ∧
        ev = if bool_decide (o_lifecycle_state o = s) then None
             else Some (o_lifecycle_state o, s)).
Proof.
  unfold transition_lifecycle_if_needed, terminal. intros H.
  split_tests_in H; bool_to_prop; [by left|right|right]; (split; [done|]);
    eexists; (split; [done|]).
  - by rewrite bool_decide_false by congruence.
  - apply dec_stable in Heqb0 as ->. rewrite bool_decide_true by done.
    split; [symmetry; apply set_same_state|done].
Qed.

Lemma transition_settled now o :
  terminal (o_lifecycle_state o) ∨
  compute_date_based_state now o = Returns (o_lifecycle_state o) →
  effective_lifecycle_state now o = Returns (o_lifecycle_state o) ∧
  transition_lifecycle_if_needed now o = Returns (None, o).
Proof.
  unfold effective_lifecycle_state, transition_lifecycle_if_needed, terminal. intros [H|H].
  - rewrite (bool_decide_true (_ ∈ _)) by done. rewrite bool_decide_true; [done|].
    intros E. rewrite E in H. set_solver.
  - split.
    + case_bool_decide as E; [done|]. rewrite E in H |- *.
      exact H.
    + rewrite H, (bool_decide_false (_ ≠ _)) by auto. by case_bool_decide.
Qed.

(** the sweep settles the state.  After a date sweep at a given time the
    stored state is the effective one; a sweep reports a transition exactly
    when the object changed, with the states before and after; a second sweep
    at that time does nothing; and for a key that was stored as active the
    sweep changes no answer of [check_lifecycle] at that time. *)
Theorem lifecycle_sweep_settles now o ev o'
    (H : transition_lifecycle_if_needed now o = Returns (ev, o')) :
  effective_lifecycle_state now o' = Returns (o_lifecycle_state o') ∧
  ev = (if bool_decide (o_lifecycle_state o = o_lifecycle_state o') then None
        else Some (o_lifecycle_state o, o_lifecycle_state o')) ∧
  transition_lifecycle_if_needed now o' = Returns (None, o') ∧
  (o_lifecycle_state o = Active →
   ∀ operation, check_lifecycle now operation o' = check_lifecycle now operation o).
Proof.
  assert (Hs : terminal (o_lifecycle_state o') ∨
               compute_date_based_state now o' = Returns (o_lifecycle_state o')).
  { destruct (transition_cases _ _ _ _ H) as [(T & -> & ->)|(T & s & E & -> & ->)]; auto. }
  destruct (transition_settled _ _ Hs) as [Heff Hagain]. split; [done|].
  destruct (transition_cases _ _ _ _ H) as [(T & -> & ->)|(T & s & E & Ho & ->)].
  - by rewrite bool_decide_true.
  - assert (Es : o_lifecycle_state o' = s) by (by rewrite Ho). rewrite Es in *.
    split; [done|]. split; [done|]. intros Ea op. apply check_lifecycle_effective.
    by rewrite Heff, effective_active.
Qed.

Lemma lifecycle_sweep_settles_witness :
  let o := StoredObject_new 7 CKO_SECRET_KEY 0
             <| o_end_date := Some [50; 48; 50; 48; 48; 49; 48; 49] |> in
  effective_lifecycle_state 1600000000 (o <| o_lifecycle_state := Deactivated |>) =
    Returns Deactivated.
Proof.
  intros o. eapply (lifecycle_sweep_settles 1600000000 o). vm_compute. reflexivity.
Defined.
