(* ===== verification/ObjectStore.v ===== *)
(** * The object store and its encrypted database

    Models [EncryptedStore] (src/store/encrypted_store.rs) over a redb table
    and [ObjectStore] (src/store/attributes.rs).  The database is the map of its
    one table; a transaction that fails at any of its calls leaves it
    unchanged, and a table that does not exist reads as an empty one.  The
    outcome of every database call, of the DRBG and of the clock is an
    argument.  The serde encoding of objects, the iteration orders and the
    handle allocator are interfaces. *)

From S2P Require Import Prelude Pkcs11 Handles PinCrypto TokenFiles Dates Objects.

(** ** Interfaces *)

(** [serde_json::to_vec] and [from_slice] on [StoredObject]. *)
Class ObjectCodec := {
  object_to_vec : StoredObject → option bytes;
  object_from_slice : bytes → option StoredObject;
}.
(** Every object can be written, and what is written can be read back. *)
Class ObjectCodecLaws (C : ObjectCodec) := {
  object_to_vec_total o : is_Some (object_to_vec o);
  object_from_to_vec o b : object_to_vec o = Some b → object_from_slice b = Some o;
}.

(** The order in which [DashMap] and redb list their keys. *)
Class StoreOrder := {
  object_keys : gmap Z StoredObject → list Z;
  table_keys : gmap string bytes → list string;
}.
Class StoreOrderLaws (D : StoreOrder) := {
  object_keys_elem m h : h ∈ object_keys m ↔ is_Some (m !! h);
  object_keys_NoDup m : NoDup (object_keys m);
  table_keys_elem m k : k ∈ table_keys m ↔ is_Some (m !! k);
  table_keys_NoDup m : NoDup (table_keys m);
}.

(** What the store needs of the handle allocator. *)
Class ObjectHandles (A : Type) := {
  oh_next : A → HsmResult Z * A;
  oh_past : A → Z → A;
  oh_used : A → Z → Prop;
  oh_room : A → Prop;
}.
Class ObjectHandlesLaws (A : Type) {S : ObjectHandles A} := {
  oh_next_fresh a : oh_room a →
    ∃ h a', oh_next a = (Ok h, a') ∧ ¬ oh_used a h ∧ h ≠ 0 ∧
      oh_used a' h ∧ (∀ x, oh_used a x → oh_used a' x);
  oh_past_used a h : oh_used (oh_past a h) h;
  oh_past_mono a h x : oh_used a x → oh_used (oh_past a h) x;
}.

(** ** The encrypted database *)

(** The outcome of the database calls of one operation. *)
Record DbIO := {
  db_begin : bool;
  db_open : bool;
  db_op : bool;
  db_commit : bool;
  db_entry : string → bool;
}.
Definition db_io_ok : DbIO :=
  {| db_begin := true; db_open := true; db_op := true; db_commit := true;
     db_entry := λ _, true |}.

Record EncryptedStore := { es_db : option (gmap string bytes) }.

Section Store.
Context {P : PinPrimitives} {X : HexCodec} {C : ObjectCodec} {D : StoreOrder}.

Definition store_encrypted (io : DbIO) (nonce : HsmResult bytes) (store_key : string)
    (plaintext encryption_key : bytes) (st : EncryptedStore) :
    HsmResult unit * EncryptedStore :=
  match es_db st with
  | None => (Err GeneralError, st)
  | Some db =>
    match nonce with
    | Err e => (Err e, st)
    | Ok nonce_bytes =>
      match aes_gcm_encrypt encryption_key nonce_bytes plaintext with
      | None => (Err GeneralError, st)
      | Some ciphertext =>
        if negb (db_begin io) then (Err GeneralError, st)
        else if negb (db_open io) then (Err GeneralError, st)
        else if negb (db_op io) then (Err GeneralError, st)
        else if negb (db_commit io) then (Err GeneralError, st)
        else (Ok tt, {| es_db := Some (<[store_key := nonce_bytes ++ ciphertext]> db) |})
      end
    end
  end.

Definition load_encrypted (io : DbIO) (store_key : string) (encryption_key : bytes)
    (st : EncryptedStore) : HsmResult (option bytes) :=
  match es_db st with
  | None => Err GeneralError
  | Some db =>
    if negb (db_begin io) then Err GeneralError
    else if negb (db_open io) then Err GeneralError
    else if negb (db_op io) then Err GeneralError
    else
      match db !! store_key with
      | None => Ok None
      | Some stored =>
        if (length stored <? NONCE_LEN)%nat then Err EncryptedDataInvalid
        else
          match aes_gcm_decrypt encryption_key (take NONCE_LEN stored)
                  (drop NONCE_LEN stored) with
          | Some plaintext => Ok (Some plaintext)
          | None => Err EncryptedDataInvalid
          end
      end
  end.

(** [EncryptedStore::delete]. *)
Definition store_delete (io : DbIO) (store_key : string) (st : EncryptedStore) :
    HsmResult unit * EncryptedStore :=
  match es_db st with
  | None => (Err GeneralError, st)
  | Some db =>
    if db_begin io && db_open io && db_op io && db_commit io
    then (Ok tt, {| es_db := Some (delete store_key db) |})
    else (Err GeneralError, st)
  end.

(** [list_keys]: entries the iterator fails on are skipped. *)
Definition list_keys (io : DbIO) (st : EncryptedStore) : HsmResult (list string) :=
  match es_db st with
  | None => Err GeneralError
  | Some db =>
    if negb (db_begin io) then Err GeneralError
    else if negb (db_open io) then Err GeneralError
    else if negb (db_op io) then Err GeneralError
    else Ok (List.filter (db_entry io) (table_keys db))
  end.

(** [EncryptedStore::clear]: the result of deleting the table is ignored. *)
Definition store_clear (io : DbIO) (st : EncryptedStore) : HsmResult unit * EncryptedStore :=
  match es_db st with
  | None => (Err GeneralError, st)
  | Some db =>
    if negb (db_begin io) then (Err GeneralError, st)
    else if negb (db_commit io) then (Err GeneralError, st)
    else (Ok tt, if db_op io then {| es_db := Some ∅ |} else st)
  end.

End Store.

(** ** The object store *)

Definition MAX_OBJECTS : Z := 10000.

Record ObjectStore (A : Type) := {
  os_objects : gmap Z StoredObject;
  os_alloc : A;
  os_persist_store : option EncryptedStore;
  os_persist_key : option bytes;
  os_store_keys : gmap Z string;
}.
Arguments os_objects {A} o.
Arguments os_alloc {A} o.
Arguments os_persist_store {A} o.
Arguments os_persist_key {A} o.
Arguments os_store_keys {A} o.
Arguments Build_ObjectStore {A}.

#[export] Instance ObjectStore_expand {A} : FieldExpansion (ObjectStore A) := λ s,
  Build_ObjectStore (os_objects s) (os_alloc s) (os_persist_store s) (os_persist_key s)
    (os_store_keys s).

(** [ObjectStore::new] and [with_persistence], with a new allocator. *)
Definition ObjectStore_new {A} (alloc : A) : ObjectStore A :=
  {| os_objects := ∅; os_alloc := alloc; os_persist_store := None;
     os_persist_key := None; os_store_keys := ∅ |}.
Definition with_persistence {A} (alloc : A) (store : EncryptedStore) : ObjectStore A :=
  {| os_objects := ∅; os_alloc := alloc; os_persist_store := Some store;
     os_persist_key := None; os_store_keys := ∅ |}.

(** What one persisting call draws from its surroundings: the store-key bytes
    from the DRBG or, failing that, the OS; the GCM nonce; the database. *)
Record PersistEnv := {
  pe_key_drbg : HsmResult bytes;
  pe_key_os : bytes;
  pe_nonce : HsmResult bytes;
  pe_io : DbIO;
}.

(** A lifecycle transition a sweep reports; the label is kept as its bytes. *)
Record LifecycleTransition := {
  lt_handle : Z;
  lt_label : bytes;
  lt_old_state : KeyLifecycleState;
  lt_new_state : KeyLifecycleState;
}.

Section ObjectStore.
Context {P : PinPrimitives} {X : HexCodec} {C : ObjectCodec} {D : StoreOrder}.
Context {A : Type} {OH : ObjectHandles A}.
Implicit Types s : ObjectStore A.

Definition objects_len s : Z := Z.of_nat (size (os_objects s)).
Definition has_persistence s : bool := bool_decide (is_Some (os_persist_store s)).

(** The opaque key [generate_store_key] makes. *)
Definition new_store_key (e : PersistEnv) : string :=
  let random_bytes := match pe_key_drbg e with Ok b => b | Err _ => pe_key_os e end in
  ("obj_" +:+ hex_encode random_bytes)%string.

Definition generate_store_key (e : PersistEnv) (handle : Z) s : string * ObjectStore A :=
  let key := new_store_key e in
  (key, s <| os_store_keys := <[handle := key]> (os_store_keys s) |>).

Definition get_store_key (e : PersistEnv) (handle : Z) s : string * ObjectStore A :=
  match os_store_keys s !! handle with
  | Some key => (key, s)
  | None => generate_store_key e handle s
  end.

Definition set_persist_key (key : bytes) s : ObjectStore A := s <| os_persist_key := Some key |>.
Definition clear_persist_key s : ObjectStore A := s <| os_persist_key := None |>.

(** The loop of [load_from_store]; [io] gives the outcome of each read. *)
Fixpoint load_loop (io : string → DbIO) (store : EncryptedStore) (key : bytes)
    (keys : list string) (loaded : Z) s : HsmResult Z * ObjectStore A :=
  match keys with
  | [] => (Ok loaded, s)
  | store_key :: keys =>
    match load_encrypted (io store_key) store_key key store with
    | Err e => (Err e, s)
    | Ok None => load_loop io store key keys loaded s
    | Ok (Some data) =>
      match object_from_slice data with
      | None => load_loop io store key keys loaded s
      | Some obj =>
        if negb (validate_deserialized_object obj)
        then load_loop io store key keys loaded s
        else
          let handle := o_handle obj in
          load_loop io store key keys (loaded + 1)
            (s <| os_store_keys := <[handle := store_key]> (os_store_keys s) |>
               <| os_alloc := oh_past (os_alloc s) handle |>
               <| os_objects := <[handle := obj]> (os_objects s) |>)
      end
    end
  end.

Definition load_from_store (list_io : DbIO) (io : string → DbIO) s :
    HsmResult Z * ObjectStore A :=
  match os_persist_store s with
  | None => (Ok 0, s)
  | Some store =>
    match os_persist_key s with
    | None => (Ok 0, s)
    | Some key =>
      match list_keys list_io store with
      | Err e => (Err e, s)
      | Ok keys => load_loop io store key keys 0 s
      end
    end
  end.

Definition persist_object (e : PersistEnv) (o : StoredObject) s : ObjectStore A :=
  if negb (o_token_object o) then s
  else
    match os_persist_store s with
    | None => s
    | Some store =>
      match os_persist_key s with
      | None => s
      | Some key =>
        let '(store_key, s) := get_store_key e (o_handle o) s in
        match object_to_vec o with
        | None => s
        | Some data =>
          let '(_, store) := store_encrypted (pe_io e) (pe_nonce e) store_key data key store in
          s <| os_persist_store := Some store |>
        end
      end
    end.

Definition unpersist_object (e : PersistEnv) (handle : Z) s : ObjectStore A :=
  match os_persist_store s with
  | None => s
  | Some store =>
    let '(store_key, s) := get_store_key e handle s in
    let '(_, store) := store_delete (pe_io e) store_key store in
    s <| os_persist_store := Some store |>
      <| os_store_keys := delete handle (os_store_keys s) |>
  end.

(** The attribute loop of [create_object]. *)
Fixpoint apply_template (o : StoredObject) (template : Template) : HsmResult StoredObject :=
  match template with
  | [] => Ok o
  | (attr_type, value) :: template =>
    let? o := apply_attribute o attr_type value in apply_template o template
  end.

Definition template_class (template : Template) : option Z :=
  match List.find (λ p, p.1 =? CKA_CLASS) template with
  | Some (_, v) => read_ck_ulong v
  | None => None
  end.

Definition create_object (e : PersistEnv) (now : Z) (template : Template) s :
    HsmResult Z * ObjectStore A :=
  if MAX_OBJECTS <=? objects_len s then (Err DeviceMemory, s)
  else
    match template_class template with
    | None => (Err TemplateIncomplete, s)
    | Some class =>
      match oh_next (os_alloc s) with
      | (Err x, a) => (Err x, s <| os_alloc := a |>)
      | (Ok handle, a) =>
        let s := s <| os_alloc := a |> in
        match apply_template (StoredObject_new handle class now) template with
        | Err x => (Err x, s)
        | Ok obj =>
          let s := persist_object e obj s in
          (Ok handle, s <| os_objects := <[handle := obj]> (os_objects s) |>)
        end
      end
    end.

Definition insert_object (e : PersistEnv) (obj : StoredObject) s :
    HsmResult Z * ObjectStore A :=
  if MAX_OBJECTS <=? objects_len s then (Err DeviceMemory, s)
  else
    let handle := o_handle obj in
    let s := persist_object e obj s in
    (Ok handle, s <| os_objects := <[handle := obj]> (os_objects s) |>).

Definition next_handle s : HsmResult Z * ObjectStore A :=
  let '(r, a) := oh_next (os_alloc s) in (r, s <| os_alloc := a |>).

Definition destroy_object (e : PersistEnv) (handle : Z) s : HsmResult unit * ObjectStore A :=
  match os_objects s !! handle with
  | Some o =>
    if o_destroyable o
    then (Ok tt,
          unpersist_object e handle (s <| os_objects := delete handle (os_objects s) |>))
    else (Err GeneralError, s)
  | None => (Err ObjectHandleInvalid, s)
  end.

Definition get_object (handle : Z) s : HsmResult StoredObject :=
  ok_or (os_objects s !! handle) ObjectHandleInvalid.

Definition get_object_size (struct_size handle : Z) s : HsmResult Z :=
  let? o := get_object handle s in Ok (approximate_size struct_size o).

(** [ObjectStore::clear]. *)
Definition clear (io : DbIO) s : ObjectStore A :=
  let s := s <| os_objects := ∅ |> <| os_store_keys := ∅ |> in
  match os_persist_store s with
  | None => s
  | Some store => s <| os_persist_store := Some (store_clear io store).2 |>
  end.

(** [new_key] is the outcome of the DRBG. *)
Definition clear_and_rotate (io : DbIO) (new_key : HsmResult bytes) s :
    HsmResult unit * ObjectStore A :=
  let s := clear io s in
  match os_persist_key s with
  | None => (Ok tt, s)
  | Some _ =>
    match new_key with
    | Err _ => (Err GeneralError, s)
    | Ok key => (Ok tt, s <| os_persist_key := Some key |>)
    end
  end.

Definition find_objects_for_slot (template : Template) (is_logged_in : bool)
    (slot_id : option Z) s : list Z :=
  foldl (λ results h,
    match os_objects s !! h with
    | None => results
    | Some obj =>
      let matches := matches_template obj template in
      let visible := negb (o_private obj) || is_logged_in in
      let slot_ok := match slot_id with None => true | Some sid => o_slot_id obj =? sid end in
      if matches && visible && slot_ok then results ++ [h] else results
    end) [] (object_keys (os_objects s)).

Definition find_objects (template : Template) (is_logged_in : bool) s : list Z :=
  find_objects_for_slot template is_logged_in None s.

(** One entry of a sweep: the transitions and the copies to persist so far. *)
Definition SweepAcc : Type := list LifecycleTransition * list StoredObject.

Fixpoint sweep_loop (now : Z → Z) (handles : list Z) (acc : SweepAcc) s :
    MayPanic SweepAcc * ObjectStore A :=
  match handles with
  | [] => (Returns acc, s)
  | h :: handles =>
    match os_objects s !! h with
    | None => sweep_loop now handles acc s
    | Some obj =>
      match transition_lifecycle_if_needed (now h) obj with
      | Panicked => (Panicked, s)
      | Returns (None, _) => sweep_loop now handles acc s
      | Returns (Some (old_state, new_state), obj') =>
        let t := {| lt_handle := o_handle obj'; lt_label := o_label obj';
                    lt_old_state := old_state; lt_new_state := new_state |} in
        sweep_loop now handles
          (acc.1 ++ [t], if o_token_object obj' then acc.2 ++ [obj'] else acc.2)
          (s <| os_objects := <[h := obj']> (os_objects s) |>)
      end
    end
  end.

(** [sweep_lifecycle]: [now] and [e] give the clock and the surroundings for
    each handle. *)
Definition sweep_lifecycle (now : Z → Z) (e : Z → PersistEnv) s :
    MayPanic (list LifecycleTransition) * ObjectStore A :=
  match sweep_loop now (object_keys (os_objects s)) ([], []) s with
  | (Panicked, s) => (Panicked, s)
  | (Returns (transitions, to_persist), s) =>
    (Returns transitions, foldl (λ s o, persist_object (e (o_handle o)) o s) s to_persist)
  end.

Definition export_all_objects s : list StoredObject :=
  omap (λ h, os_objects s !! h) (object_keys (os_objects s)).

End ObjectStore.
