(* ===== verification/ObjectPersist.v ===== *)
(** * Persistence of token objects: theorems

    The invariant that ties the encrypted database to the objects in memory,
    its preservation by every operation of the object store, and what a reload
    makes of it. *)

From S2P Require Import Prelude Pkcs11 Handles PinCrypto TokenFiles Dates Objects ObjectProofs ObjectStore ObjectStoreProofs TokenDemo.

Section Persist.
Context {P : PinPrimitives} {PL : PinPrimitivesLaws P} {X : HexCodec}.
Context {C : ObjectCodec} {CL : ObjectCodecLaws C}.
Context {D : StoreOrder} {DL : StoreOrderLaws D}.
Context {A : Type} {OH : ObjectHandles A} {OHL : ObjectHandlesLaws A}.
Implicit Types (s : ObjectStore A) (db : gmap string bytes) (K : bytes).

(** A blob of the table that decrypts under [K] to [o]. *)
Definition decodes K (blob : bytes) (o : StoredObject) : Prop :=
  (NONCE_LEN <= length blob)%nat ∧
  ∃ data, aes_gcm_decrypt K (take NONCE_LEN blob) (drop NONCE_LEN blob) = Some data ∧
    object_from_slice data = Some o.

(** The store is open on [db] with key [K]. *)
Definition opened K db s : Prop :=
  os_persist_store s = Some {| es_db := Some db |} ∧ os_persist_key s = Some K.

(** Memory and database agree, except for the objects of [pend], which are
    yet to be written again. *)
Record synced K (pend : list StoredObject) db s : Prop := {
  sy_open : opened K db s;
  sy_handles : handles_ok s;
  sy_valid : ∀ h o, os_objects s !! h = Some o → o_token_object o = true →
    validate_deserialized_object o = true;
  sy_mapped : ∀ h sk, os_store_keys s !! h = Some sk →
    ∃ o blob, os_objects s !! h = Some o ∧ o_token_object o = true ∧
      db !! sk = Some blob ∧ (decodes K blob o ∨ o ∈ pend);
  sy_token : ∀ h o, os_objects s !! h = Some o → o_token_object o = true →
    is_Some (os_store_keys s !! h);
  sy_table : ∀ sk blob, db !! sk = Some blob → ∃ h, os_store_keys s !! h = Some sk;
  sy_inj : ∀ h1 h2 sk, os_store_keys s !! h1 = Some sk →
    os_store_keys s !! h2 = Some sk → h1 = h2;
}.

(** The surroundings of a persisting call: the database works, the DRBG gives
    a nonce and the new store key is not in use. *)
Definition env_ok (e : PersistEnv) s : Prop :=
  pe_io e = db_io_ok ∧ (∃ n, pe_nonce e = Ok n ∧ length n = NONCE_LEN) ∧
  ∀ h, os_store_keys s !! h ≠ Some (new_store_key e).

(** An object whose encoding fits one GCM message. *)
Definition small (o : StoredObject) : Prop :=
  ∀ b, object_to_vec o = Some b → Z.of_nat (length b) <= 2 ^ 36.

Definition store_key_for (e : PersistEnv) (h : Z) s : string :=
  default (new_store_key e) (os_store_keys s !! h).

Lemma get_store_key_eq e h s :
  get_store_key e h s = (store_key_for e h s,
    s <| os_store_keys := <[h := store_key_for e h s]> (os_store_keys s) |>).
Proof.
  unfold get_store_key, store_key_for, generate_store_key.
  destruct (os_store_keys s !! h) eqn:E; [|done]. simpl. rewrite insert_id by done.
  by destruct s.
Qed.

(** Persisting writes a blob that decodes to the object. *)
Lemma persist_object_eq K db e o s :
  length K = KEY_LEN → opened K db s → env_ok e s → small o → o_token_object o = true →
  ∃ blob, decodes K blob o ∧
    persist_object e o s =
      s <| os_store_keys := <[o_handle o := store_key_for e (o_handle o) s]> (os_store_keys s) |>
        <| os_persist_store :=
             Some {| es_db := Some (<[store_key_for e (o_handle o) s := blob]> db) |} |>.
Proof using PL CL.
  intros HK [Hs Hk] (Hio & (n & Hn & Hl) & _) Hsm Ht. unfold persist_object.
  rewrite Ht, Hs, Hk, get_store_key_eq. simpl.
  destruct (object_to_vec_total o) as [data Hd]. rewrite Hd.
  destruct (gcm_encrypts K n data HK Hl (Hsm _ Hd)) as [ct Hct].
  exists (n ++ ct). split.
  - split; [rewrite length_app; lia|]. exists data. rewrite <- Hl, take_app_length, drop_app_length.
    split; [by apply gcm_decrypts|by apply object_from_to_vec].
  - unfold store_encrypted. simpl. by rewrite Hn, Hct, Hio.
Qed.

Lemma persist_session_object e o s :
  o_token_object o = false → persist_object e o s = s.
Proof. intros Ht. unfold persist_object. by rewrite Ht. Qed.

(** ** Preservation *)

(** The allocator may move on. *)
Lemma synced_alloc K pend db s a :
  (∀ x, oh_used (os_alloc s) x → oh_used a x) →
  synced K pend db s → synced K pend db (s <| os_alloc := a |>).
Proof.
  intros Hm [? Hh]. split; try done. intros h o E. apply Hh in E as [? ?]. split; [done|].
  by apply Hm.
Qed.

Lemma synced_unmapped K pend db s h :
  synced K pend db s → os_objects s !! h = None → os_store_keys s !! h = None.
Proof.
  intros S E. destruct (os_store_keys s !! h) eqn:E'; [|done].
  destruct (sy_mapped _ _ _ _ S _ _ E') as (? & _ & ? & _). congruence.
Qed.

(** Filing a new object keeps what concerns the memory alone. *)
Lemma synced_file K pend db o s :
  synced K pend db s → oh_used (os_alloc s) (o_handle o) →
  (o_token_object o = true → validate_deserialized_object o = true) →
  (∀ h o', <[o_handle o := o]> (os_objects s) !! h = Some o' →
     o_handle o' = h ∧ oh_used (os_alloc s) h) ∧
  (∀ h o', <[o_handle o := o]> (os_objects s) !! h = Some o' →
     o_token_object o' = true → validate_deserialized_object o' = true).
Proof.
  intros S Hu Hval. split.
  - intros h o' [[<- <-]|[_ E]]%lookup_insert_Some; [done|by apply (sy_handles _ _ _ _ S)].
  - intros h o' [[_ <-]|[_ E]]%lookup_insert_Some; [done|by apply (sy_valid _ _ _ _ S h)].
Qed.

Lemma synced_add_session K db o s :
  synced K [] db s → os_objects s !! o_handle o = None →
  oh_used (os_alloc s) (o_handle o) → o_token_object o = false →
  synced K [] db (s <| os_objects := <[o_handle o := o]> (os_objects s) |>).
Proof.
  intros S Hnone Hu Ht. destruct (synced_file _ _ _ _ _ S Hu) as [Hh Hv]; [congruence|].
  pose proof (synced_unmapped _ _ _ _ _ S Hnone). destruct S. split; simpl; try done.
  - intros h sk E. destruct (sy_mapped0 _ _ E) as (o' & b & ? & ?). exists o', b.
    rewrite lookup_insert_ne by congruence. done.
  - intros h o' [[_ <-]|[_ E]]%lookup_insert_Some Ht'; [congruence|by eapply sy_token0].
Qed.

(** A new token object under a store key that was not in use. *)
Lemma synced_add_token K db o s sk blob :
  synced K [] db s → os_objects s !! o_handle o = None →
  oh_used (os_alloc s) (o_handle o) → o_token_object o = true →
  validate_deserialized_object o = true → decodes K blob o →
  (∀ h, os_store_keys s !! h ≠ Some sk) →
  synced K [] (<[sk := blob]> db)
    (s <| os_store_keys := <[o_handle o := sk]> (os_store_keys s) |>
       <| os_persist_store := Some {| es_db := Some (<[sk := blob]> db) |} |>
       <| os_objects := <[o_handle o := o]> (os_objects s) |>).
Proof.
  intros S Hnone Hu Etok Hval Hd Hfresh.
  destruct (synced_file _ _ _ _ _ S Hu (λ _, Hval)) as [Hh Hv].
  pose proof (synced_unmapped _ _ _ _ _ S Hnone) as Hnk.
  destruct S as [Ho _ _ Hm Ht Htab Hi]. split; simpl; try done.
  - by destruct Ho.
  - intros h sk' [[<- <-]|[Hne E']]%lookup_insert_Some.
    + exists o, blob. rewrite !lookup_insert_eq. auto.
    + destruct (Hm _ _ E') as (o' & b & ? & ? & ? & ?). exists o', b.
      rewrite !lookup_insert_ne; [done| |done]. intros <-. by apply (Hfresh h).
  - intros h o' [[<- <-]|[Hne E']]%lookup_insert_Some Ht'.
    + rewrite lookup_insert_eq. eauto.
    + rewrite lookup_insert_ne by done. by eapply Ht.
  - intros sk' b [[<- _]|[Hne E']]%lookup_insert_Some.
    + exists (o_handle o). by rewrite lookup_insert_eq.
    + destruct (Htab _ _ E') as [h Eh]. exists h. rewrite lookup_insert_ne; [done|].
      congruence.
  - intros h1 h2 sk' [[<- <-]|[Hn1 E1]]%lookup_insert_Some
      [[<- E2]|[Hn2 E2]]%lookup_insert_Some; try done.
    + by destruct (Hfresh h2).
    + subst. by destruct (Hfresh h1).
    + by eapply Hi.
Qed.

(** A new object is persisted when it is a token object, and filed. *)
Lemma synced_add K db e o s :
  length K = KEY_LEN → synced K [] db s → env_ok e s → small o →
  os_objects s !! o_handle o = None → oh_used (os_alloc s) (o_handle o) →
  (o_token_object o = true → validate_deserialized_object o = true) →
  let s1 := persist_object e o s in
  ∃ db', synced K [] db' (s1 <| os_objects := <[o_handle o := o]> (os_objects s1) |>).
Proof using PL CL.
  intros HK S He Hsm Hnone Hu Hval s1. unfold s1.
  destruct (o_token_object o) eqn:Etok.
  - destruct (persist_object_eq K db e o s HK (sy_open _ _ _ _ S) He Hsm Etok) as (blob & Hd & E).
    rewrite E. unfold store_key_for. rewrite (synced_unmapped _ _ _ _ _ S Hnone).
    destruct He as (_ & _ & Hfresh).
    eexists. exact (synced_add_token _ _ _ _ _ _ S Hnone Hu Etok (Hval eq_refl) Hd Hfresh).
  - rewrite (persist_session_object _ _ _ Etok). eexists. by apply synced_add_session.
Qed.

(** Removing an object removes what was persisted of it. *)
Lemma synced_remove K db e h s :
  synced K [] db s → env_ok e s →
  ∃ db', synced K [] db'
    (unpersist_object e h (s <| os_objects := delete h (os_objects s) |>)).
Proof.
  intros [Ho Hh Hv Hm Ht Htab Hi] (Hio & _ & Hfresh).
  unfold unpersist_object. rewrite get_store_key_eq. simpl. destruct Ho as [Hs Hk]. rewrite Hs.
  unfold store_key_for. simpl. set (sk := default _ _).
  unfold store_delete. rewrite Hio. simpl.
  assert (Hother : ∀ h', h' ≠ h → os_store_keys s !! h' ≠ Some sk).
  { intros h' Hne E. unfold sk in E. destruct (os_store_keys s !! h) eqn:Eh; simpl in E.
    - by apply Hne, (Hi _ _ _ E).
    - by apply (Hfresh h'). }
  exists (delete sk db). rewrite delete_insert_eq. split; simpl.
  - done.
  - unfold handles_ok. simpl. intros h' o' [Hne E]%lookup_delete_Some. by apply Hh.
  - intros h' o' [_ E]%lookup_delete_Some. by eapply Hv.
  - intros h' sk' [Hne E]%lookup_delete_Some.
    destruct (Hm _ _ E) as (o' & b & ? & ? & ? & ?). exists o', b.
    rewrite !lookup_delete_ne; [done| |done]. intros <-. by apply (Hother h').
  - intros h' o' [Hne E]%lookup_delete_Some Ht'. rewrite lookup_delete_ne by done. by eapply Ht.
  - intros sk' b [Hne E]%lookup_delete_Some. destruct (Htab _ _ E) as [h' Eh].
    exists h'. rewrite lookup_delete_ne; [done|]. intros <-. apply Hne. unfold sk.
    by rewrite Eh.
  - intros h1 h2 sk' [_ E1]%lookup_delete_Some [_ E2]%lookup_delete_Some. by eapply Hi.
Qed.

(** An update in memory leaves the new version to be written. *)
Lemma synced_touch K pend db h o o' s :
  synced K pend db s → os_objects s !! h = Some o →
  o_handle o' = o_handle o → o_token_object o' = o_token_object o →
  (o_token_object o' = true → validate_deserialized_object o' = true) →
  synced K (if o_token_object o' then pend ++ [o'] else pend) db
    (s <| os_objects := <[h := o']> (os_objects s) |>).
Proof.
  intros [Ho Hh Hv Hm Ht Htab Hi] E Eh Et Hval.
  destruct (Hh _ _ E) as [<- Hu]. split; simpl; try done.
  - unfold handles_ok. simpl. intros h' o1 [[<- <-]|[_ E1]]%lookup_insert_Some; [done|by apply Hh].
  - intros h' o1 [[<- <-]|[_ E1]]%lookup_insert_Some; [done|by eapply Hv].
  - intros h' sk E1. destruct (Hm _ _ E1) as (o1 & b & Eo & Et1 & Eb & Hd).
    destruct (decide (o_handle o = h')) as [<-|Hne].
    + assert (o1 = o) as -> by congruence. exists o', b. rewrite lookup_insert_eq, Et, Et1.
      split_and!; try done. right. set_solver.
    + exists o1, b. rewrite lookup_insert_ne by done. split_and!; try done.
      case_match; set_solver.
  - intros h' o1 [[<- <-]|[_ E1]]%lookup_insert_Some Ht1; [|by eapply Ht].
    eapply Ht; [done|congruence].
Qed.

(** Writing the first pending object. *)
Lemma synced_flush K o pend db e s :
  length K = KEY_LEN → synced K (o :: pend) db s → env_ok e s → small o →
  os_objects s !! o_handle o = Some o → o_token_object o = true →
  ∃ db', synced K pend db' (persist_object e o s) ∧
    os_store_keys (persist_object e o s) = os_store_keys s.
Proof using PL CL.
  intros HK S He Hsm E Et.
  destruct (persist_object_eq K db e o s HK (sy_open _ _ _ _ S) He Hsm Et) as (blob & Hd & ->).
  destruct S as [Ho Hh Hv Hm Ht Htab Hi]. destruct (Ht _ _ E Et) as [sk Esk].
  unfold store_key_for. rewrite Esk. simpl. rewrite (insert_id (os_store_keys s)) by done.
  exists (<[sk := blob]> db). split; [|done]. split; simpl; try done.
  - by destruct Ho.
  - intros h sk' E1. destruct (Hm _ _ E1) as (o1 & b & Eo & Et1 & Eb & Hd1).
    destruct (decide (sk' = sk)) as [->|Hne].
    + assert (h = o_handle o) as -> by (by eapply Hi).
      assert (o1 = o) as -> by congruence. exists o, blob. rewrite lookup_insert_eq. auto.
    + exists o1, b. rewrite lookup_insert_ne by done. split_and!; try done.
      destruct Hd1 as [?|[->|?]%elem_of_cons]; auto.
      destruct Hne. apply Hh in Eo as [<- _]. congruence.
  - intros sk' b [[<- _]|[_ Eb]]%lookup_insert_Some; [eauto|by eapply Htab].
Qed.

(** ** The sweep *)

Lemma transition_some now o old new o' :
  transition_lifecycle_if_needed now o = Returns (Some (old, new), o') →
  o_handle o' = o_handle o ∧ o_token_object o' = o_token_object o ∧
  (validate_deserialized_object o = true → validate_deserialized_object o' = true).
Proof.
  intros [(_ & ? & _)|(_ & st & E & -> & _)]%transition_cases; [done|]. simpl.
  apply compute_date_based_not_terminal in E. split_and!; [done|done|].
  unfold validate_deserialized_object. simpl. repeat case_match; try done.
  bool_to_prop. subst. destruct E. unfold terminal. set_solver.
Qed.

(** The copies to persist are the current versions of token objects that the
    loop has passed. *)
Definition pending_ok (pend : list StoredObject) (ahead : list Z) s : Prop :=
  ∀ o, o ∈ pend → os_objects s !! o_handle o = Some o ∧ o_token_object o = true ∧
    o_handle o ∉ ahead.

Lemma sweep_loop_synced K db now handles acc s acc' s' :
  NoDup handles → synced K acc.2 db s → pending_ok acc.2 handles s →
  sweep_loop now handles acc s = (Returns acc', s') →
  synced K acc'.2 db s' ∧ pending_ok acc'.2 [] s' ∧ os_store_keys s' = os_store_keys s.
Proof.
  revert acc s. induction handles as [|h handles IH]; intros acc s Hnd S Hp H; simpl in H.
  { by simplify_eq. }
  apply NoDup_cons in Hnd as [Hnot Hnd].
  assert (Hp' : pending_ok acc.2 handles s).
  { intros o (? & ? & ?)%Hp. split_and!; [done|done|set_solver]. }
  destruct (os_objects s !! h) as [o|] eqn:E; [|by apply IH in H].
  destruct (transition_lifecycle_if_needed (now h) o) as [[[[old new]|] o']|] eqn:T;
    [| |done]; [|by apply IH in H].
  destruct (transition_some _ _ _ _ _ T) as (Eh & Et & Hval).
  destruct (sy_handles _ _ _ _ S _ _ E) as [Hoh _].
  pose proof (synced_touch K acc.2 db h o o' s S E Eh Et) as S'.
  apply IH in H; [done|done| |].
  - simpl. apply S'. intros Ht. apply Hval, (sy_valid _ _ _ _ S _ _ E). congruence.
  - simpl. intros o1 Hin. simpl.
    assert (Hcase : o1 ∈ acc.2 ∨ o1 = o' ∧ o_token_object o' = true)
      by (destruct (o_token_object o'); set_solver).
    destruct Hcase as [(? & ? & Hn)%Hp|[-> Ht]].
    + rewrite lookup_insert_ne by set_solver. split_and!; [done|done|set_solver].
    + rewrite Eh, Hoh, lookup_insert_eq. split_and!; congruence.
Qed.

Lemma env_ok_keys e s s' : os_store_keys s' = os_store_keys s → env_ok e s → env_ok e s'.
Proof. unfold env_ok. by intros ->. Qed.

Lemma flush_synced K db e pend s :
  length K = KEY_LEN → synced K pend db s → pending_ok pend [] s →
  (∀ h, env_ok (e h) s) → (∀ h o, os_objects s !! h = Some o → small o) →
  ∃ db', synced K [] db' (foldl (λ s o, persist_object (e (o_handle o)) o s) s pend) ∧
    os_objects (foldl (λ s o, persist_object (e (o_handle o)) o s) s pend) = os_objects s.
Proof using PL CL DL OHL.
  intros HK. revert db s. induction pend as [|o pend IH]; intros db s S Hp He Hsm; [by eauto|].
  destruct (Hp o) as (E & Et & _); [set_solver|].
  destruct (synced_flush K o pend db (e (o_handle o)) s) as (db' & S' & Ek); eauto.
  destruct (IH db' (persist_object (e (o_handle o)) o s)) as (db'' & S'' & Eo); eauto.
  - intros o' Hin. rewrite persist_object_objects. apply Hp. set_solver.
  - intros h. by eapply env_ok_keys.
  - intros h o'. rewrite persist_object_objects. apply Hsm.
  - exists db''. simpl. rewrite Eo, persist_object_objects. done.
Qed.

Lemma sweep_synced K db now e s ts s' :
  length K = KEY_LEN → synced K [] db s → (∀ h, env_ok (e h) s) →
  sweep_lifecycle now e s = (Returns ts, s') →
  (∀ h o, os_objects s' !! h = Some o → small o) →
  ∃ db', synced K [] db' s'.
Proof using PL CL DL OHL.
  intros HK S He H Hsm. unfold sweep_lifecycle in H.
  destruct (sweep_loop _ _ _ s) as [[[ts' pend]|] s1] eqn:E; [|done]. simplify_eq.
  apply (sweep_loop_synced K db) in E as (S1 & Hp & Ek); simpl in *;
    [|apply object_keys_NoDup|done|by intros o Hin%elem_of_nil].
  assert (Hob : ∀ l t, os_objects
    (foldl (λ (s : ObjectStore A) o, persist_object (e (o_handle o)) o s) t l) = os_objects t).
  { induction l as [|o l IH]; intros t; [done|]. simpl. by rewrite IH, persist_object_objects. }
  destruct (flush_synced K db e pend s1) as (db' & S' & _); eauto.
  - intros h. by eapply env_ok_keys.
  - intros h o Eo. apply (Hsm h). by rewrite Hob.
Qed.

(** ** Loading *)

Lemma load_encrypted_mapped K db s h sk :
  synced K [] db s → os_store_keys s !! h = Some sk →
  ∃ o data, os_objects s !! h = Some o ∧ o_handle o = h ∧ o_token_object o = true ∧
    validate_deserialized_object o = true ∧
    load_encrypted db_io_ok sk K {| es_db := Some db |} = Ok (Some data) ∧
    object_from_slice data = Some o.
Proof.
  intros S E. destruct (sy_mapped _ _ _ _ S _ _ E) as (o & b & Eo & Et & Eb & [Hd|Hd]);
    [|set_solver].
  destruct Hd as (Hl & data & Hdec & Hfrom). exists o, data.
  destruct (sy_handles _ _ _ _ S _ _ Eo) as [Eh _]. split_and!; try done.
  - by eapply sy_valid.
  - unfold load_encrypted. simpl. rewrite Eb, (proj2 (Nat.ltb_ge _ _)) by done. by rewrite Hdec.
Qed.

(** What loading the listed keys into [t] gives, for the handle [h]. *)
Definition overlay {V} (s : ObjectStore A) (keys : list string) (h : Z) (loaded old : V) : V :=
  match os_store_keys s !! h with
  | Some sk => if decide (sk ∈ keys) then loaded else old
  | None => old
  end.

Lemma load_loop_eq K db s keys n t :
  synced K [] db s → (∀ sk, sk ∈ keys → is_Some (db !! sk)) →
  ∃ m t', load_loop (λ _, db_io_ok) {| es_db := Some db |} K keys n t = (Ok m, t') ∧
    (∀ h, os_objects t' !! h = overlay s keys h (os_objects s !! h) (os_objects t !! h)) ∧
    (∀ h, os_store_keys t' !! h =
          overlay s keys h (os_store_keys s !! h) (os_store_keys t !! h)) ∧
    (∀ x, oh_used (os_alloc t) x → oh_used (os_alloc t') x) ∧
    (∀ x, overlay s keys x True False → oh_used (os_alloc t') x) ∧
    os_persist_store t' = os_persist_store t ∧ os_persist_key t' = os_persist_key t.
Proof using PL CL DL OHL.
  intros S. revert n t. induction keys as [|sk keys IH]; intros n t Hkeys.
  { eexists _, t. split; [done|]. unfold overlay. split_and!; try done;
      intros h; case_match; try done; by rewrite decide_False by set_solver. }
  destruct (Hkeys sk) as [blob Eb]; [set_solver|].
  destruct (sy_table _ _ _ _ S _ _ Eb) as [h0 E0].
  destruct (load_encrypted_mapped _ _ _ _ _ S E0) as (o & data & Eo & Eh & Et & Hv & Hl & Hf).
  cbn [load_loop]. rewrite Hl, Hf, Hv. cbn [negb]. rewrite Eh.
  edestruct (IH (n + 1)) as (m & t' & -> & Ho & Hk & Hu & Hu' & Hs & Hp); [set_solver|].
  exists m, t'. simpl in *.
  assert (Hov : ∀ {V} h (l old : V), overlay s (sk :: keys) h l old =
                  if decide (h = h0) then l else overlay s keys h l old).
  { intros V h l old. unfold overlay. destruct (decide (h = h0)) as [->|Hne].
    - rewrite E0. by rewrite decide_True by set_solver.
    - destruct (os_store_keys s !! h) as [sk'|] eqn:E'; [|done].
      assert (sk' ≠ sk) by (intros ->; by apply Hne, (sy_inj _ _ _ _ S _ _ sk)).
      destruct (decide (sk' ∈ keys)); [rewrite decide_True|rewrite decide_False]; set_solver. }
  split; [done|]. split_and!; try done.
  - intros h. rewrite Ho, Hov. destruct (decide (h = h0)) as [->|Hne].
    + unfold overlay. rewrite E0, lookup_insert_eq. by case_match.
    + unfold overlay. by rewrite lookup_insert_ne by done.
  - intros h. rewrite Hk, Hov. destruct (decide (h = h0)) as [->|Hne].
    + unfold overlay. rewrite E0, lookup_insert_eq. by case_match.
    + unfold overlay. by rewrite lookup_insert_ne by done.
  - intros x Hx. apply Hu. by apply oh_past_mono.
  - intros x. rewrite Hov. destruct (decide (x = h0)) as [->|Hne]; [|apply Hu'].
    intros _. apply Hu, oh_past_used.
Qed.

(** Loading the whole table. *)
Lemma load_all_eq K db s t :
  synced K [] db s → opened K db t →
  ∃ n t', load_from_store db_io_ok (λ _, db_io_ok) t = (Ok n, t') ∧ opened K db t' ∧
    (∀ h, os_objects t' !! h = if os_store_keys s !! h is Some _ then os_objects s !! h
                               else os_objects t !! h) ∧
    (∀ h, os_store_keys t' !! h = if os_store_keys s !! h is Some _ then os_store_keys s !! h
                                  else os_store_keys t !! h) ∧
    (∀ x, oh_used (os_alloc t) x → oh_used (os_alloc t') x) ∧
    (∀ x, is_Some (os_store_keys s !! x) → oh_used (os_alloc t') x).
Proof using PL CL DL OHL.
  intros S [Hst Hk]. unfold load_from_store. rewrite Hst, Hk. unfold list_keys. simpl.
  assert (List.filter (λ _ : string, true) (table_keys db) = table_keys db) as ->
    by (induction (table_keys db); simpl; congruence).
  destruct (load_loop_eq K db s (table_keys db) 0 t S) as (n & t' & E & Ho & Hm & Hu & Hu' & E1 & E2).
  { intros sk. apply table_keys_elem. }
  assert (Hov : ∀ {V} h (l old : V), overlay s (table_keys db) h l old =
                  if os_store_keys s !! h is Some _ then l else old).
  { intros V h l old. unfold overlay. destruct (os_store_keys s !! h) as [sk|] eqn:E'; [|done].
    destruct (sy_mapped _ _ _ _ S _ _ E') as (_ & b & _ & _ & Eb & _).
    rewrite decide_True; [done|]. apply table_keys_elem. eauto. }
  exists n, t'. split; [done|]. split; [split; congruence|]. split_and!; try done.
  - intros h. by rewrite Ho, Hov.
  - intros h. by rewrite Hm, Hov.
  - intros x [sk Esk]. apply Hu'. by rewrite Hov, Esk.
Qed.

(** Whether an object outlives the process. *)
Definition token_objects s : gmap Z StoredObject :=
  filter (λ p, o_token_object p.2 = true) (os_objects s).

Lemma token_objects_lookup K db s h :
  synced K [] db s →
  token_objects s !! h = if os_store_keys s !! h is Some _ then os_objects s !! h else None.
Proof.
  intros S. unfold token_objects. destruct (os_store_keys s !! h) as [sk|] eqn:E.
  - destruct (sy_mapped _ _ _ _ S _ _ E) as (o & _ & Eo & Et & _). rewrite Eo.
    by apply map_lookup_filter_Some.
  - apply map_lookup_filter_None. right. intros o Eo Et. simpl in Et.
    destruct (sy_token _ _ _ _ S _ _ Eo Et). congruence.
Qed.

(** A new process on the database of [s], after the login that gives [K]. *)
Definition restarted K (alloc : A) (store : EncryptedStore) : ObjectStore A :=
  set_persist_key K (with_persistence alloc store).

Lemma restart_synced K db s alloc :
  synced K [] db s →
  ∃ n t', load_from_store db_io_ok (λ _, db_io_ok)
            (restarted K alloc {| es_db := Some db |}) = (Ok n, t') ∧
    synced K [] db t' ∧ os_objects t' = token_objects s.
Proof using PL CL DL OHL.
  intros S.
  destruct (load_all_eq K db s (restarted K alloc {| es_db := Some db |}) S)
    as (n & t' & E & Hop & Ho & Hm & _ & Hu); [done|].
  assert (Eo : ∀ h, os_objects t' !! h = if os_store_keys s !! h is Some _ then os_objects s !! h else None)
    by (intros h; rewrite Ho; by case_match).
  assert (Em : os_store_keys t' = os_store_keys s).
  { apply map_eq. intros h. rewrite Hm. by case_match. }
  exists n, t'. split; [done|]. split; cycle 1.
  { apply map_eq. intros h. by rewrite Eo, (token_objects_lookup K db). }
  destruct S as [_ Hh Hv Hmap Ht Htab Hi]. split; rewrite ?Em; try done.
  - intros h o. rewrite Eo. destruct (os_store_keys s !! h) eqn:Ek; [|done].
    intros E'. apply Hh in E' as [? _]. split; [done|]. apply Hu. eauto.
  - intros h o. rewrite Eo. case_match; [|done]. by apply Hv.
  - intros h sk Ek. rewrite Eo, Ek. by apply Hmap.
  - intros h o. rewrite Eo. case_match; [by eauto|done].
Qed.

(** Loading again in the same process changes no object. *)
Lemma reload_synced K db s :
  synced K [] db s →
  ∃ n t', load_from_store db_io_ok (λ _, db_io_ok) s = (Ok n, t') ∧
    synced K [] db t' ∧ os_objects t' = os_objects s.
Proof using PL CL DL OHL.
  intros S. destruct (load_all_eq K db s s S (sy_open _ _ _ _ S))
    as (n & t' & E & Hop & Ho & Hm & Hu & _).
  assert (Eo : os_objects t' = os_objects s).
  { apply map_eq. intros h. rewrite Ho. by case_match. }
  assert (Em : os_store_keys t' = os_store_keys s).
  { apply map_eq. intros h. rewrite Hm. by case_match. }
  exists n, t'. split; [done|]. split; [|done].
  destruct S as [_ Hh Hv Hmap Ht Htab Hi]. split; rewrite ?Em, ?Eo; try done.
  intros h o. rewrite Eo. intros E'. apply Hh in E' as [? ?]. split; [done|by apply Hu].
Qed.

(** ** Runs *)

(** The operations on a store opened with [K], in surroundings where the
    database and the DRBG work and the random store keys do not collide.
    [ps_insert] is the key-generation pattern: a handle is allocated and an
    object built for it is inserted. *)
Inductive persist_step K s : ObjectStore A → Prop :=
| ps_create e now template r s' :
    oh_room (os_alloc s) → env_ok e s →
    create_object e now template s = (r, s') →
    (∀ h o, os_objects s' !! h = Some o → small o) → persist_step K s s'
| ps_insert e o h s1 r s' :
    oh_room (os_alloc s) → env_ok e s →
    next_handle s = (Ok h, s1) → o_handle o = h → small o →
    (o_token_object o = true → validate_deserialized_object o = true) →
    insert_object e o s1 = (r, s') → persist_step K s s'
| ps_destroy e h r s' :
    env_ok e s → destroy_object e h s = (r, s') → persist_step K s s'
| ps_sweep now e ts s' :
    (∀ h, env_ok (e h) s) → sweep_lifecycle now e s = (Returns ts, s') →
    (∀ h o, os_objects s' !! h = Some o → small o) → persist_step K s s'
| ps_reload r s' :
    load_from_store db_io_ok (λ _, db_io_ok) s = (r, s') → persist_step K s s'
| ps_restart alloc store r s' :
    os_persist_store s = Some store →
    load_from_store db_io_ok (λ _, db_io_ok) (restarted K alloc store) = (r, s') →
    persist_step K s s'.

Lemma create_synced K db e now template s r s' :
  length K = KEY_LEN → oh_room (os_alloc s) → env_ok e s → synced K [] db s →
  create_object e now template s = (r, s') →
  (∀ h o, os_objects s' !! h = Some o → small o) → ∃ db', synced K [] db' s'.
Proof using PL CL DL OHL.
  intros HK Hroom He S H Hsm. unfold create_object in H.
  destruct (oh_next_fresh _ Hroom) as (h & a' & Hn & Hfresh & Hnz & Hu & Hmono).
  rewrite Hn in H. split_tests_in H; [by eauto| | |by eauto].
  - pose proof (apply_template_protects _ _ _ Heqr0) as (Ps & _ & Ph & _ & Pl & _). simpl in *.
    assert (S1 : synced K [] db (s <| os_alloc := a' |>)) by (by apply synced_alloc).
    rewrite <- Ph in Hu, Hfresh, Hnz |- *. apply (synced_add K db e); try done.
    + apply (Hsm (o_handle a)). simpl. rewrite Ph. apply lookup_insert_eq.
    + simpl. destruct (os_objects s !! o_handle a) eqn:E; [|done].
      by apply (sy_handles _ _ _ _ S) in E as [_ ?].
    + intros _. unfold validate_deserialized_object. rewrite Pl, Ps by done.
      rewrite (proj2 (Z.eqb_neq _ _)) by done. by rewrite andb_false_r.
  - exists db. by apply synced_alloc.
Qed.

Lemma insert_synced K db e o h s s1 r s' :
  length K = KEY_LEN → oh_room (os_alloc s) → env_ok e s → synced K [] db s →
  next_handle s = (Ok h, s1) → o_handle o = h → small o →
  (o_token_object o = true → validate_deserialized_object o = true) →
  insert_object e o s1 = (r, s') → ∃ db', synced K [] db' s'.
Proof using PL CL DL OHL.
  intros HK Hroom He S Hn Eh Hsm Hval H. unfold next_handle in Hn.
  destruct (oh_next_fresh _ Hroom) as (h' & a' & Ha & Hfresh & Hnz & Hu & Hmono).
  rewrite Ha in Hn. simplify_eq.
  assert (S1 : synced K [] db (s <| os_alloc := a' |>)) by (by apply synced_alloc).
  unfold insert_object in H. case_match in H; simplify_eq; [by eauto|].
  apply (synced_add K db e); try done. simpl.
  destruct (os_objects s !! o_handle o) eqn:E; [|done].
  by apply (sy_handles _ _ _ _ S) in E as [_ ?].
Qed.

Lemma persist_step_synced K db s s' :
  length K = KEY_LEN → persist_step K s s' → synced K [] db s → ∃ db', synced K [] db' s'.
Proof using PL CL DL OHL.
  intros HK H S. destruct H as [e now tm r s' Hr He H Hsm|e o h s1 r s' Hr He Hn Eh Hsm Hv H
    |e h r s' He H|now e ts s' He H Hsm|r s' H|al st r s' Hst H].
  - by eapply create_synced.
  - by eapply insert_synced.
  - unfold destroy_object in H. split_tests_in H; try by eauto. by apply (synced_remove K db).
  - by eapply (sweep_synced K db).
  - destruct (reload_synced K db s S) as (n & t' & E & S' & _). rewrite E in H.
    simplify_eq. eauto.
  - destruct (restart_synced K db s al S) as (n & t' & E & S' & _).
    destruct (sy_open _ _ _ _ S) as [E1 _]. rewrite E1 in Hst. simplify_eq.
    rewrite E in H. simplify_eq. eauto.
Qed.

Lemma fresh_synced K alloc : synced K [] ∅ (restarted K alloc {| es_db := Some ∅ |}).
Proof. split; try done. Qed.

Lemma persist_steps_synced K alloc s :
  length K = KEY_LEN →
  rtc (persist_step K) (restarted K alloc {| es_db := Some ∅ |}) s →
  ∃ db, synced K [] db s.
Proof using PL CL DL OHL.
  intros HK H.
  cut (∀ s0 s1, rtc (persist_step K) s0 s1 → ∀ db, synced K [] db s0 → ∃ db', synced K [] db' s1).
  { intros G. by eapply G, fresh_synced. }
  clear H s. induction 1 as [|s1 s2 s3 H12 _ IH]; intros db S; [by eauto|].
  destruct (persist_step_synced K db _ _ HK H12 S) as [db' S']. by eapply IH.
Qed.


(** a key that is lost.  A token object with key material that is neither
    sensitive nor extractable is accepted by [insert_object] and written to the
    database, but every later load rejects it: after a restart the store is
    empty, while its blob is still in the table. *)
Theorem plain_unextractable_key_lost K e o (alloc alloc' : A)
    (HK : length K = KEY_LEN) (Hsm : small o)
    (He : pe_io e = db_io_ok ∧ ∃ n, pe_nonce e = Ok n ∧ length n = NONCE_LEN)
    (Htok : o_token_object o = true) (Hkm : is_Some (o_key_material o))
    (Hs : o_sensitive o = false) (Hx : o_extractable o = false) :
  ∃ s db blob t,
    insert_object e o (restarted K alloc {| es_db := Some ∅ |}) = (Ok (o_handle o), s) ∧
    os_objects s !! o_handle o = Some o ∧
    os_persist_store s = Some {| es_db := Some db |} ∧ db = {[new_store_key e := blob]} ∧
    load_from_store db_io_ok (λ _, db_io_ok) (restarted K alloc' {| es_db := Some db |}) =
      (Ok 0, t) ∧ os_objects t = ∅.
Proof using PL CL DL.
  set (s0 := restarted K alloc {| es_db := Some ∅ |}).
  destruct (persist_object_eq K ∅ e o s0) as (blob & (Hl & data & Hd & Hf) & Ep); try done.
  { destruct He as [? ?]. done. }
  eexists _, _, blob, _. split; [|split; [|split; [|split; [reflexivity|split]]]].
  - unfold insert_object. rewrite Ep. reflexivity.
  - simpl. by rewrite lookup_insert_eq.
  - reflexivity.
  - unfold load_from_store, list_keys. simpl.
    assert (table_keys {[new_store_key e := blob]} = [new_store_key e]) as ->.
    { apply Permutation_singleton_r, NoDup_Permutation;
        [apply table_keys_NoDup|apply NoDup_singleton|].
      intros k. rewrite table_keys_elem, list_elem_of_singleton, lookup_singleton_is_Some. done. }
    simpl. unfold load_encrypted. simpl. rewrite lookup_singleton_eq.
    rewrite (proj2 (Nat.ltb_ge _ _)), Hd, Hf by done. unfold validate_deserialized_object.
    rewrite Hs, Hx, bool_decide_true by done. simpl. by destruct (o_handle o =? 0).
  - reflexivity.
Qed.
End Persist.

(** ** Concrete runs *)

#[local] Existing Instance toy_primitives.
#[local] Existing Instance toy_hex.
#[local] Existing Instance toy_codec.
#[local] Existing Instance toy_store_order.

Definition demo_key : bytes := replicate 32 3.
Definition demo_store : ObjectStore ObjectHandleAllocator :=
  restarted demo_key demo_object_alloc {| es_db := Some ∅ |}.
Definition demo_created : HsmResult Z * ObjectStore ObjectHandleAllocator :=
  create_object demo_persist_env 0 demo_template demo_store.

Lemma demo_small o : small o.
Proof. intros b [= <-]. done. Defined.

Lemma demo_env_ok : env_ok demo_persist_env demo_store.
Proof. split; [done|]. split; [by eexists|]. intros h. done. Defined.

Lemma create_object_protected_witness :
  handles_ok demo_created.2 ∧
  match demo_created.1 with
  | Err _ => False
  | Ok h => h ≠ 0 ∧ ∃ o, os_objects demo_created.2 !! h = Some o ∧
      ∀ logged_in, ∃ x, read_attribute o CKA_VALUE logged_in = Err x
  end.
Proof.
  assert (Hok : handles_ok demo_store) by (intros h o E; done).
  pose proof (create_object_protected demo_persist_env 0 demo_template demo_store
    demo_created.1 demo_created.2 demo_alloc_room Hok (surjective_pairing _)) as [H1 H2].
  split; [exact H1|]. destruct demo_created as [[h|x] s] eqn:E.
  - simpl in *. destruct H2 as (Hn & _ & _ & c & o & _ & Eo & _ & _ & Hr).
    split; [done|]. exists o. split; [|done]. rewrite Eo. apply lookup_insert_eq.
  - assert (K : is_ok demo_created.1 = true) by (vm_compute; reflexivity).
    rewrite E in K. done.
Defined.


Definition demo_plain_key : StoredObject :=
  StoredObject_new 5 CKO_SECRET_KEY 0 <| o_token_object := true |> <| o_sensitive := false |>
    <| o_key_material := Some (replicate 16 5) |>.

Lemma plain_unextractable_key_lost_witness :
  ∃ s db blob t,
    insert_object demo_persist_env demo_plain_key demo_store = (Ok 5, s) ∧
    os_objects s !! 5 = Some demo_plain_key ∧
    os_persist_store s = Some {| es_db := Some db |} ∧
    db = {[new_store_key demo_persist_env := blob]} ∧
    load_from_store db_io_ok (λ _, db_io_ok)
      (restarted demo_key demo_object_alloc {| es_db := Some db |}) = (Ok 0, t) ∧
    os_objects t = ∅.
Proof.
  apply (plain_unextractable_key_lost demo_key demo_persist_env demo_plain_key
           demo_object_alloc demo_object_alloc).
  - reflexivity.
  - apply demo_small.
  - split; [reflexivity|]. by eexists.
  - reflexivity.
  - by eexists.
  - reflexivity.
  - reflexivity.
Defined.
