(* ===== verification/AuditChain.v ===== *)
(** * The audit log

    Models src/audit/log.rs: events, the hash chain, the queue between the
    callers and the worker thread, the worker's processing of one record with
    its file writes and rotation, recovery of the chain from the file, and the
    in-memory verification.  The log file is its bytes; a failed write may leave
    any prefix of the line behind.  SHA-256 is the parameter [HashPrimitives],
    the serde encodings the parameter [AuditCodec]; file and clock outcomes are
    arguments.  Strings of key identifiers are lists of code points. *)

From S2P Require Import Prelude Pkcs11 Hash Dates.

(** ** Events *)

Inductive AuditOperation :=
| AInitialize
| AFinalize
| AOpenSession (slot_id : Z)
| ACloseSession
| ALogin (user_type : Z)
| ALogout
| AInitToken (slot_id : Z)
| AInitPIN (slot_id : Z)
| ASetPIN
| AGenerateKey (mechanism key_length : Z) (fips_approved : bool)
| AGenerateKeyPair (mechanism key_length : Z) (fips_approved : bool)
| ASign (mechanism : Z) (fips_approved : bool)
| AVerify (mechanism : Z) (fips_approved : bool)
| AEncrypt (mechanism : Z) (fips_approved : bool)
| ADecrypt (mechanism : Z) (fips_approved : bool)
| ADigest (mechanism : Z) (fips_approved : bool)
| ACreateObject
| ADestroyObject
| AGenerateRandom (length : Z)
| AWrapKey (mechanism : Z) (fips_approved : bool)
| AUnwrapKey (mechanism : Z) (fips_approved : bool)
| ADeriveKey (mechanism : Z) (fips_approved : bool)
| AFindObjects (result_count : Z)
| AGetAttributeValue
| AZeroize (key_length : Z).

Inductive AuditResult := Success | Failure (rv : Z).

(** [AuditEventPayload]: the event without [previous_hash]. *)
Record AuditEventPayload := {
  ae_timestamp : Z;
  ae_session_handle : Z;
  ae_operation : AuditOperation;
  ae_key_id : option (list Z);
  ae_result : AuditResult;
}.
Record AuditEvent := { ae_payload : AuditEventPayload; ae_previous_hash : bytes }.

#[export] Instance AuditOperation_eq_dec : EqDecision AuditOperation.
Proof. solve_decision. Defined.
#[export] Instance AuditResult_eq_dec : EqDecision AuditResult.
Proof. solve_decision. Defined.
#[export] Instance AuditEventPayload_eq_dec : EqDecision AuditEventPayload.
Proof. solve_decision. Defined.
#[export] Instance AuditEvent_eq_dec : EqDecision AuditEvent.
Proof. solve_decision. Defined.

Definition NEWLINE : Z := 10.

(** [serde_json] on payloads and events. *)
Class AuditCodec := {
  payload_to_vec : AuditEventPayload → option bytes;
  event_to_string : AuditEvent → option bytes;
  event_from_str : bytes → option AuditEvent;
}.
(** A compact JSON object is one line of UTF-8 between braces. *)
Class AuditCodecLaws (C : AuditCodec) := {
  payload_total p : is_Some (payload_to_vec p);
  payload_inj p q : payload_to_vec p = payload_to_vec q → p = q;
  event_total e : is_Some (event_to_string e);
  event_roundtrip e l : event_to_string e = Some l → event_from_str l = Some e;
  event_braces e l : event_to_string e = Some l → ∃ m, l = 123 :: m ++ [125];
  event_line e l : event_to_string e = Some l → NEWLINE ∉ l;
  event_utf8 e l : event_to_string e = Some l → from_utf8 l = Some l;
}.

Definition MAX_IN_MEMORY_ENTRIES : Z := 100000.
Definition MAX_LOG_FILE_BYTES : Z := 100 * 1024 * 1024.
Definition MAX_ROTATED_FILES : Z := 5.

(** [\[0u8; 32\]], the hash before the first event. *)
Definition ZERO_HASH : bytes := replicate HASH_LEN 0.

(** [char::is_control] and [sanitize_audit_field]. *)
Definition is_control (c : Z) : bool := in_range 0 c 31 || in_range 127 c 159.
Definition sanitize_audit_field (s : list Z) : list Z :=
  take 256 (List.filter (λ c, negb (is_control c)) s).

(** ** Lines of a file *)

(** [str::trim_start] on one character: drops a leading Unicode white space. *)
Definition drop_space (bs : bytes) : option bytes :=
  match bs with
  | b0 :: r0 =>
    if in_range 9 b0 13 || (b0 =? 32) then Some r0
    else
      match r0 with
      | b1 :: r1 =>
        if (b0 =? 194) && ((b1 =? 133) || (b1 =? 160)) then Some r1
        else
          match r1 with
          | b2 :: r2 =>
            if ((b0 =? 225) && (b1 =? 154) && (b2 =? 128))
               || ((b0 =? 226) && (b1 =? 128)
                   && (in_range 128 b2 138 || (b2 =? 168) || (b2 =? 169) || (b2 =? 175)))
               || ((b0 =? 226) && (b1 =? 129) && (b2 =? 159))
               || ((b0 =? 227) && (b1 =? 128) && (b2 =? 128))
            then Some r2 else None
          | [] => None
          end
      | [] => None
      end
  | [] => None
  end.

(** The same at the end, on the reversed text. *)
Definition drop_space_back (bs : bytes) : option bytes :=
  match bs with
  | b0 :: r0 =>
    if in_range 9 b0 13 || (b0 =? 32) then Some r0
    else
      match r0 with
      | b1 :: r1 =>
        if (b1 =? 194) && ((b0 =? 133) || (b0 =? 160)) then Some r1
        else
          match r1 with
          | b2 :: r2 =>
            if ((b2 =? 225) && (b1 =? 154) && (b0 =? 128))
               || ((b2 =? 226) && (b1 =? 128)
                   && (in_range 128 b0 138 || (b0 =? 168) || (b0 =? 169) || (b0 =? 175)))
               || ((b2 =? 226) && (b1 =? 129) && (b0 =? 159))
               || ((b2 =? 227) && (b1 =? 128) && (b0 =? 128))
            then Some r2 else None
          | [] => None
          end
      | [] => None
      end
  | [] => None
  end.

(** Repeat a dropping step; each drops at least one byte, so the length is
    fuel enough. *)
Fixpoint drop_while_some (fuel : nat) (step : bytes → option bytes) (bs : bytes) : bytes :=
  match fuel with
  | O => bs
  | S fuel => match step bs with Some r => drop_while_some fuel step r | None => bs end
  end.

Definition trim (bs : bytes) : bytes :=
  let s := drop_while_some (length bs) drop_space bs in
  rev (drop_while_some (length s) drop_space_back (rev s)).

(** [BufRead::lines] before decoding: split at newlines, dropping a carriage
    return before one; a last piece without newline counts if not empty. *)
Definition strip_cr (acc : bytes) : bytes :=
  match acc with 13 :: r => rev r | _ => rev acc end.
Fixpoint split_lines (acc : bytes) (bs : bytes) : list bytes :=
  match bs with
  | [] => match acc with [] => [] | _ => [rev acc] end
  | b :: r => if b =? NEWLINE then strip_cr acc :: split_lines [] r else split_lines (b :: acc) r
  end.

Section Audit.
Context {H : HashPrimitives} {C : AuditCodec}.

(** ** The chain *)

Definition compute_chain_hash (previous_hash : bytes) (event : AuditEvent) : HsmResult bytes :=
  let? payload_bytes := ok_or (payload_to_vec (ae_payload event)) GeneralError in
  Ok (sha256 (previous_hash ++ payload_bytes)).

Inductive ChainRecoveryResult := NoFile | Verified (hash : bytes) | Broken.

(** The loop of [recover_chain_from_file]; [read_ok n] is the outcome of
    reading line [n]. *)
Fixpoint recover_loop (read_ok : nat → bool) (line_num : nat) (lines : list bytes)
    (running_hash : bytes) : Result unit bytes :=
  match lines with
  | [] => Ok running_hash
  | raw :: lines =>
    if negb (read_ok line_num) then Err tt
    else
      match from_utf8 raw with
      | None => Err tt
      | Some line =>
        let trimmed := trim line in
        if (length trimmed =? 0)%nat then recover_loop read_ok (S line_num) lines running_hash
        else
          match event_from_str trimmed with
          | None => Err tt
          | Some event =>
            if bool_decide (ae_previous_hash event ≠ running_hash) then Err tt
            else
              match compute_chain_hash running_hash event with
              | Ok h => recover_loop read_ok (S line_num) lines h
              | Err _ => Err tt
              end
          end
      end
  end.

(** How opening the file for reading went. *)
Inductive OpenOutcome := Opened | OpenError.

Definition recover_chain_from_file (o : OpenOutcome) (read_ok : nat → bool)
    (file : option bytes) : ChainRecoveryResult :=
  match file, o with
  | None, _ => NoFile
  | Some _, OpenError => Broken
  | Some content, Opened =>
    match recover_loop read_ok 0 (split_lines [] content) ZERO_HASH with
    | Err _ => Broken
    | Ok running_hash =>
      if bool_decide (running_hash = ZERO_HASH) then NoFile else Verified running_hash
    end
  end.

(** ** The log *)

(** A queued [AuditCommand::Record]. *)
Record AuditCommand := {
  ac_session_handle : Z;
  ac_operation : AuditOperation;
  ac_result : AuditResult;
  ac_key_id : option (list Z);
}.

(** [AuditLogState], the shared flag, the channel and the worker's locals. *)
Record AuditLog := {
  al_entries : list AuditEvent;
  al_last_hash : bytes;
  al_tamper_detected : bool;
  al_last_timestamp : Z;
  al_on_disk : bool;
  al_tamper_flag : bool;
  al_queue : list AuditCommand;
  w_last_hash : bytes;
  w_last_timestamp : Z;
}.

(** The current file and the rotated generations. *)
Record AuditFiles := { af_current : option bytes; af_rotated : gmap Z bytes }.

(** The outcome of the calls of one record. *)
Record AuditIO := {
  io_wall : Z;
  io_open : bool;
  io_meta : bool;
  io_rename : Z → bool;
  io_reopen : bool;
  io_write : option nat;
  io_sync : bool;
}.

#[export] Instance AuditLog_expand : FieldExpansion AuditLog := λ l,
  Build_AuditLog (al_entries l) (al_last_hash l) (al_tamper_detected l) (al_last_timestamp l)
    (al_on_disk l) (al_tamper_flag l) (al_queue l) (w_last_hash l) (w_last_timestamp l).
#[export] Instance AuditFiles_expand : FieldExpansion AuditFiles := λ d,
  Build_AuditFiles (af_current d) (af_rotated d).

Definition AuditLog_new : AuditLog :=
  {| al_entries := []; al_last_hash := ZERO_HASH; al_tamper_detected := false;
     al_last_timestamp := 0; al_on_disk := false; al_tamper_flag := false; al_queue := [];
     w_last_hash := ZERO_HASH; w_last_timestamp := 0 |}.

(** [AuditLog::new_with_path] once the path is accepted. *)
Definition new_with_path (o : OpenOutcome) (read_ok : nat → bool) (d : AuditFiles) : AuditLog :=
  let '(recovered_hash, tampered) :=
    match recover_chain_from_file o read_ok (af_current d) with
    | NoFile => (ZERO_HASH, false)
    | Verified hash => (hash, false)
    | Broken => (ZERO_HASH, true)
    end in
  {| al_entries := []; al_last_hash := recovered_hash; al_tamper_detected := tampered;
     al_last_timestamp := 0; al_on_disk := true; al_tamper_flag := tampered; al_queue := [];
     w_last_hash := recovered_hash; w_last_timestamp := 0 |}.

Definition is_tamper_detected (l : AuditLog) : bool := al_tamper_flag l.

(** [record_internal], and so [record]: the event is queued. *)
Definition record (session_handle : Z) (operation : AuditOperation) (result : AuditResult)
    (key_id : option (list Z)) (l : AuditLog) : HsmResult unit * AuditLog :=
  if al_tamper_flag l then (Err (AuditChainBroken "refusing to record: audit chain tamper previously detected"), l)
  else
    (Ok tt, l <| al_queue := al_queue l ++
       [{| ac_session_handle := session_handle; ac_operation := operation;
           ac_result := result; ac_key_id := sanitize_audit_field <$> key_id |}] |>).

(** [open_audit_file]: creates the file when there is none. *)
Definition open_audit_file (ok : bool) (d : AuditFiles) : HsmResult unit * AuditFiles :=
  if ok then (Ok tt, d <| af_current := Some (default [] (af_current d)) |>)
  else (Err GeneralError, d).

(** [rotate_log_files]: generations move up, then the current file. *)
Fixpoint rotate_generations (rename_ok : Z → bool) (gens : list Z) (d : AuditFiles) :
    HsmResult unit * AuditFiles :=
  match gens with
  | [] => (Ok tt, d)
  | gen :: gens =>
    match af_rotated d !! gen with
    | None => rotate_generations rename_ok gens d
    | Some content =>
      if rename_ok gen
      then rotate_generations rename_ok gens
             (d <| af_rotated := <[gen + 1 := content]> (delete gen (af_rotated d)) |>)
      else (Err GeneralError, d)
    end
  end.

Definition rotate_log_files (rename_ok : Z → bool) (d : AuditFiles) :
    HsmResult unit * AuditFiles :=
  match rotate_generations rename_ok (rev (seqZ 1 (MAX_ROTATED_FILES - 1))) d with
  | (Err e, d) => (Err e, d)
  | (Ok _, d) =>
    match af_current d with
    | Some content =>
      if rename_ok 0
      then (Ok tt, d <| af_rotated := <[1 := content]> (af_rotated d) |> <| af_current := None |>)
      else (Err GeneralError, d)
    | None => (Err GeneralError, d)
    end
  end.

Definition append_file (b : bytes) (d : AuditFiles) : AuditFiles :=
  d <| af_current := Some (default [] (af_current d) ++ b) |>.

(** Writing and syncing the line of an event to the open file. *)
Definition write_line (io : AuditIO) (event : AuditEvent) (d : AuditFiles) :
    HsmResult unit * AuditFiles :=
  match event_to_string event with
  | None => (Err GeneralError, d)
  | Some line =>
    match io_write io with
    | Some k => (Err GeneralError, append_file (take k (line ++ [NEWLINE])) d)
    | None =>
      let d := append_file (line ++ [NEWLINE]) d in
      if io_sync io then (Ok tt, d) else (Err GeneralError, d)
    end
  end.

(** The disk part of [process_record]. *)
Definition persist_event (io : AuditIO) (event : AuditEvent) (d : AuditFiles) :
    HsmResult unit * AuditFiles :=
  match open_audit_file (io_open io) d with
  | (Err e, d) => (Err e, d)
  | (Ok _, d) =>
    let file_size :=
      if io_meta io then Z.of_nat (length (default [] (af_current d))) else 0 in
    if MAX_LOG_FILE_BYTES <=? file_size then
      match rotate_log_files (io_rename io) d with
      | (Err e, d) => (Err e, d)
      | (Ok _, d) =>
        match open_audit_file (io_reopen io) d with
        | (Err e, d) => (Err e, d)
        | (Ok _, d) => write_line io event d
        end
      end
    else write_line io event d
  end.

(** The timestamp of the next event; [None] when the space is exhausted. *)
Definition next_timestamp (wall last : Z) : option Z :=
  if wall <=? last then checked_add u64_max last 1 else Some wall.

(** Keep the newest entries. *)
Definition cap_entries (entries : list AuditEvent) : list AuditEvent :=
  if MAX_IN_MEMORY_ENTRIES <? Z.of_nat (length entries)
  then drop (length entries - Z.to_nat MAX_IN_MEMORY_ENTRIES) entries
  else entries.

(** Committing an event to the shared state. *)
Definition commit_event (event : AuditEvent) (new_hash : bytes) (l : AuditLog) : AuditLog :=
  l <| al_last_hash := new_hash |> <| al_last_timestamp := w_last_timestamp l |>
    <| al_entries := cap_entries (al_entries l ++ [event]) |>.

Definition process_record (io : AuditIO) (c : AuditCommand) (l : AuditLog) (d : AuditFiles) :
    HsmResult unit * AuditLog * AuditFiles :=
  if al_tamper_flag l
  then (Err (AuditChainBroken "audit chain tamper previously detected"), l, d)
  else
    match next_timestamp (io_wall io) (w_last_timestamp l) with
    | None =>
      (Err (AuditChainBroken "timestamp space exhausted"), l <| al_tamper_flag := true |>, d)
    | Some timestamp =>
      let l := l <| w_last_timestamp := timestamp |> in
      let event :=
        {| ae_payload :=
             {| ae_timestamp := timestamp; ae_session_handle := ac_session_handle c;
                ae_operation := ac_operation c; ae_key_id := ac_key_id c;
                ae_result := ac_result c |};
           ae_previous_hash := w_last_hash l |} in
      match compute_chain_hash (w_last_hash l) event with
      | Err e => (Err e, l, d)
      | Ok new_hash =>
        let l := l <| w_last_hash := new_hash |> in
        if al_on_disk l then
          match persist_event io event d with
          | (Err e, d) => (Err e, l, d)
          | (Ok _, d) => (Ok tt, commit_event event new_hash l, d)
          end
        else (Ok tt, commit_event event new_hash l, d)
      end
    end.

(** One round of the worker: the oldest queued record is processed. *)
Definition worker_step (io : AuditIO) (l : AuditLog) (d : AuditFiles) :
    option (HsmResult unit * AuditLog * AuditFiles) :=
  match al_queue l with
  | [] => None
  | c :: queue => Some (process_record io c (l <| al_queue := queue |>) d)
  end.

(** [verify_chain]: the number of entries, or the index of the first broken
    link. *)
Fixpoint verify_loop (i : Z) (entries : list AuditEvent) (expected_hash : bytes) : Result Z Z :=
  match entries with
  | [] => Ok i
  | entry :: entries =>
    if bool_decide (ae_previous_hash entry ≠ expected_hash) then Err i
    else
      match compute_chain_hash expected_hash entry with
      | Ok h => verify_loop (i + 1) entries h
      | Err _ => Err i
      end
  end.
Definition verify_chain (l : AuditLog) : Result Z Z := verify_loop 0 (al_entries l) ZERO_HASH.

(** [audit verify-chain] of the administration tool
    (tools/craton-hsm-admin/src/commands/audit.rs): a new core on the
    configured log file, then [verify_chain]. *)
Definition admin_verify_chain (o : OpenOutcome) (read_ok : nat → bool) (d : AuditFiles) :
    Result Z Z :=
  verify_chain (new_with_path o read_ok d).

End Audit.
