(* ===== verification/AuditProofs.v ===== *)
(** * The audit log: theorems

    The chain on disk survives restarts and is tamper-evident up to a SHA-256
    collision; a lost write breaks it; and what the in-memory verification does
    and does not see. *)

From S2P Require Import Prelude Pkcs11 Hash Dates AuditChain.

Section AuditProofs.
Context {H : HashPrimitives} {HL : HashPrimitivesLaws H}.
Context {C : AuditCodec} {CL : AuditCodecLaws C}.

(** ** Chains of events *)

Definition payload_bytes (e : AuditEvent) : bytes := default [] (payload_to_vec (ae_payload e)).
Definition chain_hash (previous : bytes) (e : AuditEvent) : bytes :=
  sha256 (previous ++ payload_bytes e).
Definition final_hash (previous : bytes) (es : list AuditEvent) : bytes :=
  foldl chain_hash previous es.

Fixpoint chained (previous : bytes) (es : list AuditEvent) : Prop :=
  match es with
  | [] => True
  | e :: es => ae_previous_hash e = previous ∧ chained (chain_hash previous e) es
  end.

Lemma compute_chain_hash_eq previous e :
  compute_chain_hash previous e = Ok (chain_hash previous e).
Proof using HL CL.
  unfold compute_chain_hash, chain_hash, payload_bytes.
  by destruct (payload_total (ae_payload e)) as [b ->].
Qed.

Lemma chained_snoc previous es e :
  chained previous (es ++ [e]) ↔
  chained previous es ∧ ae_previous_hash e = final_hash previous es.
Proof.
  revert previous. induction es as [|e' es IH]; intros previous; simpl; [tauto|].
  rewrite IH. tauto.
Qed.

Lemma final_hash_snoc previous es e :
  final_hash previous (es ++ [e]) = chain_hash (final_hash previous es) e.
Proof. unfold final_hash. by rewrite foldl_app. Qed.

Lemma length_final_hash previous es :
  length previous = HASH_LEN → length (final_hash previous es) = HASH_LEN.
Proof using HL.
  destruct es as [|e es] using rev_ind; [done|]. intros _. rewrite final_hash_snoc.
  apply sha256_length.
Qed.

(** ** The file of a chain *)

Definition line_of (e : AuditEvent) : bytes := default [] (event_to_string e).
Definition file_of (es : list AuditEvent) : bytes :=
  concat ((λ e, line_of e ++ [NEWLINE]) <$> es).

Lemma event_to_string_eq e : event_to_string e = Some (line_of e).
Proof using HL CL. unfold line_of. by destruct (event_total e) as [l ->]. Qed.

Lemma file_of_snoc es e : file_of (es ++ [e]) = file_of es ++ line_of e ++ [NEWLINE].
Proof. unfold file_of. rewrite fmap_app, concat_app. simpl. by rewrite app_nil_r. Qed.

Lemma split_lines_line l acc r :
  NEWLINE ∉ l → split_lines acc (l ++ NEWLINE :: r) = strip_cr (rev l ++ acc) :: split_lines [] r.
Proof.
  revert acc. induction l as [|b l IH]; intros acc Hn; simpl; [done|].
  rewrite (proj2 (Z.eqb_neq _ _)) by set_solver. rewrite IH by set_solver.
  by rewrite <- (assoc (++)).
Qed.

Lemma line_of_strip_cr e : strip_cr (rev (line_of e) ++ []) = line_of e.
Proof using HL CL.
  destruct (event_braces e _ (event_to_string_eq e)) as [m Hm]. rewrite app_nil_r, Hm.
  simpl. rewrite rev_app_distr. simpl. by rewrite rev_app_distr, rev_involutive.
Qed.

Lemma file_of_cons e es : file_of (e :: es) = line_of e ++ NEWLINE :: file_of es.
Proof. unfold file_of. rewrite fmap_cons. cbn [concat]. by rewrite <- (assoc (++)). Qed.

Lemma split_lines_file es : split_lines [] (file_of es) = line_of <$> es.
Proof using HL CL.
  induction es as [|e es IH]; [done|].
  rewrite file_of_cons, split_lines_line by (eapply event_line, event_to_string_eq).
  by rewrite line_of_strip_cr, IH.
Qed.

(** A line between braces is not touched by trimming. *)
Lemma trim_braces m : trim (123 :: m ++ [125]) = 123 :: m ++ [125].
Proof.
  assert (Hf : ∀ r, drop_space (123 :: r) = None) by (intros [|? [|? ?]]; reflexivity).
  assert (Hb : ∀ r, drop_space_back (125 :: r) = None).
  { intros [|b1 [|b2 r]]; [reflexivity| |]; simpl; by rewrite !andb_false_r. }
  unfold trim. set (l := 123 :: m ++ [125]).
  assert (El : drop_while_some (length l) drop_space l = l) by (unfold l; cbn [length drop_while_some]; by rewrite Hf).
  assert (Er : rev l = 125 :: rev (123 :: m)).
  { unfold l. rewrite app_comm_cons, rev_app_distr. done. }
  rewrite El, Er. replace (length l) with (S (length m + 1))%nat
    by (unfold l; simpl; rewrite length_app; done).
  cbn [drop_while_some]. rewrite Hb, <- Er. apply rev_involutive.
Qed.

Lemma recover_lines es previous n :
  chained previous es →
  recover_loop (λ _, true) n (line_of <$> es) previous = Ok (final_hash previous es).
Proof using HL CL.
  revert previous n. induction es as [|e es IH]; intros previous n; [done|].
  intros [Hp Hc]. simpl. pose proof (event_to_string_eq e) as E.
  rewrite (event_utf8 e _ E). destruct (event_braces e _ E) as [m Hm].
  assert (Ht : trim (line_of e) = line_of e) by (rewrite Hm; apply trim_braces).
  rewrite Ht, (event_roundtrip e _ E), bool_decide_false by auto.
  rewrite compute_chain_hash_eq, Hm. simpl. by apply IH.
Qed.

(** ** Restarts *)

(** The log has recorded exactly [es], in the file and in the worker's hash. *)
Record on_file (es : list AuditEvent) (l : AuditLog) (d : AuditFiles) : Prop := {
  of_disk : al_on_disk l = true;
  of_flag : al_tamper_flag l = false;
  of_file : default [] (af_current d) = file_of es;
  of_chain : chained ZERO_HASH es;
  of_hash : w_last_hash l = final_hash ZERO_HASH es;
}.

Lemma recover_file es f :
  f = file_of es → chained ZERO_HASH es →
  recover_chain_from_file Opened (λ _, true) (Some f) =
    if bool_decide (final_hash ZERO_HASH es = ZERO_HASH) then NoFile
    else Verified (final_hash ZERO_HASH es).
Proof using HL CL.
  intros -> Hc. unfold recover_chain_from_file. by rewrite split_lines_file, recover_lines.
Qed.

Lemma file_of_nil es : file_of es = [] → es = [].
Proof. destruct es as [|e es]; [done|]. unfold file_of. simpl. by destruct (line_of e). Qed.

Lemma reopen_on_file es l d :
  on_file es l d → on_file es (new_with_path Opened (λ _, true) d) d.
Proof using HL CL.
  intros [_ _ Hf Hc _]. unfold new_with_path.
  destruct (af_current d) as [f|] eqn:E; simpl in Hf.
  - rewrite (recover_file es) by done. case_bool_decide; split; simpl; rewrite ?E; done.
  - apply eq_sym, file_of_nil in Hf as ->. split; simpl; rewrite ?E; done.
Qed.

(** The file is below the rotation limit. *)
Definition no_rotation (d : AuditFiles) : Prop :=
  Z.of_nat (length (default [] (af_current d))) < MAX_LOG_FILE_BYTES.

Lemma persist_event_ok io e d d' :
  no_rotation d → persist_event io e d = (Ok tt, d') →
  default [] (af_current d') = default [] (af_current d) ++ line_of e ++ [NEWLINE].
Proof using HL CL.
  unfold no_rotation, persist_event, open_audit_file. intros Hn E.
  destruct (io_open io); [|done]. simpl in E.
  rewrite (proj2 (Z.leb_gt _ _)) in E by (destruct (io_meta io); [done|reflexivity]).
  unfold write_line in E. rewrite event_to_string_eq in E. by split_tests_in E.
Qed.

Lemma process_record_ok io c l d l' d' es :
  on_file es l d → no_rotation d → process_record io c l d = (Ok tt, l', d') →
  ∃ e, on_file (es ++ [e]) l' d' ∧
    ae_session_handle (ae_payload e) = ac_session_handle c ∧
    ae_operation (ae_payload e) = ac_operation c ∧ ae_result (ae_payload e) = ac_result c ∧
    ae_key_id (ae_payload e) = ac_key_id c ∧
    w_last_timestamp l < ae_timestamp (ae_payload e).
Proof using HL CL.
  intros [Hd Hf Hfile Hc Hh] Hn E. unfold process_record in E. rewrite Hf in E.
  destruct (next_timestamp _ _) as [ts|] eqn:Ets; [|done].
  rewrite compute_chain_hash_eq in E. simpl in E. rewrite Hd in E.
  destruct (persist_event io _ d) as [[[]|] d1] eqn:Ep; [|done]. simplify_eq.
  match type of Ep with persist_event _ ?ev _ = _ => exists ev end.
  apply persist_event_ok in Ep; [|done]. split; [|split_and!; try reflexivity].
  - split; simpl; [done|done| | |].
    + by rewrite file_of_snoc, Ep, Hfile.
    + apply chained_snoc. split; [done|exact Hh].
    + by rewrite final_hash_snoc, Hh.
  - simpl. unfold next_timestamp, checked_add in Ets. split_tests_in Ets; bool_to_prop; lia.
Qed.

(** A run: records that the worker reports as done, the file staying below the
    rotation limit, and restarts of the process. *)
Inductive audit_step : AuditLog * AuditFiles → AuditLog * AuditFiles → Prop :=
| as_record io c l d l' d' :
    no_rotation d → process_record io c l d = (Ok tt, l', d') → audit_step (l, d) (l', d')
| as_restart l d : audit_step (l, d) (new_with_path Opened (λ _, true) d, d).

Definition audit_start : AuditLog * AuditFiles :=
  let d := {| af_current := None; af_rotated := ∅ |} in
  (new_with_path Opened (λ _, true) d, d).

Lemma audit_start_on_file : on_file [] audit_start.1 audit_start.2.
Proof. split; done. Qed.

Lemma audit_run_on_file w :
  rtc audit_step audit_start w → ∃ es, on_file es w.1 w.2.
Proof using HL CL.
  intros R. cut (∀ w0 w1, rtc audit_step w0 w1 → (∃ es, on_file es w0.1 w0.2) →
    ∃ es, on_file es w1.1 w1.2).
  { intros G. apply (G _ _ R). exists []. apply audit_start_on_file. }
  clear R w. induction 1 as [|w0 w1 w2 S _ IH]; [done|]. intros [es Ho]. apply IH.
  destruct S as [io c l d l' d' Hn E|l d]; simpl in *.
  - destruct (process_record_ok _ _ _ _ _ _ _ Ho Hn E) as (e & Ho' & _). eauto.
  - exists es. by eapply reopen_on_file.
Qed.

(** the log survives restarts.  After any run of completed records and
    restarts below the rotation limit, the file holds one line per event, each
    linked to the one before; reopening it finds no tampering and resumes the
    chain exactly where it stood; and the next completed record adds one linked
    line with the caller's data and a later timestamp than the worker's last. *)
Theorem audit_log_survives_restarts l d
    (Hrun : rtc audit_step audit_start (l, d)) :
  (∃ es, default [] (af_current d) = file_of es ∧ chained ZERO_HASH es ∧
     w_last_hash l = final_hash ZERO_HASH es) ∧
  is_tamper_detected (new_with_path Opened (λ _, true) d) = false ∧
  w_last_hash (new_with_path Opened (λ _, true) d) = w_last_hash l ∧
  ∀ io c l' d', no_rotation d → process_record io c l d = (Ok tt, l', d') →
    ∃ e, default [] (af_current d') = default [] (af_current d) ++ line_of e ++ [NEWLINE] ∧
      ae_previous_hash e = w_last_hash l ∧
      ae_operation (ae_payload e) = ac_operation c ∧
      ae_session_handle (ae_payload e) = ac_session_handle c ∧
      w_last_timestamp l < ae_timestamp (ae_payload e).
Proof using HL CL.
  destruct (audit_run_on_file _ Hrun) as [es Ho]. simpl in Ho.
  pose proof (reopen_on_file _ _ _ Ho) as Hr. split; [|split; [|split]].
  - exists es. by destruct Ho.
  - apply Hr.
  - by rewrite (of_hash _ _ _ Hr), (of_hash _ _ _ Ho).
  - intros io c l' d' Hn E.
    destruct (process_record_ok _ _ _ _ _ _ _ Ho Hn E) as (e & Ho' & Es & Eop & _ & _ & Ht).
    exists e. destruct Ho as [_ _ Hf _ Hh], Ho' as [_ _ Hf' Hc' _]. split_and!; try done.
    + by rewrite Hf', file_of_snoc, Hf.
    + apply chained_snoc in Hc' as [_ Hp]. by rewrite Hp, Hh.
Qed.

(** ** Tamper evidence *)

(** Two different inputs with one hash, or an input with the zero hash. *)
Definition sha256_broken : Prop :=
  (∃ x y, x ≠ y ∧ sha256 x = sha256 y) ∨ ∃ x, sha256 x = ZERO_HASH.

Lemma payload_bytes_inj e1 e2 : payload_bytes e1 = payload_bytes e2 → ae_payload e1 = ae_payload e2.
Proof using HL CL.
  unfold payload_bytes. intros E. apply payload_inj.
  destruct (payload_total (ae_payload e1)) as [b1 E1], (payload_total (ae_payload e2)) as [b2 E2].
  rewrite E1, E2 in *. simpl in E. by subst.
Qed.

Lemma chain_hash_inj p1 p2 e1 e2 :
  length p1 = HASH_LEN → length p2 = HASH_LEN → chain_hash p1 e1 = chain_hash p2 e2 →
  (p1 = p2 ∧ ae_payload e1 = ae_payload e2) ∨ sha256_broken.
Proof using HL CL.
  intros L1 L2 E. destruct (decide (p1 ++ payload_bytes e1 = p2 ++ payload_bytes e2)) as [Eq|Hne].
  - apply app_inj_1 in Eq as [-> Eb]; [|congruence]. left. split; [done|].
    by apply payload_bytes_inj.
  - right. left. by exists (p1 ++ payload_bytes e1), (p2 ++ payload_bytes e2).
Qed.

Lemma chain_determined es1 es2 :
  chained ZERO_HASH es1 → chained ZERO_HASH es2 →
  final_hash ZERO_HASH es1 = final_hash ZERO_HASH es2 → es1 = es2 ∨ sha256_broken.
Proof using HL CL.
  assert (LZ : length ZERO_HASH = HASH_LEN) by done.
  revert es2. induction es1 as [|e1 es1 IH] using rev_ind; intros es2;
    destruct es2 as [|e2 es2 _] using rev_ind; rewrite ?chained_snoc, ?final_hash_snoc.
  - by left.
  - intros _ _ E. right. right. by eexists.
  - intros _ _ E. right. right. by eexists.
  - intros [C1 P1] [C2 P2] E. destruct (chain_hash_inj _ _ _ _
      (length_final_hash _ es1 LZ) (length_final_hash _ es2 LZ) E) as [[Ef Ep]|?]; [|by right].
    destruct (IH es2 C1 C2 Ef) as [->|?]; [left|by right]. f_equal. f_equal.
    destruct e1, e2; simpl in *. congruence.
Qed.

(** The events recovery reads from a file. *)
Definition lines_events (lines : list bytes) : list AuditEvent :=
  omap (λ raw, let trimmed := trim raw in
               if (length trimmed =? 0)%nat then None else event_from_str trimmed) lines.

Lemma recover_loop_chained read_ok n lines previous h :
  recover_loop read_ok n lines previous = Ok h →
  chained previous (lines_events lines) ∧ final_hash previous (lines_events lines) = h.
Proof using HL CL.
  revert n previous. induction lines as [|raw lines IH]; intros n previous E; simpl in E.
  { by simplify_eq. }
  destruct (read_ok n); [|done]. simpl in E. unfold from_utf8 in E.
  destruct (utf8_valid _ raw); [|done].
  unfold lines_events. cbn [omap list_omap]. fold (lines_events lines).
  destruct (length (trim raw) =? 0)%nat; [by apply IH in E|].
  destruct (event_from_str (trim raw)) as [e|]; [|done].
  rewrite compute_chain_hash_eq in E. case_bool_decide as Hp; [done|].
  apply IH in E as [Hc Hf]. split; [|done]. split; [|done]. exact Hp.
Qed.

Lemma lines_events_of es : lines_events (line_of <$> es) = es.
Proof using HL CL.
  induction es as [|e es IH]; [done|]. unfold lines_events. rewrite fmap_cons.
  cbn [omap list_omap]. fold (lines_events (line_of <$> es)). rewrite IH.
  pose proof (event_to_string_eq e) as E. destruct (event_braces e _ E) as [m Hm].
  assert (Ht : trim (line_of e) = line_of e) by (rewrite Hm; apply trim_braces).
  rewrite Ht, (event_roundtrip e _ E). by rewrite Hm.
Qed.


(** ** A write that fails *)

(** a lost write.  When the file of an intact log cannot be opened for one
    event and the next event is written, recovery finds the file broken (or
    the hash has a fixed point): the worker's hash already counted the event
    that never reached the file. *)
Theorem audit_lost_write_breaks_chain es l d io1 c1 l1 d1 x io2 c2 l2 d2
    (Ho : on_file es l d) (Hn : no_rotation d) (Hopen : io_open io1 = false)
    (E1 : process_record io1 c1 l d = (Err x, l1, d1)) (Ht : al_tamper_flag l1 = false)
    (E2 : process_record io2 c2 l1 d1 = (Ok tt, l2, d2)) :
  recover_chain_from_file Opened (λ _, true) (af_current d2) = Broken ∨
  ∃ b, sha256 (final_hash ZERO_HASH es ++ b) = final_hash ZERO_HASH es.
Proof using HL CL.
  destruct Ho as [Hd Hf Hfile Hc Hh].
  assert (K : d1 = d ∧ al_on_disk l1 = true ∧ ∃ e1, w_last_hash l1 = chain_hash (w_last_hash l) e1).
  { unfold process_record in E1. rewrite Hf in E1.
    destruct (next_timestamp _ _); [|by simplify_eq]. rewrite compute_chain_hash_eq in E1.
    simpl in E1. rewrite Hd in E1. unfold persist_event, open_audit_file in E1.
    rewrite Hopen in E1. simplify_eq. split_and!; [done|done|by eexists]. }
  destruct K as (-> & Hd1 & e1 & Hw). unfold process_record in E2. rewrite Ht in E2.
  destruct (next_timestamp _ _); [|done]. rewrite compute_chain_hash_eq in E2. simpl in E2.
  rewrite Hd1 in E2. destruct (persist_event io2 _ d) as [[[]|] d3] eqn:Ep; [|done].
  simplify_eq. apply persist_event_ok in Ep; [|done].
  destruct (decide (sha256 (final_hash ZERO_HASH es ++ payload_bytes e1) = final_hash ZERO_HASH es))
    as [?|Hne]; [right; eauto|left].
  rewrite Hfile, <- file_of_snoc in Ep.
  destruct (af_current d2) as [f|] eqn:Ef; simpl in Ep.
  - subst f. unfold recover_chain_from_file.
    destruct (recover_loop _ _ _ _) as [h|] eqn:Er; [|done]. exfalso.
    rewrite split_lines_file in Er. apply recover_loop_chained in Er as [Hch _].
    revert Hch. rewrite lines_events_of. rewrite chained_snoc. intros [_ Hp]. simpl in Hp.
    apply Hne. rewrite Hw, Hh in Hp. exact Hp.
  - apply eq_sym, file_of_nil in Ep. by destruct es.
Qed.

(** ** The in-memory verification *)

(** what [verify_chain] reports after a restart.  The administration
    command, which opens the log in a new process and verifies the entries in
    memory, answers valid with 0 entries for every file, a tampered one
    included.  In the server, the first record completed after reopening a
    non-empty intact log makes [verify_chain] report a broken link at index 0
    (unless an input hashes to zero), because it starts from the zero hash
    and not from the recovered one. *)
Theorem verify_chain_misreports es l d (Ho : on_file es l d) (Hne : es ≠ []) :
  (∀ o read_ok d', admin_verify_chain o read_ok d' = Ok 0) ∧
  ∀ io c l' d',
    process_record io c (new_with_path Opened (λ _, true) d) d = (Ok tt, l', d') →
    verify_chain l' = Err 0 ∨ ∃ x, sha256 x = ZERO_HASH.
Proof using HL CL.
  split.
  { intros o ro d'. unfold admin_verify_chain, new_with_path. by destruct (recover_chain_from_file _ _ _). }
  intros io c l' d' E. pose proof (reopen_on_file _ _ _ Ho) as [Hd Hf _ _ Hh].
  assert (Hen : al_entries (new_with_path Opened (λ _, true) d) = [])
    by (unfold new_with_path; by destruct (recover_chain_from_file _ _ _)).
  unfold process_record in E. rewrite Hf in E. destruct (next_timestamp _ _); [|done].
  rewrite compute_chain_hash_eq in E. simpl in E. rewrite Hd in E.
  destruct (persist_event io _ d) as [[[]|] d1]; [|done]. simplify_eq.
  unfold verify_chain. simpl. rewrite Hen, Hh. simpl.
  destruct es as [|e es _] using rev_ind; [done|]. rewrite final_hash_snoc.
  case_bool_decide as Hp; [by left|]. right. by eexists.
Qed.
End AuditProofs.

(** ** A concrete encoding *)

Definition operation_fields (o : AuditOperation) : Z * list Z :=
  let b (x : bool) := if x then 1 else 0 in
  match o with
  | AInitialize => (0, []) | AFinalize => (1, []) | AOpenSession s => (2, [s])
  | ACloseSession => (3, []) | ALogin u => (4, [u]) | ALogout => (5, [])
  | AInitToken s => (6, [s]) | AInitPIN s => (7, [s]) | ASetPIN => (8, [])
  | AGenerateKey m k f => (9, [m; k; b f]) | AGenerateKeyPair m k f => (10, [m; k; b f])
  | ASign m f => (11, [m; b f]) | AVerify m f => (12, [m; b f])
  | AEncrypt m f => (13, [m; b f]) | ADecrypt m f => (14, [m; b f])
  | ADigest m f => (15, [m; b f]) | ACreateObject => (16, []) | ADestroyObject => (17, [])
  | AGenerateRandom n => (18, [n]) | AWrapKey m f => (19, [m; b f])
  | AUnwrapKey m f => (20, [m; b f]) | ADeriveKey m f => (21, [m; b f])
  | AFindObjects n => (22, [n]) | AGetAttributeValue => (23, []) | AZeroize n => (24, [n])
  end.
Definition operation_of_fields (p : Z * list Z) : option AuditOperation :=
  let b x := negb (x =? 0) in
  match p with
  | (0, []) => Some AInitialize | (1, []) => Some AFinalize | (2, [s]) => Some (AOpenSession s)
  | (3, []) => Some ACloseSession | (4, [u]) => Some (ALogin u) | (5, []) => Some ALogout
  | (6, [s]) => Some (AInitToken s) | (7, [s]) => Some (AInitPIN s) | (8, []) => Some ASetPIN
  | (9, [m; k; f]) => Some (AGenerateKey m k (b f))
  | (10, [m; k; f]) => Some (AGenerateKeyPair m k (b f))
  | (11, [m; f]) => Some (ASign m (b f)) | (12, [m; f]) => Some (AVerify m (b f))
  | (13, [m; f]) => Some (AEncrypt m (b f)) | (14, [m; f]) => Some (ADecrypt m (b f))
  | (15, [m; f]) => Some (ADigest m (b f)) | (16, []) => Some ACreateObject
  | (17, []) => Some ADestroyObject | (18, [n]) => Some (AGenerateRandom n)
  | (19, [m; f]) => Some (AWrapKey m (b f)) | (20, [m; f]) => Some (AUnwrapKey m (b f))
  | (21, [m; f]) => Some (ADeriveKey m (b f)) | (22, [n]) => Some (AFindObjects n)
  | (23, []) => Some AGetAttributeValue | (24, [n]) => Some (AZeroize n)
  | _ => None
  end.

#[export] Instance AuditOperation_countable : Countable AuditOperation.
Proof.
  refine (inj_countable operation_fields operation_of_fields _).
  by intros []; simpl; repeat match goal with f : bool |- _ => destruct f end.
Defined.
#[export] Instance AuditResult_countable : Countable AuditResult.
Proof.
  refine (inj_countable' (λ r, match r with Success => None | Failure v => Some v end)
    (λ o, match o with None => Success | Some v => Failure v end) _).
  by intros [].
Defined.
#[export] Instance AuditEventPayload_countable : Countable AuditEventPayload.
Proof.
  refine (inj_countable'
    (λ p, (ae_timestamp p, ae_session_handle p, ae_operation p, ae_key_id p, ae_result p))
    (λ '(t, s, o, k, r), Build_AuditEventPayload t s o k r) _).
  by intros [].
Defined.
#[export] Instance AuditEvent_countable : Countable AuditEvent.
Proof.
  refine (inj_countable' (λ e, (ae_payload e, ae_previous_hash e))
    (λ '(p, h), Build_AuditEvent p h) _).
  by intros [].
Defined.

(** Numbers as the digits 0 and 1 of ASCII between braces. *)
Fixpoint digits (p : positive) : bytes :=
  match p with xH => [] | xO p => 48 :: digits p | xI p => 49 :: digits p end.
Fixpoint undigits (l : bytes) : option positive :=
  match l with
  | [125] => Some xH
  | 48 :: l => xO <$> undigits l
  | 49 :: l => xI <$> undigits l
  | _ => None
  end.

Definition toy_audit_codec : AuditCodec := {|
  payload_to_vec p := Some [Zpos (encode p)];
  event_to_string e := Some (123 :: digits (encode e) ++ [125]);
  event_from_str l := match l with 123 :: l => undigits l ≫= decode | _ => None end;
|}.

Lemma undigits_digits p : undigits (digits p ++ [125]) = Some p.
Proof. induction p as [p IH|p IH|]; simpl; by rewrite ?IH. Qed.

Lemma digits_ascii p : Forall (λ b, b = 48 ∨ b = 49) (digits p).
Proof. induction p; simpl; auto. Qed.

Lemma ascii_utf8_valid l : Forall (λ b, 0 <= b <= 127) l → utf8_valid (length l) l = true.
Proof.
  induction 1 as [|b l Hb _ IH]; simpl; [done|]. unfold in_range.
  rewrite (proj2 (Z.leb_le 0 b)), (proj2 (Z.leb_le b 127)) by lia. exact IH.
Qed.

#[export] Instance toy_audit_codec_laws : AuditCodecLaws toy_audit_codec.
Proof.
  split; simpl.
  - by eauto.
  - intros p q [= E]. by apply (inj encode).
  - by eauto.
  - intros e l [= <-]. by rewrite undigits_digits; simpl; rewrite decode_encode.
  - intros e l [= <-]. by eexists.
  - intros e l [= <-]. unfold NEWLINE. pose proof (digits_ascii (encode e)) as Hd.
    rewrite Forall_forall in Hd. intros [?|[Hin|?%list_elem_of_singleton]%elem_of_app]%elem_of_cons;
      [done| |done]. by destruct (Hd _ Hin).
  - intros e l [= <-]. unfold from_utf8. rewrite ascii_utf8_valid; [done|].
    constructor; [done|]. apply Forall_app. split; [|by constructor].
    eapply Forall_impl; [apply digits_ascii|]. simpl. lia.
Defined.

#[local] Existing Instance toy_hash.
#[local] Existing Instance toy_audit_codec.

Definition demo_audit_io : AuditIO :=
  {| io_wall := 1000; io_open := true; io_meta := true; io_rename := λ _, true;
     io_reopen := true; io_write := None; io_sync := true |}.
Definition demo_no_open : AuditIO :=
  {| io_wall := 1000; io_open := false; io_meta := true; io_rename := λ _, true;
     io_reopen := true; io_write := None; io_sync := true |}.
Definition demo_command : AuditCommand :=
  {| ac_session_handle := 5; ac_operation := ALogin 1; ac_result := Success;
     ac_key_id := None |}.
Definition demo_recorded : HsmResult unit * AuditLog * AuditFiles :=
  process_record demo_audit_io demo_command audit_start.1 audit_start.2.
Definition demo_lost : HsmResult unit * AuditLog * AuditFiles :=
  process_record demo_no_open demo_command audit_start.1 audit_start.2.
Definition demo_after_lost : HsmResult unit * AuditLog * AuditFiles :=
  process_record demo_audit_io demo_command demo_lost.1.2 demo_lost.2.
Definition demo_log_file : bytes := default [] (af_current demo_recorded.2).

Lemma demo_recorded_ok :
  process_record demo_audit_io demo_command audit_start.1 audit_start.2 =
    (Ok tt, demo_recorded.1.2, demo_recorded.2).
Proof. vm_compute. reflexivity. Defined.

Lemma audit_log_survives_restarts_witness :
  is_tamper_detected (new_with_path Opened (λ _, true) demo_recorded.2) = false.
Proof.
  assert (R : rtc audit_step audit_start (demo_recorded.1.2, demo_recorded.2)).
  { apply rtc_once. refine (as_record _ _ _ _ _ _ _ demo_recorded_ok). done. }
  exact (proj1 (proj2 (audit_log_survives_restarts demo_recorded.1.2 demo_recorded.2 R))).
Defined.


Lemma audit_lost_write_breaks_chain_witness :
  recover_chain_from_file Opened (λ _, true) (af_current demo_after_lost.2) = Broken ∨
  ∃ b, sha256 (final_hash ZERO_HASH [] ++ b) = final_hash ZERO_HASH [].
Proof.
  refine (audit_lost_write_breaks_chain [] audit_start.1 audit_start.2 demo_no_open demo_command
    demo_lost.1.2 demo_lost.2 GeneralError demo_audit_io demo_command demo_after_lost.1.2
    demo_after_lost.2 audit_start_on_file _ _ _ _ _); vm_compute; reflexivity.
Defined.

Lemma verify_chain_misreports_witness :
  admin_verify_chain Opened (λ _, false) demo_recorded.2 = Ok 0.
Proof.
  destruct (process_record_ok _ _ _ _ _ _ _ audit_start_on_file eq_refl demo_recorded_ok)
    as (e & Ho & _).
  apply (verify_chain_misreports [e] _ _ Ho). discriminate.
Defined.
