(* ===== verification/Encrypt.v ===== *)
(** * AES modes and nonce management (src/crypto/encrypt.rs)

    The AES-GCM counters and nonce prefixes per key, the CBC/CTR IV tracker and
    the encryption functions around them.  The ciphers are the parameter
    [CipherPrimitives]; the three process-wide maps are the state; the bytes the
    DRBG gives for a nonce prefix are an argument.  The compare-exchange loop is
    run by one thread, whose first attempt succeeds; a mutex of the IV tracker
    is never poisoned, since nothing panics while it is held.  The timing floor
    of CBC decryption is not modelled. *)

From S2P Require Import Prelude Pkcs11 Hash.

(** The [aes-gcm], [cbc] and [ctr] crates, at the key length given. *)
Class CipherPrimitives := {
  gcm_seal : bytes → bytes → bytes → bytes → option bytes;
  gcm_open : bytes → bytes → bytes → bytes → option bytes;
  cbc_encrypt : bytes → bytes → bytes → bytes;
  cbc_decrypt : bytes → bytes → bytes → option bytes;
  ctr_keystream : bytes → bytes → bytes → bytes;
}.
Definition TAG_LEN : nat := 16.
Class CipherPrimitivesLaws (P : CipherPrimitives) := {
  gcm_open_seal key nonce aad plain cipher :
    gcm_seal key nonce aad plain = Some cipher → gcm_open key nonce aad cipher = Some plain;
  gcm_seal_length key nonce aad plain cipher :
    gcm_seal key nonce aad plain = Some cipher → length cipher = (length plain + TAG_LEN)%nat;
  cbc_decrypt_encrypt key iv plain :
    cbc_decrypt key iv (cbc_encrypt key iv plain) = Some plain;
  ctr_involutive key iv data : ctr_keystream key iv (ctr_keystream key iv data) = data;
  ctr_length key iv data : length (ctr_keystream key iv data) = length data;
  gcm_open_length key nonce aad plain cipher :
    gcm_open key nonce aad cipher = Some plain → length cipher = (length plain + TAG_LEN)%nat;
  cbc_encrypt_length key iv plain :
    (length plain <= length (cbc_encrypt key iv plain) <= length plain + 16)%nat;
  cbc_decrypt_length key iv plain cipher :
    cbc_decrypt key iv cipher = Some plain → (length plain <= length cipher)%nat;
}.

Definition AES_GCM_MAX_PLAINTEXT : Z := 2 ^ 36 - 32.
Definition AES_CBC_CTR_MAX_PLAINTEXT : Z := 256 * 1024 * 1024.
Definition GCM_MAX_RANDOM_NONCE_ENCRYPTIONS : Z := 2 ^ 31.
Definition MAX_TRACKED_IVS_PER_KEY : Z := 100000.
Definition MAX_TRACKED_KEYS : Z := 10000.

(** [GCM_ENCRYPT_COUNTERS], [GCM_NONCE_PREFIXES] and [CBC_CTR_IV_TRACKER]. *)
Record CipherState := {
  gcm_counters : gmap bytes Z;
  gcm_prefixes : gmap bytes bytes;
  iv_tracker : gmap bytes (gset bytes);
}.
#[export] Instance CipherState_expand : FieldExpansion CipherState := λ s,
  Build_CipherState (gcm_counters s) (gcm_prefixes s) (iv_tracker s).
Definition CipherState_empty : CipherState :=
  {| gcm_counters := ∅; gcm_prefixes := ∅; iv_tracker := ∅ |}.

(** [u64::to_be_bytes]. *)
Definition to_be_bytes_8 (z : Z) : bytes := rev (to_le_bytes 8 z).

Definition all_zero (iv : bytes) : bool := forallb (λ b, b =? 0) iv.

Section Encrypt.
Context {H : HashPrimitives} {P : CipherPrimitives}.
Implicit Types s : CipherState.

Definition gcm_key_id (key : bytes) : bytes := sha256 key.

Definition reset_iv_trackers s : CipherState := s <| iv_tracker := ∅ |>.
Definition reset_gcm_counters s : CipherState := reset_iv_trackers s.
Definition remove_gcm_counter (key : bytes) s : CipherState :=
  let kid := gcm_key_id key in
  s <| gcm_counters := delete kid (gcm_counters s) |>
    <| gcm_prefixes := delete kid (gcm_prefixes s) |>
    <| iv_tracker := delete kid (iv_tracker s) |>.
Definition force_reset_all_counters s : CipherState :=
  reset_iv_trackers (s <| gcm_counters := ∅ |> <| gcm_prefixes := ∅ |>).

Definition gcm_nonce_prefix (drbg : HsmResult bytes) (key : bytes) s :
    HsmResult bytes * CipherState :=
  let kid := gcm_key_id key in
  match gcm_prefixes s !! kid with
  | Some prefix => (Ok prefix, s)
  | None =>
    match drbg with
    | Ok prefix => (Ok prefix, s <| gcm_prefixes := <[kid := prefix]> (gcm_prefixes s) |>)
    | Err e => (Err e, s)
    end
  end.

(** The counter part: the count claimed, or the limit. *)
Definition claim_count (kid : bytes) s : HsmResult Z * CipherState :=
  let current := default 0 (gcm_counters s !! kid) in
  if GCM_MAX_RANDOM_NONCE_ENCRYPTIONS <=? current
  then (Err GeneralError, s <| gcm_counters := <[kid := current]> (gcm_counters s) |>)
  else (Ok current, s <| gcm_counters := <[kid := current + 1]> (gcm_counters s) |>).

Definition aes_256_gcm_encrypt_with_aad (drbg : HsmResult bytes) (key plaintext aad : bytes) s :
    HsmResult bytes * CipherState :=
  if negb (length key =? 32)%nat then (Err KeySizeRange, s)
  else if AES_GCM_MAX_PLAINTEXT <? Z.of_nat (length plaintext) then (Err DataLenRange, s)
  else
    match claim_count (gcm_key_id key) s with
    | (Err e, s) => (Err e, s)
    | (Ok count, s) =>
      match gcm_nonce_prefix drbg key s with
      | (Err e, s) => (Err e, s)
      | (Ok prefix, s) =>
        let nonce_bytes := prefix ++ to_be_bytes_8 count in
        match gcm_seal key nonce_bytes aad plaintext with
        | None => (Err GeneralError, s)
        | Some ciphertext => (Ok (nonce_bytes ++ ciphertext), s)
        end
      end
    end.

(** Encryption without associated data is the same computation with none. *)
Definition aes_256_gcm_encrypt (drbg : HsmResult bytes) (key plaintext : bytes) s :
    HsmResult bytes * CipherState :=
  aes_256_gcm_encrypt_with_aad drbg key plaintext [] s.

Definition aes_256_gcm_decrypt_with_aad (key data aad : bytes) : HsmResult bytes :=
  if negb (length key =? 32)%nat then Err KeySizeRange
  else if (length data <? 28)%nat then Err EncryptedDataInvalid
  else ok_or (gcm_open key (take 12 data) aad (drop 12 data)) EncryptedDataInvalid.
Definition aes_256_gcm_decrypt (key data : bytes) : HsmResult bytes :=
  aes_256_gcm_decrypt_with_aad key data [].

Definition check_iv_reuse (key iv : bytes) s : HsmResult unit * CipherState :=
  let key_hash := sha256 key in
  if bool_decide (iv_tracker s !! key_hash = None)
     && (MAX_TRACKED_KEYS <=? Z.of_nat (size (iv_tracker s)))
  then (Err GeneralError, s)
  else
    let iv_set := default ∅ (iv_tracker s !! key_hash) in
    let store ivs := s <| iv_tracker := <[key_hash := ivs]> (iv_tracker s) |> in
    if bool_decide (iv ∈ iv_set) then (Err MechanismParamInvalid, store iv_set)
    else if MAX_TRACKED_IVS_PER_KEY <=? Z.of_nat (size iv_set)
    then (Err GeneralError, store iv_set)
    else (Ok tt, store ({[iv]} ∪ iv_set)).

Definition aes_key_len_ok (key : bytes) : bool :=
  bool_decide (length key ∈ [16; 24; 32]%nat).

Definition aes_cbc_encrypt (key iv plaintext : bytes) s : HsmResult bytes * CipherState :=
  if AES_CBC_CTR_MAX_PLAINTEXT <? Z.of_nat (length plaintext) then (Err DataLenRange, s)
  else if negb (length iv =? 16)%nat then (Err MechanismParamInvalid, s)
  else if all_zero iv then (Err MechanismParamInvalid, s)
  else
    match check_iv_reuse key iv s with
    | (Err e, s) => (Err e, s)
    | (Ok _, s) =>
      if aes_key_len_ok key then (Ok (cbc_encrypt key iv plaintext), s)
      else (Err KeySizeRange, s)
    end.

Definition aes_cbc_decrypt (key iv ciphertext : bytes) : HsmResult bytes :=
  if negb (length iv =? 16)%nat then Err MechanismParamInvalid
  else if aes_key_len_ok key
  then ok_or (cbc_decrypt key iv ciphertext) EncryptedDataInvalid
  else Err EncryptedDataInvalid.

Definition aes_ctr_validate (key iv data : bytes) : HsmResult unit :=
  if AES_CBC_CTR_MAX_PLAINTEXT <? Z.of_nat (length data) then Err DataLenRange
  else if negb (length iv =? 16)%nat then Err MechanismParamInvalid
  else if all_zero iv then Err MechanismParamInvalid
  else if negb (aes_key_len_ok key) then Err KeySizeRange
  else Ok tt.

Definition aes_ctr_apply (key iv data : bytes) : HsmResult bytes :=
  if aes_key_len_ok key then Ok (ctr_keystream key iv data) else Err KeySizeRange.

Definition aes_ctr_encrypt (key iv plaintext : bytes) s : HsmResult bytes * CipherState :=
  match aes_ctr_validate key iv plaintext with
  | Err e => (Err e, s)
  | Ok _ =>
    match check_iv_reuse key iv s with
    | (Err e, s) => (Err e, s)
    | (Ok _, s) => (aes_ctr_apply key iv plaintext, s)
    end
  end.

Definition aes_ctr_decrypt (key iv ciphertext : bytes) : HsmResult bytes :=
  let? _ := aes_ctr_validate key iv ciphertext in aes_ctr_apply key iv ciphertext.
Definition aes_ctr_crypt (key iv data : bytes) : HsmResult bytes :=
  let? _ := aes_ctr_validate key iv data in aes_ctr_apply key iv data.

(** ** Runs *)

(** The state with what was used in it: the GCM nonces and the CBC/CTR IVs of
    the successful encryptions, per key identifier, since the key's counters
    were last removed. *)
Record CipherRun := {
  cr_state : CipherState;
  cr_nonces : list (bytes * bytes);
  cr_ivs : list (bytes * bytes);
}.

Definition forget (kid : bytes) (l : list (bytes * bytes)) : list (bytes * bytes) :=
  filter (λ p, p.1 ≠ kid) l.

Inductive cipher_step : CipherRun → CipherRun → Prop :=
| cs_gcm drbg key plaintext aad s s' ns ivs out :
    (∀ p, drbg = Ok p → length p = 4%nat) →
    aes_256_gcm_encrypt_with_aad drbg key plaintext aad s = (Ok out, s') →
    cipher_step {| cr_state := s; cr_nonces := ns; cr_ivs := ivs |}
      {| cr_state := s'; cr_nonces := (gcm_key_id key, take 12 out) :: ns; cr_ivs := ivs |}
| cs_gcm_err drbg key plaintext aad s s' ns ivs e :
    (∀ p, drbg = Ok p → length p = 4%nat) →
    aes_256_gcm_encrypt_with_aad drbg key plaintext aad s = (Err e, s') →
    cipher_step {| cr_state := s; cr_nonces := ns; cr_ivs := ivs |}
      {| cr_state := s'; cr_nonces := ns; cr_ivs := ivs |}
| cs_cbc key iv plaintext s s' ns ivs out :
    aes_cbc_encrypt key iv plaintext s = (Ok out, s') →
    cipher_step {| cr_state := s; cr_nonces := ns; cr_ivs := ivs |}
      {| cr_state := s'; cr_nonces := ns; cr_ivs := (gcm_key_id key, iv) :: ivs |}
| cs_cbc_err key iv plaintext s s' ns ivs e :
    aes_cbc_encrypt key iv plaintext s = (Err e, s') →
    cipher_step {| cr_state := s; cr_nonces := ns; cr_ivs := ivs |}
      {| cr_state := s'; cr_nonces := ns; cr_ivs := ivs |}
| cs_ctr key iv plaintext s s' ns ivs out :
    aes_ctr_encrypt key iv plaintext s = (Ok out, s') →
    cipher_step {| cr_state := s; cr_nonces := ns; cr_ivs := ivs |}
      {| cr_state := s'; cr_nonces := ns; cr_ivs := (gcm_key_id key, iv) :: ivs |}
| cs_ctr_err key iv plaintext s s' ns ivs e :
    aes_ctr_encrypt key iv plaintext s = (Err e, s') →
    cipher_step {| cr_state := s; cr_nonces := ns; cr_ivs := ivs |}
      {| cr_state := s'; cr_nonces := ns; cr_ivs := ivs |}
| cs_remove key s ns ivs :
    cipher_step {| cr_state := s; cr_nonces := ns; cr_ivs := ivs |}
      {| cr_state := remove_gcm_counter key s; cr_nonces := forget (gcm_key_id key) ns;
         cr_ivs := forget (gcm_key_id key) ivs |}
| cs_initialize s ns ivs :
    cipher_step {| cr_state := s; cr_nonces := ns; cr_ivs := ivs |}
      {| cr_state := reset_gcm_counters s; cr_nonces := ns; cr_ivs := [] |}
| cs_init_token s ns ivs :
    cipher_step {| cr_state := s; cr_nonces := ns; cr_ivs := ivs |}
      {| cr_state := force_reset_all_counters s; cr_nonces := []; cr_ivs := [] |}.

Definition cipher_start : CipherRun :=
  {| cr_state := CipherState_empty; cr_nonces := []; cr_ivs := [] |}.

(** What ties the recorded nonces to the counters. *)
Record nonces_ok (s : CipherState) (ns : list (bytes * bytes)) : Prop := {
  no_nodup : NoDup ns;
  no_shape : ∀ kid n, (kid, n) ∈ ns →
    ∃ prefix count c, n = prefix ++ to_be_bytes_8 count ∧ length prefix = 4%nat ∧
      gcm_prefixes s !! kid = Some prefix ∧ gcm_counters s !! kid = Some c ∧ 0 <= count < c;
  no_prefix : ∀ kid p, gcm_prefixes s !! kid = Some p → length p = 4%nat;
  no_bound : ∀ kid c, gcm_counters s !! kid = Some c →
    0 <= c <= GCM_MAX_RANDOM_NONCE_ENCRYPTIONS;
}.

Record ivs_ok (s : CipherState) (ivs : list (bytes * bytes)) : Prop := {
  io_nodup : NoDup ivs;
  io_tracked : ∀ kid iv, (kid, iv) ∈ ivs → ∃ t, iv_tracker s !! kid = Some t ∧ iv ∈ t;
}.

End Encrypt.
