(* ===== verification/EncryptProofs.v ===== *)
(** * AES modes and nonce management: theorems

    No GCM nonce and no tracked IV is used twice with a key as long as its
    counters are kept, and encryption and decryption are inverse. *)

From S2P Require Import Prelude Pkcs11 Hash Encrypt.

Lemma to_be_bytes_8_inj a b :
  in_width 64 a → in_width 64 b → to_be_bytes_8 a = to_be_bytes_8 b → a = b.
Proof.
  unfold to_be_bytes_8, in_width. intros Ha Hb E. apply (f_equal (@rev Z)) in E.
  rewrite !rev_involutive in E. apply to_le_bytes_inj in E; [done| |]; simpl; lia.
Qed.

Lemma length_to_be_bytes_8 z : length (to_be_bytes_8 z) = 8%nat.
Proof. unfold to_be_bytes_8. by rewrite length_rev, length_to_le_bytes. Qed.

Section EncryptProofs.
Context {H : HashPrimitives} {P : CipherPrimitives} {PL : CipherPrimitivesLaws P}.
Implicit Types s : CipherState.

(** ** GCM nonces *)

(** What a GCM encryption does to the counters of its key, with the nonce when
    one is made. *)
Inductive gcm_effect (kid : bytes) (drbg : HsmResult bytes) s : option bytes → CipherState → Prop :=
| ge_none : gcm_effect kid drbg s None s
| ge_limit c :
    gcm_counters s !! kid = Some c →
    gcm_effect kid drbg s None (s <| gcm_counters := <[kid := c]> (gcm_counters s) |>)
| ge_count c :
    c = default 0 (gcm_counters s !! kid) → c < GCM_MAX_RANDOM_NONCE_ENCRYPTIONS →
    gcm_effect kid drbg s None (s <| gcm_counters := <[kid := c + 1]> (gcm_counters s) |>)
| ge_cached c prefix :
    c = default 0 (gcm_counters s !! kid) → c < GCM_MAX_RANDOM_NONCE_ENCRYPTIONS →
    gcm_prefixes s !! kid = Some prefix →
    gcm_effect kid drbg s (Some (prefix ++ to_be_bytes_8 c))
      (s <| gcm_counters := <[kid := c + 1]> (gcm_counters s) |>)
| ge_drawn c prefix :
    c = default 0 (gcm_counters s !! kid) → c < GCM_MAX_RANDOM_NONCE_ENCRYPTIONS →
    gcm_prefixes s !! kid = None → drbg = Ok prefix →
    gcm_effect kid drbg s (Some (prefix ++ to_be_bytes_8 c))
      (s <| gcm_counters := <[kid := c + 1]> (gcm_counters s) |>
         <| gcm_prefixes := <[kid := prefix]> (gcm_prefixes s) |>).

Lemma gcm_encrypt_effect drbg key plain aad s r s' :
  aes_256_gcm_encrypt_with_aad drbg key plain aad s = (r, s') →
  ∃ used, gcm_effect (gcm_key_id key) drbg s used s' ∧
    ∀ out, r = Ok out → length key = 32%nat ∧
      ∃ n ct, used = Some n ∧ gcm_seal key n aad plain = Some ct ∧ out = n ++ ct.
Proof.
  unfold aes_256_gcm_encrypt_with_aad, claim_count, gcm_nonce_prefix. intros E.
  destruct (length key =? 32)%nat eqn:El; simpl in E; [|simplify_eq; eexists; split; [constructor|done]].
  apply Nat.eqb_eq in El.
  case_match in E; [simplify_eq; eexists; split; [constructor|done]|].
  destruct (Z.leb_spec GCM_MAX_RANDOM_NONCE_ENCRYPTIONS (default 0 (gcm_counters s !! gcm_key_id key)))
    as [Hc|Hc]; simpl in E.
  { simplify_eq. destruct (gcm_counters s !! gcm_key_id key) as [c|] eqn:Ec; [|done].
    eexists. split; [by eapply ge_limit|done]. }
  destruct (gcm_prefixes s !! gcm_key_id key) as [prefix|] eqn:Ep.
  - eexists. destruct (gcm_seal _ _ _ _) eqn:Es; simplify_eq;
      (split; [by apply (ge_cached _ _ _ _ prefix)|]); [|done].
    intros out [= <-]. split; [done|]. eauto.
  - destruct drbg as [prefix|]; simpl in E; cycle 1.
    { simplify_eq. eexists. split; [by apply ge_count|done]. }
    eexists. destruct (gcm_seal _ _ _ _) eqn:Es; simplify_eq;
      (split; [by apply (ge_drawn _ _ _ _ prefix)|]); [|done].
    intros out [= <-]. split; [done|]. eauto.
Qed.

Lemma counter_nonneg kid s ns :
  nonces_ok s ns → 0 <= default 0 (gcm_counters s !! kid).
Proof.
  intros N. destruct (gcm_counters s !! kid) eqn:E; [|done].
  by destruct (no_bound _ _ N _ _ E).
Qed.

(** Claiming a count keeps the recorded nonces below the counter. *)
Lemma nonces_bump kid c s s1 ns :
  nonces_ok s ns → c = default 0 (gcm_counters s !! kid) →
  c < GCM_MAX_RANDOM_NONCE_ENCRYPTIONS →
  gcm_counters s1 = <[kid := c + 1]> (gcm_counters s) →
  (∀ k p, gcm_prefixes s !! k = Some p → gcm_prefixes s1 !! k = Some p) →
  (∀ k p, gcm_prefixes s1 !! k = Some p → length p = 4%nat) → nonces_ok s1 ns.
Proof.
  intros N Hc Hlt E1 Hp1 Hl1. pose proof (counter_nonneg kid s ns N) as H0. rewrite <- Hc in H0.
  destruct N as [Hnd Hsh Hpf Hb]. split; [done| |done|].
  - intros k n Hin. destruct (Hsh _ _ Hin) as (p & cnt & c' & -> & Hl & Hpp & Hcc & Hr).
    rewrite E1. destruct (decide (kid = k)) as [<-|Hne].
    + exists p, cnt, (c + 1). rewrite lookup_insert_eq. rewrite Hcc in Hc. simpl in Hc.
      split_and!; auto; lia.
    + exists p, cnt, c'. rewrite lookup_insert_ne by done. auto.
  - intros k c'. rewrite E1. intros [[<- <-]|[_ Ec]]%lookup_insert_Some; [lia|by apply Hb in Ec].
Qed.

(** The nonce of the claimed count is new. *)
Lemma nonces_add kid c prefix s s1 ns :
  nonces_ok s ns → nonces_ok s1 ns → c = default 0 (gcm_counters s !! kid) →
  gcm_counters s1 = <[kid := c + 1]> (gcm_counters s) → gcm_prefixes s1 !! kid = Some prefix →
  c < GCM_MAX_RANDOM_NONCE_ENCRYPTIONS →
  (gcm_prefixes s !! kid = None ∨ gcm_prefixes s !! kid = Some prefix) →
  nonces_ok s1 ((kid, prefix ++ to_be_bytes_8 c) :: ns) ∧
  length (prefix ++ to_be_bytes_8 c) = 12%nat.
Proof.
  intros N [Hnd1 Hsh1 Hpf1 Hb1] Hc E1 Ep1 Hlt Hold.
  pose proof (counter_nonneg kid s ns N) as H0. rewrite <- Hc in H0.
  assert (Hl := Hpf1 _ _ Ep1). split; cycle 1.
  { by rewrite length_app, Hl, length_to_be_bytes_8. }
  split; [| |done|done].
  - constructor; [|done]. intros Hin.
    destruct (no_shape _ _ N _ _ Hin) as (p & cnt & c' & E & Hl' & Hpp & Hcc & Hr).
    destruct Hold as [?|Hold]; [congruence|]. rewrite Hpp in Hold. injection Hold as <-.
    apply app_inj_1 in E as [_ E]; [|done].
    pose proof (no_bound _ _ N _ _ Hcc). rewrite Hcc in Hc. simpl in Hc. subst c.
    unfold GCM_MAX_RANDOM_NONCE_ENCRYPTIONS in *.
    apply to_be_bytes_8_inj in E; unfold in_width; lia.
  - intros k n [[= -> ->]|Hin]%elem_of_cons; [|by apply Hsh1].
    exists prefix, c, (c + 1). rewrite E1, lookup_insert_eq. split_and!; auto; lia.
Qed.

Lemma nonces_same s s' ns :
  gcm_counters s' = gcm_counters s → gcm_prefixes s' = gcm_prefixes s →
  nonces_ok s ns → nonces_ok s' ns.
Proof. intros E1 E2 []. split; rewrite ?E1, ?E2; done. Qed.

Lemma nonces_ok_step kid drbg s used s' ns :
  nonces_ok s ns → (∀ p, drbg = Ok p → length p = 4%nat) → gcm_effect kid drbg s used s' →
  nonces_ok s' ns ∧ ∀ n, used = Some n → nonces_ok s' ((kid, n) :: ns) ∧ length n = 12%nat.
Proof.
  intros N Hd E. pose proof (no_prefix _ _ N) as Hpf.
  destruct E as [|c Ec|c Hc Hlt|c prefix Hc Hlt Ep|c prefix Hc Hlt Ep Hdr].
  - done.
  - split; [|done]. rewrite insert_id by done. by destruct s, N; split.
  - split; [by eapply (nonces_bump kid c s)|done].
  - match goal with |- nonces_ok ?s1 _ ∧ _ => assert (Hn : nonces_ok s1 ns) end.
    { by eapply (nonces_bump kid c s). }
    split; [done|]. intros n [= <-]. eapply (nonces_add kid c prefix s); auto.
  - match goal with |- nonces_ok ?s1 _ ∧ _ => assert (Hn : nonces_ok s1 ns) end.
    { eapply (nonces_bump kid c s); try done; simpl.
      - intros k p Hk. rewrite lookup_insert_ne; [done|congruence].
      - intros k p [[<- <-]|[_ Hk]]%lookup_insert_Some; [by apply Hd|by eapply Hpf]. }
    split; [done|]. intros n [= <-]. eapply (nonces_add kid c prefix s); auto. simpl.
    by rewrite lookup_insert_eq.
Qed.

(** ** IVs *)

Lemma check_iv_reuse_ok key iv s r s' ivs :
  ivs_ok s ivs → check_iv_reuse key iv s = (r, s') →
  ivs_ok s' ivs ∧ (r = Ok tt → ivs_ok s' ((gcm_key_id key, iv) :: ivs)) ∧
  gcm_counters s' = gcm_counters s ∧ gcm_prefixes s' = gcm_prefixes s.
Proof.
  intros [Hnd Ht] E. unfold check_iv_reuse, gcm_key_id in *.
  set (kid := sha256 key) in *. set (old := default ∅ (iv_tracker s !! kid)) in *.
  assert (Hgrow : ∀ t, old ⊆ t → ∀ k v, (k, v) ∈ ivs →
    ∃ t', <[kid := t]> (iv_tracker s) !! k = Some t' ∧ v ∈ t').
  { intros t Hsub k v Hin. destruct (Ht _ _ Hin) as (t' & E' & Hv).
    destruct (decide (kid = k)) as [<-|Hne].
    - exists t. rewrite lookup_insert_eq. split; [done|]. apply Hsub. unfold old. by rewrite E'.
    - exists t'. by rewrite lookup_insert_ne. }
  split_tests_in E; bool_to_prop; simpl;
    (split; [split; simpl; [done|first [done|apply Hgrow; set_solver]]|split; [|done]]); try done.
  intros _. split; simpl.
  - constructor; [|done]. intros Hin. destruct (Ht _ _ Hin) as (t & E' & Hv).
    unfold old in *. rewrite E' in *. done.
  - intros k v [[= -> ->]|Hin]%elem_of_cons; [|by apply Hgrow; [set_solver|]].
    eexists. rewrite lookup_insert_eq. split; [done|]. set_solver.
Qed.

Lemma forget_elem kid l k v : (k, v) ∈ forget kid l ↔ k ≠ kid ∧ (k, v) ∈ l.
Proof. unfold forget. by rewrite list_elem_of_filter. Qed.

Lemma ivs_same s s' ivs : iv_tracker s' = iv_tracker s → ivs_ok s ivs → ivs_ok s' ivs.
Proof. intros E []. split; rewrite ?E; done. Qed.

Lemma gcm_effect_tracker kid drbg s used s' :
  gcm_effect kid drbg s used s' → iv_tracker s' = iv_tracker s.
Proof. by intros []. Qed.

Lemma cbc_check key iv plain s r s' :
  aes_cbc_encrypt key iv plain s = (r, s') →
  (s' = s ∧ ∀ out, r ≠ Ok out) ∨
  ∃ r1, check_iv_reuse key iv s = (r1, s') ∧ ∀ out, r = Ok out → r1 = Ok tt.
Proof.
  unfold aes_cbc_encrypt. intros E. destruct (check_iv_reuse key iv s) as [[[]|e] s1] eqn:Ec;
    split_tests_in E;
    first [left; split; [done|by intros ? [=]]|right; eexists; split; [done|by intros ? [=]]].
Qed.
Lemma ctr_check key iv plain s r s' :
  aes_ctr_encrypt key iv plain s = (r, s') →
  (s' = s ∧ ∀ out, r ≠ Ok out) ∨
  ∃ r1, check_iv_reuse key iv s = (r1, s') ∧ ∀ out, r = Ok out → r1 = Ok tt.
Proof.
  unfold aes_ctr_encrypt. intros E. destruct (check_iv_reuse key iv s) as [[[]|e] s1] eqn:Ec;
    split_tests_in E;
    first [left; split; [done|by intros ? [=]]|right; eexists; split; [done|by intros ? [=]]].
Qed.

(** An encryption in a tracked mode, successful or not. *)
Lemma tracked_ok key iv s (r : HsmResult bytes) s' ns ivs :
  nonces_ok s ns → ivs_ok s ivs →
  ((s' = s ∧ ∀ out, r ≠ Ok out) ∨
   ∃ r1, check_iv_reuse key iv s = (r1, s') ∧ ∀ out, r = Ok out → r1 = Ok tt) →
  nonces_ok s' ns ∧ ivs_ok s' ivs ∧ ∀ out, r = Ok out → ivs_ok s' ((gcm_key_id key, iv) :: ivs).
Proof.
  intros N I [[-> Hn]|(r1 & E & Hr)].
  - split; [done|]. split; [done|]. intros out Ho. by destruct (Hn out).
  - destruct (check_iv_reuse_ok _ _ _ _ _ _ I E) as (I' & Ia & E1 & E2).
    split; [by eapply nonces_same|]. split; [done|]. intros out Ho. by eapply Ia, Hr.
Qed.

Lemma cipher_step_ok w w' :
  cipher_step w w' → nonces_ok (cr_state w) (cr_nonces w) → ivs_ok (cr_state w) (cr_ivs w) →
  nonces_ok (cr_state w') (cr_nonces w') ∧ ivs_ok (cr_state w') (cr_ivs w').
Proof.
  destruct 1 as [drbg key pl aad s s' ns ivs out Hd E|drbg key pl aad s s' ns ivs e Hd E
    |key iv pl s s' ns ivs out E|key iv pl s s' ns ivs e E|key iv pl s s' ns ivs out E
    |key iv pl s s' ns ivs e E|key s ns ivs|s ns ivs|s ns ivs]; simpl; intros N I.
  - destruct (gcm_encrypt_effect _ _ _ _ _ _ _ E) as (used & G & Hu).
    destruct (Hu out eq_refl) as (_ & n & ct & -> & _ & ->).
    destruct (nonces_ok_step _ _ _ _ _ _ N Hd G) as [_ Ha]. destruct (Ha n eq_refl) as [N' Hl].
    rewrite <- Hl, take_app_length. split; [done|]. by eapply ivs_same, I; eapply gcm_effect_tracker.
  - destruct (gcm_encrypt_effect _ _ _ _ _ _ _ E) as (used & G & _).
    destruct (nonces_ok_step _ _ _ _ _ _ N Hd G) as [N' _].
    split; [done|]. by eapply ivs_same, I; eapply gcm_effect_tracker.
  - destruct (tracked_ok _ _ _ _ _ _ _ N I (cbc_check _ _ _ _ _ _ E)) as (N' & _ & Ia). eauto.
  - destruct (tracked_ok _ _ _ _ _ _ _ N I (cbc_check _ _ _ _ _ _ E)) as (N' & I' & _). eauto.
  - destruct (tracked_ok _ _ _ _ _ _ _ N I (ctr_check _ _ _ _ _ _ E)) as (N' & _ & Ia). eauto.
  - destruct (tracked_ok _ _ _ _ _ _ _ N I (ctr_check _ _ _ _ _ _ E)) as (N' & I' & _). eauto.
  - destruct N as [Hnd Hsh Hpf Hb], I as [Hnd' Ht]. split; split; simpl.
    + by apply NoDup_filter.
    + intros k n [Hne Hin]%forget_elem. destruct (Hsh _ _ Hin) as (p & cnt & c & ? & ? & ? & ? & ?).
      exists p, cnt, c. by rewrite !lookup_delete_ne by done.
    + intros k p [_ E]%lookup_delete_Some. by eapply Hpf.
    + intros k c [_ E]%lookup_delete_Some. by eapply Hb.
    + by apply NoDup_filter.
    + intros k v [Hne Hin]%forget_elem. destruct (Ht _ _ Hin) as (t & E & Hv).
      exists t. by rewrite lookup_delete_ne by done.
  - split; [by eapply nonces_same, N|]. split; [constructor|]. by intros k v ?%elem_of_nil.
  - split; split; simpl; try constructor; try (by intros k v ?%elem_of_nil); done.
Qed.


(** Removing the counters of a key that is still in use restarts its nonces:
    with the same prefix drawn again, the next encryption uses a nonce the key
    has already used.  C_DestroyObject removes the counters of the key bytes
    even when a copy of the object holds the same key. *)
Lemma removal_restarts_nonces prefix key p1 p2 s out1 out2 s1 s2 :
  length prefix = 4%nat → gcm_counters s !! gcm_key_id key = None →
  gcm_prefixes s !! gcm_key_id key = None →
  aes_256_gcm_encrypt (Ok prefix) key p1 s = (Ok out1, s1) →
  aes_256_gcm_encrypt (Ok prefix) key p2 (remove_gcm_counter key s1) = (Ok out2, s2) →
  take 12 out1 = take 12 out2.
Proof.
  unfold aes_256_gcm_encrypt, aes_256_gcm_encrypt_with_aad, claim_count, gcm_nonce_prefix.
  intros Hl Ec Ep E1 E2. rewrite Ec in E1. simpl in *. rewrite Ep in E1. simpl in *.
  rewrite !lookup_delete_eq in E2. simpl in E2. split_tests_in E1. split_tests_in E2.
  rewrite lookup_delete_eq in Heqp. simplify_eq/=.
  do 2 rewrite (take_app_le (_ ++ to_be_bytes_8 0))
    by (rewrite length_app, Hl, length_to_be_bytes_8; lia). done.
Qed.

(** ** Round trips *)

Lemma aes_ctr_validate_length key iv d d' :
  length d' = length d → aes_ctr_validate key iv d' = aes_ctr_validate key iv d.
Proof. unfold aes_ctr_validate. by intros ->. Qed.

(** decryption inverts encryption.  What a successful GCM encryption
    returns decrypts, under the same key and associated data and in any later
    state, to the plaintext; CTR decryption inverts CTR encryption; and CBC
    decryption inverts CBC encryption. *)
Theorem decrypt_inverts_encrypt drbg key plain aad iv s out s'
    (Hd : ∀ p, drbg = Ok p → length p = 4%nat)
    (Hp : ∀ p, gcm_prefixes s !! gcm_key_id key = Some p → length p = 4%nat) :
  (aes_256_gcm_encrypt_with_aad drbg key plain aad s = (Ok out, s') →
   aes_256_gcm_decrypt_with_aad key out aad = Ok plain) ∧
  (aes_cbc_encrypt key iv plain s = (Ok out, s') → aes_cbc_decrypt key iv out = Ok plain) ∧
  (aes_ctr_encrypt key iv plain s = (Ok out, s') → aes_ctr_decrypt key iv out = Ok plain).
Proof using PL.
  split_and!.
  - intros E. destruct (gcm_encrypt_effect _ _ _ _ _ _ _ E) as (used & G & Hu).
    destruct (Hu out eq_refl) as (Hk & n & ct & Hus & Hs & ->).
    assert (Hl : length n = 12%nat).
    { destruct G as [| | |c prefix _ _ Epf|c prefix _ _ _ Hdr]; try done; injection Hus as <-;
        rewrite length_app, length_to_be_bytes_8; [by rewrite (Hp _ Epf)|by rewrite (Hd _ Hdr)]. }
    unfold aes_256_gcm_decrypt_with_aad. rewrite Hk. simpl.
    pose proof (gcm_seal_length _ _ _ _ _ Hs) as Hct. unfold TAG_LEN in Hct.
    rewrite (proj2 (Nat.ltb_ge _ _)) by (rewrite length_app; lia).
    rewrite <- Hl, take_app_length, drop_app_length, (gcm_open_seal _ _ _ _ _ Hs). done.
  - unfold aes_cbc_encrypt, aes_cbc_decrypt. intros E. split_tests_in E. simpl.
    by rewrite cbc_decrypt_encrypt.
  - unfold aes_ctr_encrypt, aes_ctr_decrypt, aes_ctr_apply. intros E.
    destruct (aes_ctr_validate key iv plain) as [[]|] eqn:Ev; [|done].
    destruct (check_iv_reuse key iv s) as [[]]; [|done].
    destruct (aes_key_len_ok key) eqn:Ek; simplify_eq.
    rewrite (aes_ctr_validate_length _ _ plain), Ev by apply ctr_length. simpl.
    by rewrite ctr_involutive.
Qed.
End EncryptProofs.

(** ** A concrete cipher

    The key stream is the xor with the first key byte; a tag or a padding is
    appended. *)

Definition toy_stream (key data : bytes) : bytes := Z.lxor (default 0 (head key)) <$> data.
Definition toy_ciphers : CipherPrimitives := {|
  gcm_seal key nonce aad plain := Some (toy_stream key plain ++ replicate TAG_LEN 0);
  gcm_open key nonce aad data :=
    if (length data <? TAG_LEN)%nat then None
    else Some (toy_stream key (take (length data - TAG_LEN) data));
  cbc_encrypt key iv plain := toy_stream key plain;
  cbc_decrypt key iv data := Some (toy_stream key data);
  ctr_keystream key iv data := toy_stream key data;
|}.

Lemma toy_stream_involutive key data : toy_stream key (toy_stream key data) = data.
Proof.
  unfold toy_stream. rewrite <- list_fmap_compose. rewrite <- (list_fmap_id data) at 2.
  apply list_fmap_ext. intros i x _. simpl. by rewrite <- Z.lxor_assoc, Z.lxor_nilpotent.
Qed.

#[export] Instance toy_ciphers_laws : CipherPrimitivesLaws toy_ciphers.
Proof.
  split; unfold toy_ciphers;
    cbn [gcm_seal gcm_open cbc_encrypt cbc_decrypt ctr_keystream]; intros.
  - simplify_eq. rewrite length_app, length_replicate, (proj2 (Nat.ltb_ge _ _)) by lia.
    by rewrite Nat.add_sub, take_app_length, toy_stream_involutive.
  - simplify_eq. unfold toy_stream. by rewrite length_app, length_fmap, length_replicate.
  - by rewrite toy_stream_involutive.
  - apply toy_stream_involutive.
  - unfold toy_stream. by rewrite length_fmap.
  - destruct (Nat.ltb_spec (length cipher) TAG_LEN); simplify_eq. unfold toy_stream.
    rewrite length_fmap, length_take. lia.
  - unfold toy_stream. rewrite length_fmap. lia.
  - simplify_eq. unfold toy_stream. by rewrite length_fmap.
Defined.

#[local] Existing Instance toy_hash.
#[local] Existing Instance toy_ciphers.

Definition demo_aes_key : bytes := replicate 32 7.
Definition demo_sealed : HsmResult bytes * CipherState :=
  aes_256_gcm_encrypt_with_aad (Ok [1; 2; 3; 4]) demo_aes_key [104; 105] [] CipherState_empty.


Lemma decrypt_inverts_encrypt_witness :
  aes_256_gcm_decrypt_with_aad demo_aes_key (default [] (match demo_sealed.1 with Ok b => Some b | Err _ => None end)) [] = Ok [104; 105].
Proof.
  refine (proj1 (decrypt_inverts_encrypt (Ok [1; 2; 3; 4]) demo_aes_key [104; 105] [] [] CipherState_empty
    _ demo_sealed.2 _ _) _).
  - by intros p [= <-].
  - intros p E. discriminate E.
  - vm_compute. reflexivity.
Defined.
