(* ===== verification/Abi.v ===== *)
(** * The PKCS#11 interface

    Models [HsmCore] (src/core.rs), [SlotManager] (src/token/slot.rs) and the
    library, token, session, login and object functions of
    src/pkcs11_abi/functions.rs, which compose the components.  A C pointer
    argument is an option, [None] for null; a buffer is the bytes it points to,
    so a length argument is the length of its buffer.  What a call reads from
    its surroundings is a [CallEnv].  The process-wide counters of
    src/crypto/encrypt.rs, the disk and the calling thread's session cache are
    kept in the core's state.  The cache of parsed RSA keys, the audit events of
    zeroisation, and tracing output are not modelled. *)

From S2P Require Import Prelude Pkcs11 Handles Hash PinCrypto TokenFiles Token Session SessionManager Dates Objects ObjectStore AuditChain Encrypt.

Definition MAX_PIN_BYTES : Z := 256.
Definition MAX_TEMPLATE_ATTRS : Z := 256.
Definition MAX_ATTR_VALUE_LEN : Z := 64 * 1024.
Definition MAX_FIND_OBJECTS_PER_CALL : Z := 65536.

(** ** State *)

Record HsmCore (A B : Type) := {
  slot_manager : gmap Z Token;
  session_manager : SessionManager A;
  object_store : ObjectStore B;
  audit_log : AuditLog;
  persist_objects : bool;
  core_cipher : CipherState;
  core_disk : Disk;
  core_cache : TlsCache;
}.
Arguments slot_manager {A B} h.
Arguments session_manager {A B} h.
Arguments object_store {A B} h.
Arguments audit_log {A B} h.
Arguments persist_objects {A B} h.
Arguments core_cipher {A B} h.
Arguments core_disk {A B} h.
Arguments core_cache {A B} h.
Arguments Build_HsmCore {A B}.

#[export] Instance HsmCore_expand {A B} : FieldExpansion (HsmCore A B) := λ c,
  Build_HsmCore (slot_manager c) (session_manager c) (object_store c) (audit_log c)
    (persist_objects c) (core_cipher c) (core_disk c) (core_cache c).

(** What one call observes: the clock in nanoseconds for sessions and in
    seconds for objects, the token's environment, and the database. *)
Record CallEnv := {
  ce_now : Z;
  ce_wall : Z;
  ce_token : Env;
  ce_clear_io : DbIO;
  ce_list_io : DbIO;
  ce_load_io : string → DbIO;
  ce_persist : PersistEnv;
  ce_struct_size : Z;
}.

(** A [CK_ATTRIBUTE] the caller passes in: its type and the value buffer. *)
Definition RawAttr : Type := Z * option bytes.

(** A [CK_ATTRIBUTE] the caller wants filled. *)
Record OutAttr := { oa_type : Z; oa_value : option bytes; oa_value_len : Z }.

Definition blen (b : bytes) : Z := Z.of_nat (length b).

(** ** Templates *)

Fixpoint parse_attrs (attrs : list RawAttr) : Result Z Template :=
  match attrs with
  | [] => Ok []
  | (attr_type, p_value) :: attrs =>
    let value := default [] p_value in
    if MAX_ATTR_VALUE_LEN <? blen value then Err CKR_ATTRIBUTE_VALUE_INVALID
    else let? rest := parse_attrs attrs in Ok ((attr_type, value) :: rest)
  end.

Definition parse_template (attrs : list RawAttr) : Result Z Template :=
  if MAX_TEMPLATE_ATTRS <? Z.of_nat (length attrs) then Err CKR_ARGUMENTS_BAD
  else parse_attrs attrs.

Definition parse_ck_bbool (value : bytes) : Result Z bool :=
  match value with [b] => Ok (negb (b =? 0)) | _ => Err CKR_ATTRIBUTE_VALUE_INVALID end.

(** The login test of [C_CreateObject]: does any [CKA_CLASS] of the template
    name a private or secret key? *)
Definition is_key_object (template : Template) : bool :=
  existsb (λ p, (p.1 =? CKA_CLASS) &&
    match read_ck_ulong p.2 with
    | Some class => (class =? CKO_PRIVATE_KEY) || (class =? CKO_SECRET_KEY)
    | None => false
    end) template.

(** The loop of [C_SetAttributeValue]: the object is written attribute by
    attribute. *)
Fixpoint set_attributes (template : Template) (o : StoredObject) : Z * StoredObject :=
  match template with
  | [] => (CKR_OK, o)
  | (attr_type, value) :: template =>
    if attr_type =? CKA_LABEL then set_attributes template (o <| o_label := value |>)
    else if attr_type =? CKA_ID then set_attributes template (o <| o_id := value |>)
    else if (attr_type =? CKA_EC_POINT) && bool_decide (o_key_type o = Some CKK_ML_DSA)
    then set_attributes template
           (o <| o_extra_attributes := <[CKA_EC_POINT := value]> (o_extra_attributes o) |>)
    else (CKR_ATTRIBUTE_READ_ONLY, o)
  end.

(** One attribute of [C_GetAttributeValue]: what is written back, and the
    return value it sets, if any. *)
Definition get_attribute (o : StoredObject) (is_logged_in : bool) (a : OutAttr) :
    OutAttr * option Z :=
  let unavailable rv :=
    ({| oa_type := oa_type a; oa_value := oa_value a;
        oa_value_len := CK_UNAVAILABLE_INFORMATION |}, Some rv) in
  match read_attribute o (oa_type a) is_logged_in with
  | Ok (Some value) =>
    let sized p := {| oa_type := oa_type a; oa_value := p; oa_value_len := blen value |} in
    match oa_value a with
    | None => (sized None, None)
    | Some buffer =>
      if oa_value_len a <? blen value then (sized (Some buffer), Some CKR_BUFFER_TOO_SMALL)
      else (sized (Some (value ++ drop (length value) buffer)), None)
    end
  | Ok None => unavailable CKR_ATTRIBUTE_TYPE_INVALID
  | Err AttributeSensitive => unavailable CKR_ATTRIBUTE_SENSITIVE
  | Err _ => unavailable CKR_GENERAL_ERROR
  end.

Fixpoint get_attributes (o : StoredObject) (is_logged_in : bool) (rv : Z)
    (attrs : list OutAttr) : Z * list OutAttr :=
  match attrs with
  | [] => (rv, [])
  | a :: attrs =>
    let '(a', set) := get_attribute o is_logged_in a in
    let '(rv', attrs') := get_attributes o is_logged_in (default rv set) attrs in
    (rv', a' :: attrs')
  end.

(** Attributes a copy may not be given. *)
Definition copy_rejected : list Z :=
  [CKA_VALUE; CKA_PRIVATE_EXPONENT; CKA_PRIME_1; CKA_PRIME_2; CKA_EXPONENT_1;
   CKA_EXPONENT_2; CKA_COEFFICIENT].

(** One template attribute of [C_CopyObject]. *)
Definition copy_attribute (o : StoredObject) (attr_type : Z) (value : bytes) :
    Result Z StoredObject :=
  let flag (f : bool → StoredObject) := let? b := parse_ck_bbool value in Ok (f b) in
  match attr_of attr_type with
  | A_CLASS =>
    match read_ck_ulong value with
    | None => Err CKR_TEMPLATE_INCONSISTENT
    | Some class => if class =? o_class o then Ok o else Err CKR_TEMPLATE_INCONSISTENT
    end
  | A_KEY_TYPE =>
    match o_key_type o with
    | None => Ok o
    | Some kt =>
      match read_ck_ulong value with
      | None => Err CKR_TEMPLATE_INCONSISTENT
      | Some requested => if requested =? kt then Ok o else Err CKR_TEMPLATE_INCONSISTENT
      end
    end
  | A_SENSITIVE =>
    let? requested := parse_ck_bbool value in
    if o_sensitive o && negb requested then Err CKR_TEMPLATE_INCONSISTENT
    else Ok (o <| o_sensitive := requested |>)
  | A_EXTRACTABLE =>
    let? requested := parse_ck_bbool value in
    if negb (o_extractable o) && requested then Err CKR_TEMPLATE_INCONSISTENT
    else Ok (o <| o_extractable := requested |>)
  | A_LABEL => Ok (o <| o_label := value |>)
  | A_ID => Ok (o <| o_id := value |>)
  | A_TOKEN => flag (λ b, o <| o_token_object := b |>)
  | A_PRIVATE => flag (λ b, o <| o_private := b |>)
  | A_MODIFIABLE => flag (λ b, o <| o_modifiable := b |>)
  | A_DESTROYABLE => flag (λ b, o <| o_destroyable := b |>)
  | A_ENCRYPT => flag (λ b, o <| o_can_encrypt := b |>)
  | A_DECRYPT => flag (λ b, o <| o_can_decrypt := b |>)
  | A_SIGN => flag (λ b, o <| o_can_sign := b |>)
  | A_VERIFY => flag (λ b, o <| o_can_verify := b |>)
  | A_WRAP => flag (λ b, o <| o_can_wrap := b |>)
  | A_UNWRAP => flag (λ b, o <| o_can_unwrap := b |>)
  | A_DERIVE => flag (λ b, o <| o_can_derive := b |>)
  | _ =>
    if bool_decide (attr_type ∈ copy_rejected) then Err CKR_ATTRIBUTE_READ_ONLY
    else Ok (o <| o_extra_attributes := <[attr_type := value]> (o_extra_attributes o) |>)
  end.

Fixpoint copy_attributes (o : StoredObject) (attrs : list RawAttr) : Result Z StoredObject :=
  match attrs with
  | [] => Ok o
  | (attr_type, p_value) :: attrs =>
    let value := default [] p_value in
    if MAX_ATTR_VALUE_LEN <? blen value then Err CKR_ATTRIBUTE_VALUE_INVALID
    else let? o := copy_attribute o attr_type value in copy_attributes o attrs
  end.

(** ** Calls *)

Section Abi.
Context {P : PinPrimitives} {X : HexCodec} {H : HashPrimitives}.
Context {C : ObjectCodec} {SO : StoreOrder} {D : DashOrder} {AC : AuditCodec}.
Context {A B : Type} {HS : HandleSource A} {OH : ObjectHandles B}.
Implicit Types (c : HsmCore A B) (e : CallEnv).

(** [SlotManager::get_token], and storing back what a call did to the token
    and the disk. *)
Definition get_token (slot_id : Z) c : HsmResult Token :=
  ok_or (slot_manager c !! slot_id) SlotIdInvalid.
Definition put_token (slot_id : Z) (t : Token) c : HsmCore A B :=
  c <| slot_manager := <[slot_id := t]> (slot_manager c) |>.
Definition put_world (slot_id : Z) (w : TokenWorld) c : HsmCore A B :=
  put_token slot_id w.1 (c <| core_disk := w.2 |>).

(** The session behind a handle, with its location. *)
Definition find_session (session : Z) c : HsmResult (Z * Session) :=
  ok_or (lookup_session (session_manager c) session) SessionHandleInvalid.
Definition put_session (l : Z) (s : Session) c : HsmCore A B :=
  c <| session_manager := write_session l s (session_manager c) |>.
Definition put_object (handle : Z) (o : StoredObject) c : HsmCore A B :=
  c <| object_store := object_store c <| os_objects := <[handle := o]> (os_objects (object_store c)) |> |>.

(** [audit_log.record] with the result ignored. *)
Definition audit (session : Z) (op : AuditOperation) (r : AuditResult) c : HsmCore A B :=
  c <| audit_log := (record session op r None (audit_log c)).2 |>.

(** *** Construction *)

(** The configuration the core reads. *)
Record CoreConfig := {
  cc_token : TokenSettings;
  cc_slot_count : Z;
  cc_audit_enabled : bool;
}.

(** [SlotManager::new_with_config]. *)
Definition SlotManager_new_with_config (debug : bool) (config : CoreConfig) (d : Disk) :
    gmap Z Token :=
  let count := Z.min (Z.max (cc_slot_count config) 1) CK_ULONG_MAX in
  foldl (λ tokens slot_id,
           <[slot_id := new_with_config_for_slot debug (Some (cc_token config)) slot_id d]> tokens)
    ∅ (seqZ 0 count).

(** [build_object_store]; [store] is the outcome of creating the directory and
    of opening the database. *)
Definition build_object_store (config : CoreConfig) (alloc : B)
    (store : HsmResult EncryptedStore) : HsmResult (ObjectStore B) :=
  if negb (cfg_persist_objects (cc_token config)) then Ok (ObjectStore_new alloc)
  else let? store := store in Ok (with_persistence alloc store).

(** [HsmCore::try_new]: [drbg] is the outcome of seeding the DRBG,
    [alloc_s] and [alloc_o] the new handle allocators, [path] the outcome of
    the checks on the log path. *)
Definition try_new (debug : bool) (config : CoreConfig) (drbg : HsmResult unit)
    (alloc_s : A) (alloc_o : B) (store : HsmResult EncryptedStore)
    (path : HsmResult unit) (o : OpenOutcome) (read_ok : nat → bool) (files : AuditFiles)
    (cipher : CipherState) (d : Disk) : HsmResult (HsmCore A B) :=
  match drbg with
  | Err _ => Err GeneralError
  | Ok _ =>
    let tokens := SlotManager_new_with_config debug config d in
    let? objects := build_object_store config alloc_o store in
    let? log :=
      (if cc_audit_enabled config
       then let? _ := path in Ok (new_with_path o read_ok files) else Ok AuditLog_new) in
    Ok {| slot_manager := tokens; session_manager := SessionManager_new alloc_s;
          object_store := objects; audit_log := log;
          persist_objects := cfg_persist_objects (cc_token config);
          core_cipher := cipher; core_disk := d; core_cache := None |}
  end.

(** *** Tokens *)

Definition C_InitToken e (slot_id : Z) (p_pin p_label : option bytes) c : Z * HsmCore A B :=
  match p_pin, p_label with
  | Some pin, Some label =>
    match get_token slot_id c with
    | Err x => (error_to_rv x, c)
    | Ok token =>
      if MAX_PIN_BYTES <? blen pin then (CKR_PIN_LEN_RANGE, c)
      else
        let '(m, token, cache) :=
          close_all_sessions slot_id (session_manager c) token (core_cache c) in
        let c := c <| session_manager := m |> <| core_cache := cache |>
          <| object_store := clear_persist_key (clear (ce_clear_io e) (object_store c)) |>
          <| core_cipher := force_reset_all_counters (core_cipher c) |> in
        let '(r, w) := init_token pin (take 32 label) (ce_token e) (token, core_disk c) in
        (rv_of r, put_world slot_id w c)
    end
  | _, _ => (CKR_ARGUMENTS_BAD, c)
  end.

Definition C_InitPIN e (session : Z) (p_pin : option bytes) c : Z * HsmCore A B :=
  match p_pin with
  | None => (CKR_ARGUMENTS_BAD, c)
  | Some pin =>
    match find_session session c with
    | Err x => (error_to_rv x, c)
    | Ok (_, s) =>
      match get_token (s_slot_id s) c with
      | Err x => (error_to_rv x, c)
      | Ok token =>
        if negb (is_so (s_state s)) then (CKR_USER_NOT_LOGGED_IN, c)
        else if MAX_PIN_BYTES <? blen pin then (CKR_PIN_LEN_RANGE, c)
        else
          let '(r, w) := init_pin pin (ce_token e) (token, core_disk c) in
          (rv_of r, put_world (s_slot_id s) w c)
      end
    end
  end.

Definition C_SetPIN e (session : Z) (p_old_pin p_new_pin : option bytes) c : Z * HsmCore A B :=
  match p_old_pin, p_new_pin with
  | Some old_pin, Some new_pin =>
    match find_session session c with
    | Err x => (error_to_rv x, c)
    | Ok (_, s) =>
      match get_token (s_slot_id s) c with
      | Err x => (error_to_rv x, c)
      | Ok token =>
        if (MAX_PIN_BYTES <? blen old_pin) || (MAX_PIN_BYTES <? blen new_pin)
        then (CKR_PIN_LEN_RANGE, c)
        else
          let '(r, w) := set_pin old_pin new_pin (ce_token e) (token, core_disk c) in
          (rv_of r, put_world (s_slot_id s) w c)
      end
    end
  | _, _ => (CKR_ARGUMENTS_BAD, c)
  end.

(** *** Sessions *)

(** The handle is what is written through [ph_session]. *)
Definition C_OpenSession e (slot_id flags : Z) (ph_session : bool) c :
    Z * option Z * HsmCore A B :=
  if negb ph_session then (CKR_ARGUMENTS_BAD, None, c)
  else
    match get_token slot_id c with
    | Err x => (error_to_rv x, None, c)
    | Ok token =>
      let '(r, m, token) := open_session slot_id flags (ce_now e) (session_manager c) token in
      let c := put_token slot_id token (c <| session_manager := m |>) in
      match r with
      | Ok handle => (CKR_OK, Some handle, c)
      | Err x => (error_to_rv x, None, c)
      end
    end.

Definition C_CloseSession (session : Z) c : Z * HsmCore A B :=
  match find_session session c with
  | Err x => (error_to_rv x, c)
  | Ok (_, s) =>
    match get_token (s_slot_id s) c with
    | Err x => (error_to_rv x, c)
    | Ok token =>
      let '(r, m, token, cache) := close_session session (session_manager c) token (core_cache c) in
      (rv_of r, put_token (s_slot_id s) token (c <| session_manager := m |> <| core_cache := cache |>))
    end
  end.

Definition C_CloseAllSessions (slot_id : Z) c : Z * HsmCore A B :=
  match get_token slot_id c with
  | Err x => (error_to_rv x, c)
  | Ok token =>
    let '(m, token, cache) :=
      close_all_sessions slot_id (session_manager c) token (core_cache c) in
    (CKR_OK, put_token slot_id token (c <| session_manager := m |> <| core_cache := cache |>))
  end.

Definition C_GetSessionInfo (session : Z) (p_info : bool) c : Z * option CK_SESSION_INFO :=
  if negb p_info then (CKR_ARGUMENTS_BAD, None)
  else
    match find_session session c with
    | Err x => (error_to_rv x, None)
    | Ok (_, s) => (CKR_OK, Some (get_info s))
    end.

(** *** Login *)

(** Installing the object key after a user login and loading the persisted
    objects; a failed load is only logged. *)
Definition install_object_key e (token : Token) (pin : bytes) c : HsmCore A B :=
  match unwrap_object_key token pin with
  | Some omk =>
    c <| object_store :=
           (load_from_store (ce_list_io e) (ce_load_io e)
              (set_persist_key omk (object_store c))).2 |>
  | None => c
  end.

Definition C_Login e (session user_type : Z) (p_pin : option bytes) c : Z * HsmCore A B :=
  match find_session session c with
  | Err x => (error_to_rv x, c)
  | Ok (_, s) =>
    let slot_id := s_slot_id s in
    match get_token slot_id c with
    | Err x => (error_to_rv x, c)
    | Ok token =>
      if (user_type =? CKU_SO) && has_ro_sessions slot_id (session_manager c)
      then (CKR_SESSION_READ_ONLY_EXISTS, c)
      else if MAX_PIN_BYTES <? blen (default [] p_pin) then (CKR_PIN_LEN_RANGE, c)
      else
        let pin := default [] p_pin in
        match login user_type pin (ce_token e) (token, core_disk c) with
        | (Ok _, w) =>
          let c := put_world slot_id w c in
          let c := c <| session_manager :=
                          (login_all slot_id user_type (session_manager c)).2 |> in
          let c := if persist_objects c && (user_type =? CKU_USER)
                   then install_object_key e w.1 pin c else c in
          (CKR_OK, audit session (ALogin user_type) Success c)
        | (Err x, w) =>
          let rv := error_to_rv x in
          (rv, audit session (ALogin user_type) (Failure rv) (put_world slot_id w c))
        end
    end
  end.

Definition C_Logout e (session : Z) c : Z * HsmCore A B :=
  match find_session session c with
  | Err x => (error_to_rv x, c)
  | Ok (_, s) =>
    let slot_id := s_slot_id s in
    match get_token slot_id c with
    | Err x => (error_to_rv x, c)
    | Ok token =>
      match logout (ce_token e) (token, core_disk c) with
      | (Ok _, w) =>
        let c := put_world slot_id w c in
        let c := c <| session_manager := cancel_sessions_for_slot slot_id (session_manager c) |>
                   <| object_store := clear_persist_key (object_store c) |> in
        (CKR_OK, audit session ALogout Success c)
      | (Err x, w) => (error_to_rv x, put_world slot_id w c)
      end
    end
  end.

(** *** Objects *)

Definition C_CreateObject e (session : Z) (p_template : option (list RawAttr))
    (ph_object : bool) c : Z * option Z * HsmCore A B :=
  match p_template with
  | None => (CKR_ARGUMENTS_BAD, None, c)
  | Some attrs =>
    if negb ph_object then (CKR_ARGUMENTS_BAD, None, c)
    else
      match find_session session c with
      | Err x => (error_to_rv x, None, c)
      | Ok (_, s) =>
        if negb (session_is_rw s) then (CKR_SESSION_READ_ONLY, None, c)
        else
          match parse_template attrs with
          | Err rv => (rv, None, c)
          | Ok template =>
            if is_key_object template && negb (is_logged_in (s_state s))
            then (CKR_USER_NOT_LOGGED_IN, None, c)
            else
              let '(r, os) := create_object (ce_persist e) (ce_wall e) template (object_store c) in
              let c := c <| object_store := os |> in
              match r with
              | Ok handle => (CKR_OK, Some handle, audit session ACreateObject Success c)
              | Err x => (error_to_rv x, None, c)
              end
          end
      end
  end.

Definition C_DestroyObject e (session object : Z) c : Z * HsmCore A B :=
  match find_session session c with
  | Err x => (error_to_rv x, c)
  | Ok (_, s) =>
    if negb (session_is_rw s) then (CKR_SESSION_READ_ONLY, c)
    else
      match get_object object (object_store c) with
      | Err x => (error_to_rv x, c)
      | Ok o =>
        if negb (o_destroyable o) then (CKR_ATTRIBUTE_READ_ONLY, c)
        else
          match destroy_object (ce_persist e) object (object_store c) with
          | (Err x, os) => (error_to_rv x, c <| object_store := os |>)
          | (Ok _, os) =>
            let c := c <| object_store := os |> in
            let c := match o_key_material o with
                     | Some kb => c <| core_cipher := remove_gcm_counter kb (core_cipher c) |>
                     | None => c
                     end in
            (CKR_OK, audit session ADestroyObject Success c)
          end
      end
  end.

Definition C_GetObjectSize e (session object : Z) (pul_size : bool) c : Z * option Z :=
  if negb pul_size then (CKR_ARGUMENTS_BAD, None)
  else
    match find_session session c with
    | Err x => (error_to_rv x, None)
    | Ok (_, s) =>
      match get_object object (object_store c) with
      | Err x => (error_to_rv x, None)
      | Ok o =>
        if o_private o && negb (is_logged_in (s_state s)) then (CKR_USER_NOT_LOGGED_IN, None)
        else
          match get_object_size (ce_struct_size e) object (object_store c) with
          | Ok size => (CKR_OK, Some size)
          | Err x => (error_to_rv x, None)
          end
      end
    end.

(** The attributes as they are written back; [None] when nothing is. *)
Definition C_GetAttributeValue (session object : Z) (p_template : option (list OutAttr)) c :
    Z * option (list OutAttr) :=
  match p_template with
  | None => (CKR_ARGUMENTS_BAD, None)
  | Some attrs =>
    if MAX_TEMPLATE_ATTRS <? Z.of_nat (length attrs) then (CKR_ARGUMENTS_BAD, None)
    else
      match find_session session c with
      | Err x => (error_to_rv x, None)
      | Ok (_, s) =>
        match get_object object (object_store c) with
        | Err x => (error_to_rv x, None)
        | Ok o =>
          let is_logged_in := is_logged_in (s_state s) in
          if o_private o && negb is_logged_in then (CKR_USER_NOT_LOGGED_IN, None)
          else
            let '(rv, attrs) := get_attributes o is_logged_in CKR_OK attrs in (rv, Some attrs)
        end
      end
  end.

Definition C_SetAttributeValue (session object : Z) (p_template : option (list RawAttr)) c :
    Z * HsmCore A B :=
  match p_template with
  | None => (CKR_ARGUMENTS_BAD, c)
  | Some attrs =>
    match find_session session c with
    | Err x => (error_to_rv x, c)
    | Ok (_, s) =>
      if negb (session_is_rw s) then (CKR_SESSION_READ_ONLY, c)
      else
        match get_object object (object_store c) with
        | Err x => (error_to_rv x, c)
        | Ok o =>
          if o_private o && negb (is_logged_in (s_state s)) then (CKR_USER_NOT_LOGGED_IN, c)
          else if negb (o_modifiable o) then (CKR_ATTRIBUTE_READ_ONLY, c)
          else
            match parse_template attrs with
            | Err rv => (rv, c)
            | Ok template =>
              let '(rv, o) := set_attributes template o in (rv, put_object object o c)
            end
        end
    end
  end.

Definition C_CopyObject e (session h_object : Z) (p_template : option (list RawAttr))
    (ph_new_object : bool) c : Z * option Z * HsmCore A B :=
  if negb ph_new_object then (CKR_ARGUMENTS_BAD, None, c)
  else
    match find_session session c with
    | Err x => (error_to_rv x, None, c)
    | Ok (_, s) =>
      if negb (session_is_rw s) then (CKR_SESSION_READ_ONLY, None, c)
      else
        match get_object h_object (object_store c) with
        | Err _ => (CKR_OBJECT_HANDLE_INVALID, None, c)
        | Ok src =>
          if o_private src && negb (is_logged_in (s_state s))
          then (CKR_USER_NOT_LOGGED_IN, None, c)
          else if negb (o_copyable src) then (CKR_ATTRIBUTE_READ_ONLY, None, c)
          else
            let '(next, os) := next_handle (object_store c) in
            let c := c <| object_store := os |> in
            match next with
            | Err x => (error_to_rv x, None, c)
            | Ok new_handle =>
              let attrs := take (Z.to_nat MAX_TEMPLATE_ATTRS) (default [] p_template) in
              match copy_attributes (src <| o_handle := new_handle |>) attrs with
              | Err rv => (rv, None, c)
              | Ok new_obj =>
                let '(r, os) := insert_object (ce_persist e) new_obj (object_store c) in
                let c := c <| object_store := os |> in
                match r with
                | Ok h => (CKR_OK, Some h, c)
                | Err x => (error_to_rv x, None, c)
                end
              end
            end
        end
    end.

(** *** Searches *)

Definition C_FindObjectsInit (session : Z) (p_template : option (list RawAttr)) c :
    Z * HsmCore A B :=
  match find_session session c with
  | Err x => (error_to_rv x, c)
  | Ok (l, s) =>
    if bool_decide (is_Some (s_find_context s)) then (CKR_OPERATION_ACTIVE, c)
    else
      match (match p_template with None => Ok [] | Some attrs => parse_template attrs end) with
      | Err rv => (rv, c)
      | Ok template =>
        let results := find_objects template (is_logged_in (s_state s)) (object_store c) in
        (CKR_OK, put_session l
           (s <| s_find_context := Some {| fc_results := results; fc_position := 0 |} |>) c)
      end
  end.

(** The handles are what is written to [ph_object]; their number goes to
    [pul_count].  [fc_position] never exceeds the length of the results. *)
Definition C_FindObjects (session : Z) (ph_object pul_count : bool) (max_count : Z) c :
    Z * option (list Z) * HsmCore A B :=
  if negb ph_object || negb pul_count then (CKR_ARGUMENTS_BAD, None, c)
  else
    match find_session session c with
    | Err x => (error_to_rv x, None, c)
    | Ok (l, s) =>
      match s_find_context s with
      | None => (CKR_OPERATION_NOT_INITIALIZED, None, c)
      | Some ctx =>
        let max_count := Z.to_nat (Z.min max_count MAX_FIND_OBJECTS_PER_CALL) in
        let out := take max_count (drop (fc_position ctx) (fc_results ctx)) in
        let ctx := {| fc_results := fc_results ctx;
                      fc_position := (fc_position ctx + length out)%nat |} in
        (CKR_OK, Some out, put_session l (s <| s_find_context := Some ctx |>) c)
      end
    end.

Definition C_FindObjectsFinal (session : Z) c : Z * HsmCore A B :=
  match find_session session c with
  | Err x => (error_to_rv x, c)
  | Ok (l, s) =>
    match s_find_context s with
    | None => (CKR_OPERATION_NOT_INITIALIZED, c)
    | Some _ => (CKR_OK, put_session l (s <| s_find_context := None |>) c)
    end
  end.

(** ** Runs *)

Inductive AbiCall :=
| CallInitToken (slot_id : Z) (p_pin p_label : option bytes)
| CallInitPIN (session : Z) (p_pin : option bytes)
| CallSetPIN (session : Z) (p_old_pin p_new_pin : option bytes)
| CallOpenSession (slot_id flags : Z) (ph_session : bool)
| CallCloseSession (session : Z)
| CallCloseAllSessions (slot_id : Z)
| CallLogin (session user_type : Z) (p_pin : option bytes)
| CallLogout (session : Z)
| CallCreateObject (session : Z) (p_template : option (list RawAttr)) (ph_object : bool)
| CallDestroyObject (session object : Z)
| CallSetAttributeValue (session object : Z) (p_template : option (list RawAttr))
| CallCopyObject (session h_object : Z) (p_template : option (list RawAttr)) (ph : bool)
| CallFindObjectsInit (session : Z) (p_template : option (list RawAttr))
| CallFindObjects (session : Z) (ph_object pul_count : bool) (max_count : Z)
| CallFindObjectsFinal (session : Z).

(** The return value and the state after a call that may change it. *)
Definition abi_call e (k : AbiCall) c : Z * HsmCore A B :=
  match k with
  | CallInitToken slot_id p_pin p_label => C_InitToken e slot_id p_pin p_label c
  | CallInitPIN session p_pin => C_InitPIN e session p_pin c
  | CallSetPIN session p_old p_new => C_SetPIN e session p_old p_new c
  | CallOpenSession slot_id flags ph => let '(rv, _, c) := C_OpenSession e slot_id flags ph c in (rv, c)
  | CallCloseSession session => C_CloseSession session c
  | CallCloseAllSessions slot_id => C_CloseAllSessions slot_id c
  | CallLogin session user_type p_pin => C_Login e session user_type p_pin c
  | CallLogout session => C_Logout e session c
  | CallCreateObject session p_template ph =>
    let '(rv, _, c) := C_CreateObject e session p_template ph c in (rv, c)
  | CallDestroyObject session object => C_DestroyObject e session object c
  | CallSetAttributeValue session object p_template =>
    C_SetAttributeValue session object p_template c
  | CallCopyObject session h_object p_template ph =>
    let '(rv, _, c) := C_CopyObject e session h_object p_template ph c in (rv, c)
  | CallFindObjectsInit session p_template => C_FindObjectsInit session p_template c
  | CallFindObjects session ph pul max_count =>
    let '(rv, _, c) := C_FindObjects session ph pul max_count c in (rv, c)
  | CallFindObjectsFinal session => C_FindObjectsFinal session c
  end.

(** ** The library *)

(** [HSM], [POST_FAILED] and [INIT_PID].  The counters of the ciphers are
    process-wide: [lib_cipher] holds them while there is no core. *)
Record Library := {
  lib_hsm : option (HsmCore A B);
  lib_post_failed : bool;
  lib_init_pid : Z;
  lib_cipher : CipherState;
}.

(** [get_hsm] in process [pid].  The thread-local copy is used only at the
    current generation, where it is the core of [HSM]. *)
Definition get_hsm (pid : Z) (l : Library) : Result Z (HsmCore A B) :=
  if lib_post_failed l then Err CKR_GENERAL_ERROR
  else if negb (lib_init_pid l =? 0) && negb (lib_init_pid l =? pid)
  then Err CKR_CRYPTOKI_NOT_INITIALIZED
  else ok_or (lib_hsm l) CKR_CRYPTOKI_NOT_INITIALIZED.

(** [C_Initialize] in process [pid]: [post] runs the self-tests, which use the
    ciphers, and [core] is the outcome of loading the configuration and of
    [HsmCore::new] ([None] for an error or a panic), whose own cipher counters play
    no part. *)
Definition C_Initialize (pid : Z) (post : CipherState → bool * CipherState)
    (core : option (HsmCore A B)) (l : Library) : Z * Library :=
  match lib_hsm l with
  | Some _ => (CKR_CRYPTOKI_ALREADY_INITIALIZED, l)
  | None =>
    let '(passed, cipher) := post (reset_gcm_counters (lib_cipher l)) in
    if negb passed
    then (CKR_GENERAL_ERROR,
          {| lib_hsm := None; lib_post_failed := true; lib_init_pid := lib_init_pid l;
             lib_cipher := cipher |})
    else
      match core with
      | None => (CKR_GENERAL_ERROR,
                 {| lib_hsm := None; lib_post_failed := false; lib_init_pid := lib_init_pid l;
                    lib_cipher := cipher |})
      | Some c =>
        (CKR_OK,
         {| lib_hsm := Some (audit 0 AInitialize Success (c <| core_cipher := cipher |>));
            lib_post_failed := false; lib_init_pid := pid; lib_cipher := cipher |})
      end
  end.

Definition C_Finalize (p_reserved : bool) (l : Library) : Z * Library :=
  if p_reserved then (CKR_ARGUMENTS_BAD, l)
  else
    match lib_hsm l with
    | None => (CKR_CRYPTOKI_NOT_INITIALIZED, l)
    | Some c =>
      (CKR_OK, {| lib_hsm := None; lib_post_failed := lib_post_failed l; lib_init_pid := 0;
                  lib_cipher := core_cipher c |})
    end.

(** An exported function: [get_hsm] first, then the call. *)
Definition exported (pid : Z) e (k : AbiCall) (l : Library) : Z * Library :=
  match get_hsm pid l with
  | Err rv => (rv, l)
  | Ok c =>
    let '(rv, c) := abi_call e k c in
    (rv, {| lib_hsm := Some c; lib_post_failed := lib_post_failed l;
            lib_init_pid := lib_init_pid l; lib_cipher := lib_cipher l |})
  end.

End Abi.
Arguments Library : clear implicits.
