(* ===== verification/AbiProofs.v ===== *)
(** * Correctness of the PKCS#11 interface

    The invariant that ties sessions to tokens across every call, what a
    public session can reach, what a copy may change, and how [C_InitToken] and
    [C_Initialize] treat failures. *)

From S2P Require Import Prelude Pkcs11 Handles Hash PinCrypto TokenFiles Token TokenDemo TokenProofs Session SessionManager SessionProofs Dates Objects ObjectProofs ObjectStore ObjectStoreProofs ObjectPersist AuditChain Encrypt Abi.

(** ** The token operations and the session counters *)

Definition same_counts (t t' : Token) : Prop :=
  t_session_count t' = t_session_count t ∧ t_rw_session_count t' = t_rw_session_count t ∧
  t_max_sessions t' = t_max_sessions t ∧ t_max_rw_sessions t' = t_max_rw_sessions t.

Definition counting_op (op : TokenOp) : bool :=
  match op with OpInitPin _ | OpSetPin _ _ | OpLogin _ _ | OpLogout => false | _ => true end.

Section TokenFrame.
Context {P : PinPrimitives} {X : HexCodec}.

Lemma rewrap_counts e o n t t' : rewrap_object_key e o n t = Ok t' → same_counts t t'.
Proof. unfold rewrap_object_key, same_counts. intros. by split_tests. Qed.
Lemma provision_counts e p t t' : provision_object_key e p t = Ok t' → same_counts t t'.
Proof. unfold provision_object_key, same_counts. intros. by split_tests. Qed.

Lemma run_op_counts op e w :
  counting_op op = false → same_counts w.1 (run_op op e w).2.1.
Proof.
  destruct w as [t d]. intros Hop.
  destruct op; try discriminate; cbn [run_op fst];
    unfold init_pin, set_pin, login, login_user, login_so, logout, user_pin_failure,
      so_pin_failure, user_pin_success, so_pin_success; cbn [fst snd];
    repeat case_match; simplify_eq/=; try done;
    repeat match goal with
    | K : rewrap_object_key _ _ _ _ = Ok _ |- _ => apply rewrap_counts in K
    | K : provision_object_key _ _ _ = Ok _ |- _ => apply provision_counts in K
    end; unfold same_counts in *; simpl in *; naive_solver.
Qed.

(** [init_token] keeps the counters or resets them. *)
Lemma init_token_counts so_pin label e t d r t' d' :
  init_token so_pin label e (t, d) = (r, (t', d')) →
  same_counts t t' ∨
  t_session_count t' = 0 ∧ t_rw_session_count t' = 0 ∧
  t_max_sessions t' = t_max_sessions t ∧ t_max_rw_sessions t' = t_max_rw_sessions t.
Proof.
  unfold init_token, init_token_reset, same_counts. intros. split_tests; tauto.
Qed.
End TokenFrame.

(** ** The invariant *)

Section AbiProofs.
Context {P : PinPrimitives} {X : HexCodec} {H : HashPrimitives}.
Context {C : ObjectCodec} {SO : StoreOrder} {D : DashOrder} {AC : AuditCodec}.
Context {A B : Type} {HS : HandleSource A} {OH : ObjectHandles B}.
Context {HL : HandleSourceLaws A} {DL : DashOrderLaws D}.
Implicit Types (c : HsmCore A B) (e : CallEnv) (m : SessionManager A).

(** The sessions and the tokens of a core. *)
Definition world_of c : SessWorld :=
  {| sw_mgr := session_manager c; sw_tokens := slot_manager c |}.

(** The counters are exact, and every session of a slot is in the state its
    token's login calls for. *)
Record core_ok c : Prop := {
  co_world : world_ok (world_of c);
  co_login slot t : slot_manager c !! slot = Some t →
    slot_agrees slot (login_state t) (session_manager c);
}.

Lemma core_ok_frame c c' :
  slot_manager c' = slot_manager c → session_manager c' = session_manager c →
  core_ok c → core_ok c'.
Proof.
  intros Et Em [Hw Hl]. split; [unfold world_of; by rewrite Et, Em|]. rewrite Et, Em. done.
Qed.

(** A call that gives one slot a token with the same counters, and changes
    sessions of that slot only. *)
Lemma core_ok_slot c c' slot t t' :
  core_ok c → slot_manager c !! slot = Some t →
  slot_manager c' = <[slot := t']> (slot_manager c) → same_counts t t' →
  keeps_counts (session_manager c) (session_manager c') →
  slot_agrees slot (login_state t') (session_manager c') →
  (∀ slot' login, slot' ≠ slot → slot_agrees slot' login (session_manager c) →
     slot_agrees slot' login (session_manager c')) →
  core_ok c'.
Proof.
  intros [Hw Hl] Ht Et (E1 & E2 & E3 & E4) Hk Hag Hoth. split.
  - pose proof (world_ok_keeps _ _ _ Hk Hw) as [Hwf Hts]. unfold world_of. rewrite Et.
    destruct (Hts slot t Ht) as [[H1 H2] [H3 H4]]. simpl in *.
    apply world_ok_token; [done| | |by intros; apply Hts].
    + split; congruence.
    + split; congruence.
  - intros slot' t1. rewrite Et. intros [[<- <-]|[Hne Ht1]]%lookup_insert_Some; [done|]. auto.
Qed.

(** The same when no session changes. *)
Lemma core_ok_token c c' slot t t' :
  core_ok c → slot_manager c !! slot = Some t →
  slot_manager c' = <[slot := t']> (slot_manager c) → same_counts t t' →
  session_manager c' = session_manager c → login_state t' = login_state t → core_ok c'.
Proof.
  intros Hok Ht Et Hs Em El. eapply core_ok_slot; try done; rewrite ?Em, ?El; try done.
  by apply (co_login _ Hok).
Qed.

(** A change of one session that concerns neither its state nor its frame. *)
Lemma core_ok_session c l s s' h :
  core_ok c → lookup_session (session_manager c) h = Some (l, s) →
  same_frame s s' → s_state s' = s_state s → core_ok (put_session l s' c).
Proof.
  intros [Hw Hl] Hs Hf Hst. destruct Hw as [Hwf Hts]. split.
  - apply (world_ok_keeps (session_manager c)); [by eapply write_keeps_counts|done].
  - intros slot t Ht h' s1. simpl. rewrite (live_write _ h l s) by done.
    intros [[<- <-]|[_ Hs1]]%lookup_insert_Some Hsl; [|by eapply Hl].
    destruct Hf as (_ & Fs & _ & Fr). unfold agrees. rewrite Hst, Fr.
    apply (Hl slot t Ht h s); [by eapply lookup_session_live|congruence].
Qed.

Lemma find_session_Ok session c l s :
  find_session session c = Ok (l, s) → lookup_session (session_manager c) session = Some (l, s).
Proof. unfold find_session. destruct (lookup_session _ _); simpl; congruence. Qed.

Lemma get_token_Ok slot c t : get_token slot c = Ok t → slot_manager c !! slot = Some t.
Proof. unfold get_token. destruct (slot_manager c !! slot); simpl; congruence. Qed.

Lemma decrement_login rw t : login_state (decrement_session_count rw t).2 = login_state t.
Proof. unfold decrement_session_count. by repeat case_match. Qed.

Lemma close_all_login slot m t cache :
  login_state (close_all_sessions slot m t cache).1.2 = login_state t.
Proof.
  unfold close_all_sessions. destruct (foldl _ _ _) as [[any m'] t'] eqn:Hf. simpl.
  change t' with ((any, m', t').2). rewrite <- Hf. symmetry.
  apply (foldl_preorder eq (λ a : bool * SessionManager A * Token, login_state a.2)
           _ _ (false, m, t)).
  intros [[any0 m0] t0] h. simpl. destruct (lookup_session m0 h) as [[l s]|]; [|done].
  case_match; [|done]. simpl. by rewrite decrement_login.
Qed.

(** A session opens in the state of its token. *)
Lemma open_session_login slot flags now m t r m' t' :
  open_session slot flags now m t = (r, m', t') → login_state t' = login_state t.
Proof.
  unfold open_session. intros E. split_tests_in E;
    repeat match goal with
    | K : increment_session_count _ _ = _ |- _ => apply increment_counts in K as (_ & _ & K & _)
    end; rewrite ?decrement_login; congruence.
Qed.

Lemma open_session_agrees slot flags now m t h m' t' s :
  open_session slot flags now m t = (Ok h, m', t') → sm_heap m' !! sm_next_loc m = Some s →
  agrees (login_state t) s.
Proof.
  unfold open_session. destruct (_ =? 0); [done|].
  set (rw := negb (Z.land flags CKF_RW_SESSION =? 0)).
  destruct (negb rw && bool_decide (login_state t = SoLoggedIn)) eqn:Hso; [done|].
  destruct (increment_session_count rw t) as [[[]|x] t1] eqn:Hinc; [|done].
  apply increment_counts in Hinc as (_ & _ & Hls & _). rewrite Hls.
  destruct (alloc_next (sm_alloc m)) as [[hd|] al]; [|done].
  unfold Session_new. fold rw.
  destruct (login_state t), rw; simpl in *; try done; intros [= <- <- <-]; simpl;
    rewrite lookup_insert_eq; intros [= <-]; done.
Qed.

(** ** The calls preserve it *)

Lemma open_session_ok e slot flags ph c :
  core_ok c → alloc_room (sm_alloc (session_manager c)) →
  core_ok (C_OpenSession e slot flags ph c).2.
Proof using HL DL.
  intros Hok Hroom. unfold C_OpenSession. destruct ph; [|done]. simpl.
  destruct (get_token slot c) as [t|] eqn:Ht; [|done]. apply get_token_Ok in Ht.
  destruct (open_session slot flags (ce_now e) (session_manager c) t) as [[r m'] t'] eqn:Eo.
  pose proof (step_open_ok slot flags (ce_now e) (world_of c) (co_world _ Hok) Hroom) as Hw.
  simpl in Hw. rewrite Ht, Eo in Hw.
  assert (core_ok (put_token slot t' (c <| session_manager := m' |>))) as K;
    [|by destruct r].
  split; [done|]. intros slot' t1. simpl.
  assert (∀ h s, live m' !! h = Some s → live (session_manager c) !! h = Some s ∨
            s_slot_id s = slot ∧ agrees (login_state t) s) as Hlive.
  { destruct (open_session_cases slot flags (ce_now e) (session_manager c) t Hroom)
      as [(x & m1 & t2 & E & Hl & _)|(h & al & s & t2 & E & Hn & _ & Hh & Hs & Hc & _)];
      rewrite Eo in E; simplify_eq; [rewrite Hl; auto|].
    destruct Hok as [[Hwf _] _].
    destruct (open_wf (session_manager c) _ al s Hwf Hroom Hn eq_refl Hc) as (_ & Hl & _).
    intros h0 s0. rewrite Hl. intros [[<- <-]|[_ ?]]%lookup_insert_Some; [right|by left].
    split; [done|]. eapply open_session_agrees; [exact Eo|]. simpl. by rewrite lookup_insert_eq. }
  intros [[<- <-]|[Hne Ht1]]%lookup_insert_Some h s Hs Hsl;
    destruct (Hlive _ _ Hs) as [Hs'|[Hs' Ha]].
  - rewrite (open_session_login _ _ _ _ _ _ _ _ Eo). by eapply (co_login _ Hok).
  - by rewrite (open_session_login _ _ _ _ _ _ _ _ Eo).
  - by eapply (co_login _ Hok).
  - congruence.
Qed.

Lemma agrees_subset slot login m m' :
  (∀ h s, live m' !! h = Some s → live m !! h = Some s) →
  slot_agrees slot login m → slot_agrees slot login m'.
Proof. intros Hsub Ha h s Hs Hsl. exact (Ha h s (Hsub _ _ Hs) Hsl). Qed.

Lemma close_session_ok session c : core_ok c → core_ok (C_CloseSession session c).2.
Proof using HL DL.
  intros Hok. unfold C_CloseSession.
  destruct (find_session session c) as [[l s]|] eqn:Hs; [|done]. apply find_session_Ok in Hs.
  destruct (get_token _ c) as [t|] eqn:Ht; [|done]. apply get_token_Ok in Ht.
  pose proof (step_close_ok session (world_of c) (co_world _ Hok)) as Hw. simpl in Hw.
  rewrite Hs, Ht in Hw. revert Hw. unfold close_session. rewrite Hs.
  pose proof (decrement_login (session_is_rw s) t) as El.
  destruct (decrement_session_count _ t) as [r t']. simpl in El. intros Hw. simpl.
  split; [done|]. intros slot' t1. simpl.
  set (m' := write_session _ _ _).
  assert (∀ h s0, live m' !! h = Some s0 → live (session_manager c) !! h = Some s0) as Hsub.
  { intros h s0 Hh. destruct Hok as [[Hwf _] _].
    change (live (remove_session session (write_session l (close_mark s) (session_manager c)))
              !! h = Some s0) in Hh.
    rewrite live_remove, (live_write _ session l s) in Hh by done.
    rewrite delete_insert_eq in Hh. by apply lookup_delete_Some in Hh as [_ ?]. }
  intros [[<- <-]|[Hne Ht1]]%lookup_insert_Some; rewrite ?El;
    (eapply agrees_subset; [exact Hsub|]); by apply (co_login _ Hok).
Qed.

(** Closing every session of a slot: the shared part of [C_CloseAllSessions]
    and [C_InitToken]. *)
Lemma close_all_ok slot t m' t' cache cache' c :
  core_ok c → slot_manager c !! slot = Some t →
  close_all_sessions slot (session_manager c) t cache = (m', t', cache') →
  core_ok (put_token slot t' (c <| session_manager := m' |>)) ∧
  (∀ h s, live m' !! h = Some s → s_slot_id s ≠ slot) ∧
  t_session_count t' = 0 ∧ t_rw_session_count t' = 0.
Proof using HL DL.
  intros Hok Ht Ec. pose proof Hok as [[Hwf Hts] Hl]. destruct (Hts _ _ Ht) as [He Hb].
  destruct (close_all_spec _ _ _ _ _ _ _ Hwf He Hb Ec) as (Hwf' & He' & Hb' & Hlive & Ho).
  assert (∀ h s, live m' !! h = Some s → live (session_manager c) !! h = Some s ∧
            s_slot_id s ≠ slot) as Hsub.
  { intros h s. rewrite Hlive, map_lookup_filter_Some. intros [Hs Hf]. split; [done|].
    intros E. simpl in Hf. by rewrite of_slot_same in Hf. }
  assert (slot_count slot m' = 0%nat ∧ slot_rw_count slot m' = 0%nat) as [Z1 Z2].
  { unfold slot_count, slot_rw_count. split; apply map_count_none; intros h s [_ Hs]%Hsub;
      [by apply of_slot_other|by apply rw_of_slot_other]. }
  split_and!; [|by intros h s [_ ?]%Hsub|rewrite (proj1 He'); lia|rewrite (proj2 He'); lia].
  split.
  - apply world_ok_token; [done..|]. intros slot' t1 Hne Ht1. destruct (Hts _ _ Ht1). auto.
  - intros slot' t1. simpl.
    intros [[<- <-]|[Hne Ht1]]%lookup_insert_Some h s [Hs Hn]%Hsub Hsl; [done|].
    by eapply Hl.
Qed.

Lemma close_all_sessions_ok slot c : core_ok c → core_ok (C_CloseAllSessions slot c).2.
Proof using HL DL.
  intros Hok. unfold C_CloseAllSessions.
  destruct (get_token slot c) as [t|] eqn:Ht; [|done]. apply get_token_Ok in Ht.
  destruct (close_all_sessions _ _ _ _) as [[m' t'] cache'] eqn:Ec.
  destruct (close_all_ok _ _ _ _ _ _ _ Hok Ht Ec) as [Hok' _].
  by apply (core_ok_frame (put_token slot t' (c <| session_manager := m' |>))).
Qed.

Lemma init_token_ok e slot p_pin p_label c :
  core_ok c → core_ok (C_InitToken e slot p_pin p_label c).2.
Proof using HL DL.
  intros Hok. unfold C_InitToken. destruct p_pin as [pin|], p_label as [label|]; try done.
  destruct (get_token slot c) as [t|] eqn:Ht; [|done]. apply get_token_Ok in Ht.
  destruct (_ <? _); [done|].
  destruct (close_all_sessions _ _ _ _) as [[m' t'] cache'] eqn:Ec.
  destruct (close_all_ok _ _ _ _ _ _ _ Hok Ht Ec) as (Hok' & Hno & Z1 & Z2).
  destruct (init_token _ _ _ _) as [r [t2 d2]] eqn:Ei. simpl.
  apply (core_ok_slot (put_token slot t' (c <| session_manager := m' |>)) _ slot t' t2).
  - done.
  - simpl. by rewrite lookup_insert_eq.
  - simpl. by rewrite insert_insert_eq.
  - destruct (init_token_counts _ _ _ _ _ _ _ _ Ei) as [|(?&?&?&?)]; [done|].
    split_and!; congruence.
  - simpl. by intros Hwf.
  - simpl. intros h s Hs Hsl. by destruct (Hno h s Hs).
  - done.
Qed.

Lemma init_pin_ok e session p_pin c : core_ok c → core_ok (C_InitPIN e session p_pin c).2.
Proof.
  intros Hok. unfold C_InitPIN. destruct p_pin as [pin|]; [|done].
  destruct (find_session session c) as [[l s]|] eqn:Hs; [|done].
  destruct (get_token _ c) as [t|] eqn:Ht; [|done]. apply get_token_Ok in Ht.
  destruct (negb _); [done|]. destruct (_ <? _); [done|].
  pose proof (run_op_counts (OpInitPin pin) (ce_token e) (t, core_disk c) eq_refl) as Hc.
  pose proof (run_op_login_spec (OpInitPin pin) (ce_token e) (t, core_disk c)) as Hl.
  cbn [run_op] in Hc, Hl. destruct (init_pin _ _ _) as [r [t' d']]. simpl in *.
  eapply core_ok_token; try done. simpl. unfold login_state. by inversion Hl.
Qed.

Lemma set_pin_ok e session p_old p_new c :
  core_ok c → core_ok (C_SetPIN e session p_old p_new c).2.
Proof.
  intros Hok. unfold C_SetPIN. destruct p_old as [old_pin|], p_new as [new_pin|]; try done.
  destruct (find_session session c) as [[l s]|] eqn:Hs; [|done].
  destruct (get_token _ c) as [t|] eqn:Ht; [|done]. apply get_token_Ok in Ht.
  destruct (_ || _); [done|].
  pose proof (run_op_counts (OpSetPin old_pin new_pin) (ce_token e) (t, core_disk c) eq_refl) as Hc.
  pose proof (run_op_login_spec (OpSetPin old_pin new_pin) (ce_token e) (t, core_disk c)) as Hl.
  cbn [run_op] in Hc, Hl. destruct (set_pin _ _ _ _) as [r [t' d']]. simpl in *.
  eapply core_ok_token; try done. simpl. unfold login_state. by inversion Hl.
Qed.

Lemma install_object_key_frame e t pin c :
  slot_manager (install_object_key e t pin c) = slot_manager c ∧
  session_manager (install_object_key e t pin c) = session_manager c.
Proof. unfold install_object_key. by destruct (unwrap_object_key t pin). Qed.

(** A successful [login]: the token was public, and is now logged in as the
    role asked for. *)
Lemma login_roles ty pin (te : Env) t d t' d' :
  login ty pin te (t, d) = (Ok tt, (t', d')) →
  login_state t = Public ∧ (ty = CKU_USER ∨ ty = CKU_SO) ∧ login_state t' = login_of ty.
Proof.
  intros El%login_spec_login. unfold login_state. inversion El; subst; auto.
Qed.

Lemma login_ok e session ty p_pin c : core_ok c → core_ok (C_Login e session ty p_pin c).2.
Proof using P X HL DL.
  intros Hok. unfold C_Login.
  destruct (find_session session c) as [[l s]|] eqn:Hs; [|done].
  destruct (get_token _ c) as [t|] eqn:Ht; [|done]. apply get_token_Ok in Ht.
  destruct (_ && _) eqn:Hro; [done|]. destruct (_ <? _); [done|].
  set (pin := default [] p_pin).
  pose proof (run_op_counts (OpLogin ty pin) (ce_token e) (t, core_disk c) eq_refl) as Hc.
  cbn [run_op] in Hc. destruct (login ty pin _ _) as [[[]|x] [t' d']] eqn:El; simpl in *.
  - destruct (login_roles _ _ _ _ _ _ _ El) as (Hp & Hty & Hl').
    pose proof (co_login _ Hok _ _ Ht) as Hag. rewrite Hp in Hag.
    destruct (login_all_agrees (s_slot_id s) ty (session_manager c)
                (proj1 (co_world _ Hok)) Hty Hag) as (m' & Em & Hwf' & Hag' & Hoth & _).
    { intros ->. by destruct (has_ro_sessions _ _). }
    pose proof (login_all_keeps (s_slot_id s) ty (session_manager c)) as Hk.
    eapply (core_ok_slot c _ (s_slot_id s) t t' Hok Ht).
    all: repeat case_match; simpl;
      rewrite ?(proj1 (install_object_key_frame _ _ _ _)), ?(proj2 (install_object_key_frame _ _ _ _));
      simpl; rewrite ?Em, ?Hl' in *; done.
  - destruct x; eapply (core_ok_token c _ (s_slot_id s) t t'); try done; simpl;
      apply login_spec_login in El; unfold login_state; by inversion El.
Qed.

Lemma logout_ok e session c : core_ok c → core_ok (C_Logout e session c).2.
Proof using P X HL DL.
  intros Hok. unfold C_Logout.
  destruct (find_session session c) as [[l s]|] eqn:Hs; [|done].
  destruct (get_token _ c) as [t|] eqn:Ht; [|done]. apply get_token_Ok in Ht.
  pose proof (run_op_counts OpLogout (ce_token e) (t, core_disk c) eq_refl) as Hc.
  pose proof (run_op_login_spec OpLogout (ce_token e) (t, core_disk c)) as Hl.
  cbn [run_op] in Hc, Hl. destruct (logout _ _) as [[[]|x] [t' d']]; simpl in *.
  - destruct (cancel_agrees (s_slot_id s) (login_state t) (session_manager c)
      (proj1 (co_world _ Hok)) (co_login _ Hok _ _ Ht)) as (Hwf' & Hag' & _ & Hoth).
    apply (core_ok_slot c _ (s_slot_id s) t t'); try done; simpl.
    + apply cancel_keeps.
    + unfold login_state. by inversion Hl.
  - apply (core_ok_token c _ (s_slot_id s) t t'); try done.
    unfold login_state. by inversion Hl.
Qed.

(** Calls on objects leave sessions and tokens alone. *)
Lemma object_calls_frame e k c :
  match k with
  | CallCreateObject _ _ _ | CallDestroyObject _ _ | CallSetAttributeValue _ _ _
  | CallCopyObject _ _ _ _ => True
  | _ => False
  end →
  slot_manager (abi_call e k c).2 = slot_manager c ∧
  session_manager (abi_call e k c).2 = session_manager c.
Proof.
  destruct k; try done; intros _; cbn [abi_call];
    unfold C_CreateObject, C_DestroyObject, C_SetAttributeValue, C_CopyObject;
    repeat case_match; simplify_eq/=; done.
Qed.

Lemma find_calls_ok e k c :
  match k with
  | CallFindObjectsInit _ _ | CallFindObjects _ _ _ _ | CallFindObjectsFinal _ => True
  | _ => False
  end →
  core_ok c → core_ok (abi_call e k c).2.
Proof.
  destruct k; try done; intros _ Hok; cbn [abi_call];
    unfold C_FindObjectsInit, C_FindObjects, C_FindObjectsFinal;
    repeat case_match; simplify_eq/=; try done;
    match goal with
    | K : find_session _ c = Ok _ |- _ =>
      apply find_session_Ok in K; by eapply core_ok_session
    end.
Qed.

(** One call, the handle counter not being exhausted when a session opens. *)
Definition abi_step c c' : Prop :=
  ∃ e k, (∀ slot flags ph, k = CallOpenSession slot flags ph →
            alloc_room (sm_alloc (session_manager c))) ∧ c' = (abi_call e k c).2.

Lemma abi_step_ok c c' : abi_step c c' → core_ok c → core_ok c'.
Proof using HL DL.
  intros (e & k & Hroom & ->) Hok.
  destruct k;
    try (match goal with |- core_ok (abi_call ?e ?k ?c).2 =>
           by destruct (object_calls_frame e k c I); apply (core_ok_frame c) end);
    try (by apply find_calls_ok); cbn [abi_call].
  - by apply init_token_ok.
  - by apply init_pin_ok.
  - by apply set_pin_ok.
  - specialize (Hroom _ _ _ eq_refl).
    pose proof (open_session_ok e slot_id flags ph_session c Hok Hroom).
    by destruct (C_OpenSession _ _ _ _ _) as [[? ?] ?].
  - by apply close_session_ok.
  - by apply close_all_sessions_ok.
  - by apply login_ok.
  - by apply logout_ok.
Qed.

Lemma abi_steps_ok c c' : rtc abi_step c c' → core_ok c → core_ok c'.
Proof using HL DL. induction 1; eauto using abi_step_ok. Qed.

(** ** A new core *)

Lemma SlotManager_new_lookup debug config d slot t :
  SlotManager_new_with_config debug config d !! slot = Some t →
  t = new_with_config_for_slot debug (Some (cc_token config)) slot d.
Proof.
  unfold SlotManager_new_with_config. generalize (seqZ 0 (Z.min (Z.max (cc_slot_count config) 1) CK_ULONG_MAX)).
  intros slots. assert (∀ ts : gmap Z Token,
    (∀ t, ts !! slot = Some t → t = new_with_config_for_slot debug (Some (cc_token config)) slot d) →
    foldl (λ tokens slot_id, <[slot_id := new_with_config_for_slot debug (Some (cc_token config)) slot_id d]>
      tokens) ts slots !! slot = Some t →
    t = new_with_config_for_slot debug (Some (cc_token config)) slot d) as K; [|by apply K].
  induction slots as [|i slots IH]; intros ts Hts; simpl; [apply Hts|].
  apply IH. intros t0 [[-> <-]|[_ ?]]%lookup_insert_Some; auto.
Qed.

Lemma new_token_counts debug config slot d :
  let t := new_with_config_for_slot debug (Some config) slot d in
  t_session_count t = 0 ∧ t_rw_session_count t = 0 ∧
  t_max_sessions t = cfg_max_sessions config ∧ t_max_rw_sessions t = cfg_max_rw_sessions config.
Proof.
  unfold new_with_config_for_slot. destruct (cfg_persist_objects config); [|done]. simpl.
  by destruct (token_state_load _).
Qed.

Lemma try_new_ok debug config drbg als alo store path o read_ok files cipher d c :
  0 <= cfg_max_sessions (cc_token config) → 0 <= cfg_max_rw_sessions (cc_token config) →
  try_new debug config drbg als alo store path o read_ok files cipher d = Ok c → core_ok c.
Proof.
  intros H1 H2 E. unfold try_new in E. destruct drbg; [|done].
  destruct (build_object_store _ _ _); [|done]. case_match; [|done]. simplify_eq.
  split; simpl; [|by intros slot t _ h s Hs; unfold live in Hs; simpl in Hs;
    rewrite omap_empty, lookup_empty in Hs].
  split; [by split; simpl; intros ??; rewrite lookup_empty|]. simpl.
  intros slot t ->%SlotManager_new_lookup.
  destruct (new_token_counts debug (cc_token config) slot d) as (E1 & E2 & E3 & E4).
  unfold counts_exact, counts_bounded, slot_count, slot_rw_count, live. simpl.
  rewrite omap_empty, !map_count_empty, E1, E2, E3, E4. done.
Qed.

(** The states calls lead to from a new core, under any configuration. *)
Definition reachable c : Prop :=
  ∃ debug config drbg als alo store path o read_ok files cipher d c0,
    0 <= cfg_max_sessions (cc_token config) ∧ 0 <= cfg_max_rw_sessions (cc_token config) ∧
    try_new debug config drbg als alo store path o read_ok files cipher d = Ok c0 ∧
    rtc abi_step c0 c.

Lemma reachable_ok c : reachable c → core_ok c.
Proof using HL DL.
  intros (debug & config & drbg & als & alo & store & path & o & read_ok & files & cipher & d
          & c0 & H1 & H2 & Hnew & Hrun).
  exact (abi_steps_ok _ _ Hrun (try_new_ok _ _ _ _ _ _ _ _ _ _ _ _ _ H1 H2 Hnew)).
Qed.

(** C4: sessions follow their token.  From a new core, over every sequence of
    calls that initialise tokens, set PINs, open and close sessions, log in and
    out, and create, change, copy, destroy and find objects, on any number of
    slots and whatever each call observes: every live session of a slot is in
    the state PKCS#11 assigns to its token's login (read-only or read-write
    public, user, or security officer), no read-only session exists while the
    security officer is logged in, and the token's counters are the numbers
    of its live sessions. *)
Theorem sessions_follow_login c slot t
    (Hr : reachable c) (Ht : slot_manager c !! slot = Some t) :
  (∀ h s, live (session_manager c) !! h = Some s → s_slot_id s = slot →
     s_state s = state_for (login_state t) (session_is_rw s) ∧
     (login_state t = SoLoggedIn → session_is_rw s = true)) ∧
  counts_exact slot (session_manager c) t ∧ counts_bounded t.
Proof using HL DL.
  apply reachable_ok in Hr as Hok.
  split; [exact (co_login _ Hok _ _ Ht)|]. exact (proj2 (co_world _ Hok) _ _ Ht).
Qed.

(** ** What a public session can reach *)

Lemma parse_template_err attrs rv : parse_template attrs = Err rv → rv ≠ CKR_OK.
Proof.
  unfold parse_template. destruct (_ <? _); [by intros [= <-]|].
  revert rv. induction attrs as [|[ty v] attrs IH]; intros rv; simpl; [done|].
  destruct (_ <? _); [by intros [= <-]|].
  destruct (parse_attrs attrs); [done|]. intros [= <-]. by apply IH.
Qed.

Lemma unpersist_gone pe h (os : ObjectStore B) :
  os_objects (unpersist_object pe h (os <| os_objects := delete h (os_objects os) |>)) !! h = None.
Proof.
  unfold unpersist_object, get_store_key, generate_store_key. simpl.
  repeat case_match; simplify_eq/=; by rewrite lookup_delete_eq.
Qed.

Lemma find_objects_visible template logged (os : ObjectStore B) h :
  h ∈ find_objects template logged os →
  ∃ o, os_objects os !! h = Some o ∧ (o_private o = true → logged = true).
Proof.
  unfold find_objects, find_objects_for_slot.
  rewrite (foldl_filter (λ k, match os_objects os !! k with
    | None => false
    | Some o => matches_template o template && (negb (o_private o) || logged) && true
    end)); [|by intros acc k; destruct (os_objects os !! k)].
  simpl. intros [_ Hf]%list_elem_of_In%filter_In.
  destruct (os_objects os !! h) as [o|]; [|done]. exists o. split; [done|].
  intros Hp. rewrite Hp in Hf. by destruct logged, (matches_template o template).
Qed.

Lemma public_session c session l s t :
  core_ok c → lookup_session (session_manager c) session = Some (l, s) →
  slot_manager c !! s_slot_id s = Some t → login_state t = Public →
  is_logged_in (s_state s) = false.
Proof.
  intros Hok Hs Ht Hp. pose proof (co_login _ Hok _ _ Ht session s) as Ha.
  rewrite Hp in Ha. destruct Ha as [-> _]; [by eapply lookup_session_live|done|].
  by destruct (session_is_rw s).
Qed.


(** ** Token initialisation *)

Lemma init_token_refused so_pin label te t d x t' d' :
  init_token so_pin label te (t, d) = (Err x, (t', d')) →
  t_so_pin_hash t' = t_so_pin_hash t ∧ t_user_pin_hash t' = t_user_pin_hash t ∧
  login_state t' = login_state t.
Proof. unfold init_token, init_token_reset, login_state. intros. by split_tests. Qed.

Lemma rv_of_ok {T} (r : HsmResult T) : rv_of r = CKR_OK → ∃ v, r = Ok v.
Proof. destruct r as [v|x]; [eauto|]. by destruct x. Qed.

Lemma close_all_pins slot m t cache :
  let t' := (close_all_sessions slot m t cache).1.2 in
  t_so_pin_hash t' = t_so_pin_hash t ∧ t_user_pin_hash t' = t_user_pin_hash t.
Proof.
  unfold close_all_sessions. destruct (foldl _ _ _) as [[any m'] t'] eqn:Hf. simpl.
  cut ((t_so_pin_hash t, t_user_pin_hash t) = (t_so_pin_hash t', t_user_pin_hash t'));
    [intros; by simplify_eq|].
  change t' with ((any, m', t').2). rewrite <- Hf.
  apply (foldl_preorder eq (λ a : bool * SessionManager A * Token,
           (t_so_pin_hash a.2, t_user_pin_hash a.2)) _ _ (false, m, t)).
  intros [[any0 m0] t0] h. simpl. destruct (lookup_session m0 h) as [[l s]|]; [|done].
  case_match; [|done]. simpl. unfold decrement_session_count. by repeat case_match.
Qed.

(** [C_InitToken] destroys before it checks.  On a valid slot, with a PIN
    of at most 256 bytes, the call ends with no object of any slot, in memory or
    (when the database works) on disk, without the object key, with every cipher
    counter reset and with no session of the slot, whatever it returns; when it
    refuses, because the security officer's PIN is wrong, malformed or
    rate-limited, the token's PINs and login are what they were. *)
Theorem init_token_destroys_before_check e slot pin label c rv c' t
    (Hr : reachable c) (Ht : slot_manager c !! slot = Some t) (Hlen : blen pin <= MAX_PIN_BYTES)
    (E : C_InitToken e slot (Some pin) (Some label) c = (rv, c')) :
  os_objects (object_store c') = ∅ ∧ os_persist_key (object_store c') = None ∧
  (∀ db, os_persist_store (object_store c) = Some {| es_db := Some db |} →
     ce_clear_io e = db_io_ok → os_persist_store (object_store c') = Some {| es_db := Some ∅ |}) ∧
  core_cipher c' = CipherState_empty ∧
  (∀ h s, live (session_manager c') !! h = Some s → s_slot_id s ≠ slot) ∧
  (rv ≠ CKR_OK → ∃ t', slot_manager c' !! slot = Some t' ∧
     t_so_pin_hash t' = t_so_pin_hash t ∧ t_user_pin_hash t' = t_user_pin_hash t ∧
     login_state t' = login_state t).
Proof using HL DL.
  apply reachable_ok in Hr as Hok. unfold C_InitToken in E.
  replace (get_token slot c) with (Ok (E := HsmError) t) in E by (unfold get_token; by rewrite Ht).
  rewrite (proj2 (Z.ltb_ge _ _) Hlen) in E.
  pose proof (close_all_login slot (session_manager c) t (core_cache c)) as Hl.
  pose proof (close_all_pins slot (session_manager c) t (core_cache c)) as [Hs1 Hs2].
  destruct (close_all_sessions _ _ _ _) as [[m' t1] cache'] eqn:Ec. simpl in Hl, Hs1, Hs2.
  destruct (close_all_ok _ _ _ _ _ _ _ Hok Ht Ec) as (_ & Hno & _).
  destruct (init_token _ _ _ _) as [r [t2 d2]] eqn:Ei. injection E as <- <-. simpl.
  split_and!; [unfold clear; simpl; by destruct (os_persist_store (object_store c))|done| |done|done|].
  - intros db Hdb Hio. unfold clear. simpl. rewrite Hdb, Hio. done.
  - intros Hrv. exists t2. split; [by rewrite lookup_insert_eq|].
    destruct r as [|x]; [done|]. apply init_token_refused in Ei as (-> & -> & ->). auto.
Qed.

(** ** Copies *)

Definition same_key (o o' : StoredObject) : Prop :=
  o_handle o' = o_handle o ∧ o_class o' = o_class o ∧ o_key_type o' = o_key_type o ∧
  o_key_material o' = o_key_material o ∧ o_lifecycle_state o' = o_lifecycle_state o ∧
  (o_sensitive o = true → o_sensitive o' = true) ∧
  (o_extractable o = false → o_extractable o' = false).

Lemma copy_attribute_same o ty v o' : copy_attribute o ty v = Ok o' → same_key o o'.
Proof.
  unfold copy_attribute, same_key. intros E.
  destruct (attr_of ty); repeat case_match in E; simplify_eq/=;
    split_and!; try done; intros K; rewrite K in *;
    repeat match goal with b : bool |- _ => destruct b end; done.
Qed.

Lemma copy_attributes_same attrs o o' : copy_attributes o attrs = Ok o' → same_key o o'.
Proof.
  revert o. induction attrs as [|[ty v] attrs IH]; intros o; simpl; [by intros [= <-]|].
  destruct (_ <? _); [done|]. destruct (copy_attribute o ty _) as [o1|] eqn:E1; [|done].
  intros E2%IH. apply copy_attribute_same in E1. unfold same_key in *. naive_solver congruence.
Qed.

Lemma persist_object_frame pe o (os : ObjectStore B) :
  os_objects (persist_object pe o os) = os_objects os.
Proof.
  unfold persist_object, get_store_key, generate_store_key. repeat case_match; by simplify_eq/=.
Qed.

(** What a successful copy did. *)
Lemma copy_object_inv e session h attrs ph c new c' :
  C_CopyObject e session h attrs ph c = (CKR_OK, Some new, c') →
  ∃ l s src o os1,
    find_session session c = Ok (l, s) ∧ os_objects (object_store c) !! h = Some src ∧
    session_is_rw s = true ∧ o_copyable src = true ∧
    (o_private src = true → is_logged_in (s_state s) = true) ∧
    next_handle (object_store c) = (Ok new, os1) ∧
    same_key (src <| o_handle := new |>) o ∧
    os_objects (object_store c') = <[new := o]> (os_objects os1) ∧
    slot_manager c' = slot_manager c ∧ session_manager c' = session_manager c.
Proof.
  unfold C_CopyObject. destruct ph; [|done]. cbn [negb].
  destruct (find_session session c) as [[l s]|] eqn:Hf; [|done].
  destruct (session_is_rw s) eqn:Hrw; [|done]. cbn [negb].
  unfold get_object. destruct (os_objects _ !! h) as [src|] eqn:Hg; [|done]. cbn [ok_or].
  destruct (o_private src && _) eqn:Hp; [done|].
  destruct (o_copyable src) eqn:Hc; [|done]. cbn [negb].
  destruct (next_handle (object_store c)) as [[nh|] os1] eqn:En; [|done].
  destruct (copy_attributes _ _) as [o|rv] eqn:Eo; [|done].
  apply copy_attributes_same in Eo as Hsk. unfold insert_object. simpl.
  destruct (_ <=? _); [done|]. intros [= Hnh <-]. simpl in Hnh.
  replace nh with new in * by (rewrite <- Hnh; apply (proj1 Hsk)).
  exists l, s, src, o, os1. split_and!; try done.
  - intros E. rewrite E in Hp. by destruct (is_logged_in _).
  - simpl. by rewrite persist_object_frame, Hnh.
Qed.

(** copying never weakens.  A successful [C_CopyObject] needed a
    read-write session, a login if the source is private, and a copyable
    source.  It adds one object under a non-zero handle no object had; the copy
    has the class, key type, key material and lifecycle state of the source, is
    sensitive if the source is and not extractable if the source is not; and
    every other object, the source included, is as before. *)
Theorem copy_never_weakens {OL : ObjectHandlesLaws B} e session h attrs ph c new c'
    (Hh : handles_ok (object_store c)) (Hroom : oh_room (os_alloc (object_store c)))
    (E : C_CopyObject e session h attrs ph c = (CKR_OK, Some new, c')) :
  ∃ l s src o,
    find_session session c = Ok (l, s) ∧ os_objects (object_store c) !! h = Some src ∧
    session_is_rw s = true ∧ o_copyable src = true ∧
    (o_private src = true → is_logged_in (s_state s) = true) ∧
    os_objects (object_store c) !! new = None ∧ new ≠ 0 ∧
    os_objects (object_store c') = <[new := o]> (os_objects (object_store c)) ∧
    same_key (src <| o_handle := new |>) o.
Proof.
  destruct (copy_object_inv _ _ _ _ _ _ _ _ E)
    as (l & s & src & o & os1 & Hf & Hg & Hrw & Hc & Hp & Hn & Hk & Ho & _).
  destruct (oh_next_fresh _ Hroom) as (h0 & a0 & En & Hfresh & Hnz & _).
  unfold next_handle in Hn. rewrite En in Hn. simplify_eq/=.
  exists l, s, src, o. split_and!; try done.
  destruct (os_objects (object_store c) !! new) as [o1|] eqn:E1; [|done].
  destruct (Hh _ _ E1). done.
Qed.

(** ** Processes *)

(** a forked child cannot initialise the library.  In a process other than
    the one that called [C_Initialize], every call is refused with
    [CKR_CRYPTOKI_NOT_INITIALIZED], and [C_Initialize], which that answer asks
    for, is refused with [CKR_CRYPTOKI_ALREADY_INITIALIZED]: both leave the
    library as it was.  Only after a [C_Finalize] of the inherited state does
    [C_Initialize] succeed. *)
Theorem forked_child_stuck pid (l : Library A B) c
    (Hpost : lib_post_failed l = false) (Hinit : lib_init_pid l ≠ 0)
    (Hfork : lib_init_pid l ≠ pid) (Hcore : lib_hsm l = Some c) :
  (∀ e k, exported pid e k l = (CKR_CRYPTOKI_NOT_INITIALIZED, l)) ∧
  (∀ post core, C_Initialize pid post core l = (CKR_CRYPTOKI_ALREADY_INITIALIZED, l)) ∧
  ∀ core, ∃ l' core', C_Initialize pid (λ ciphers, (true, ciphers)) (Some core) (C_Finalize false l).2 = (CKR_OK, l') ∧
    get_hsm pid l' = Ok core'.
Proof.
  split; [|split].
  - intros e k. unfold exported, get_hsm. rewrite Hpost.
    by rewrite (proj2 (Z.eqb_neq _ _) Hinit), (proj2 (Z.eqb_neq _ _) Hfork).
  - intros post core. unfold C_Initialize. by rewrite Hcore.
  - intros core. unfold C_Finalize. rewrite Hcore. unfold C_Initialize. simpl.
    eexists _, _. split; [done|]. unfold get_hsm. simpl. by rewrite Z.eqb_refl, andb_false_r.
Qed.
End AbiProofs.
