(* ===== verification/AbiDemo.v ===== *)
(** * A concrete run of the interface

    A core with one slot on the toy primitives: the token is initialised, the
    security officer sets the user PIN, the user logs in, creates a private
    secret key and logs out.  The witnesses of the interface's theorems evaluate
    it. *)

From S2P Require Import Prelude Pkcs11 Handles Hash PinCrypto TokenFiles Token TokenDemo TokenProofs Session SessionManager SessionProofs Dates Objects ObjectProofs ObjectStore ObjectStoreProofs ObjectPersist AuditChain AuditProofs Encrypt Abi AbiProofs.

Section AbiDemo.
#[local] Existing Instance toy_primitives.
#[local] Existing Instance toy_hex.
#[local] Existing Instance toy_hash.
#[local] Existing Instance toy_codec.
#[local] Existing Instance toy_store_order.
#[local] Existing Instance toy_order.
#[local] Existing Instance toy_audit_codec.

Definition DemoCore : Type := HsmCore SessionHandleAllocator ObjectHandleAllocator.

Definition demo_call_env : CallEnv :=
  {| ce_now := 1; ce_wall := 1700000000; ce_token := demo_env 0; ce_clear_io := db_io_ok;
     ce_list_io := db_io_ok; ce_load_io := λ _, db_io_ok; ce_persist := demo_persist_env;
     ce_struct_size := 400 |}.
Definition demo_core_config : CoreConfig :=
  {| cc_token := demo_settings; cc_slot_count := 1; cc_audit_enabled := false |}.
Definition demo_core : DemoCore :=
  {| slot_manager := SlotManager_new_with_config false demo_core_config disk_empty;
     session_manager := SessionManager_new demo_alloc;
     object_store := with_persistence demo_object_alloc {| es_db := Some ∅ |};
     audit_log := AuditLog_new; persist_objects := true; core_cipher := CipherState_empty;
     core_disk := disk_empty; core_cache := None |}.

Lemma demo_core_reachable : reachable demo_core.
Proof.
  exists false, demo_core_config, (Ok tt), demo_alloc, demo_object_alloc,
    (Ok {| es_db := Some ∅ |}), (Ok tt), Opened, (λ _, true),
    {| af_current := None; af_rotated := ∅ |}, CipherState_empty, disk_empty, demo_core.
  split_and!; [done|done|reflexivity|apply rtc_refl].
Qed.

Definition run_calls (ks : list AbiCall) (c : DemoCore) : DemoCore :=
  foldl (λ c k, (abi_call demo_call_env k c).2) c ks.
Definition opens_session (k : AbiCall) : bool :=
  match k with CallOpenSession _ _ _ => true | _ => false end.

Lemma reachable_step (k : AbiCall) (c : DemoCore) :
  (opens_session k = true → alloc_room (sm_alloc (session_manager c))) →
  reachable c → reachable (abi_call demo_call_env k c).2.
Proof.
  intros Hroom (debug & config & drbg & als & alo & store & path & o & read_ok & files & cipher & d
          & c0 & H1 & H2 & Hnew & Hrun).
  exists debug, config, drbg, als, alo, store, path, o, read_ok, files, cipher, d, c0.
  split_and!; try done. eapply rtc_r; [exact Hrun|]. exists demo_call_env, k. split; [|done].
  intros slot flags ph ->. by apply Hroom.
Qed.

Lemma reachable_calls ks (c : DemoCore) :
  forallb (λ k, negb (opens_session k)) ks = true → reachable c → reachable (run_calls ks c).
Proof.
  revert c. induction ks as [|k ks IH]; intros c; simpl; [done|].
  intros [Hk Hks]%andb_true_iff Hc. apply IH; [done|]. apply reachable_step; [|done].
  by destruct (opens_session k).
Qed.

(** The run. *)
Definition demo_opened : DemoCore :=
  (abi_call demo_call_env (CallOpenSession 0 rw_flags true)
     (run_calls [CallInitToken 0 (Some demo_so_pin) (Some demo_label)] demo_core)).2.
Definition demo_handle : Z := scramble 64 (sess_scrambler demo_alloc) 1.
Definition demo_key_template : list RawAttr :=
  [(CKA_CLASS, Some (ck_ulong_to_bytes CKO_SECRET_KEY)); (CKA_VALUE, Some (replicate 16 5))].
Definition demo_user_calls : list AbiCall :=
  [CallLogin demo_handle CKU_SO (Some demo_so_pin); CallInitPIN demo_handle (Some demo_user_pin);
   CallLogout demo_handle; CallLogin demo_handle CKU_USER (Some demo_user_pin);
   CallCreateObject demo_handle (Some demo_key_template) true].
Definition demo_in : DemoCore := run_calls demo_user_calls demo_opened.
Definition demo_out : DemoCore := run_calls [CallLogout demo_handle] demo_in.

Lemma demo_in_reachable : reachable demo_in.
Proof.
  apply reachable_calls; [reflexivity|]. apply reachable_step.
  - intros _. vm_compute. split; congruence.
  - apply reachable_calls; [reflexivity|apply demo_core_reachable].
Qed.
Lemma demo_out_reachable : reachable demo_out.
Proof. apply reachable_calls; [reflexivity|apply demo_in_reachable]. Qed.

(** What the run left: the session, the token and the key. *)
Definition demo_loc_session : Z * Session :=
  default (0, Session_new 0 0 0 0) (lookup_session (session_manager demo_out) demo_handle).
Definition demo_out_token : Token :=
  default demo_token (slot_manager demo_out !! 0).
Definition demo_object : Z := default 0 (head (map_to_list (os_objects (object_store demo_out))).*1).
Definition demo_secret : StoredObject :=
  default (StoredObject_new 0 0 0) (os_objects (object_store demo_out) !! demo_object).

Lemma sessions_follow_login_witness :
  ∃ t, slot_manager demo_in !! 0 = Some t ∧ login_state t = UserLoggedIn ∧
    counts_exact 0 (session_manager demo_in) t ∧ counts_bounded t.
Proof.
  destruct (slot_manager demo_in !! 0) as [t|] eqn:Ht; [|vm_compute in Ht; discriminate Ht].
  exists t. destruct (sessions_follow_login demo_in 0 t demo_in_reachable Ht) as (_ & He & Hb).
  split; [reflexivity|]. split; [|exact (conj He Hb)].
  assert (K : (login_state <$> (slot_manager demo_in !! 0)) = Some UserLoggedIn)
    by (vm_compute; reflexivity).
  rewrite Ht in K. injection K as K. exact K.
Defined.


(** A wrong PIN, and the key is gone. *)
Lemma init_token_destroys_before_check_witness :
  (C_InitToken demo_call_env 0 (Some demo_wrong_pin) (Some demo_label) demo_in).1 = CKR_PIN_INCORRECT ∧
  os_objects (object_store demo_in) ≠ ∅ ∧
  os_objects (object_store
    (C_InitToken demo_call_env 0 (Some demo_wrong_pin) (Some demo_label) demo_in).2) = ∅.
Proof.
  split; [vm_compute; reflexivity|].
  split; [intros K; apply (f_equal (λ m : gmap Z StoredObject, size m)) in K;
          vm_compute in K; discriminate K|].
  apply (init_token_destroys_before_check demo_call_env 0 demo_wrong_pin demo_label demo_in
           (C_InitToken demo_call_env 0 (Some demo_wrong_pin) (Some demo_label) demo_in).1 _
           (default demo_token (slot_manager demo_in !! 0)) demo_in_reachable).
  - vm_compute. reflexivity.
  - vm_compute. congruence.
  - apply surjective_pairing.
Defined.

Lemma handles_ok_singleton (os : ObjectStore ObjectHandleAllocator) h o :
  map_to_list (os_objects os) = [(h, o)] → o_handle o = h → oh_used (os_alloc os) h →
  handles_ok os.
Proof.
  intros K Hh Hu h' o' Ho%elem_of_map_to_list. rewrite K in Ho.
  apply list_elem_of_singleton in Ho. by simplify_eq.
Qed.

(** A copy with a label, made by the user. *)
Definition demo_copy : Z * option Z * DemoCore :=
  C_CopyObject demo_call_env demo_handle demo_object (Some [(CKA_LABEL, Some [99])]) true demo_in.

Definition demo_new : Z := default 0 demo_copy.1.2.

Lemma copy_never_weakens_witness :
  ∃ l s src o, find_session demo_handle demo_in = Ok (l, s) ∧
    os_objects (object_store demo_in) !! demo_object = Some src ∧
    os_objects (object_store demo_copy.2) = <[demo_new := o]> (os_objects (object_store demo_in)) ∧
    same_key (src <| o_handle := demo_new |>) o.
Proof.
  destruct (copy_never_weakens demo_call_env demo_handle demo_object
    (Some [(CKA_LABEL, Some [99])]) true demo_in demo_new demo_copy.2)
    as (l & s & src & o & Hf & Hsrc & _ & _ & _ & _ & _ & Ho & Hk).
  - apply (handles_ok_singleton _ demo_object demo_secret).
    + vm_compute. reflexivity.
    + vm_compute. reflexivity.
    + right. exists 1. split; [vm_compute; split; congruence|vm_compute; reflexivity].
  - vm_compute. repeat split; congruence.
  - vm_compute. reflexivity.
  - exists l, s, src, o. exact (conj Hf (conj Hsrc (conj Ho Hk))).
Defined.

Lemma forked_child_stuck_witness :
  let l := {| lib_hsm := Some demo_core; lib_post_failed := false; lib_init_pid := 100;
              lib_cipher := CipherState_empty |} in
  C_Initialize 101 (λ ciphers, (true, ciphers)) (Some demo_core) l = (CKR_CRYPTOKI_ALREADY_INITIALIZED, l) ∧
  exported 101 demo_call_env (CallCloseAllSessions 0) l = (CKR_CRYPTOKI_NOT_INITIALIZED, l).
Proof.
  intros l. destruct (forked_child_stuck 101 l demo_core) as (He & Hi & _);
    [reflexivity|discriminate|discriminate|reflexivity|].
  split; [apply Hi|apply He].
Defined.
End AbiDemo.
