(* ===== verification/RateLimit.v ===== *)
(** * Rate limiting (src/crypto/rate_limit.rs)

    Token buckets in integer microtokens, per session and global, and the
    counter of concurrent operations.  Instants are nanoseconds and arguments:
    each call gets one per [Instant::now()] it makes.  The bucket of a session
    and the global one are the same record in the source but for the name.  The
    concurrency counter is also modelled under interleaving, one atomic
    instruction at a time. *)

From S2P Require Import Prelude Pkcs11.

Definition MICROTOKENS_PER_OP : Z := 1000000.
Definition MAX_SESSION_BUCKETS : Z := 10000.

Record RateLimitConfig := {
  max_ops_per_session_per_sec : Z;
  max_global_ops_per_sec : Z;
  max_concurrent_ops : Z;
}.

(** ** Buckets *)

Record SessionRateState := {
  b_tokens : Z;
  b_last_refill : Z;
  b_rate : Z;
  b_capacity : Z;
}.
#[export] Instance SessionRateState_expand : FieldExpansion SessionRateState := λ b,
  Build_SessionRateState (b_tokens b) (b_last_refill b) (b_rate b) (b_capacity b).
Definition GlobalRateState : Type := SessionRateState.

Definition SessionRateState_new (rate now : Z) : SessionRateState :=
  let rate_micro := saturating_mul u64_max rate MICROTOKENS_PER_OP in
  {| b_tokens := rate_micro; b_last_refill := now; b_rate := rate_micro;
     b_capacity := rate_micro |}.
Definition GlobalRateState_new (rate now : Z) : GlobalRateState := SessionRateState_new rate now.

(** [now.duration_since(last)] is zero when the clock reads earlier; both
    [as u64] casts truncate. *)
Definition try_consume (now : Z) (b : SessionRateState) : bool * SessionRateState :=
  let elapsed_micros := wrap 64 (saturating_sub now (b_last_refill b) / 1000) in
  let refill := saturating_mul u128_max (b_rate b) elapsed_micros / 1000000 in
  let tokens := Z.min (saturating_add u64_max (b_tokens b) (wrap 64 refill)) (b_capacity b) in
  let b := b <| b_tokens := tokens |> <| b_last_refill := now |> in
  if MICROTOKENS_PER_OP <=? tokens
  then (true, b <| b_tokens := tokens - MICROTOKENS_PER_OP |>)
  else (false, b).
Definition global_try_consume (now : Z) (b : GlobalRateState) : bool * GlobalRateState :=
  try_consume now b.

(** ** The limiter *)

Record RateLimiter := {
  rl_config : RateLimitConfig;
  rl_session_buckets : gmap Z SessionRateState;
  rl_global_bucket : option GlobalRateState;
  rl_concurrent_ops : Z;
}.
#[export] Instance RateLimiter_expand : FieldExpansion RateLimiter := λ r,
  Build_RateLimiter (rl_config r) (rl_session_buckets r) (rl_global_bucket r)
    (rl_concurrent_ops r).

Definition RateLimiter_new (config : RateLimitConfig) (now : Z) : RateLimiter :=
  {| rl_config := config; rl_session_buckets := ∅;
     rl_global_bucket :=
       if 0 <? max_global_ops_per_sec config
       then Some (GlobalRateState_new (max_global_ops_per_sec config) now) else None;
     rl_concurrent_ops := 0 |}.

(** The clock readings of one call: creating the session's bucket, consuming
    from it, consuming from the global one. *)
Record RateTimes := { rt_new : Z; rt_session : Z; rt_global : Z }.

(** The per-session part of [check_rate]. *)
Definition check_session_rate (session_handle : Z) (t : RateTimes) (r : RateLimiter) :
    HsmResult unit * RateLimiter :=
  if 0 <? max_ops_per_session_per_sec (rl_config r) then
    if bool_decide (rl_session_buckets r !! session_handle = None)
       && (MAX_SESSION_BUCKETS <=? Z.of_nat (size (rl_session_buckets r)))
    then (Err GeneralError, r)
    else
      let entry := default (SessionRateState_new (max_ops_per_session_per_sec (rl_config r)) (rt_new t))
                     (rl_session_buckets r !! session_handle) in
      let '(ok, entry) := try_consume (rt_session t) entry in
      let r := r <| rl_session_buckets := <[session_handle := entry]> (rl_session_buckets r) |> in
      if ok then (Ok tt, r) else (Err GeneralError, r)
  else (Ok tt, r).

Definition check_global_rate (t : RateTimes) (r : RateLimiter) : HsmResult unit * RateLimiter :=
  if 0 <? max_global_ops_per_sec (rl_config r) then
    match rl_global_bucket r with
    | None => (Ok tt, r)
    | Some bucket =>
      let '(ok, bucket) := global_try_consume (rt_global t) bucket in
      let r := r <| rl_global_bucket := Some bucket |> in
      if ok then (Ok tt, r) else (Err GeneralError, r)
    end
  else (Ok tt, r).

Definition check_rate (session_handle : Z) (t : RateTimes) (r : RateLimiter) :
    HsmResult unit * RateLimiter :=
  match check_session_rate session_handle t r with
  | (Err e, r) => (Err e, r)
  | (Ok _, r) => check_global_rate t r
  end.

(** One thread's uninterrupted [begin_operation]. *)
Definition begin_operation (r : RateLimiter) : HsmResult unit * RateLimiter :=
  if max_concurrent_ops (rl_config r) =? 0 then (Ok tt, r)
  else
    let prev := rl_concurrent_ops r in
    let r' := r <| rl_concurrent_ops := wrap 64 (prev + 1) |> in
    if max_concurrent_ops (rl_config r) <=? prev
    then (Err GeneralError, r' <| rl_concurrent_ops := wrap 64 (wrap 64 (prev + 1) - 1) |>)
    else (Ok tt, r').

Definition end_operation (r : RateLimiter) : RateLimiter :=
  if max_concurrent_ops (rl_config r) =? 0 then r
  else r <| rl_concurrent_ops := wrap 64 (rl_concurrent_ops r - 1) |>.

Definition remove_session_bucket (session_handle : Z) (r : RateLimiter) : RateLimiter :=
  r <| rl_session_buckets := delete session_handle (rl_session_buckets r) |>.

(** ** Interleaved operations *)

(** A thread outside an operation, between the increment and the test of
    [begin_operation] with the value it saw, or inside an operation. *)
Inductive OpPhase := PIdle | PAdded (prev : Z) | PRunning.

Record OpState := { ops_counter : Z; ops_threads : gmap Z OpPhase }.

(** One atomic instruction of one thread, [max] being the limit. *)
Inductive op_step (max : Z) : OpState → OpState → Prop :=
| op_add t n ts :
    ts !! t = Some PIdle →
    op_step max {| ops_counter := n; ops_threads := ts |}
      {| ops_counter := wrap 64 (n + 1); ops_threads := <[t := PAdded n]> ts |}
| op_refuse t prev n ts :
    ts !! t = Some (PAdded prev) → max <= prev →
    op_step max {| ops_counter := n; ops_threads := ts |}
      {| ops_counter := wrap 64 (n - 1); ops_threads := <[t := PIdle]> ts |}
| op_admit t prev n ts :
    ts !! t = Some (PAdded prev) → prev < max →
    op_step max {| ops_counter := n; ops_threads := ts |}
      {| ops_counter := n; ops_threads := <[t := PRunning]> ts |}
| op_end t n ts :
    ts !! t = Some PRunning →
    op_step max {| ops_counter := n; ops_threads := ts |}
      {| ops_counter := wrap 64 (n - 1); ops_threads := <[t := PIdle]> ts |}.

Definition op_counted (p : OpPhase) : bool := match p with PIdle => false | _ => true end.
Definition op_running (p : OpPhase) : bool := match p with PRunning => true | _ => false end.
Definition op_bound (max : Z) (p : OpPhase) : bool :=
  match p with PIdle => false | PAdded prev => prev <? max | PRunning => true end.

(** ** Buckets bound what they grant *)

(** A bucket of [rate] operations per second, filled at or after [t0], that
    has granted [n] operations. *)
Record bucket_ok (rate t0 n : Z) (b : SessionRateState) : Prop := {
  bk_rate : 0 <= b_rate b <= rate * MICROTOKENS_PER_OP;
  bk_tokens : 0 <= b_tokens b;
  bk_capacity : 0 <= b_capacity b;
  bk_start : t0 <= b_last_refill b;
  bk_credit : 1000 * b_tokens b + 1000000000 * n <= rate * (1000000000 + (b_last_refill b - t0));
}.

Lemma bucket_ok_new rate t0 now :
  0 <= rate → t0 <= now → bucket_ok rate t0 0 (SessionRateState_new rate now).
Proof.
  intros Hr Ht. assert (0 <= saturating_mul u64_max rate MICROTOKENS_PER_OP <= rate * MICROTOKENS_PER_OP).
  { unfold saturating_mul, u64_max, MICROTOKENS_PER_OP.
    pose proof (Z.le_min_l (rate * 1000000) (2 ^ 64 - 1)).
    split; [apply Z.min_glb; lia|done]. }
  unfold MICROTOKENS_PER_OP in *. assert (0 <= rate * (now - t0)) by (apply Z.mul_nonneg_nonneg; lia).
  unfold SessionRateState_new, MICROTOKENS_PER_OP. set (x := saturating_mul _ _ _) in *.
  clearbody x. split; cbn [b_rate b_tokens b_capacity b_last_refill]; unfold MICROTOKENS_PER_OP; lia.
Qed.

(** What is refilled is at most the rate times the time passed. *)
Lemma refill_le rate mic d :
  0 <= mic <= rate * MICROTOKENS_PER_OP → 0 <= rate → 0 <= d →
  0 <= 1000 * wrap 64 (saturating_mul u128_max mic (wrap 64 (d / 1000)) / 1000000) <= rate * d.
Proof.
  unfold MICROTOKENS_PER_OP, wrap. intros Hm Hr Hd.
  set (e := (d / 1000) mod 2 ^ 64).
  assert (He : 0 <= e /\ 1000 * e <= d).
  { unfold e. pose proof (Z.mod_pos_bound (d / 1000) (2 ^ 64) ltac:(lia)).
    pose proof (Z.mod_le (d / 1000) (2 ^ 64) ltac:(apply Z.div_pos; lia) ltac:(lia)).
    pose proof (Z.mul_div_le d 1000 ltac:(lia)). lia. }
  assert (Hs : 0 <= saturating_mul u128_max mic e <= rate * 1000000 * e)
    by (unfold saturating_mul, u128_max; nia).
  set (q := saturating_mul u128_max mic e / 1000000).
  assert (Hq : 0 <= q <= rate * e).
  { unfold q. split; [apply Z.div_pos; lia|]. apply Z.div_le_upper_bound; nia. }
  pose proof (Z.mod_pos_bound q (2 ^ 64) ltac:(lia)).
  pose proof (Z.mod_le q (2 ^ 64) ltac:(lia) ltac:(lia)). nia.
Qed.

Lemma try_consume_ok rate t0 n now b ok b' :
  0 <= rate → b_last_refill b <= now → bucket_ok rate t0 n b →
  try_consume now b = (ok, b') →
  bucket_ok rate t0 (n + Z.b2z ok) b' ∧ b_last_refill b' = now.
Proof.
  intros Hr Hn [H1 H2 H5 H3 H4]. unfold try_consume.
  replace (saturating_sub now (b_last_refill b)) with (now - b_last_refill b)
    by (unfold saturating_sub; lia).
  pose proof (refill_le rate (b_rate b) (now - b_last_refill b) H1 Hr ltac:(lia)) as Hf.
  set (r := wrap 64 _) in *. set (tk := Z.min _ _).
  assert (Htk : 0 <= tk <= b_tokens b + r) by (unfold tk, saturating_add, u64_max; lia).
  destruct (Z.leb_spec MICROTOKENS_PER_OP tk) as [Hc|Hc]; intros [= <- <-];
    (split; [|done]); split; cbn [set_field b_rate b_tokens b_capacity b_last_refill Z.b2z];
    unfold MICROTOKENS_PER_OP in *; lia.
Qed.

Lemma bucket_ok_le rate t0 n n' b : n' <= n → bucket_ok rate t0 n b → bucket_ok rate t0 n' b.
Proof. intros Hn []. split; lia. Qed.

(** ** Runs of checks *)

(** A run: the calls with their clock readings, and the answers. *)
Fixpoint rate_run (calls : list (Z * RateTimes)) (r : RateLimiter) : list bool * RateLimiter :=
  match calls with
  | [] => ([], r)
  | (h, t) :: calls =>
    let '(ok, r) := check_rate h t r in
    let '(oks, r) := rate_run calls r in
    (is_ok ok :: oks, r)
  end.

(** The clock does not go back. *)
Fixpoint clock_ordered (t0 : Z) (calls : list (Z * RateTimes)) : Prop :=
  match calls with
  | [] => True
  | (_, t) :: calls =>
    t0 <= rt_new t ∧ rt_new t <= rt_session t ∧ rt_session t <= rt_global t ∧
    clock_ordered (rt_global t) calls
  end.
Definition clock_end (t0 : Z) (calls : list (Z * RateTimes)) : Z :=
  foldl (λ _ call, rt_global call.2) t0 calls.

(** How many calls of a session, and of all sessions, were granted. *)
Definition granted_to (h : Z) (calls : list (Z * RateTimes)) (oks : list bool) : Z :=
  Z.of_nat (length (filter (λ x : (Z * RateTimes) * bool, x.1.1 = h ∧ x.2 = true) (zip calls oks))).
Definition granted (oks : list bool) : Z := Z.of_nat (length (filter (λ b : bool, b = true) oks)).

(** Session [h] has been granted [g h] operations and everybody [tot]. *)
Record limiter_ok (config : RateLimitConfig) (t0 t : Z) (g : Z → Z) (tot : Z) (r : RateLimiter) : Prop := {
  lo_config : rl_config r = config;
  lo_session : 0 < max_ops_per_session_per_sec config → ∀ h,
    match rl_session_buckets r !! h with
    | Some b => bucket_ok (max_ops_per_session_per_sec config) t0 (g h) b ∧ b_last_refill b <= t
    | None => g h = 0
    end;
  lo_global : 0 < max_global_ops_per_sec config → ∃ b, rl_global_bucket r = Some b ∧
    bucket_ok (max_global_ops_per_sec config) t0 tot b ∧ b_last_refill b <= t;
}.

Definition add_grant (h : Z) (ok : bool) (g : Z → Z) (h' : Z) : Z :=
  g h' + Z.b2z (bool_decide (h = h') && ok).

Lemma add_grant_nonneg h ok g h' : (∀ h, 0 <= g h) → 0 <= add_grant h ok g h'.
Proof. intros Hg. specialize (Hg h'). unfold add_grant. destruct (_ && _); simpl; lia. Qed.

Lemma check_session_rate_ok config t0 t g tot h x r res r' :
  t0 <= t → t <= rt_new x → rt_new x <= rt_session x → limiter_ok config t0 t g tot r →
  check_session_rate h x r = (res, r') →
  limiter_ok config t0 (rt_session x) (add_grant h (is_ok res) g) tot r'.
Proof.
  intros Ht0 H1 H2 [Hc Hs Hg] E. unfold check_session_rate in E. rewrite Hc in E.
  assert (Hglob : 0 < max_global_ops_per_sec config → ∃ b, rl_global_bucket r = Some b ∧
    bucket_ok (max_global_ops_per_sec config) t0 tot b ∧ b_last_refill b <= rt_session x).
  { intros Hp. destruct (Hg Hp) as (b & ? & ? & ?). exists b. split_and!; [done|done|lia]. }
  destruct (Z.ltb_spec 0 (max_ops_per_session_per_sec config)) as [Hp|Hp];
    [specialize (Hs Hp)|injection E as <- <-; by split; [| |done]; [|lia]].
  assert (Hkeep : ∀ ok, ok = false → ∀ h', match rl_session_buckets r !! h' with
    | Some b => bucket_ok (max_ops_per_session_per_sec config) t0 (add_grant h ok g h') b
                ∧ b_last_refill b <= rt_session x
    | None => add_grant h ok g h' = 0 end).
  { intros ok -> h'. unfold add_grant. rewrite andb_false_r, Z.add_0_r.
    specialize (Hs h'). destruct (_ !! h'); [|done]. destruct Hs. split; [done|lia]. }
  destruct (_ && _);
    [injection E as <- <-; split; [done|intros _; by apply Hkeep|exact Hglob]|].
  set (entry := default _ _) in E.
  assert (He : bucket_ok (max_ops_per_session_per_sec config) t0 (g h) entry ∧
               b_last_refill entry <= rt_session x).
  { specialize (Hs h). subst entry. destruct (_ !! h); simpl.
    - destruct Hs. split; [done|lia].
    - rewrite Hs. split; [apply bucket_ok_new; lia|done]. }
  destruct He as [He1 He2]. destruct (try_consume (rt_session x) entry) as [ok b'] eqn:Et.
  destruct (try_consume_ok (max_ops_per_session_per_sec config) _ _ _ _ _ _ (ltac:(lia)) He2 He1 Et) as [Hb' El].
  assert (res = if ok then Ok tt else Err GeneralError) as -> by (destruct ok; congruence).
  assert (r' = r <| rl_session_buckets := <[h := b']> (rl_session_buckets r) |>) as ->
    by (destruct ok; congruence).
  split; [done| |done]. intros _ h'. cbn [set_field rl_session_buckets].
  destruct (decide (h = h')) as [<-|Hne].
  - rewrite lookup_insert_eq. unfold add_grant. rewrite bool_decide_eq_true_2 by done.
    replace (is_ok (if ok then Ok tt else Err GeneralError)) with ok by (by destruct ok).
    split; [done|lia].
  - rewrite lookup_insert_ne by done. unfold add_grant. rewrite bool_decide_eq_false_2 by done.
    simpl. rewrite Z.add_0_r. specialize (Hs h'). destruct (_ !! h'); [|done].
    destruct Hs. split; [done|lia].
Qed.

Lemma limiter_ok_fewer config t0 t t' g g' tot r :
  t <= t' → (∀ h, 0 <= g' h <= g h) → limiter_ok config t0 t g tot r →
  limiter_ok config t0 t' g' tot r.
Proof.
  intros Ht Hg' [Hc Hs Hgl]. split; [done| |].
  - intros Hp h. specialize (Hs Hp h). specialize (Hg' h). destruct (_ !! h); [|lia].
    destruct Hs. split; [apply (bucket_ok_le _ _ (g h)); [lia|done]|lia].
  - intros Hp. destruct (Hgl Hp) as (b & ? & ? & ?). exists b. split_and!; [done|done|lia].
Qed.

Lemma check_rate_ok config t0 t g tot h x r res r' :
  t0 <= t → t <= rt_new x → rt_new x <= rt_session x → rt_session x <= rt_global x →
  (∀ h, 0 <= g h) → limiter_ok config t0 t g tot r → check_rate h x r = (res, r') →
  limiter_ok config t0 (rt_global x) (add_grant h (is_ok res) g) (tot + Z.b2z (is_ok res)) r'.
Proof.
  intros Ht0 H1 H2 H3 Hpos Hok E. unfold check_rate in E.
  destruct (check_session_rate h x r) as [r1 lim1] eqn:Es.
  pose proof (check_session_rate_ok _ _ _ _ _ _ _ _ _ _ Ht0 H1 H2 Hok Es) as Hok1.
  assert (Hg : ∀ ok h', 0 <= add_grant h ok g h') by (intros; by apply add_grant_nonneg).
  destruct r1 as [[]|e1]; [|injection E as <- <-; rewrite Z.add_0_r;
    eapply limiter_ok_fewer, Hok1; [done|]; intros h'; by split; [apply Hg|]].
  assert (Hle : ∀ ok h', 0 <= add_grant h ok g h' <= add_grant h true g h').
  { intros ok h'. split; [apply Hg|]. unfold add_grant. destruct ok, (bool_decide _); simpl; lia. }
  unfold check_global_rate in E. rewrite (lo_config _ _ _ _ _ _ Hok1) in E.
  destruct (Z.ltb_spec 0 (max_global_ops_per_sec config)) as [Hp|Hp].
  - destruct (lo_global _ _ _ _ _ _ Hok1 Hp) as (b & Eb & Hb & Hl). rewrite Eb in E.
    unfold global_try_consume in E. destruct (try_consume (rt_global x) b) as [ok b'] eqn:Et.
    destruct (try_consume_ok (max_global_ops_per_sec config) t0 tot (rt_global x) b ok b'
                (ltac:(lia)) (ltac:(lia)) Hb Et)
      as [Hb' El].
    assert (is_ok res = ok ∧ r' = lim1 <| rl_global_bucket := Some b' |>) as [-> ->]
      by (destruct ok; injection E as <- <-; done).
    pose proof (limiter_ok_fewer _ _ _ (rt_global x) _ (add_grant h ok g) _ _ H3 (Hle ok) Hok1) as [Hc Hs _].
    split; [done|done|]. intros _. exists b'. split_and!; [done|done|lia].
  - injection E as <- <-.
    pose proof (limiter_ok_fewer _ _ _ (rt_global x) _ _ _ _ H3 (Hle true) Hok1) as [Hc Hs _].
    split; [done|done|lia].
Qed.

Lemma granted_cons ok oks : granted (ok :: oks) = Z.b2z ok + granted oks.
Proof. unfold granted. rewrite filter_cons. destruct ok; simpl length; simpl Z.b2z; lia. Qed.
Lemma granted_to_cons h h0 x calls ok oks :
  granted_to h ((h0, x) :: calls) (ok :: oks)
  = Z.b2z (bool_decide (h0 = h) && ok) + granted_to h calls oks.
Proof.
  unfold granted_to. cbn [zip zip_with]. rewrite filter_cons. case_decide as Hd; simpl in Hd.
  - destruct Hd as [-> ->]. rewrite bool_decide_eq_true_2 by done. simpl. lia.
  - replace (bool_decide (h0 = h) && ok) with false; [done|]. symmetry. case_bool_decide; [|done].
    destruct ok; [|done]. by destruct Hd.
Qed.

Lemma rate_run_ok config t0 t g tot calls r oks r' :
  t0 <= t → (∀ h, 0 <= g h) → clock_ordered t calls → limiter_ok config t0 t g tot r →
  rate_run calls r = (oks, r') →
  t <= clock_end t calls ∧
  limiter_ok config t0 (clock_end t calls) (λ h, g h + granted_to h calls oks)
    (tot + granted oks) r'.
Proof.
  revert t g tot r oks r'.
  induction calls as [|[h x] calls IH]; intros t g tot r oks r' Ht Hg Hord Hok E; simpl in E.
  - injection E as <- <-. split; [done|]. unfold granted. simpl.
    rewrite Z.add_0_r. eapply limiter_ok_fewer, Hok; [done|].
    intros h. unfold granted_to. simpl. rewrite Z.add_0_r. by split; [apply Hg|].
  - destruct Hord as (H1 & H2 & H3 & Hord).
    destruct (check_rate h x r) as [res r1] eqn:Ec.
    destruct (rate_run calls r1) as [oks1 r2] eqn:Er. injection E as <- <-.
    pose proof (check_rate_ok _ _ _ _ _ _ _ _ _ _ Ht H1 H2 H3 Hg Hok Ec) as Hok1.
    destruct (IH (rt_global x) _ _ _ _ _ (ltac:(lia)) (λ h', add_grant_nonneg h _ g h' Hg) Hord Hok1 Er)
      as [Hle Hok2]. change (clock_end t ((h, x) :: calls)) with (clock_end (rt_global x) calls).
    split; [lia|]. rewrite granted_cons, Z.add_assoc.
    eapply limiter_ok_fewer, Hok2; [done|]. intros h'. rewrite granted_to_cons. unfold add_grant.
    specialize (Hg h'). pose proof (Nat2Z.is_nonneg (length
      (filter (λ x : (Z * RateTimes) * bool, x.1.1 = h' ∧ x.2 = true) (zip calls oks1)))).
    unfold granted_to. destruct (_ && _); simpl; lia.
Qed.

(** C36: the rate limits hold.  Over every run of checks whose clock does not go
    back, lasting [T] nanoseconds from the creation of the limiter, a session
    limited to [R] operations per second is granted at most [R * (1 + T/10^9)]
    of them, and with a global limit of [G] all sessions together at most
    [G * (1 + T/10^9)]; refusals, bucket creation, saturation and the
    truncating casts included. *)
Theorem rate_limits_hold config t0 calls oks r
    (Hord : clock_ordered t0 calls)
    (Hrun : rate_run calls (RateLimiter_new config t0) = (oks, r)) :
  let T := clock_end t0 calls - t0 in
  let R := max_ops_per_session_per_sec config in
  let G := max_global_ops_per_sec config in
  (0 < R → ∀ h, granted_to h calls oks * 1000000000 <= R * (1000000000 + T)) ∧
  (0 < G → granted oks * 1000000000 <= G * (1000000000 + T)).
Proof.
  intros T R G.
  assert (Hnew : limiter_ok config t0 t0 (λ _, 0) 0 (RateLimiter_new config t0)).
  { split; [done|by intros _ h; simpl; rewrite lookup_empty|]. intros Hp.
    exists (GlobalRateState_new G t0). simpl. rewrite (proj2 (Z.ltb_lt _ _) Hp).
    split_and!; [done|apply bucket_ok_new; lia|done]. }
  destruct (rate_run_ok _ _ _ _ _ _ _ _ _ (Z.le_refl t0) (λ _, Z.le_refl 0) Hord Hnew Hrun)
    as [Hle [_ Hs Hg]]. split.
  - intros Hp h. specialize (Hs Hp h). simpl in Hs. subst T R. destruct (_ !! h).
    + destruct Hs as [[] ?]. nia.
    + nia.
  - intros Hp. destruct (Hg Hp) as (b & _ & [] & ?). subst T G. nia.
Qed.

Lemma rate_limits_hold_witness :
  let config := {| max_ops_per_session_per_sec := 2; max_global_ops_per_sec := 0;
                   max_concurrent_ops := 0 |} in
  let at_ t := {| rt_new := t; rt_session := t; rt_global := t |} in
  let calls := [(7, at_ 0); (7, at_ 0); (7, at_ 1000); (7, at_ 500000000)] in
  let oks := (rate_run calls (RateLimiter_new config 0)).1 in
  oks = [true; true; false; true] ∧ granted_to 7 calls oks * 1000000000 <= 2 * 1500000000.
Proof.
  intros config at_ calls oks. split; [vm_compute; reflexivity|].
  destruct (rate_limits_hold config 0 calls oks (rate_run calls (RateLimiter_new config 0)).2)
    as [Hs _].
  - repeat (split; [vm_compute; congruence|]). exact I.
  - apply surjective_pairing.
  - exact (Hs eq_refl 7).
Defined.

(** ** Buckets refill *)

(** a waiting session is served.  A bucket of [R >= 1] operations per second
    whose last refill is [d] nanoseconds ago grants the next operation as soon
    as [R] operations per second make one in the whole microseconds of [d]
    (short of the time at which 64 bits overflow); but a caller that keeps
    asking at intervals below one microsecond is refused for ever once the
    bucket is empty, since each refusal discards the fraction. *)
Theorem bucket_refills R b d
    (HR : 1 <= R) (Hrate : b_rate b = R * MICROTOKENS_PER_OP) (Hcap : b_capacity b = b_rate b)
    (Htk : 0 <= b_tokens b) (Hd : 0 <= d) :
  (1000000 <= R * (d / 1000) < 2 ^ 64 → (try_consume (b_last_refill b + d) b).1 = true) ∧
  (b_tokens b < MICROTOKENS_PER_OP → ∀ gaps, Forall (λ g, 0 <= g < 1000) gaps →
     ∃ b', foldl (λ acc g, let '(oks, b) := acc in
                   let '(ok, b) := try_consume (b_last_refill b + g) b in (oks ++ [ok], b))
             ([], b) gaps = (replicate (length gaps) false, b')).
Proof.
  unfold MICROTOKENS_PER_OP in *. split.
  - intros [Hlo Hhi]. unfold try_consume, saturating_sub.
    replace (Z.max (b_last_refill b + d - b_last_refill b) 0) with d by lia.
    assert (He : 0 <= d / 1000 < 2 ^ 64) by (split; [apply Z.div_pos; lia|nia]).
    unfold wrap at 2. rewrite (Z.mod_small (d / 1000)) by done. rewrite Hrate, Hcap, Hrate.
    unfold saturating_mul, u128_max.
    replace (R * 1000000 * (d / 1000)) with (R * (d / 1000) * 1000000) by ring.
    set (q := R * (d / 1000)) in *. clearbody q.
    rewrite (Z.min_l (q * 1000000)) by lia.
    rewrite Z.div_mul by lia. unfold wrap. rewrite Z.mod_small by lia.
    unfold saturating_add, u64_max, MICROTOKENS_PER_OP.
    destruct (Z.leb_spec 1000000 (Z.min (Z.min (b_tokens b + q) (2 ^ 64 - 1)) (R * 1000000)));
      [done|lia].
  - intros Hlow gaps Hg.
    assert (K : ∀ gaps, Forall (λ g, 0 <= g < 1000) gaps → ∀ oks b, 0 <= b_tokens b < 1000000 →
      0 <= b_capacity b → ∃ b', foldl (λ acc g, let '(oks, b) := acc in
                   let '(ok, b) := try_consume (b_last_refill b + g) b in (oks ++ [ok], b))
             (oks, b) gaps = (oks ++ replicate (length gaps) false, b')).
    { clear. intros gaps. induction 1 as [|g gaps Hg _ IH]; intros oks b Hb Hc; simpl.
      { exists b. by rewrite app_nil_r. }
      unfold try_consume, saturating_sub.
      replace (Z.max (b_last_refill b + g - b_last_refill b) 0) with g by lia.
      rewrite (Z.div_small g 1000) by lia. change (wrap 64 0) with 0.
      unfold saturating_mul. rewrite Z.mul_0_r. change (Z.min 0 u128_max / 1000000) with 0.
      change (wrap 64 0) with 0. unfold saturating_add, MICROTOKENS_PER_OP.
      set (tk := Z.min _ _).
      assert (Hk : 0 <= tk < 1000000) by (unfold tk, u64_max; lia).
      rewrite (proj2 (Z.leb_gt _ _) (proj2 Hk)).
      destruct (IH (oks ++ [false]) (b <| b_tokens := tk |> <| b_last_refill := b_last_refill b + g |>))
        as [b' Hb']; [done|done|]. exists b'. rewrite <- (assoc (++)) in Hb'. exact Hb'. }
    apply (K gaps Hg [] b); [lia|]. rewrite Hcap, Hrate. lia.
Qed.

Lemma bucket_refills_witness :
  let b := {| b_tokens := 0; b_last_refill := 0; b_rate := 5000000; b_capacity := 5000000 |} in
  (try_consume 200000000 b).1 = true ∧
  ∃ b', foldl (λ acc g, let '(oks, b) := acc in
                 let '(ok, b) := try_consume (b_last_refill b + g) b in (oks ++ [ok], b))
          ([], b) (replicate 3 999) = ([false; false; false], b').
Proof.
  intros b. destruct (bucket_refills 5 b 200000000) as [Hl Hs].
  1-5: vm_compute; congruence.
  split; [apply Hl; vm_compute; split; congruence|].
  apply (Hs eq_refl (replicate 3 999)). 
  apply Forall_replicate. vm_compute. split; congruence.
Defined.

(** ** Concurrent operations *)

(** The counter counts the threads between increment and decrement, and the
    threads that run or are bound to be admitted are within the limit. *)
Record ops_ok (max : Z) (s : OpState) : Prop := {
  oo_threads : Z.of_nat (size (ops_threads s)) < 2 ^ 64;
  oo_counter : ops_counter s = Z.of_nat (map_count op_counted (ops_threads s));
  oo_bound : Z.of_nat (map_count (op_bound max) (ops_threads s)) <= max;
}.

(** Replacing one thread's phase moves both counts by that thread only. *)
Lemma ops_replace max (ts : gmap Z OpPhase) t p p' n n' :
  ts !! t = Some p → ops_ok max {| ops_counter := n; ops_threads := ts |} →
  n' = n - Z.b2z (op_counted p) + Z.b2z (op_counted p') →
  (op_bound max p' = true → op_bound max p = true ∨ n < max) →
  ops_ok max {| ops_counter := n'; ops_threads := <[t := p']> ts |}.
Proof.
  intros Ht [Hs Hc Hb] Hn Hp. cbn [ops_counter ops_threads] in *.
  pose proof (map_count_replace op_counted ts t p p' Ht) as Hr1.
  pose proof (map_count_replace (op_bound max) ts t p p' Ht) as Hr2.
  pose proof (map_count_mono (op_bound max) op_counted ts) as Hm.
  assert (map_count (op_bound max) ts <= map_count op_counted ts)%nat
    by (apply Hm; by intros []).
  split; cbn [ops_counter ops_threads].
  - by rewrite map_size_insert_Some by (by exists p).
  - subst n n'. destruct (op_counted p), (op_counted p'); cbn [Nat.b2n Z.b2z] in *; lia.
  - destruct (op_bound max p), (op_bound max p'); cbn [Nat.b2n] in *; lia.
Qed.

Lemma op_step_ok max s s' : op_step max s s' → ops_ok max s → ops_ok max s'.
Proof.
  intros S Hok.
  assert (Hw : ∀ t p, ops_threads s !! t = Some p →
    Z.b2z (op_counted p) <= ops_counter s < 2 ^ 64 - 1 + Z.b2z (op_counted p)).
  { destruct Hok as [Hs Hc _]. intros t p Ht. rewrite Hc.
    pose proof (map_count_delete op_counted _ t p Ht) as Hd.
    pose proof (map_count_le op_counted (delete t (ops_threads s))) as Hl.
    rewrite map_size_delete_Some in Hl by (by exists p).
    assert (size (ops_threads s) ≠ 0)%nat.
    { rewrite map_size_ne_0_lookup. by exists t, p. }
    destruct (op_counted p); cbn [Nat.b2n Z.b2z] in *; lia. }
  destruct S as [t n ts Ht|t prev n ts Ht Hge|t prev n ts Ht Hlt|t n ts Ht];
    specialize (Hw t _ Ht); cbn [ops_counter op_counted Z.b2z] in Hw.
  - eapply ops_replace; [exact Ht|exact Hok| |].
    + unfold wrap. rewrite Z.mod_small; cbn [op_counted Z.b2z]; lia.
    + cbn [op_bound]. rewrite Z.ltb_lt. by right.
  - eapply ops_replace; [exact Ht|exact Hok| |done].
    unfold wrap. rewrite Z.mod_small; cbn [op_counted Z.b2z]; lia.
  - eapply ops_replace; [exact Ht|exact Hok| |].
    + cbn [op_counted Z.b2z]. lia.
    + intros _. left. by apply Z.ltb_lt.
  - eapply ops_replace; [exact Ht|exact Hok| |done].
    unfold wrap. rewrite Z.mod_small; cbn [op_counted Z.b2z]; lia.
Qed.

(** The increment-then-check protocol of the concurrent-operation limit
    is sound under every interleaving: however the atomic instructions of the
    threads are ordered, starting with all threads idle and the counter at
    zero, at most [max] threads are ever between an accepted
    [begin_operation] and its [end_operation], and when all threads are idle
    again the counter is back at zero. *)
Theorem concurrent_ops_bounded (max : Z) (threads : gset Z) (s : OpState) :
  0 <= max → Z.of_nat (size threads) < 2 ^ 64 →
  rtc (op_step max)
    {| ops_counter := 0; ops_threads := gset_to_gmap PIdle threads |} s →
  Z.of_nat (map_count op_running (ops_threads s)) <= max ∧
  ((∀ t p, ops_threads s !! t = Some p → p = PIdle) → ops_counter s = 0).
Proof.
  intros Hmax Hn Hrun.
  assert (H0 : ∀ p, p PIdle = false →
    map_count p (gset_to_gmap PIdle threads) = 0%nat).
  { intros p Hp. apply map_count_none. intros k v Hv.
    apply lookup_gset_to_gmap_Some in Hv as [_ <-]. done. }
  assert (Hok : ops_ok max s).
  { refine (rtc_ind_l (λ s0, ops_ok max s0 → ops_ok max s) s _ _ _ Hrun _).
    - done.
    - intros x y S _ IH Hx. by apply IH, (op_step_ok max x).
    - split; cbn [ops_counter ops_threads]; rewrite ?H0 by done; [|lia..].
      by rewrite <- size_dom, dom_gset_to_gmap. }
  destruct Hok as [_ Hc Hb]. split.
  - pose proof (map_count_mono op_running (op_bound max) (ops_threads s)) as Hm.
    assert (map_count op_running (ops_threads s) <= map_count (op_bound max) (ops_threads s))%nat
      by (apply Hm; by intros []). lia.
  - intros Hidle. rewrite Hc, map_count_none; [done|].
    intros k v Hv. by rewrite (Hidle k v Hv).
Qed.

(** Two threads race for one slot: both increment, one is admitted. *)
Lemma concurrent_ops_bounded_witness :
  ∃ s, rtc (op_step 1)
         {| ops_counter := 0; ops_threads := gset_to_gmap PIdle {[1; 2]} |} s ∧
       ops_threads s !! 1 = Some (PAdded 0) ∧ ops_threads s !! 2 = Some (PAdded 1) ∧
       Z.of_nat (map_count op_running (ops_threads s)) <= 1.
Proof.
  assert (R : rtc (op_step 1)
    {| ops_counter := 0; ops_threads := gset_to_gmap PIdle {[1; 2]} |}
    {| ops_counter := 2;
       ops_threads := <[2 := PAdded 1]> (<[1 := PAdded 0]> (gset_to_gmap PIdle {[1; 2]})) |}).
  { eapply rtc_l; [by apply (op_add 1 1)|]. eapply rtc_l; [by apply (op_add 1 2)|].
    apply rtc_refl. }
  eexists. split; [exact R|]. split; [reflexivity|]. split; [reflexivity|].
  assert (Hn : Z.of_nat (size ({[1; 2]} : gset Z)) < 2 ^ 64).
  { rewrite size_union by set_solver. rewrite !size_singleton. reflexivity. }
  exact (proj1 (concurrent_ops_bounded 1 {[1; 2]} _ Z.le_0_1 Hn R)).
Defined.
