(* ===== verification/Mechanisms.v ===== *)
(** * Mechanisms and the algorithm policy

    The mechanism classes and the FIPS policy of src/crypto/mechanisms.rs, the
    approved-services table of src/crypto/approved_services.rs, the mechanism
    maps of src/crypto/sign.rs and src/crypto/pqc.rs, and the mechanism
    listing functions of src/pkcs11_abi/functions.rs. *)

From S2P Require Import Prelude Pkcs11.

(** ** Mechanism types (src/pkcs11_abi/constants.rs) *)

Definition CKM_RSA_PKCS_KEY_PAIR_GEN : Z := 0x0.
Definition CKM_RSA_PKCS : Z := 0x1.
Definition CKM_RSA_PKCS_OAEP : Z := 0x9.
Definition CKM_RSA_PKCS_PSS : Z := 0xd.
Definition CKM_SHA1_RSA_PKCS : Z := 0x6.
Definition CKM_SHA256_RSA_PKCS : Z := 0x40.
Definition CKM_SHA384_RSA_PKCS : Z := 0x41.
Definition CKM_SHA512_RSA_PKCS : Z := 0x42.
Definition CKM_SHA256_RSA_PKCS_PSS : Z := 0x43.
Definition CKM_SHA384_RSA_PKCS_PSS : Z := 0x44.
Definition CKM_SHA512_RSA_PKCS_PSS : Z := 0x45.
Definition CKM_DSA_KEY_PAIR_GEN : Z := 0x10.
Definition CKM_DSA : Z := 0x11.
Definition CKM_ECDSA_KEY_PAIR_GEN : Z := 0x1040.
Definition CKM_EC_KEY_PAIR_GEN : Z := 0x1040.
Definition CKM_ECDSA : Z := 0x1041.
Definition CKM_ECDSA_SHA256 : Z := 0x1044.
Definition CKM_ECDSA_SHA384 : Z := 0x1045.
Definition CKM_ECDSA_SHA512 : Z := 0x1046.
Definition CKM_ECDH1_DERIVE : Z := 0x1050.
Definition CKM_ECDH1_COFACTOR_DERIVE : Z := 0x1051.
Definition CKM_EDDSA : Z := 0x1057.
Definition CKM_AES_KEY_GEN : Z := 0x1080.
Definition CKM_AES_CBC : Z := 0x1082.
Definition CKM_AES_CBC_PAD : Z := 0x1085.
Definition CKM_AES_CTR : Z := 0x1086.
Definition CKM_AES_GCM : Z := 0x1087.
Definition CKM_AES_KEY_WRAP : Z := 0x2109.
Definition CKM_AES_KEY_WRAP_KWP : Z := 0x210b.
Definition CKM_SHA_1 : Z := 0x220.
Definition CKM_SHA256 : Z := 0x250.
Definition CKM_SHA384 : Z := 0x260.
Definition CKM_SHA512 : Z := 0x270.
Definition CKM_SHA3_256 : Z := 0x2b0.
Definition CKM_SHA3_384 : Z := 0x2c0.
Definition CKM_SHA3_512 : Z := 0x2d0.
Definition CKM_ML_KEM_512 : Z := 0x80000001.
Definition CKM_ML_KEM_768 : Z := 0x80000002.
Definition CKM_ML_KEM_1024 : Z := 0x80000003.
Definition CKM_ML_DSA_44 : Z := 0x80000010.
Definition CKM_ML_DSA_65 : Z := 0x80000011.
Definition CKM_ML_DSA_87 : Z := 0x80000012.
Definition CKM_SLH_DSA_SHA2_128S : Z := 0x80000020.
Definition CKM_SLH_DSA_SHA2_256S : Z := 0x80000021.
Definition CKM_HYBRID_ML_DSA_ECDSA : Z := 0x80000030.
Definition CKM_HYBRID_X25519_ML_KEM_768 : Z := 0x80000040.
Definition CKM_HYBRID_X25519_ML_KEM_1024 : Z := 0x80000041.

(** Flags of [CK_MECHANISM_INFO]. *)
Definition CKF_ENCRYPT_FLAG : Z := 0x100.
Definition CKF_DECRYPT_FLAG : Z := 0x200.
Definition CKF_DIGEST_FLAG : Z := 0x400.
Definition CKF_SIGN_FLAG : Z := 0x800.
Definition CKF_SIGN_RECOVER_FLAG : Z := 0x1000.
Definition CKF_VERIFY_FLAG : Z := 0x2000.
Definition CKF_VERIFY_RECOVER_FLAG : Z := 0x4000.
Definition CKF_GENERATE_FLAG : Z := 0x8000.
Definition CKF_GENERATE_KEY_PAIR_FLAG : Z := 0x10000.
Definition CKF_WRAP_FLAG : Z := 0x20000.
Definition CKF_UNWRAP_FLAG : Z := 0x40000.
Definition CKF_DERIVE_FLAG : Z := 0x80000.

(** Rust's [matches!] on a mechanism. *)
Definition mech_in (ms : list Z) (m : Z) : bool := existsb (Z.eqb m) ms.

(** ** Classes *)

Definition is_sign_mechanism (mechanism : Z) : bool := mech_in
    [CKM_RSA_PKCS; CKM_SHA256_RSA_PKCS; CKM_SHA384_RSA_PKCS; CKM_SHA512_RSA_PKCS;
     CKM_RSA_PKCS_PSS; CKM_SHA256_RSA_PKCS_PSS; CKM_SHA384_RSA_PKCS_PSS;
     CKM_SHA512_RSA_PKCS_PSS; CKM_ECDSA; CKM_ECDSA_SHA256; CKM_ECDSA_SHA384; CKM_ECDSA_SHA512;
     CKM_EDDSA; CKM_ML_DSA_44; CKM_ML_DSA_65; CKM_ML_DSA_87; CKM_SLH_DSA_SHA2_128S;
     CKM_SLH_DSA_SHA2_256S; CKM_HYBRID_ML_DSA_ECDSA] mechanism.

Definition is_encrypt_mechanism (mechanism : Z) : bool := mech_in
    [CKM_AES_GCM; CKM_AES_CBC; CKM_AES_CBC_PAD; CKM_AES_CTR; CKM_RSA_PKCS_OAEP] mechanism.

Definition is_keygen_mechanism (mechanism : Z) : bool := mech_in
    [CKM_AES_KEY_GEN] mechanism.

Definition is_keypair_gen_mechanism (mechanism : Z) : bool := mech_in
    [CKM_RSA_PKCS_KEY_PAIR_GEN; CKM_EC_KEY_PAIR_GEN; CKM_EDDSA; CKM_ML_KEM_512; CKM_ML_KEM_768;
     CKM_ML_KEM_1024; CKM_ML_DSA_44; CKM_ML_DSA_65; CKM_ML_DSA_87; CKM_SLH_DSA_SHA2_128S;
     CKM_SLH_DSA_SHA2_256S] mechanism.

Definition is_kem_mechanism (mechanism : Z) : bool := mech_in
    [CKM_ML_KEM_512; CKM_ML_KEM_768; CKM_ML_KEM_1024] mechanism.

Definition is_digest_mechanism (mechanism : Z) : bool := mech_in
    [CKM_SHA_1; CKM_SHA256; CKM_SHA384; CKM_SHA512; CKM_SHA3_256; CKM_SHA3_384; CKM_SHA3_512] mechanism.

Definition is_wrap_mechanism (mechanism : Z) : bool := mech_in
    [CKM_AES_KEY_WRAP; CKM_AES_KEY_WRAP_KWP] mechanism.

Definition is_derive_mechanism (mechanism : Z) : bool := mech_in
    [CKM_ECDH1_DERIVE; CKM_ECDH1_COFACTOR_DERIVE] mechanism.

Definition supported_mechanisms : list Z :=
  [CKM_RSA_PKCS_KEY_PAIR_GEN; CKM_RSA_PKCS; CKM_SHA256_RSA_PKCS; CKM_SHA384_RSA_PKCS;
   CKM_SHA512_RSA_PKCS; CKM_RSA_PKCS_PSS; CKM_SHA256_RSA_PKCS_PSS; CKM_SHA384_RSA_PKCS_PSS;
   CKM_SHA512_RSA_PKCS_PSS; CKM_RSA_PKCS_OAEP; CKM_EC_KEY_PAIR_GEN; CKM_ECDSA;
   CKM_ECDSA_SHA256; CKM_ECDSA_SHA384; CKM_ECDSA_SHA512; CKM_ECDH1_DERIVE;
   CKM_ECDH1_COFACTOR_DERIVE; CKM_EDDSA; CKM_AES_KEY_GEN; CKM_AES_GCM; CKM_AES_CBC;
   CKM_AES_CBC_PAD; CKM_AES_CTR; CKM_AES_KEY_WRAP; CKM_AES_KEY_WRAP_KWP; CKM_SHA_1; CKM_SHA256;
   CKM_SHA384; CKM_SHA512; CKM_SHA3_256; CKM_SHA3_384; CKM_SHA3_512; CKM_ML_KEM_512;
   CKM_ML_KEM_768; CKM_ML_KEM_1024; CKM_ML_DSA_44; CKM_ML_DSA_65; CKM_ML_DSA_87;
   CKM_SLH_DSA_SHA2_128S; CKM_SLH_DSA_SHA2_256S; CKM_HYBRID_ML_DSA_ECDSA].

(** ** Policy *)

Definition is_fips_approved (mechanism : Z) : bool := mech_in
    [CKM_RSA_PKCS_KEY_PAIR_GEN; CKM_RSA_PKCS; CKM_SHA256_RSA_PKCS; CKM_SHA384_RSA_PKCS;
     CKM_SHA512_RSA_PKCS; CKM_RSA_PKCS_PSS; CKM_SHA256_RSA_PKCS_PSS; CKM_SHA384_RSA_PKCS_PSS;
     CKM_SHA512_RSA_PKCS_PSS; CKM_RSA_PKCS_OAEP; CKM_EC_KEY_PAIR_GEN; CKM_ECDSA;
     CKM_ECDSA_SHA256; CKM_ECDSA_SHA384; CKM_ECDSA_SHA512; CKM_ECDH1_DERIVE;
     CKM_ECDH1_COFACTOR_DERIVE; CKM_AES_KEY_GEN; CKM_AES_GCM; CKM_AES_CBC; CKM_AES_CBC_PAD;
     CKM_AES_CTR; CKM_AES_KEY_WRAP; CKM_AES_KEY_WRAP_KWP; CKM_SHA256; CKM_SHA384; CKM_SHA512;
     CKM_SHA3_256; CKM_SHA3_384; CKM_SHA3_512] mechanism.

Definition is_pqc_mechanism (mechanism : Z) : bool := mech_in
    [CKM_ML_KEM_512; CKM_ML_KEM_768; CKM_ML_KEM_1024; CKM_ML_DSA_44; CKM_ML_DSA_65;
     CKM_ML_DSA_87; CKM_SLH_DSA_SHA2_128S; CKM_SLH_DSA_SHA2_256S; CKM_HYBRID_ML_DSA_ECDSA] mechanism.

(** [AlgorithmConfig]; the choice of the backend is made at compile time. *)
Record AlgorithmConfig := {
  allow_weak_rsa : bool;
  allow_sha1_signing : bool;
  enable_pqc : bool;
  fips_approved_only : bool;
}.

Definition validate_mechanism_for_policy (mechanism : Z) (config : AlgorithmConfig)
    (is_signing_context : bool) : Result Z unit :=
  if fips_approved_only config && negb (is_fips_approved mechanism)
  then Err CKR_MECHANISM_INVALID
  else if negb (enable_pqc config) && is_pqc_mechanism mechanism
  then Err CKR_MECHANISM_INVALID
  else if mechanism =? CKM_SHA_1 then
    if fips_approved_only config then Err CKR_MECHANISM_INVALID
    else if negb (allow_sha1_signing config) && is_signing_context
    then Err CKR_MECHANISM_INVALID
    else Ok ()
  else Ok ().

Definition supported_mechanisms_filtered (config : AlgorithmConfig) : list Z :=
  base.filter (λ mech,
    Is_true (if fips_approved_only config && negb (is_fips_approved mech) then false
             else if fips_approved_only config && (mech =? CKM_SHA_1) then false
             else if negb (enable_pqc config) && is_pqc_mechanism mech then false
             else true)) supported_mechanisms.

(** ** Approved services *)

Inductive ApprovalStatus := Approved | NonApproved | Unknown.
#[export] Instance ApprovalStatus_eq_dec : EqDecision ApprovalStatus.
Proof. solve_decision. Defined.

Definition is_approved (s : ApprovalStatus) : bool :=
  match s with Approved => true | _ => false end.

Definition approval_status (mechanism : Z) : ApprovalStatus :=
  if mech_in [CKM_SHA256; CKM_SHA384; CKM_SHA512] mechanism then Approved
  else if mech_in [CKM_SHA3_256; CKM_SHA3_384; CKM_SHA3_512] mechanism then Approved
  else if mechanism =? CKM_SHA_1 then NonApproved
  else if mechanism =? CKM_RSA_PKCS then Approved
  else if mech_in [CKM_SHA256_RSA_PKCS; CKM_SHA384_RSA_PKCS; CKM_SHA512_RSA_PKCS] mechanism
  then Approved
  else if mech_in [CKM_RSA_PKCS_PSS; CKM_SHA256_RSA_PKCS_PSS; CKM_SHA384_RSA_PKCS_PSS;
                   CKM_SHA512_RSA_PKCS_PSS] mechanism then Approved
  else if mechanism =? CKM_RSA_PKCS_OAEP then Approved
  else if mechanism =? CKM_RSA_PKCS_KEY_PAIR_GEN then Approved
  else if mech_in [CKM_ECDSA; CKM_ECDSA_SHA256; CKM_ECDSA_SHA384; CKM_ECDSA_SHA512] mechanism
  then Approved
  else if mechanism =? CKM_EC_KEY_PAIR_GEN then Approved
  else if mechanism =? CKM_EDDSA then NonApproved
  else if mechanism =? CKM_AES_GCM then Approved
  else if mech_in [CKM_AES_CBC; CKM_AES_CBC_PAD] mechanism then Approved
  else if mechanism =? CKM_AES_CTR then Approved
  else if mechanism =? CKM_AES_KEY_GEN then Approved
  else if mech_in [CKM_AES_KEY_WRAP; CKM_AES_KEY_WRAP_KWP] mechanism then Approved
  else if mechanism =? CKM_ECDH1_DERIVE then Approved
  else if mech_in [CKM_ML_KEM_512; CKM_ML_KEM_768; CKM_ML_KEM_1024] mechanism then Approved
  else if mech_in [CKM_ML_DSA_44; CKM_ML_DSA_65; CKM_ML_DSA_87] mechanism then Approved
  else if mech_in [CKM_SLH_DSA_SHA2_128S; CKM_SLH_DSA_SHA2_256S] mechanism then Approved
  else if mechanism =? CKM_HYBRID_ML_DSA_ECDSA then NonApproved
  else if mech_in [CKM_HYBRID_X25519_ML_KEM_768; CKM_HYBRID_X25519_ML_KEM_1024] mechanism
  then NonApproved
  else Unknown.

(** The RSA mechanisms whose key size [enforce] checks. *)
Definition enforce_rsa_mechanisms : list Z :=
  [CKM_RSA_PKCS; CKM_RSA_PKCS_PSS; CKM_RSA_PKCS_OAEP; CKM_RSA_PKCS_KEY_PAIR_GEN;
   CKM_SHA256_RSA_PKCS; CKM_SHA384_RSA_PKCS; CKM_SHA512_RSA_PKCS; CKM_SHA256_RSA_PKCS_PSS;
   CKM_SHA384_RSA_PKCS_PSS; CKM_SHA512_RSA_PKCS_PSS].

Definition enforce (mechanism : Z) (config : AlgorithmConfig) (key_size_bits : option Z) :
    HsmResult unit :=
  if negb (fips_approved_only config) then Ok ()
  else match approval_status mechanism with
  | Approved =>
    match key_size_bits with
    | Some bits =>
      if mech_in enforce_rsa_mechanisms mechanism && (bits <? 2048) then Err KeySizeRange
      else Ok ()
    | None => Ok ()
    end
  | NonApproved | Unknown => Err MechanismInvalid
  end.

(** [approved_services::is_fips_approved]. *)
Definition service_is_fips_approved (mechanism : Z) : bool :=
  is_approved (approval_status mechanism).

(** ** Mechanism information (the table of [C_GetMechanismInfo]) *)

Record CK_MECHANISM_INFO := { mi_min_key_size : Z; mi_max_key_size : Z; mi_flags : Z }.

Definition mechanism_info (mechanism_type : Z) : option CK_MECHANISM_INFO :=
  let info lo hi flags :=
    Some {| mi_min_key_size := lo; mi_max_key_size := hi; mi_flags := flags |} in
  if mechanism_type =? CKM_RSA_PKCS_KEY_PAIR_GEN then info 2048 4096 CKF_GENERATE_KEY_PAIR_FLAG
  else if mech_in [CKM_RSA_PKCS; CKM_SHA256_RSA_PKCS; CKM_SHA384_RSA_PKCS; CKM_SHA512_RSA_PKCS]
            mechanism_type
  then info 2048 4096 (Z.lor CKF_SIGN_FLAG CKF_VERIFY_FLAG)
  else if mech_in [CKM_RSA_PKCS_PSS; CKM_SHA256_RSA_PKCS_PSS; CKM_SHA384_RSA_PKCS_PSS;
                   CKM_SHA512_RSA_PKCS_PSS] mechanism_type
  then info 2048 4096 (Z.lor CKF_SIGN_FLAG CKF_VERIFY_FLAG)
  else if mechanism_type =? CKM_RSA_PKCS_OAEP
  then info 2048 4096 (Z.lor CKF_ENCRYPT_FLAG CKF_DECRYPT_FLAG)
  else if mechanism_type =? CKM_EC_KEY_PAIR_GEN then info 256 384 CKF_GENERATE_KEY_PAIR_FLAG
  else if mech_in [CKM_ECDSA; CKM_ECDSA_SHA256; CKM_ECDSA_SHA384; CKM_ECDSA_SHA512] mechanism_type
  then info 256 384 (Z.lor CKF_SIGN_FLAG CKF_VERIFY_FLAG)
  else if mech_in [CKM_ECDH1_DERIVE; CKM_ECDH1_COFACTOR_DERIVE] mechanism_type
  then info 256 384 CKF_DERIVE_FLAG
  else if mechanism_type =? CKM_EDDSA
  then info 256 256 (Z.lor (Z.lor CKF_SIGN_FLAG CKF_VERIFY_FLAG) CKF_GENERATE_KEY_PAIR_FLAG)
  else if mechanism_type =? CKM_AES_KEY_GEN then info 16 32 CKF_GENERATE_FLAG
  else if mech_in [CKM_AES_GCM; CKM_AES_CBC; CKM_AES_CBC_PAD; CKM_AES_CTR] mechanism_type
  then info 16 32 (Z.lor CKF_ENCRYPT_FLAG CKF_DECRYPT_FLAG)
  else if mech_in [CKM_AES_KEY_WRAP; CKM_AES_KEY_WRAP_KWP] mechanism_type
  then info 16 32 (Z.lor CKF_WRAP_FLAG CKF_UNWRAP_FLAG)
  else if mech_in [CKM_SHA_1; CKM_SHA256; CKM_SHA384; CKM_SHA512; CKM_SHA3_256; CKM_SHA3_384;
                   CKM_SHA3_512] mechanism_type
  then info 0 0 CKF_DIGEST_FLAG
  else if mech_in [CKM_ML_KEM_512; CKM_ML_KEM_768; CKM_ML_KEM_1024] mechanism_type
  then info 512 1024 (Z.lor CKF_GENERATE_KEY_PAIR_FLAG CKF_DERIVE_FLAG)
  else if mech_in [CKM_ML_DSA_44; CKM_ML_DSA_65; CKM_ML_DSA_87] mechanism_type
  then info 44 87 (Z.lor (Z.lor CKF_GENERATE_KEY_PAIR_FLAG CKF_SIGN_FLAG) CKF_VERIFY_FLAG)
  else if mech_in [CKM_SLH_DSA_SHA2_128S; CKM_SLH_DSA_SHA2_256S] mechanism_type
  then info 128 256 (Z.lor (Z.lor CKF_GENERATE_KEY_PAIR_FLAG CKF_SIGN_FLAG) CKF_VERIFY_FLAG)
  else if mechanism_type =? CKM_HYBRID_ML_DSA_ECDSA
  then info 256 256 (Z.lor CKF_SIGN_FLAG CKF_VERIFY_FLAG)
  else None.

(** ** Mechanism maps (src/crypto/sign.rs, src/crypto/pqc.rs) *)

Inductive HashAlg := HSha256 | HSha384 | HSha512.
Inductive OaepHash := OaepSha256 | OaepSha384 | OaepSha512.
Inductive MlDsaVariant := MlDsa44 | MlDsa65 | MlDsa87.
Inductive SlhDsaVariant := Sha2_128s | Sha2_256s.
#[export] Instance HashAlg_eq_dec : EqDecision HashAlg.
Proof. solve_decision. Defined.

Definition mechanism_to_hash (mechanism : Z) : option HashAlg :=
  if mechanism =? CKM_SHA256_RSA_PKCS then Some HSha256
  else if mechanism =? CKM_SHA384_RSA_PKCS then Some HSha384
  else if mechanism =? CKM_SHA512_RSA_PKCS then Some HSha512
  else None.

Definition pss_mechanism_to_hash (mechanism : Z) : HsmResult HashAlg :=
  if mechanism =? CKM_SHA256_RSA_PKCS_PSS then Ok HSha256
  else if mechanism =? CKM_SHA384_RSA_PKCS_PSS then Ok HSha384
  else if mechanism =? CKM_SHA512_RSA_PKCS_PSS then Ok HSha512
  else if mechanism =? CKM_RSA_PKCS_PSS then Err MechanismParamInvalid
  else Err MechanismInvalid.

Definition is_pss_mechanism (mechanism : Z) : bool := mech_in
  [CKM_RSA_PKCS_PSS; CKM_SHA256_RSA_PKCS_PSS; CKM_SHA384_RSA_PKCS_PSS; CKM_SHA512_RSA_PKCS_PSS]
  mechanism.

Definition is_ecdsa_mechanism (mechanism : Z) : bool := mech_in
  [CKM_ECDSA; CKM_ECDSA_SHA256; CKM_ECDSA_SHA384; CKM_ECDSA_SHA512] mechanism.

Definition is_eddsa_mechanism (mechanism : Z) : bool := mechanism =? CKM_EDDSA.

Definition sign_mechanism_supports_multipart (mechanism : Z) : bool := mech_in
  [CKM_SHA256_RSA_PKCS; CKM_SHA384_RSA_PKCS; CKM_SHA512_RSA_PKCS; CKM_SHA256_RSA_PKCS_PSS;
   CKM_SHA384_RSA_PKCS_PSS; CKM_SHA512_RSA_PKCS_PSS; CKM_ECDSA_SHA256; CKM_ECDSA_SHA384;
   CKM_ECDSA_SHA512] mechanism.

Definition sign_mechanism_to_digest_mechanism (mechanism : Z) : option Z :=
  if mech_in [CKM_SHA256_RSA_PKCS; CKM_SHA256_RSA_PKCS_PSS; CKM_ECDSA_SHA256] mechanism
  then Some CKM_SHA256
  else if mech_in [CKM_SHA384_RSA_PKCS; CKM_SHA384_RSA_PKCS_PSS; CKM_ECDSA_SHA384] mechanism
  then Some CKM_SHA384
  else if mech_in [CKM_SHA512_RSA_PKCS; CKM_SHA512_RSA_PKCS_PSS; CKM_ECDSA_SHA512] mechanism
  then Some CKM_SHA512
  else None.

Definition mechanism_to_ml_dsa_variant (mechanism : Z) : option MlDsaVariant :=
  if mechanism =? CKM_ML_DSA_44 then Some MlDsa44
  else if mechanism =? CKM_ML_DSA_65 then Some MlDsa65
  else if mechanism =? CKM_ML_DSA_87 then Some MlDsa87
  else None.

Definition mechanism_to_slh_dsa_variant (mechanism : Z) : option SlhDsaVariant :=
  if mechanism =? CKM_SLH_DSA_SHA2_128S then Some Sha2_128s
  else if mechanism =? CKM_SLH_DSA_SHA2_256S then Some Sha2_256s
  else None.

Definition is_ml_dsa_mechanism (mechanism : Z) : bool :=
  bool_decide (is_Some (mechanism_to_ml_dsa_variant mechanism)).
Definition is_slh_dsa_mechanism (mechanism : Z) : bool :=
  bool_decide (is_Some (mechanism_to_slh_dsa_variant mechanism)).
Definition is_hybrid_mechanism (mechanism : Z) : bool := mechanism =? CKM_HYBRID_ML_DSA_ECDSA.

(** ** The tables agree *)

Lemma mech_in_spec ms m : mech_in ms m = true ↔ m ∈ ms.
Proof.
  unfold mech_in. rewrite existsb_exists. split.
  - intros (x & Hx & Heq). apply Z.eqb_eq in Heq as ->. by apply list_elem_of_In.
  - intros Hm. exists m. rewrite Z.eqb_refl. split; [by apply list_elem_of_In|done].
Qed.

(** Checking a mechanism of a list is checking each of them. *)
Lemma mech_in_forall ms m (Q : Z → Prop) : m ∈ ms → Forall Q ms → Q m.
Proof. intros Hm HQ. by eapply Forall_forall in HQ. Qed.

Definition flag_set (m flag : Z) : bool :=
  match mechanism_info m with
  | Some i => negb (Z.land (mi_flags i) flag =? 0)
  | None => false
  end.

(** The flags of a mechanism are the operations that accept it. *)
Definition flags_match (m : Z) : Prop :=
  flag_set m CKF_SIGN_FLAG = is_sign_mechanism m ∧
  flag_set m CKF_VERIFY_FLAG = is_sign_mechanism m ∧
  flag_set m CKF_ENCRYPT_FLAG = is_encrypt_mechanism m ∧
  flag_set m CKF_DECRYPT_FLAG = is_encrypt_mechanism m ∧
  flag_set m CKF_DIGEST_FLAG = is_digest_mechanism m ∧
  flag_set m CKF_WRAP_FLAG = is_wrap_mechanism m ∧
  flag_set m CKF_UNWRAP_FLAG = is_wrap_mechanism m ∧
  flag_set m CKF_GENERATE_FLAG = is_keygen_mechanism m ∧
  flag_set m CKF_GENERATE_KEY_PAIR_FLAG = is_keypair_gen_mechanism m ∧
  flag_set m CKF_DERIVE_FLAG = is_derive_mechanism m || is_kem_mechanism m.

Lemma flags_match_supported m :
  m ∈ supported_mechanisms → is_Some (mechanism_info m) ∧ flags_match m.
Proof.
  intros Hm. revert m Hm. apply Forall_forall. unfold supported_mechanisms.
  repeat (apply Forall_cons; split;
    [split; [eexists; reflexivity|vm_compute; repeat split]|]).
  apply Forall_nil_2.
Qed.

(** Every mechanism of the tables is a supported one. *)
Lemma mech_in_supported ms m :
  mech_in supported_mechanisms m = false → ms ⊆ supported_mechanisms → mech_in ms m = false.
Proof.
  intros Hm Hsub. apply not_true_iff_false. intros Hin. apply mech_in_spec in Hin.
  apply Hsub, mech_in_spec in Hin. congruence.
Qed.

(** A mechanism outside the supported ones is on no list of them. *)
Lemma unsupported_tests m :
  mech_in supported_mechanisms m = false →
  (∀ ms, bool_decide (ms ⊆ supported_mechanisms) = true → mech_in ms m = false) ∧
  (∀ k, bool_decide ([k] ⊆ supported_mechanisms) = true → (m =? k) = false).
Proof.
  intros Hm.
  assert (Hin : ∀ ms, bool_decide (ms ⊆ supported_mechanisms) = true → mech_in ms m = false)
    by (intros ms Hb; apply bool_decide_eq_true in Hb; by apply mech_in_supported).
  split; [done|]. intros k Hk. apply Hin in Hk. unfold mech_in in Hk. cbn [existsb] in Hk.
  by rewrite orb_false_r in Hk.
Qed.

Ltac unsupported H :=
  destruct (unsupported_tests _ H) as [Hin Heq];
  repeat first [rewrite Hin by (vm_compute; reflexivity)
               |rewrite Heq by (vm_compute; reflexivity)].

Lemma flags_match_unsupported m :
  mech_in supported_mechanisms m = false → mechanism_info m = None ∧ flags_match m.
Proof.
  intros Hm. assert (Hinfo : mechanism_info m = None) by (unfold mechanism_info; by unsupported Hm).
  split; [done|]. unfold flags_match, flag_set. rewrite Hinfo.
  unfold is_sign_mechanism, is_encrypt_mechanism, is_digest_mechanism, is_wrap_mechanism,
    is_keygen_mechanism, is_keypair_gen_mechanism, is_derive_mechanism, is_kem_mechanism.
  unsupported Hm. by repeat split.
Qed.

(** The mechanism tables agree with each other and with the policy.  The
    list a token reports under a configuration is exactly the supported
    mechanisms the policy check lets through outside signing, and for signing
    mechanisms also in a signing context; every supported mechanism has an
    information record, and its flags are exactly the operations whose
    functions accept the mechanism. *)
Theorem mechanism_tables_agree (config : AlgorithmConfig) (m : Z) :
  (m ∈ supported_mechanisms_filtered config ↔
     m ∈ supported_mechanisms ∧ validate_mechanism_for_policy m config false = Ok ()) ∧
  (is_sign_mechanism m = true →
     validate_mechanism_for_policy m config true = validate_mechanism_for_policy m config false) ∧
  (m ∈ supported_mechanisms ↔ is_Some (mechanism_info m)) ∧
  flags_match m.
Proof.
  assert (Hsha : is_sign_mechanism m = true → (m =? CKM_SHA_1) = false).
  { intros Hs. apply mech_in_spec in Hs. revert m Hs. apply Forall_forall. repeat constructor. }
  split; [|split].
  - unfold supported_mechanisms_filtered, validate_mechanism_for_policy.
    rewrite list_elem_of_filter, (comm and). apply and_iff_compat_l.
    destruct (fips_approved_only config), (is_fips_approved m), (enable_pqc config),
      (is_pqc_mechanism m), (m =? CKM_SHA_1), (allow_sha1_signing config); simpl; split; done.
  - intros Hs. unfold validate_mechanism_for_policy. by rewrite (Hsha Hs).
  - destruct (mech_in supported_mechanisms m) eqn:Em.
    + apply mech_in_spec in Em. destruct (flags_match_supported m Em). tauto.
    + destruct (flags_match_unsupported m Em) as [-> Hf]. split; [|done].
      rewrite <- mech_in_spec, Em. split; [done|by intros []].
Qed.

(** How the services table differs from the policy's list. *)
Lemma service_table m :
  service_is_fips_approved m =
  (is_fips_approved m && negb (m =? CKM_ECDH1_COFACTOR_DERIVE)) ||
  (is_pqc_mechanism m && negb (is_hybrid_mechanism m)).
Proof.
  destruct (mech_in supported_mechanisms m) eqn:Em.
  - apply mech_in_spec in Em. revert m Em. apply Forall_forall.
    repeat (apply Forall_cons; split; [vm_compute; reflexivity|]). apply Forall_nil_2.
  - unfold service_is_fips_approved, approval_status, is_fips_approved, is_pqc_mechanism.
    destruct (mech_in [CKM_HYBRID_X25519_ML_KEM_768; CKM_HYBRID_X25519_ML_KEM_1024] m);
      by unsupported Em.
Qed.

(** The policy's list has no post-quantum, EdDSA or SHA-1 mechanism. *)
Lemma fips_approved_classical m :
  is_fips_approved m = true →
  is_pqc_mechanism m = false ∧ is_eddsa_mechanism m = false ∧ (m =? CKM_SHA_1) = false.
Proof.
  intros Ea. apply mech_in_spec in Ea. revert m Ea. apply Forall_forall.
  repeat (apply Forall_cons; split; [vm_compute; repeat split|]). apply Forall_nil_2.
Qed.

(** In FIPS mode a mechanism passes both gates, the policy check and the
    approved-services check, exactly when it is on the policy's approved list
    other than cofactor ECDH and its RSA key, if the size is known, has 2048
    bits; post-quantum, EdDSA and SHA-1 mechanisms never pass.  The two
    tables disagree on cofactor ECDH, which the policy approves and reports but
    the services table does not know, and on every post-quantum mechanism
    except the hybrid signature, which the services table approves. *)
Theorem fips_mode_admits (config : AlgorithmConfig) (m : Z) (ctx : bool) (bits : option Z) :
  fips_approved_only config = true →
  (validate_mechanism_for_policy m config ctx = Ok () ∧ enforce m config bits = Ok () ↔
     is_fips_approved m = true ∧ m ≠ CKM_ECDH1_COFACTOR_DERIVE ∧
     (m ∈ enforce_rsa_mechanisms → ∀ b, bits = Some b → 2048 <= b)) ∧
  (is_pqc_mechanism m || is_eddsa_mechanism m || (m =? CKM_SHA_1) = true →
     validate_mechanism_for_policy m config ctx = Err CKR_MECHANISM_INVALID) ∧
  (is_fips_approved m ≠ service_is_fips_approved m ↔
     m = CKM_ECDH1_COFACTOR_DERIVE ∨
     is_pqc_mechanism m = true ∧ is_hybrid_mechanism m = false).
Proof.
  intros Hf. unfold validate_mechanism_for_policy, enforce. rewrite Hf, service_table.
  cbn [andb negb]. destruct (is_fips_approved m) eqn:Ea; cbn [negb andb].
  - destruct (fips_approved_classical m Ea) as (Hp & He & Hs). pose proof (service_table m) as Ht.
    rewrite Ea, Hp in Ht. rewrite Hp, He, Hs, andb_false_r. cbn [orb andb] in *.
    unfold service_is_fips_approved in Ht.
    destruct (Z.eqb_spec m CKM_ECDH1_COFACTOR_DERIVE) as [->|Hne]; cbn [negb orb] in *.
    + split_and!; [naive_solver|done|]. split; [by left|done].
    + destruct (approval_status m); try done. split_and!; [|done|naive_solver].
      rewrite <- mech_in_spec. destruct bits as [b|]; [|naive_solver].
      destruct (mech_in enforce_rsa_mechanisms m), (Z.ltb_spec b 2048); cbn [andb];
        (split; [intros [_ H1]; split_and!; try done; intros Ht' b' [= <-]; done
                |intros (_ & _ & Hb); try done; specialize (Hb eq_refl b eq_refl); lia]).
  - assert (Hne : m ≠ CKM_ECDH1_COFACTOR_DERIVE) by (by intros ->).
    split_and!; [naive_solver|done|]. cbn [orb].
    destruct (is_pqc_mechanism m), (is_hybrid_mechanism m); cbn; naive_solver.
Qed.

Lemma fips_mode_admits_witness :
  let config := {| allow_weak_rsa := false; allow_sha1_signing := false; enable_pqc := true;
                   fips_approved_only := true |} in
  enforce CKM_SHA256_RSA_PKCS config (Some 3072) = Ok () ∧
  validate_mechanism_for_policy CKM_EDDSA config true = Err CKR_MECHANISM_INVALID.
Proof.
  intros config.
  destruct (fips_mode_admits config CKM_SHA256_RSA_PKCS true (Some 3072) eq_refl) as [[_ H] _].
  destruct (fips_mode_admits config CKM_EDDSA true None eq_refl) as (_ & He & _).
  split; [|apply He; vm_compute; reflexivity].
  apply H. split; [vm_compute; reflexivity|]. split; [vm_compute; congruence|].
  intros _ b [= <-]. lia.
Defined.
