(* ===== verification/Sign.v ===== *)
(** * Signatures and RSA encryption (src/crypto/sign.rs, src/crypto/pqc.rs,
    src/crypto/digest.rs)

    The validation, caching and dispatch around the signature crates.  The
    crates ([rsa], [p256], [p384], [ed25519-dalek], [ml-dsa], [slh-dsa] and the
    hash functions) are the parameter [SignPrimitives]: parsing a key, signing
    and verifying a message or a digest.  Randomness is an argument: the outcome
    of creating the generator and the bytes it delivers.  [Signer::sign], which
    panics when a validated key cannot sign, is total here.  The three caches of
    parsed RSA keys are the state [RsaCaches]; each is used under its lock, and
    zeroisation of what leaves a cache is not modelled. *)

From S2P Require Import Prelude Pkcs11 Mechanisms.

Inductive Curve := P256 | P384.

(** The hash functions behind the digest mechanisms. *)
Inductive DigestAlg := DSha1 | DSha256 | DSha384 | DSha512 | DSha3_256 | DSha3_384 | DSha3_512.

Class SignPrimitives := {
  digest : DigestAlg → bytes → bytes;
  (** [rsa] *)
  RsaPrivateKey : Type;
  RsaPublicKey : Type;
  from_pkcs8_der : bytes → option RsaPrivateKey;
  private_modulus_bits : RsaPrivateKey → Z;
  public_key_new : Z → Z → option RsaPublicKey;
  pkcs1_sign_message : HashAlg → RsaPrivateKey → bytes → bytes;
  pkcs1_sign_digest : HashAlg → RsaPrivateKey → bytes → option bytes;
  pkcs1_signature_parses : bytes → bool;
  pkcs1_verify_message : HashAlg → RsaPublicKey → bytes → bytes → bool;
  pkcs1_verify_digest : HashAlg → RsaPublicKey → bytes → bytes → bool;
  pss_sign_message : HashAlg → RsaPrivateKey → bytes → bytes → bytes;
  pss_sign_digest : HashAlg → RsaPrivateKey → bytes → bytes → option bytes;
  pss_signature_parses : bytes → bool;
  pss_verify_message : HashAlg → RsaPublicKey → bytes → bytes → bool;
  pss_verify_digest : HashAlg → RsaPublicKey → bytes → bytes → bool;
  oaep_encrypt : OaepHash → RsaPublicKey → bytes → bytes → option bytes;
  oaep_decrypt : OaepHash → RsaPrivateKey → bytes → option bytes;
  (** [p256] and [p384] *)
  ec_signing_key_parses : Curve → bytes → bool;
  ec_sign_message : Curve → bytes → bytes → bytes → bytes;
  ec_sign_digest : Curve → bytes → bytes → bytes → option bytes;
  ec_verifying_key_parses : Curve → bytes → bool;
  ec_signature_parses : Curve → bytes → bool;
  ec_verify_message : Curve → bytes → bytes → bytes → bool;
  ec_verify_digest : Curve → bytes → bytes → bytes → bool;
  (** [ed25519-dalek] *)
  ed_sign : bytes → bytes → bytes;
  ed_verifying_key_parses : bytes → bool;
  ed_verify : bytes → bytes → bytes → bool;
  (** [ml-dsa] and [slh-dsa] *)
  ml_sign : MlDsaVariant → bytes → bytes → bytes;
  ml_verifying_key_parses : MlDsaVariant → bytes → bool;
  ml_signature_parses : MlDsaVariant → bytes → bool;
  ml_verify : MlDsaVariant → bytes → bytes → bytes → bool;
  slh_signing_key_parses : SlhDsaVariant → bytes → bool;
  slh_sign : SlhDsaVariant → bytes → bytes → option bytes;
  slh_verifying_key_parses : SlhDsaVariant → bytes → bool;
  slh_signature_parses : SlhDsaVariant → bytes → bool;
  slh_verify : SlhDsaVariant → bytes → bytes → bytes → bool;
}.

Definition hash_digest (h : HashAlg) : DigestAlg :=
  match h with HSha256 => DSha256 | HSha384 => DSha384 | HSha512 => DSha512 end.
(** The hash the curve crates use on a message. *)
Definition curve_digest (c : Curve) : DigestAlg := match c with P256 => DSha256 | P384 => DSha384 end.
Definition digest_len (d : DigestAlg) : nat :=
  match d with
  | DSha1 => 20
  | DSha256 | DSha3_256 => 32
  | DSha384 | DSha3_384 => 48
  | DSha512 | DSha3_512 => 64
  end.

(** What the crates document: a digest has its algorithm's length, and signing a
    message is signing its digest. *)
Class SignPrimitivesLaws (SP : SignPrimitives) := {
  digest_length d data : length (digest d data) = digest_len d;
  pkcs1_sign_hashes h key data :
    2048 <= private_modulus_bits key →
    pkcs1_sign_digest h key (digest (hash_digest h) data) = Some (pkcs1_sign_message h key data);
  pss_sign_hashes h key rng data :
    2048 <= private_modulus_bits key →
    pss_sign_digest h key rng (digest (hash_digest h) data) = Some (pss_sign_message h key rng data);
  ec_sign_hashes cv key rng data :
    ec_signing_key_parses cv key = true →
    ec_sign_digest cv key rng (digest (curve_digest cv) data) = Some (ec_sign_message cv key rng data);
}.

Definition RSA_KEY_CACHE_MAX : nat := 64.
Definition RSA_MIN_MODULUS_BITS : Z := 2048.
Definition SIGN_MAX_DATA_SIZE : Z := 64 * 1024 * 1024.

(** [BigUint::from_bytes_be] and [u32::to_be_bytes]. *)
Definition from_be_bytes (bs : bytes) : Z := from_le_bytes (rev bs).
Definition to_be_bytes_4 (z : Z) : bytes := rev (to_le_bytes 4 z).

(** ** The insertion-ordered maps *)

Section Lru.
Context {K V : Type} `{EqDecision K}.

Fixpoint map_get (map : list (K * V)) (key : K) : option V :=
  match map with
  | [] => None
  | (k, v) :: map => if decide (k = key) then Some v else map_get map key
  end.

(** [IndexMap::insert]: an existing entry keeps its place. *)
Fixpoint map_insert (map : list (K * V)) (key : K) (value : V) : list (K * V) :=
  match map with
  | [] => [(key, value)]
  | (k, v) :: map =>
    if decide (k = key) then (k, value) :: map else (k, v) :: map_insert map key value
  end.

Definition map_remove (map : list (K * V)) (key : K) : list (K * V) :=
  filter (λ p, p.1 ≠ key) map.

Definition lru_insert (map : list (K * V)) (key : K) (value : V) : list (K * V) :=
  let map := if bool_decide (map_get map key = None) && (RSA_KEY_CACHE_MAX <=? length map)%nat
             then tail map else map in
  map_insert map key value.

(** A hit moves the entry to the back. *)
Definition lru_get (map : list (K * V)) (key : K) : option V * list (K * V) :=
  match map_get map key with
  | None => (None, map)
  | Some v => (Some v, map_remove map key ++ [(key, v)])
  end.
End Lru.

Section Sign.
Context {P : SignPrimitives}.

(** [RSA_KEY_CACHE] (by SHA-256 of the encoding), [RSA_PRIV_CACHE] and
    [RSA_PUB_CACHE] (by slot and handle). *)
Record RsaCaches := {
  rc_der : list (bytes * RsaPrivateKey);
  rc_priv : list ((Z * Z) * RsaPrivateKey);
  rc_pub : list ((Z * Z) * RsaPublicKey);
}.
#[export] Instance RsaCaches_expand : FieldExpansion RsaCaches := λ c,
  Build_RsaCaches (rc_der c) (rc_priv c) (rc_pub c).
Implicit Types c : RsaCaches.

Definition RsaCaches_empty : RsaCaches := {| rc_der := []; rc_priv := []; rc_pub := [] |}.

Definition cache_rsa_private_key (slot_id handle : Z) (key : RsaPrivateKey) c : RsaCaches :=
  c <| rc_priv := lru_insert (rc_priv c) (slot_id, handle) key |>.
Definition get_cached_rsa_private_key (slot_id handle : Z) c :
    option RsaPrivateKey * RsaCaches :=
  let '(r, m) := lru_get (rc_priv c) (slot_id, handle) in (r, c <| rc_priv := m |>).
Definition cache_rsa_public_key (slot_id handle : Z) (key : RsaPublicKey) c : RsaCaches :=
  c <| rc_pub := lru_insert (rc_pub c) (slot_id, handle) key |>.
Definition get_cached_rsa_public_key (slot_id handle : Z) c : option RsaPublicKey * RsaCaches :=
  let '(r, m) := lru_get (rc_pub c) (slot_id, handle) in (r, c <| rc_pub := m |>).

Definition evict_cached_keys (slot_id handle : Z) c : RsaCaches :=
  c <| rc_priv := map_remove (rc_priv c) (slot_id, handle) |>
    <| rc_pub := map_remove (rc_pub c) (slot_id, handle) |>.

Definition clear_rsa_key_cache c : RsaCaches :=
  c <| rc_der := [] |> <| rc_priv := [] |> <| rc_pub := [] |>.

Definition parse_rsa_private_key (der : bytes) c : HsmResult RsaPrivateKey * RsaCaches :=
  let cache_key := digest DSha256 der in
  match lru_get (rc_der c) cache_key with
  | (Some k, m) => (Ok k, c <| rc_der := m |>)
  | (None, _) =>
    match from_pkcs8_der der with
    | None => (Err KeyHandleInvalid, c)
    | Some k => (Ok k, c <| rc_der := lru_insert (rc_der c) cache_key k |>)
    end
  end.

Definition get_or_parse_private_key (slot_id handle : Z) (der : bytes) c :
    HsmResult RsaPrivateKey * RsaCaches :=
  match get_cached_rsa_private_key slot_id handle c with
  | (Some k, c) => (Ok k, c)
  | (None, c) =>
    match from_pkcs8_der der with
    | None => (Err KeyHandleInvalid, c)
    | Some k => (Ok k, cache_rsa_private_key slot_id handle k c)
    end
  end.

Definition get_or_build_public_key (slot_id handle : Z) (modulus public_exponent : bytes) c :
    HsmResult RsaPublicKey * RsaCaches :=
  match get_cached_rsa_public_key slot_id handle c with
  | (Some k, c) => (Ok k, c)
  | (None, c) =>
    match public_key_new (from_be_bytes modulus) (from_be_bytes public_exponent) with
    | None => (Err KeyHandleInvalid, c)
    | Some k => (Ok k, cache_rsa_public_key slot_id handle k c)
    end
  end.

(** ** Validation *)

Definition validate_data_size (data : bytes) : HsmResult unit :=
  if SIGN_MAX_DATA_SIZE <? Z.of_nat (length data) then Err DataLenRange else Ok ().

Definition validate_digest_length (dg : bytes) (hash_alg : HashAlg) : HsmResult unit :=
  let expected_len := match hash_alg with HSha256 => 32 | HSha384 => 48 | HSha512 => 64 end%nat in
  if negb (length dg =? expected_len)%nat then Err DataLenRange else Ok ().

Definition validate_rsa_private_key_size (k : RsaPrivateKey) : HsmResult unit :=
  if private_modulus_bits k <? RSA_MIN_MODULUS_BITS then Err KeySizeRange else Ok ().

(** The significant bytes: what follows the leading zeros. *)
Fixpoint significant_bytes (modulus : bytes) : bytes :=
  match modulus with
  | [] => []
  | b :: rest => if b =? 0 then significant_bytes rest else modulus
  end.

(** Bits of a byte string: [8 - leading_zeros] of a nonzero byte is its
    bit length. *)
Definition modulus_bits (modulus : bytes) : Z :=
  match significant_bytes modulus with
  | [] => 0
  | (b :: _) as bs => (Z.of_nat (length bs) - 1) * 8 + (Z.log2 b + 1)
  end.

Definition validate_rsa_public_key_size (modulus : bytes) : HsmResult unit :=
  if modulus_bits modulus <? RSA_MIN_MODULUS_BITS then Err KeySizeRange else Ok ().

Definition build_public_key (modulus public_exponent : bytes) : HsmResult RsaPublicKey :=
  ok_or (public_key_new (from_be_bytes modulus) (from_be_bytes public_exponent)) KeyHandleInvalid.

(** ** RSA

    Each operation exists twice in the source, by the encoding of the key and
    by its handle; the part after the key is obtained is the same code. *)

(** A check before the caches are used, and what follows obtaining a key. *)
Definition checked {A} (v : HsmResult unit) (k : RsaCaches → HsmResult A * RsaCaches) c :
    HsmResult A * RsaCaches :=
  match v with Err e => (Err e, c) | Ok _ => k c end.
Definition with_key {K A} (r : HsmResult K * RsaCaches) (f : K → HsmResult A) :
    HsmResult A * RsaCaches :=
  (let? k := r.1 in f k, r.2).

Definition pkcs1_sign_with (data : bytes) (hash_alg : option HashAlg) (key : RsaPrivateKey) :
    HsmResult bytes :=
  let? _ := validate_rsa_private_key_size key in
  match hash_alg with
  | Some h => Ok (pkcs1_sign_message h key data)
  | None => Err MechanismParamInvalid
  end.

Definition rsa_pkcs1v15_sign (private_key_der data : bytes) (hash_alg : option HashAlg) c :=
  checked (validate_data_size data) (λ c,
    with_key (parse_rsa_private_key private_key_der c) (pkcs1_sign_with data hash_alg)) c.
Definition rsa_pkcs1v15_sign_cached (slot_id handle : Z) (private_key_der data : bytes)
    (hash_alg : option HashAlg) c :=
  checked (validate_data_size data) (λ c,
    with_key (get_or_parse_private_key slot_id handle private_key_der c)
      (pkcs1_sign_with data hash_alg)) c.

Definition pkcs1_verify_with (data signature : bytes) (hash_alg : option HashAlg)
    (key : RsaPublicKey) : HsmResult bool :=
  match hash_alg with
  | Some h =>
    if pkcs1_signature_parses signature then Ok (pkcs1_verify_message h key data signature)
    else Err SignatureInvalid
  | None => Err MechanismParamInvalid
  end.

Definition rsa_pkcs1v15_verify (modulus public_exponent data signature : bytes)
    (hash_alg : option HashAlg) : HsmResult bool :=
  let? _ := validate_data_size data in
  let? _ := validate_rsa_public_key_size modulus in
  let? key := build_public_key modulus public_exponent in
  pkcs1_verify_with data signature hash_alg key.
Definition rsa_pkcs1v15_verify_cached (slot_id handle : Z)
    (modulus public_exponent data signature : bytes) (hash_alg : option HashAlg) c :=
  checked (validate_data_size data) (checked (validate_rsa_public_key_size modulus) (λ c,
    with_key (get_or_build_public_key slot_id handle modulus public_exponent c)
      (pkcs1_verify_with data signature hash_alg))) c.

(** [rng]: creating the generator, and what it delivers. *)
Definition pss_sign_with (rng : HsmResult bytes) (data : bytes) (hash_alg : HashAlg)
    (key : RsaPrivateKey) : HsmResult bytes :=
  let? _ := validate_rsa_private_key_size key in
  let? r := rng in
  Ok (pss_sign_message hash_alg key r data).

Definition rsa_pss_sign (rng : HsmResult bytes) (private_key_der data : bytes)
    (hash_alg : HashAlg) c :=
  checked (validate_data_size data) (λ c,
    with_key (parse_rsa_private_key private_key_der c) (pss_sign_with rng data hash_alg)) c.
Definition rsa_pss_sign_cached (rng : HsmResult bytes) (slot_id handle : Z)
    (private_key_der data : bytes) (hash_alg : HashAlg) c :=
  checked (validate_data_size data) (λ c,
    with_key (get_or_parse_private_key slot_id handle private_key_der c)
      (pss_sign_with rng data hash_alg)) c.

Definition pss_verify_with (data signature : bytes) (hash_alg : HashAlg) (key : RsaPublicKey) :
    HsmResult bool :=
  if pss_signature_parses signature then Ok (pss_verify_message hash_alg key data signature)
  else Err SignatureInvalid.

Definition rsa_pss_verify (modulus public_exponent data signature : bytes)
    (hash_alg : HashAlg) : HsmResult bool :=
  let? _ := validate_data_size data in
  let? _ := validate_rsa_public_key_size modulus in
  let? key := build_public_key modulus public_exponent in
  pss_verify_with data signature hash_alg key.
Definition rsa_pss_verify_cached (slot_id handle : Z)
    (modulus public_exponent data signature : bytes) (hash_alg : HashAlg) c :=
  checked (validate_data_size data) (checked (validate_rsa_public_key_size modulus) (λ c,
    with_key (get_or_build_public_key slot_id handle modulus public_exponent c)
      (pss_verify_with data signature hash_alg))) c.

Definition oaep_encrypt_with (rng : HsmResult bytes) (plaintext : bytes) (hash_alg : OaepHash)
    (key : RsaPublicKey) : HsmResult bytes :=
  let? r := rng in ok_or (oaep_encrypt hash_alg key r plaintext) GeneralError.

Definition rsa_oaep_encrypt (rng : HsmResult bytes) (modulus public_exponent plaintext : bytes)
    (hash_alg : OaepHash) : HsmResult bytes :=
  let? _ := validate_rsa_public_key_size modulus in
  let? key := build_public_key modulus public_exponent in
  oaep_encrypt_with rng plaintext hash_alg key.
Definition rsa_oaep_encrypt_cached (rng : HsmResult bytes) (slot_id handle : Z)
    (modulus public_exponent plaintext : bytes) (hash_alg : OaepHash) c :=
  checked (validate_rsa_public_key_size modulus) (λ c,
    with_key (get_or_build_public_key slot_id handle modulus public_exponent c)
      (oaep_encrypt_with rng plaintext hash_alg)) c.

Definition oaep_decrypt_with (ciphertext : bytes) (hash_alg : OaepHash) (key : RsaPrivateKey) :
    HsmResult bytes :=
  let? _ := validate_rsa_private_key_size key in
  ok_or (oaep_decrypt hash_alg key ciphertext) EncryptedDataInvalid.

Definition rsa_oaep_decrypt (private_key_der ciphertext : bytes) (hash_alg : OaepHash) c :=
  with_key (parse_rsa_private_key private_key_der c) (oaep_decrypt_with ciphertext hash_alg).
Definition rsa_oaep_decrypt_cached (slot_id handle : Z) (private_key_der ciphertext : bytes)
    (hash_alg : OaepHash) c :=
  with_key (get_or_parse_private_key slot_id handle private_key_der c)
    (oaep_decrypt_with ciphertext hash_alg).

(** *** With a digest computed beforehand *)

Definition pkcs1_sign_digest_with (dg : bytes) (hash_alg : HashAlg) (key : RsaPrivateKey) :
    HsmResult bytes :=
  let? _ := validate_rsa_private_key_size key in
  ok_or (pkcs1_sign_digest hash_alg key dg) GeneralError.

Definition rsa_pkcs1v15_sign_prehashed (private_key_der dg : bytes) (hash_alg : HashAlg) c :=
  checked (validate_digest_length dg hash_alg) (λ c,
    with_key (parse_rsa_private_key private_key_der c) (pkcs1_sign_digest_with dg hash_alg)) c.
Definition rsa_pkcs1v15_sign_prehashed_cached (slot_id handle : Z) (private_key_der dg : bytes)
    (hash_alg : HashAlg) c :=
  checked (validate_digest_length dg hash_alg) (λ c,
    with_key (get_or_parse_private_key slot_id handle private_key_der c)
      (pkcs1_sign_digest_with dg hash_alg)) c.

Definition rsa_pkcs1v15_verify_prehashed (modulus public_exponent dg signature : bytes)
    (hash_alg : HashAlg) : HsmResult bool :=
  let? _ := validate_digest_length dg hash_alg in
  let? _ := validate_rsa_public_key_size modulus in
  let? key := build_public_key modulus public_exponent in
  Ok (pkcs1_verify_digest hash_alg key dg signature).
Definition rsa_pkcs1v15_verify_prehashed_cached (slot_id handle : Z)
    (modulus public_exponent dg signature : bytes) (hash_alg : HashAlg) c :=
  checked (validate_digest_length dg hash_alg) (checked (validate_rsa_public_key_size modulus) (λ c,
    with_key (get_or_build_public_key slot_id handle modulus public_exponent c)
      (λ key, Ok (pkcs1_verify_digest hash_alg key dg signature)))) c.

Definition pss_sign_digest_with (rng : HsmResult bytes) (dg : bytes) (hash_alg : HashAlg)
    (key : RsaPrivateKey) : HsmResult bytes :=
  let? _ := validate_rsa_private_key_size key in
  let? r := rng in
  ok_or (pss_sign_digest hash_alg key r dg) GeneralError.

Definition rsa_pss_sign_prehashed (rng : HsmResult bytes) (private_key_der dg : bytes)
    (hash_alg : HashAlg) c :=
  checked (validate_digest_length dg hash_alg) (λ c,
    with_key (parse_rsa_private_key private_key_der c) (pss_sign_digest_with rng dg hash_alg)) c.
Definition rsa_pss_sign_prehashed_cached (rng : HsmResult bytes) (slot_id handle : Z)
    (private_key_der dg : bytes) (hash_alg : HashAlg) c :=
  checked (validate_digest_length dg hash_alg) (λ c,
    with_key (get_or_parse_private_key slot_id handle private_key_der c)
      (pss_sign_digest_with rng dg hash_alg)) c.

Definition pss_verify_digest_with (dg signature : bytes) (hash_alg : HashAlg)
    (key : RsaPublicKey) : HsmResult bool :=
  if pss_signature_parses signature then Ok (pss_verify_digest hash_alg key dg signature)
  else Err SignatureInvalid.

Definition rsa_pss_verify_prehashed (modulus public_exponent dg signature : bytes)
    (hash_alg : HashAlg) : HsmResult bool :=
  let? _ := validate_digest_length dg hash_alg in
  let? _ := validate_rsa_public_key_size modulus in
  let? key := build_public_key modulus public_exponent in
  pss_verify_digest_with dg signature hash_alg key.
Definition rsa_pss_verify_prehashed_cached (slot_id handle : Z)
    (modulus public_exponent dg signature : bytes) (hash_alg : HashAlg) c :=
  checked (validate_digest_length dg hash_alg) (checked (validate_rsa_public_key_size modulus) (λ c,
    with_key (get_or_build_public_key slot_id handle modulus public_exponent c)
      (pss_verify_digest_with dg signature hash_alg))) c.

(** ** Elliptic curves: the P-256 and P-384 functions are the same code *)

Definition ecdsa_sign (cv : Curve) (rng : HsmResult bytes) (private_key_bytes data : bytes) :
    HsmResult bytes :=
  let? _ := validate_data_size data in
  if negb (ec_signing_key_parses cv private_key_bytes) then Err KeyHandleInvalid
  else let? r := rng in Ok (ec_sign_message cv private_key_bytes r data).

Definition ecdsa_verify (cv : Curve) (public_key_sec1 data signature_der : bytes) :
    HsmResult bool :=
  let? _ := validate_data_size data in
  if negb (ec_verifying_key_parses cv public_key_sec1) then Err KeyHandleInvalid
  else if negb (ec_signature_parses cv signature_der) then Err SignatureInvalid
  else Ok (ec_verify_message cv public_key_sec1 data signature_der).

(** The length of the digest each curve's functions ask for. *)
Definition curve_hash (cv : Curve) : HashAlg := match cv with P256 => HSha256 | P384 => HSha384 end.

Definition ecdsa_sign_prehashed (cv : Curve) (rng : HsmResult bytes)
    (private_key_bytes dg : bytes) : HsmResult bytes :=
  let? _ := validate_digest_length dg (curve_hash cv) in
  if negb (ec_signing_key_parses cv private_key_bytes) then Err KeyHandleInvalid
  else let? r := rng in ok_or (ec_sign_digest cv private_key_bytes r dg) GeneralError.

Definition ecdsa_verify_prehashed (cv : Curve) (public_key_sec1 dg signature_der : bytes) :
    HsmResult bool :=
  let? _ := validate_digest_length dg (curve_hash cv) in
  if negb (ec_verifying_key_parses cv public_key_sec1) then Err KeyHandleInvalid
  else if negb (ec_signature_parses cv signature_der) then Err SignatureInvalid
  else Ok (ec_verify_digest cv public_key_sec1 dg signature_der).

(** ** Ed25519 *)

Definition ed25519_sign (private_key_bytes data : bytes) : HsmResult bytes :=
  let? _ := validate_data_size data in
  if negb (length private_key_bytes =? 32)%nat then Err KeyHandleInvalid
  else Ok (ed_sign private_key_bytes data).

Definition ed25519_verify (public_key_bytes data signature_bytes : bytes) : HsmResult bool :=
  let? _ := validate_data_size data in
  if negb (length public_key_bytes =? 32)%nat then Err KeyHandleInvalid
  else if negb (ed_verifying_key_parses public_key_bytes) then Err KeyHandleInvalid
  else if negb (length signature_bytes =? 64)%nat then Err SignatureInvalid
  else Ok (ed_verify public_key_bytes data signature_bytes).

(** ** Post-quantum signatures (src/crypto/pqc.rs) *)

Definition ml_dsa_sign (signing_key_seed data : bytes) (variant : MlDsaVariant) : HsmResult bytes :=
  if negb (length signing_key_seed =? 32)%nat then Err KeyHandleInvalid
  else Ok (ml_sign variant signing_key_seed data).

Definition ml_dsa_verify (verifying_key_bytes data signature : bytes) (variant : MlDsaVariant) :
    HsmResult bool :=
  if negb (ml_verifying_key_parses variant verifying_key_bytes) then Err KeyHandleInvalid
  else if negb (ml_signature_parses variant signature) then Err SignatureInvalid
  else Ok (ml_verify variant verifying_key_bytes data signature).

Definition slh_dsa_sign (signing_key_bytes data : bytes) (variant : SlhDsaVariant) :
    HsmResult bytes :=
  if negb (slh_signing_key_parses variant signing_key_bytes) then Err KeyHandleInvalid
  else ok_or (slh_sign variant signing_key_bytes data) GeneralError.

Definition slh_dsa_verify (verifying_key_bytes data signature : bytes) (variant : SlhDsaVariant) :
    HsmResult bool :=
  if negb (slh_verifying_key_parses variant verifying_key_bytes) then Err KeyHandleInvalid
  else if negb (slh_signature_parses variant signature) then Err SignatureInvalid
  else Ok (slh_verify variant verifying_key_bytes data signature).

Definition hybrid_sign (rng : HsmResult bytes) (ml_dsa_sk_seed ecdsa_sk_bytes data : bytes) :
    HsmResult bytes :=
  let? ml_sig := ml_dsa_sign ml_dsa_sk_seed data MlDsa65 in
  let? ec_sig := ecdsa_sign P256 rng ecdsa_sk_bytes data in
  Ok (to_be_bytes_4 (wrap 32 (Z.of_nat (length ml_sig))) ++ ml_sig ++ ec_sig).

(** [unwrap_or(false)]. *)
Definition unwrap_or_false (r : HsmResult bool) : bool := match r with Ok b => b | Err _ => false end.

(** On a 64-bit platform [4 + ml_len] does not overflow. *)
Definition hybrid_verify (ml_dsa_vk_bytes ecdsa_pk_sec1 data combined_signature : bytes) :
    HsmResult bool :=
  if (length combined_signature <? 4)%nat then Err SignatureInvalid
  else
    let ml_len := from_be_bytes (take 4 combined_signature) in
    let total_ml := 4 + ml_len in
    if Z.of_nat (length combined_signature) <? total_ml then Err SignatureInvalid
    else
      let ml_sig := take (Z.to_nat ml_len) (drop 4 combined_signature) in
      let ec_sig := drop (Z.to_nat total_ml) combined_signature in
      let ml_valid := unwrap_or_false (ml_dsa_verify ml_dsa_vk_bytes data ml_sig MlDsa65) in
      let ec_valid := unwrap_or_false (ecdsa_verify P256 ecdsa_pk_sec1 data ec_sig) in
      Ok (ml_valid && ec_valid).

(** ** Digests (src/crypto/digest.rs) *)

Definition digest_alg (mechanism : Z) : option DigestAlg :=
  if mechanism =? CKM_SHA_1 then Some DSha1
  else if mechanism =? CKM_SHA256 then Some DSha256
  else if mechanism =? CKM_SHA384 then Some DSha384
  else if mechanism =? CKM_SHA512 then Some DSha512
  else if mechanism =? CKM_SHA3_256 then Some DSha3_256
  else if mechanism =? CKM_SHA3_384 then Some DSha3_384
  else if mechanism =? CKM_SHA3_512 then Some DSha3_512
  else None.

Definition compute_digest (mechanism : Z) (data : bytes) : HsmResult bytes :=
  match digest_alg mechanism with
  | Some d => Ok (digest d data)
  | None => Err MechanismInvalid
  end.

Definition digest_output_len (mechanism : Z) : HsmResult nat :=
  match digest_alg mechanism with
  | Some d => Ok (digest_len d)
  | None => Err MechanismInvalid
  end.

(** A running hash is the bytes fed to it; [finalize] under its mechanism. *)
Definition create_hasher (mechanism : Z) : HsmResult bytes :=
  match digest_alg mechanism with Some _ => Ok [] | None => Err MechanismInvalid end.
Definition hasher_update (data hasher : bytes) : bytes := hasher ++ data.
Definition hasher_finalize (d : DigestAlg) (hasher : bytes) : bytes := digest d hasher.
End Sign.
