(* ===== verification/SignProofs.v ===== *)
(** * Theorems on the caches of parsed RSA keys

    The RSA operations by handle give what parsing the key on every call gives,
    as long as a handle keeps its key, and the caches stay small. *)

From S2P Require Import Prelude Pkcs11 Mechanisms Sign.

Section LruProofs.
Context {K V : Type} `{EqDecision K}.
Implicit Types (m : list (K * V)) (f : K → option V).

(** A cache of [f]: at most [RSA_KEY_CACHE_MAX] entries, one per key, each the
    value of its key. *)
Record lru_ok f m : Prop := {
  lru_size : (length m <= RSA_KEY_CACHE_MAX)%nat;
  lru_nodup : NoDup m.*1;
  lru_sound : ∀ k v, (k, v) ∈ m → f k = Some v;
}.

Lemma map_get_elem m k v : map_get m k = Some v → (k, v) ∈ m.
Proof.
  induction m as [|[k' v'] m IH]; simpl; [done|]. case_decide; [|set_solver].
  intros. simplify_eq. set_solver.
Qed.
Lemma map_get_None m k : map_get m k = None → k ∉ m.*1.
Proof.
  induction m as [|[k' v'] m IH]; simpl; [set_solver|]. case_decide; [done|set_solver].
Qed.

Lemma map_insert_fresh m k v : k ∉ m.*1 → map_insert m k v = m ++ [(k, v)].
Proof.
  induction m as [|[k' v'] m IH]; simpl; [done|]. intros Hk.
  rewrite decide_False by set_solver. rewrite IH by set_solver. done.
Qed.

Lemma lru_ok_empty f : lru_ok f [].
Proof. split; [simpl; lia|constructor|set_solver]. Qed.

Lemma map_remove_nodup m k : NoDup m.*1 → NoDup (map_remove m k).*1.
Proof.
  unfold map_remove. induction m as [|[k' v] m IH]; simpl; [done|].
  intros [Hk Hn]%NoDup_cons. rewrite filter_cons. case_decide; simpl; [|by apply IH].
  apply NoDup_cons. split; [|by apply IH]. contradict Hk.
  apply list_elem_of_fmap in Hk as ([k1 v1] & -> & [_ Hin]%list_elem_of_filter).
  apply list_elem_of_fmap. by exists (k1, v1).
Qed.

Lemma lru_ok_remove f m k : lru_ok f m → lru_ok f (map_remove m k).
Proof.
  intros [Hl Hn Hs]. unfold map_remove. split.
  - etrans; [apply length_filter|done].
  - by apply map_remove_nodup.
  - intros k' v [_ Hin]%list_elem_of_filter. by apply Hs.
Qed.

Lemma map_remove_notin m k : k ∉ (map_remove m k).*1.
Proof.
  unfold map_remove. intros ([k' v] & -> & [Hne _]%list_elem_of_filter)%list_elem_of_fmap.
  by apply Hne.
Qed.

Lemma lru_ok_snoc f m k v :
  lru_ok f m → k ∉ m.*1 → f k = Some v → (length m < RSA_KEY_CACHE_MAX)%nat →
  lru_ok f (m ++ [(k, v)]).
Proof.
  intros [Hl Hn Hs] Hk Hf Hlen. split.
  - rewrite length_app. simpl. lia.
  - rewrite fmap_app. apply NoDup_app. split_and!; [done|set_solver|apply NoDup_singleton].
  - intros k' v' [Hin|Hin]%elem_of_app; [by apply Hs|].
    apply list_elem_of_singleton in Hin. by simplify_eq.
Qed.

Lemma length_map_remove_in m k v :
  (k, v) ∈ m → (length (map_remove m k) < length m)%nat.
Proof.
  intros Hin. unfold map_remove. eapply length_filter_lt; [exact Hin|]. simpl. naive_solver.
Qed.

Lemma lru_get_ok f m k :
  lru_ok f m → (lru_get m k).1 = map_get m k ∧ lru_ok f (lru_get m k).2.
Proof.
  intros Hm. unfold lru_get. destruct (map_get m k) as [v|] eqn:Hg; [|done].
  split; [done|]. apply map_get_elem in Hg as Hin. apply lru_ok_snoc.
  - by apply lru_ok_remove.
  - apply map_remove_notin.
  - by apply (lru_sound f m).
  - eapply Nat.lt_le_trans; [by eapply length_map_remove_in|apply (lru_size f m Hm)].
Qed.

Lemma lru_ok_tail f m : lru_ok f m → lru_ok f (tail m).
Proof.
  intros [Hl Hn Hs]. destruct m as [|x m]; [by split|]. simpl in *.
  apply NoDup_cons in Hn as [_ Hn]. split; [lia|done|set_solver].
Qed.

Lemma lru_insert_ok f m k v :
  lru_ok f m → map_get m k = None → f k = Some v → lru_ok f (lru_insert m k v).
Proof.
  intros Hm Hg Hf. unfold lru_insert. rewrite Hg, bool_decide_eq_true_2 by done. cbn [andb].
  apply map_get_None in Hg.
  destruct (Nat.leb_spec RSA_KEY_CACHE_MAX (length m)) as [Hle|Hlt].
  - assert (k ∉ (tail m).*1) by (destruct m; set_solver).
    rewrite map_insert_fresh by done. apply lru_ok_snoc; [by apply lru_ok_tail|done|done|].
    pose proof (lru_size f m Hm). destruct m; simpl in *; unfold RSA_KEY_CACHE_MAX in *; lia.
  - rewrite map_insert_fresh by done. by apply lru_ok_snoc.
Qed.
End LruProofs.

(** ** The operations by handle *)

Inductive RsaCall :=
| RSign (slot handle : Z) (data : bytes) (h : option HashAlg)
| RSignDer (der data : bytes) (h : option HashAlg)
| RPssSign (rng : HsmResult bytes) (slot handle : Z) (data : bytes) (h : HashAlg)
| RSignDigest (slot handle : Z) (dg : bytes) (h : HashAlg)
| RPssSignDigest (rng : HsmResult bytes) (slot handle : Z) (dg : bytes) (h : HashAlg)
| RDecrypt (slot handle : Z) (ciphertext : bytes) (h : OaepHash)
| RVerify (slot handle : Z) (data signature : bytes) (h : option HashAlg)
| RPssVerify (slot handle : Z) (data signature : bytes) (h : HashAlg)
| RVerifyDigest (slot handle : Z) (dg signature : bytes) (h : HashAlg)
| RPssVerifyDigest (slot handle : Z) (dg signature : bytes) (h : HashAlg)
| REncrypt (rng : HsmResult bytes) (slot handle : Z) (plaintext : bytes) (h : OaepHash)
| REvict (slot handle : Z).

Inductive RsaAnswer := RBytes (r : HsmResult bytes) | RBool (r : HsmResult bool) | RDone.

Section RsaCacheProofs.
Context {SP : SignPrimitives}.
(** The private and the public key behind every handle, and an inverse of
    SHA-256 on the encodings signed with by value. *)
Variable priv : Z → Z → bytes.
Variable pub : Z → Z → bytes * bytes.
Variable unhash : bytes → bytes.
Implicit Types c : RsaCaches.

(** The call with the caches. *)
Definition rsa_call (k : RsaCall) c : RsaAnswer * RsaCaches :=
  let by_bytes (r : HsmResult bytes * RsaCaches) := (RBytes r.1, r.2) in
  let by_bool (r : HsmResult bool * RsaCaches) := (RBool r.1, r.2) in
  match k with
  | RSign s o data h => by_bytes (rsa_pkcs1v15_sign_cached s o (priv s o) data h c)
  | RSignDer der data h => by_bytes (rsa_pkcs1v15_sign der data h c)
  | RPssSign rng s o data h => by_bytes (rsa_pss_sign_cached rng s o (priv s o) data h c)
  | RSignDigest s o dg h => by_bytes (rsa_pkcs1v15_sign_prehashed_cached s o (priv s o) dg h c)
  | RPssSignDigest rng s o dg h =>
    by_bytes (rsa_pss_sign_prehashed_cached rng s o (priv s o) dg h c)
  | RDecrypt s o ct h => by_bytes (rsa_oaep_decrypt_cached s o (priv s o) ct h c)
  | RVerify s o data sg h =>
    by_bool (rsa_pkcs1v15_verify_cached s o (pub s o).1 (pub s o).2 data sg h c)
  | RPssVerify s o data sg h =>
    by_bool (rsa_pss_verify_cached s o (pub s o).1 (pub s o).2 data sg h c)
  | RVerifyDigest s o dg sg h =>
    by_bool (rsa_pkcs1v15_verify_prehashed_cached s o (pub s o).1 (pub s o).2 dg sg h c)
  | RPssVerifyDigest s o dg sg h =>
    by_bool (rsa_pss_verify_prehashed_cached s o (pub s o).1 (pub s o).2 dg sg h c)
  | REncrypt rng s o pt h =>
    by_bytes (rsa_oaep_encrypt_cached rng s o (pub s o).1 (pub s o).2 pt h c)
  | REvict s o => (RDone, evict_cached_keys s o c)
  end.

(** The call with every key parsed afresh. *)
Definition parsed (der : bytes) : HsmResult RsaPrivateKey := ok_or (from_pkcs8_der der) KeyHandleInvalid.
Definition rsa_plain (k : RsaCall) : RsaAnswer :=
  match k with
  | RSign s o data h =>
    RBytes (let? _ := validate_data_size data in
            let? key := parsed (priv s o) in pkcs1_sign_with data h key)
  | RSignDer der data h =>
    RBytes (let? _ := validate_data_size data in
            let? key := parsed der in pkcs1_sign_with data h key)
  | RPssSign rng s o data h =>
    RBytes (let? _ := validate_data_size data in
            let? key := parsed (priv s o) in pss_sign_with rng data h key)
  | RSignDigest s o dg h =>
    RBytes (let? _ := validate_digest_length dg h in
            let? key := parsed (priv s o) in pkcs1_sign_digest_with dg h key)
  | RPssSignDigest rng s o dg h =>
    RBytes (let? _ := validate_digest_length dg h in
            let? key := parsed (priv s o) in pss_sign_digest_with rng dg h key)
  | RDecrypt s o ct h => RBytes (let? key := parsed (priv s o) in oaep_decrypt_with ct h key)
  | RVerify s o data sg h => RBool (rsa_pkcs1v15_verify (pub s o).1 (pub s o).2 data sg h)
  | RPssVerify s o data sg h => RBool (rsa_pss_verify (pub s o).1 (pub s o).2 data sg h)
  | RVerifyDigest s o dg sg h =>
    RBool (rsa_pkcs1v15_verify_prehashed (pub s o).1 (pub s o).2 dg sg h)
  | RPssVerifyDigest s o dg sg h =>
    RBool (rsa_pss_verify_prehashed (pub s o).1 (pub s o).2 dg sg h)
  | REncrypt rng s o pt h => RBytes (rsa_oaep_encrypt rng (pub s o).1 (pub s o).2 pt h)
  | REvict _ _ => RDone
  end.

Definition built (key : bytes * bytes) : option RsaPublicKey :=
  public_key_new (from_be_bytes key.1) (from_be_bytes key.2).

Record caches_ok c : Prop := {
  ok_der : lru_ok (λ h, from_pkcs8_der (unhash h)) (rc_der c);
  ok_priv : lru_ok (λ k, from_pkcs8_der (priv k.1 k.2)) (rc_priv c);
  ok_pub : lru_ok (λ k, built (pub k.1 k.2)) (rc_pub c);
}.

Lemma get_or_parse_ok s o c :
  caches_ok c →
  (get_or_parse_private_key s o (priv s o) c).1 = parsed (priv s o) ∧
  caches_ok (get_or_parse_private_key s o (priv s o) c).2.
Proof.
  intros [Hd Hp Hu]. unfold get_or_parse_private_key, get_cached_rsa_private_key, parsed.
  pose proof (lru_get_ok _ _ (s, o) Hp) as [Hg Hok]. revert Hg Hok.
  unfold lru_get. destruct (map_get (rc_priv c) (s, o)) as [k|] eqn:E; cbn [fst snd];
    intros _ Hok.
  - apply map_get_elem, (lru_sound _ _ Hp) in E. simpl in E. by rewrite E.
  - destruct (from_pkcs8_der (priv s o)) as [k|] eqn:Ek; cbn [fst snd ok_or]; (split; [done|]);
      split; try done. by apply lru_insert_ok.
Qed.

Lemma get_or_build_ok s o c :
  caches_ok c →
  (get_or_build_public_key s o (pub s o).1 (pub s o).2 c).1 =
    build_public_key (pub s o).1 (pub s o).2 ∧
  caches_ok (get_or_build_public_key s o (pub s o).1 (pub s o).2 c).2.
Proof.
  intros [Hd Hp Hu]. unfold get_or_build_public_key, get_cached_rsa_public_key, build_public_key.
  pose proof (lru_get_ok _ _ (s, o) Hu) as [Hg Hok]. revert Hg Hok.
  unfold lru_get. destruct (map_get (rc_pub c) (s, o)) as [k|] eqn:E; cbn [fst snd];
    intros _ Hok.
  - apply map_get_elem, (lru_sound _ _ Hu) in E. unfold built in E. cbn [fst snd] in E. by rewrite E.
  - fold (built (pub s o)). destruct (built (pub s o)) as [k|] eqn:Ek; cbn [fst snd ok_or];
      (split; [done|]); split; try done. by apply lru_insert_ok.
Qed.

Lemma parse_ok der c :
  caches_ok c → unhash (digest DSha256 der) = der →
  (parse_rsa_private_key der c).1 = parsed der ∧ caches_ok (parse_rsa_private_key der c).2.
Proof.
  intros [Hd Hp Hu] Hun. unfold parse_rsa_private_key, parsed.
  pose proof (lru_get_ok _ _ (digest DSha256 der) Hd) as [Hg Hok]. revert Hg Hok.
  unfold lru_get. destruct (map_get (rc_der c) _) as [k|] eqn:E; cbn [fst snd]; intros _ Hok.
  - apply map_get_elem, (lru_sound _ _ Hd) in E. simpl in E. rewrite Hun in E. by rewrite E.
  - destruct (from_pkcs8_der der) as [k|] eqn:Ek; cbn [fst snd ok_or]; (split; [done|]);
      split; try done. apply lru_insert_ok; [done|done|]. by rewrite Hun.
Qed.

(** A cached operation, its key obtained by any of the three ways. *)
Lemma checked_with_key {K T} (v : HsmResult unit) (get : RsaCaches → HsmResult K * RsaCaches)
    (key : HsmResult K) (f : K → HsmResult T) c :
  caches_ok c → (get c).1 = key ∧ caches_ok (get c).2 →
  (checked v (λ c, with_key (get c) f) c).1 = (let? _ := v in let? k := key in f k) ∧
  caches_ok (checked v (λ c, with_key (get c) f) c).2.
Proof. intros Hc [<- Hg]. by destruct v. Qed.

Lemma checked_twice {T} (v w : HsmResult unit) (k : RsaCaches → HsmResult T * RsaCaches) r c :
  caches_ok c →
  (checked w k c).1 = (let? _ := w in r) ∧ caches_ok (checked w k c).2 →
  (checked v (checked w k) c).1 = (let? _ := v in let? _ := w in r) ∧
  caches_ok (checked v (checked w k) c).2.
Proof. intros Hc [H1 H2]. by destruct v. Qed.

Definition der_of (k : RsaCall) : list bytes := match k with RSignDer der _ _ => [der] | _ => [] end.

Lemma rsa_call_ok k c :
  caches_ok c → Forall (λ der, unhash (digest DSha256 der) = der) (der_of k) →
  (rsa_call k c).1 = rsa_plain k ∧ caches_ok (rsa_call k c).2.
Proof.
  intros Hc Hd.
  assert (∀ {T} (mk : HsmResult T → RsaAnswer) (r : HsmResult T * RsaCaches) x,
    r.1 = x ∧ caches_ok r.2 → (mk r.1, r.2).1 = mk x ∧ caches_ok (mk r.1, r.2).2) as Hmk
    by (intros T mk r x [<- ?]; done).
  destruct k; cbn [rsa_call rsa_plain].
  12: { split; [done|]. destruct Hc as [Hd' Hp Hu].
        split; [done|by apply lru_ok_remove|by apply lru_ok_remove]. }
  2: { cbn [der_of] in Hd. apply Forall_cons in Hd as [Hd _]. apply Hmk, checked_with_key; [done|].
       exact (parse_ok _ _ Hc Hd). }
  all: apply Hmk.
  1-4: apply checked_with_key; [done|]; by apply get_or_parse_ok.
  1: { apply (checked_with_key (Ok ())); [done|]. by apply get_or_parse_ok. }
  5: { apply checked_with_key; [done|]. by apply get_or_build_ok. }
  all: apply checked_twice; [done|]; apply checked_with_key; [done|]; by apply get_or_build_ok.
Qed.

(** A run of calls, with its answers. *)
Fixpoint rsa_run (ks : list RsaCall) c : list RsaAnswer * RsaCaches :=
  match ks with
  | [] => ([], c)
  | k :: ks =>
    let '(a, c) := rsa_call k c in
    let '(rest, c) := rsa_run ks c in (a :: rest, c)
  end.

Lemma rsa_run_ok ks c :
  caches_ok c → Forall (λ der, unhash (digest DSha256 der) = der) (ks ≫= der_of) →
  (rsa_run ks c).1 = rsa_plain <$> ks ∧ caches_ok (rsa_run ks c).2.
Proof.
  revert c. induction ks as [|k ks IH]; intros c Hc; cbn [rsa_run]; [done|].
  cbn [mbind list_bind]. intros [Hk Hks]%Forall_app. pose proof (rsa_call_ok k c Hc Hk) as [Ha Hc'].
  destruct (rsa_call k c) as [a c']. cbn [fst snd] in *. destruct (IH c' Hc' Hks) as [Hr Hc''].
  destruct (rsa_run ks c') as [rest c'']. cbn [fst snd] in *. by rewrite Ha, Hr.
Qed.

End RsaCacheProofs.

(** ** An instance *)

Definition toy_digest (d : DigestAlg) (data : bytes) : bytes :=
  take (digest_len d) (data ++ replicate (digest_len d) 0).

(** A signature is the key followed by the digest. *)
Definition toy_sign : SignPrimitives := {|
  digest := toy_digest;
  RsaPrivateKey := bytes;
  RsaPublicKey := Z * Z;
  from_pkcs8_der der := match der with [] => None | _ => Some der end;
  private_modulus_bits _ := 2048;
  public_key_new n e := Some (n, e);
  pkcs1_sign_message h key data := key ++ toy_digest (hash_digest h) data;
  pkcs1_sign_digest _ key dg := Some (key ++ dg);
  pkcs1_signature_parses _ := true;
  pkcs1_verify_message _ _ _ _ := true;
  pkcs1_verify_digest _ _ _ _ := true;
  pss_sign_message h key rng data := key ++ rng ++ toy_digest (hash_digest h) data;
  pss_sign_digest _ key rng dg := Some (key ++ rng ++ dg);
  pss_signature_parses _ := true;
  pss_verify_message _ _ _ _ := true;
  pss_verify_digest _ _ _ _ := true;
  oaep_encrypt _ _ rng data := Some (rng ++ data);
  oaep_decrypt _ _ data := Some data;
  ec_signing_key_parses _ _ := true;
  ec_sign_message cv key rng data := key ++ rng ++ toy_digest (curve_digest cv) data;
  ec_sign_digest _ key rng dg := Some (key ++ rng ++ dg);
  ec_verifying_key_parses _ _ := true;
  ec_signature_parses _ _ := true;
  ec_verify_message _ _ _ _ := true;
  ec_verify_digest _ _ _ _ := true;
  ed_sign key data := key ++ data;
  ed_verifying_key_parses _ := true;
  ed_verify _ _ _ := true;
  ml_sign _ key data := key ++ data;
  ml_verifying_key_parses _ _ := true;
  ml_signature_parses _ _ := true;
  ml_verify _ _ _ _ := true;
  slh_signing_key_parses _ _ := true;
  slh_sign _ key data := Some (key ++ data);
  slh_verifying_key_parses _ _ := true;
  slh_signature_parses _ _ := true;
  slh_verify _ _ _ _ := true;
|}.

#[export] Instance toy_sign_laws : SignPrimitivesLaws toy_sign.
Proof.
  split; try done. intros d data. unfold toy_sign, toy_digest; cbn [digest].
  rewrite length_take, length_app, length_replicate. lia.
Qed.

Section SignWitness.
#[local] Existing Instance toy_sign.

Definition demo_rsa_calls : list RsaCall :=
  [RSign 0 5 [1] (Some HSha256); RSign 0 5 [2] (Some HSha256); RSignDer [7; 8] [1] (Some HSha384);
   RVerify 0 6 [1] [9] None; REvict 0 5; RPssSign (Ok [3]) 0 5 [1] HSha512].

End SignWitness.
