(* ===== verification/Operations.v ===== *)
(** * Cryptographic operations of the PKCS#11 interface

    The encryption, decryption, signature, verification and digest functions of
    src/pkcs11_abi/functions.rs, single-part and multi-part, saving and
    restoring an operation's state, and random numbers, on the state of Abi.v.
    The backend is the RustCrypto one (src/crypto/rustcrypto_backend.rs, which
    forwards to src/crypto/encrypt.rs and src/crypto/sign.rs).

    A multi-part operation holds a reference to its key object
    ([cached_object], an [Arc]).  While the object is in the store the reference
    and the store share it; once the store drops or replaces it the operation
    keeps the object it had.  [cc_refs] records this for every reference.

    A pointer argument is an option, [None] for null; for an output buffer only
    whether it is null matters, and what is written to it is part of the result.
    A panic inside a call is turned into [CKR_GENERAL_ERROR] by the wrapper. *)

From S2P Require Import Prelude Pkcs11 Handles Hash PinCrypto TokenFiles Token Session SessionManager Dates Objects ObjectStore AuditChain Encrypt Abi Mechanisms Sign.

Definition MAX_MULTIPART_ACCUMULATION : Z := 64 * 1024 * 1024.
Definition MAX_SINGLE_BUFFER : Z := 64 * 1024 * 1024.

(** [CK_MECHANISM]. *)
Record CK_MECHANISM := { m_mechanism : Z; m_parameter : option bytes }.

Definition extract_mechanism_param (m : CK_MECHANISM) : bytes :=
  match m_parameter m with
  | None => []
  | Some p => if MAX_SINGLE_BUFFER <? blen p then [] else p
  end.

(** The size of a stored key in bits; the casts keep 32 bits. *)
Definition stored_key_bits (o : StoredObject) : option Z :=
  match o_modulus_bits o with
  | Some bits => Some (wrap 32 bits)
  | None =>
    match o_value_len o with
    | Some n => Some (saturating_mul u32_max (wrap 32 n) 8)
    | None => None
    end
  end.

Definition parse_oaep_hash (mech_param : bytes) : Result Z OaepHash :=
  if (8 <=? length mech_param)%nat then
    let hash_mech := from_le_bytes (take 8 mech_param) in
    if hash_mech =? CKM_SHA_1 then Err CKR_MECHANISM_PARAM_INVALID
    else if hash_mech =? CKM_SHA256 then Ok OaepSha256
    else if hash_mech =? CKM_SHA384 then Ok OaepSha384
    else if hash_mech =? CKM_SHA512 then Ok OaepSha512
    else Err CKR_MECHANISM_PARAM_INVALID
  else Err CKR_MECHANISM_PARAM_INVALID.

(** The object identifier of secp384r1. *)
Definition P384_OID : bytes := [6; 5; 43; 129; 4; 0; 34].

(** [slice::windows(n).any(..)]: does [pat] occur in the list? *)
Fixpoint occurs (pat bs : bytes) : bool :=
  bool_decide (take (length pat) bs = pat) ||
  match bs with [] => false | _ :: rest => occurs pat rest end.

Definition is_p384_params (ec_params : bytes) : bool :=
  bool_decide (ec_params = P384_OID) || occurs P384_OID ec_params.

Definition encrypt_mechanism_supports_multipart (mechanism : Z) : bool :=
  mech_in [CKM_AES_CBC; CKM_AES_CBC_PAD; CKM_AES_CTR] mechanism.

Definition estimated_signature_len (mechanism : Z) (o : StoredObject) : option Z :=
  if is_pss_mechanism mechanism
     || mech_in [CKM_RSA_PKCS; CKM_SHA256_RSA_PKCS; CKM_SHA384_RSA_PKCS; CKM_SHA512_RSA_PKCS]
          mechanism
  then
    match o_modulus_bits o with
    | Some bits => Some ((bits + 7) / 8)
    | None =>
      match o_modulus o with
      | Some m => Some (blen m)
      | None => blen <$> o_key_material o
      end
    end
  else if is_ecdsa_mechanism mechanism then
    Some (if is_p384_params (default [] (o_ec_params o)) then 104 else 72)
  else if is_eddsa_mechanism mechanism then Some 64
  else if is_ml_dsa_mechanism mechanism then
    Some (if mechanism =? CKM_ML_DSA_44 then 2420
          else if mechanism =? CKM_ML_DSA_65 then 3309
          else if mechanism =? CKM_ML_DSA_87 then 4627 else 4672)
  else if is_slh_dsa_mechanism mechanism then Some 49856
  else if is_hybrid_mechanism mechanism then Some (49856 + 104)
  else None.

(** What the objects behind the references of running operations are: the
    object of the store at a handle, or one the store no longer has. *)
Inductive ObjRef := Shared (handle : Z) | Detached (o : StoredObject).

(** The randomness and the clock of a call: the generator of a signature or an
    OAEP padding, the bytes drawn for a GCM nonce prefix, the time in seconds,
    and what [OsRng] writes to a random buffer. *)
Record OpEnv := {
  oe_rng : HsmResult bytes;
  oe_prefix : HsmResult bytes;
  oe_wall : Z;
  oe_random : MayPanic bytes;
}.

(** What a call returns: its value, the bytes written to the output buffer and
    the number written to the length. *)
Record CallOut := { out_rv : Z; out_data : option bytes; out_len : option Z }.
Definition ret (rv : Z) : CallOut := {| out_rv := rv; out_data := None; out_len := None |}.
Definition ret_len (rv n : Z) : CallOut := {| out_rv := rv; out_data := None; out_len := Some n |}.
Definition ret_data (data : bytes) : CallOut :=
  {| out_rv := CKR_OK; out_data := Some data; out_len := Some (blen data) |}.

Definition CKK_EC : Z := 0x00000003.

(** The calls that change the state. *)
Inductive CryptoCall :=
| KCore (ce : CallEnv) (k : AbiCall)
| KEncryptInit (session : Z) (p_mechanism : option CK_MECHANISM) (key : Z)
| KEncrypt (session : Z) (p_data : option bytes) (p_out : bool) (pul_len : option Z)
| KEncryptUpdate (session : Z) (p_part : option bytes) (pul_len : option Z)
| KEncryptFinal (session : Z) (p_out : bool) (pul_len : option Z)
| KDecryptInit (session : Z) (p_mechanism : option CK_MECHANISM) (key : Z)
| KDecrypt (session : Z) (p_data : option bytes) (p_out : bool) (pul_len : option Z)
| KDecryptUpdate (session : Z) (p_part : option bytes) (pul_len : option Z)
| KDecryptFinal (session : Z) (p_out : bool) (pul_len : option Z)
| KDigestInit (session : Z) (p_mechanism : option CK_MECHANISM)
| KDigest (session : Z) (p_data : option bytes) (p_out : bool) (pul_len : option Z)
| KDigestUpdate (session : Z) (p_part : option bytes)
| KDigestKey (session key : Z)
| KDigestFinal (session : Z) (p_out : bool) (pul_len : option Z)
| KSignInit (session : Z) (p_mechanism : option CK_MECHANISM) (key : Z)
| KSign (session : Z) (p_data : option bytes) (p_out : bool) (pul_len : option Z)
| KSignUpdate (session : Z) (p_part : option bytes)
| KSignFinal (session : Z) (p_out : bool) (pul_len : option Z)
| KVerifyInit (session : Z) (p_mechanism : option CK_MECHANISM) (key : Z)
| KVerify (session : Z) (p_data p_signature : option bytes)
| KVerifyUpdate (session : Z) (p_part : option bytes)
| KVerifyFinal (session : Z) (p_signature : option bytes)
| KSetOperationState (session : Z) (p_state : option bytes) (h_auth : Z)
| KGenerateRandom (session : Z) (p_out : bool) (random_len : Z).

Section Operations.
Context {P : PinPrimitives} {X : HexCodec} {H : HashPrimitives} {CP : CipherPrimitives}.
Context {SP : SignPrimitives}.
Context {C : ObjectCodec} {SO : StoreOrder} {D : DashOrder} {AC : AuditCodec}.
Context {A B : Type} {HS : HandleSource A} {OH : ObjectHandles B}.

Record CryptoCore := {
  cc_core : HsmCore A B;
  cc_rsa : RsaCaches;
  cc_refs : gmap Z ObjRef;
  cc_next_ref : Z;
  algorithm_config : AlgorithmConfig;
  state_hmac_key : bytes;
}.
#[export] Instance CryptoCore_expand : FieldExpansion CryptoCore := λ c,
  Build_CryptoCore (cc_core c) (cc_rsa c) (cc_refs c) (cc_next_ref c) (algorithm_config c)
    (state_hmac_key c).
Implicit Types (c : CryptoCore) (e : OpEnv).

(** ** Access to the state *)

Definition op_session (session : Z) c : HsmResult (Z * Session) := find_session session (cc_core c).
Definition set_op (l : Z) (s : Session) (op : option ActiveOperation) c : CryptoCore :=
  c <| cc_core := put_session l (s <| s_active_operation := op |>) (cc_core c) |>.
Definition op_object (handle : Z) c : HsmResult StoredObject :=
  get_object handle (object_store (cc_core c)).
Definition op_audit (session : Z) (op : AuditOperation) (r : AuditResult) c : CryptoCore :=
  c <| cc_core := audit session op r (cc_core c) |>.
Definition put_cipher (s : CipherState) c : CryptoCore :=
  c <| cc_core := cc_core c <| core_cipher := s |> |>.

(** A new reference to the object at a handle. *)
Definition new_ref (handle : Z) c : Z * CryptoCore :=
  (cc_next_ref c, c <| cc_refs := <[cc_next_ref c := Shared handle]> (cc_refs c) |>
                    <| cc_next_ref := cc_next_ref c + 1 |>).
Definition deref (r : Z) c : HsmResult StoredObject :=
  match cc_refs c !! r with
  | Some (Shared h) => op_object h c
  | Some (Detached o) => Ok o
  | None => Err ObjectHandleInvalid
  end.
(** The object a final call works on: the cached one, or the store's. *)
Definition cached_or_stored (cached : option Z) (handle : Z) c : HsmResult StoredObject :=
  match cached with Some r => deref r c | None => op_object handle c end.

(** ** Initialisation *)

(** The checks on the key after its use is known to be allowed by the flag:
    the lifecycle, then the approved services. *)
Definition key_checks e (mechanism : Z) (operation : string) (o : StoredObject) c : Result Z unit :=
  match check_lifecycle (oe_wall e) operation o with
  | Panicked => Err CKR_GENERAL_ERROR
  | Returns (Err _) => Err CKR_KEY_FUNCTION_NOT_PERMITTED
  | Returns (Ok _) =>
    match enforce mechanism (algorithm_config c) (stored_key_bits o) with
    | Err x => Err (error_to_rv x)
    | Ok _ => Ok ()
    end
  end.

(** The rejection of an all-zero initialisation vector. *)
Definition zero_iv (mechanism : Z) (mech_param : bytes) : bool :=
  if mech_in [CKM_AES_CBC; CKM_AES_CBC_PAD] mechanism
  then (length mech_param =? 16)%nat && all_zero mech_param
  else if mechanism =? CKM_AES_CTR
  then (16 <=? length mech_param)%nat && all_zero (take 16 mech_param)
  else false.

Definition C_EncryptInit e (session : Z) (p_mechanism : option CK_MECHANISM) (key : Z) c :
    Z * CryptoCore :=
  match p_mechanism with
  | None => (CKR_ARGUMENTS_BAD, c)
  | Some m =>
    match op_session session c with
    | Err x => (error_to_rv x, c)
    | Ok (l, s) =>
      if bool_decide (is_Some (s_active_operation s)) then (CKR_OPERATION_ACTIVE, c)
      else
        let mechanism := m_mechanism m in
        if negb (is_encrypt_mechanism mechanism) then (CKR_MECHANISM_INVALID, c)
        else
          match validate_mechanism_for_policy mechanism (algorithm_config c) false with
          | Err rv => (rv, c)
          | Ok _ =>
            match op_object key c with
            | Err _ => (CKR_KEY_HANDLE_INVALID, c)
            | Ok o =>
              if o_private o && negb (is_logged_in (s_state s)) then (CKR_USER_NOT_LOGGED_IN, c)
              else if negb (o_can_encrypt o) then (CKR_KEY_FUNCTION_NOT_PERMITTED, c)
              else
                match key_checks e mechanism "encrypt" o c with
                | Err rv => (rv, c)
                | Ok _ =>
                  let mech_param := extract_mechanism_param m in
                  if zero_iv mechanism mech_param then (CKR_MECHANISM_PARAM_INVALID, c)
                  else
                    let '(r, c) := new_ref key c in
                    (CKR_OK, set_op l s (Some (OpEncrypt mechanism key mech_param [] (Some r))) c)
                end
            end
          end
    end
  end.

Definition C_DecryptInit e (session : Z) (p_mechanism : option CK_MECHANISM) (key : Z) c :
    Z * CryptoCore :=
  match p_mechanism with
  | None => (CKR_ARGUMENTS_BAD, c)
  | Some m =>
    match op_session session c with
    | Err x => (error_to_rv x, c)
    | Ok (l, s) =>
      if bool_decide (is_Some (s_active_operation s)) then (CKR_OPERATION_ACTIVE, c)
      else
        let mechanism := m_mechanism m in
        if negb (is_encrypt_mechanism mechanism) then (CKR_MECHANISM_INVALID, c)
        else
          match validate_mechanism_for_policy mechanism (algorithm_config c) false with
          | Err rv => (rv, c)
          | Ok _ =>
            match op_object key c with
            | Err _ => (CKR_KEY_HANDLE_INVALID, c)
            | Ok o =>
              if o_private o && negb (is_logged_in (s_state s)) then (CKR_USER_NOT_LOGGED_IN, c)
              else if negb (o_can_decrypt o) then (CKR_KEY_FUNCTION_NOT_PERMITTED, c)
              else
                match key_checks e mechanism "decrypt" o c with
                | Err rv => (rv, c)
                | Ok _ =>
                  let mech_param := extract_mechanism_param m in
                  let '(r, c) := new_ref key c in
                  (CKR_OK, set_op l s (Some (OpDecrypt mechanism key mech_param [] (Some r))) c)
                end
            end
          end
    end
  end.

(** The hasher of a mechanism with a built-in hash. *)
Definition sign_hasher (mechanism : Z) : option bytes :=
  match sign_mechanism_to_digest_mechanism mechanism with
  | Some digest_mech => match create_hasher digest_mech with Ok h => Some h | Err _ => None end
  | None => None
  end.

Definition C_SignInit e (session : Z) (p_mechanism : option CK_MECHANISM) (key : Z) c :
    Z * CryptoCore :=
  match p_mechanism with
  | None => (CKR_ARGUMENTS_BAD, c)
  | Some m =>
    match op_session session c with
    | Err x => (error_to_rv x, c)
    | Ok (l, s) =>
      if negb (is_logged_in (s_state s)) then (CKR_USER_NOT_LOGGED_IN, c)
      else if bool_decide (is_Some (s_active_operation s)) then (CKR_OPERATION_ACTIVE, c)
      else
        let mechanism := m_mechanism m in
        if mechanism =? CKM_SHA1_RSA_PKCS then (CKR_MECHANISM_INVALID, c)
        else if negb (is_sign_mechanism mechanism) then (CKR_MECHANISM_INVALID, c)
        else
          match validate_mechanism_for_policy mechanism (algorithm_config c) true with
          | Err rv => (rv, c)
          | Ok _ =>
            match op_object key c with
            | Err _ => (CKR_KEY_HANDLE_INVALID, c)
            | Ok o =>
              if negb (o_can_sign o) then (CKR_KEY_FUNCTION_NOT_PERMITTED, c)
              else
                match key_checks e mechanism "sign" o c with
                | Err rv => (rv, c)
                | Ok _ =>
                  let '(r, c) := new_ref key c in
                  (CKR_OK, set_op l s
                     (Some (OpSign mechanism key [] (sign_hasher mechanism) (Some r))) c)
                end
            end
          end
    end
  end.

Definition C_VerifyInit e (session : Z) (p_mechanism : option CK_MECHANISM) (key : Z) c :
    Z * CryptoCore :=
  match p_mechanism with
  | None => (CKR_ARGUMENTS_BAD, c)
  | Some m =>
    match op_session session c with
    | Err x => (error_to_rv x, c)
    | Ok (l, s) =>
      if bool_decide (is_Some (s_active_operation s)) then (CKR_OPERATION_ACTIVE, c)
      else
        let mechanism := m_mechanism m in
        if negb (is_sign_mechanism mechanism) then (CKR_MECHANISM_INVALID, c)
        else
          match validate_mechanism_for_policy mechanism (algorithm_config c) false with
          | Err rv => (rv, c)
          | Ok _ =>
            match op_object key c with
            | Err _ => (CKR_KEY_HANDLE_INVALID, c)
            | Ok o =>
              if o_private o && negb (is_logged_in (s_state s)) then (CKR_USER_NOT_LOGGED_IN, c)
              else if negb (o_can_verify o) then (CKR_KEY_FUNCTION_NOT_PERMITTED, c)
              else
                match key_checks e mechanism "verify" o c with
                | Err rv => (rv, c)
                | Ok _ =>
                  let '(r, c) := new_ref key c in
                  (CKR_OK, set_op l s
                     (Some (OpVerify mechanism key [] (sign_hasher mechanism) (Some r))) c)
                end
            end
          end
    end
  end.

Definition C_DigestInit (session : Z) (p_mechanism : option CK_MECHANISM) c : Z * CryptoCore :=
  match p_mechanism with
  | None => (CKR_ARGUMENTS_BAD, c)
  | Some m =>
    match op_session session c with
    | Err x => (error_to_rv x, c)
    | Ok (l, s) =>
      if bool_decide (is_Some (s_active_operation s)) then (CKR_OPERATION_ACTIVE, c)
      else
        let mechanism := m_mechanism m in
        if negb (is_digest_mechanism mechanism) then (CKR_MECHANISM_INVALID, c)
        else
          match validate_mechanism_for_policy mechanism (algorithm_config c) false with
          | Err rv => (rv, c)
          | Ok _ =>
            match create_hasher mechanism with
            | Err x => (error_to_rv x, c)
            | Ok hasher => (CKR_OK, set_op l s (Some (OpDigest mechanism (Some hasher) [])) c)
            end
          end
    end
  end.

(** ** Encryption and decryption *)

(** The length reported without encrypting. *)
Definition encrypt_estimate (mechanism : Z) (data_len : Z) (o : StoredObject) : Result Z Z :=
  if mechanism =? CKM_AES_GCM then Ok (data_len + 12 + 16)
  else if mech_in [CKM_AES_CBC; CKM_AES_CBC_PAD] mechanism then Ok (data_len + 16)
  else if mechanism =? CKM_AES_CTR then Ok data_len
  else if mechanism =? CKM_RSA_PKCS_OAEP then
    match o_modulus o with Some m => Ok (blen m) | None => Err CKR_KEY_HANDLE_INVALID end
  else Err CKR_MECHANISM_INVALID.

(** The cipher of a mechanism: [Err rv] is an early return, before the result
    is examined. *)
Definition run_encrypt e (slot_id key_handle mechanism : Z) (mech_param key_bytes data : bytes)
    (o : StoredObject) c : Result Z (HsmResult bytes) * CryptoCore :=
  let cipher := core_cipher (cc_core c) in
  if mechanism =? CKM_AES_GCM then
    let '(r, cipher) := aes_256_gcm_encrypt (oe_prefix e) key_bytes data cipher in
    (Ok r, put_cipher cipher c)
  else if mech_in [CKM_AES_CBC; CKM_AES_CBC_PAD] mechanism then
    match mech_param with
    | [] => (Ok (Err MechanismParamInvalid), c)
    | _ => let '(r, cipher) := aes_cbc_encrypt key_bytes mech_param data cipher in
           (Ok r, put_cipher cipher c)
    end
  else if mechanism =? CKM_AES_CTR then
    match mech_param with
    | [] => (Ok (Err MechanismParamInvalid), c)
    | _ => let '(r, cipher) := aes_ctr_encrypt key_bytes mech_param data cipher in
           (Ok r, put_cipher cipher c)
    end
  else if mechanism =? CKM_RSA_PKCS_OAEP then
    match o_modulus o with
    | None => (Err CKR_KEY_HANDLE_INVALID, c)
    | Some modulus =>
      match o_public_exponent o with
      | None => (Err CKR_KEY_HANDLE_INVALID, c)
      | Some pub_exp =>
        match parse_oaep_hash mech_param with
        | Err rv => (Err rv, c)
        | Ok oaep_hash =>
          let '(r, rsa) := rsa_oaep_encrypt_cached (oe_rng e) slot_id key_handle modulus pub_exp
                             data oaep_hash (cc_rsa c) in
          (Ok r, c <| cc_rsa := rsa |>)
        end
      end
    end
  else (Err CKR_MECHANISM_INVALID, c).

Definition C_Encrypt e (session : Z) (p_data : option bytes) (p_encrypted_data : bool)
    (pul_encrypted_data_len : option Z) c : CallOut * CryptoCore :=
  match p_data, pul_encrypted_data_len with
  | Some data, Some buf_len =>
    match op_session session c with
    | Err x => (ret (error_to_rv x), c)
    | Ok (l, s) =>
      match s_active_operation s with
      | Some (OpEncrypt mechanism key_handle mech_param _ _) =>
        if MAX_SINGLE_BUFFER <? blen data then (ret CKR_DATA_LEN_RANGE, set_op l s None c)
        else
          match op_object key_handle c with
          | Err x => (ret (error_to_rv x), set_op l s None c)
          | Ok o =>
            match o_key_material o with
            | None => (ret CKR_KEY_HANDLE_INVALID, set_op l s None c)
            | Some key_bytes =>
              if negb p_encrypted_data then
                match encrypt_estimate mechanism (blen data) o with
                | Err rv => (ret rv, set_op l s None c)
                | Ok estimated => (ret_len CKR_OK estimated, c)
                end
              else
                match run_encrypt e (s_slot_id s) key_handle mechanism mech_param key_bytes data o c with
                | (Err rv, c) => (ret rv, set_op l s None c)
                | (Ok (Ok encrypted), c) =>
                  if buf_len <? blen encrypted
                  then (ret_len CKR_BUFFER_TOO_SMALL (blen encrypted), c)
                  else (ret_data encrypted,
                        set_op l s None (op_audit session
                          (AEncrypt mechanism (is_fips_approved mechanism)) Success c))
                | (Ok (Err x), c) =>
                  let rv := error_to_rv x in
                  (ret rv, set_op l s None (op_audit session
                     (AEncrypt mechanism (is_fips_approved mechanism)) (Failure rv) c))
                end
            end
          end
      | _ => (ret CKR_OPERATION_NOT_INITIALIZED, c)
      end
    end
  | _, _ => (ret CKR_ARGUMENTS_BAD, c)
  end.

Definition decrypt_estimate (mechanism : Z) (data_len : Z) : Result Z Z :=
  if mechanism =? CKM_AES_GCM then Ok (saturating_sub data_len 28)
  else if mech_in [CKM_AES_CBC; CKM_AES_CBC_PAD] mechanism then Ok data_len
  else if mechanism =? CKM_AES_CTR then Ok data_len
  else if mechanism =? CKM_RSA_PKCS_OAEP then Ok data_len
  else Err CKR_MECHANISM_INVALID.

Definition run_decrypt (slot_id key_handle mechanism : Z) (mech_param key_bytes data : bytes) c :
    Result Z (HsmResult bytes) * CryptoCore :=
  if mechanism =? CKM_AES_GCM then (Ok (aes_256_gcm_decrypt key_bytes data), c)
  else if mech_in [CKM_AES_CBC; CKM_AES_CBC_PAD] mechanism then
    match mech_param with
    | [] => (Ok (Err MechanismParamInvalid), c)
    | _ => (Ok (aes_cbc_decrypt key_bytes mech_param data), c)
    end
  else if mechanism =? CKM_AES_CTR then
    match mech_param with
    | [] => (Ok (Err MechanismParamInvalid), c)
    | _ => (Ok (aes_ctr_decrypt key_bytes mech_param data), c)
    end
  else if mechanism =? CKM_RSA_PKCS_OAEP then
    match parse_oaep_hash mech_param with
    | Err rv => (Err rv, c)
    | Ok oaep_hash =>
      let '(r, rsa) := rsa_oaep_decrypt_cached slot_id key_handle key_bytes data oaep_hash (cc_rsa c) in
      (Ok r, c <| cc_rsa := rsa |>)
    end
  else (Err CKR_MECHANISM_INVALID, c).

Definition C_Decrypt (session : Z) (p_encrypted_data : option bytes) (p_data : bool)
    (pul_data_len : option Z) c : CallOut * CryptoCore :=
  match p_encrypted_data, pul_data_len with
  | Some data, Some buf_len =>
    match op_session session c with
    | Err x => (ret (error_to_rv x), c)
    | Ok (l, s) =>
      match s_active_operation s with
      | Some (OpDecrypt mechanism key_handle mech_param _ _) =>
        if MAX_SINGLE_BUFFER <? blen data then (ret CKR_DATA_LEN_RANGE, set_op l s None c)
        else
          match op_object key_handle c with
          | Err x => (ret (error_to_rv x), set_op l s None c)
          | Ok o =>
            match o_key_material o with
            | None => (ret CKR_KEY_HANDLE_INVALID, set_op l s None c)
            | Some key_bytes =>
              if negb p_data then
                match decrypt_estimate mechanism (blen data) with
                | Err rv => (ret rv, set_op l s None c)
                | Ok estimated => (ret_len CKR_OK estimated, c)
                end
              else
                match run_decrypt (s_slot_id s) key_handle mechanism mech_param key_bytes data c with
                | (Err rv, c) => (ret rv, set_op l s None c)
                | (Ok (Ok decrypted), c) =>
                  if buf_len <? blen decrypted
                  then (ret_len CKR_BUFFER_TOO_SMALL (blen decrypted), c)
                  else (ret_data decrypted,
                        set_op l s None (op_audit session
                          (ADecrypt mechanism (is_fips_approved mechanism)) Success c))
                | (Ok (Err x), c) =>
                  let rv := error_to_rv x in
                  (ret rv, set_op l s None (op_audit session
                     (ADecrypt mechanism (is_fips_approved mechanism)) (Failure rv) c))
                end
            end
          end
      | _ => (ret CKR_OPERATION_NOT_INITIALIZED, c)
      end
    end
  | _, _ => (ret CKR_ARGUMENTS_BAD, c)
  end.

(** ** Signatures *)

(** The second key of a hybrid signature. *)
Definition hybrid_ec_key (o : StoredObject) : bytes :=
  default [] (match o_extra_attributes o !! CKA_EC_POINT with
              | Some v => Some v
              | None => o_ec_point o
              end).

Definition curve_of (o : StoredObject) : Curve :=
  if is_p384_params (default [] (o_ec_params o)) then P384 else P256.

(** The backend calls by handle use the caches of parsed keys. *)
Definition sign_single_shot e (slot_id key_handle mechanism : Z) (key_bytes data : bytes)
    (o : StoredObject) (rsa : RsaCaches) : HsmResult bytes * RsaCaches :=
  if is_pss_mechanism mechanism then
    match pss_mechanism_to_hash mechanism with
    | Err x => (Err x, rsa)
    | Ok hash => rsa_pss_sign_cached (oe_rng e) slot_id key_handle key_bytes data hash rsa
    end
  else if is_ecdsa_mechanism mechanism then
    if default 0 (o_key_type o) =? CKK_EC
    then (ecdsa_sign (curve_of o) (oe_rng e) key_bytes data, rsa)
    else (Err KeyTypeInconsistent, rsa)
  else if is_eddsa_mechanism mechanism then (ed25519_sign key_bytes data, rsa)
  else match mechanism_to_ml_dsa_variant mechanism with
  | Some variant => (ml_dsa_sign key_bytes data variant, rsa)
  | None =>
    match mechanism_to_slh_dsa_variant mechanism with
    | Some variant => (slh_dsa_sign key_bytes data variant, rsa)
    | None =>
      if is_hybrid_mechanism mechanism
      then (hybrid_sign (oe_rng e) key_bytes (hybrid_ec_key o) data, rsa)
      else rsa_pkcs1v15_sign_cached slot_id key_handle key_bytes data (mechanism_to_hash mechanism) rsa
    end
  end.

Definition sign_prehashed e (slot_id key_handle mechanism : Z) (key_bytes dg : bytes)
    (o : StoredObject) (rsa : RsaCaches) : HsmResult bytes * RsaCaches :=
  if is_pss_mechanism mechanism then
    match pss_mechanism_to_hash mechanism with
    | Err x => (Err x, rsa)
    | Ok hash => rsa_pss_sign_prehashed_cached (oe_rng e) slot_id key_handle key_bytes dg hash rsa
    end
  else if is_ecdsa_mechanism mechanism then
    if default 0 (o_key_type o) =? CKK_EC
    then (ecdsa_sign_prehashed (curve_of o) (oe_rng e) key_bytes dg, rsa)
    else (Err KeyTypeInconsistent, rsa)
  else match mechanism_to_hash mechanism with
  | None => (Err MechanismInvalid, rsa)
  | Some hash_alg => rsa_pkcs1v15_sign_prehashed_cached slot_id key_handle key_bytes dg hash_alg rsa
  end.

Definition verify_single_shot (slot_id key_handle mechanism : Z) (data signature : bytes)
    (o : StoredObject) (rsa : RsaCaches) : HsmResult bool * RsaCaches :=
  let with_public f :=
    match o_modulus o, o_public_exponent o with
    | Some modulus, Some pub_exp => f modulus pub_exp
    | _, _ => (Err KeyHandleInvalid, rsa)
    end in
  if is_pss_mechanism mechanism then
    with_public (λ modulus pub_exp,
      match pss_mechanism_to_hash mechanism with
      | Err x => (Err x, rsa)
      | Ok hash => rsa_pss_verify_cached slot_id key_handle modulus pub_exp data signature hash rsa
      end)
  else if is_ecdsa_mechanism mechanism then
    match o_ec_point o with
    | None => (Err KeyHandleInvalid, rsa)
    | Some ec_point => (ecdsa_verify (curve_of o) ec_point data signature, rsa)
    end
  else if is_eddsa_mechanism mechanism then
    match (match o_public_key_data o with Some k => Some k | None => o_ec_point o end) with
    | None => (Err KeyHandleInvalid, rsa)
    | Some pub_key => (ed25519_verify pub_key data signature, rsa)
    end
  else match mechanism_to_ml_dsa_variant mechanism with
  | Some variant =>
    match o_public_key_data o with
    | None => (Err KeyHandleInvalid, rsa)
    | Some pub_key => (ml_dsa_verify pub_key data signature variant, rsa)
    end
  | None =>
    match mechanism_to_slh_dsa_variant mechanism with
    | Some variant =>
      match o_public_key_data o with
      | None => (Err KeyHandleInvalid, rsa)
      | Some pub_key => (slh_dsa_verify pub_key data signature variant, rsa)
      end
    | None =>
      if is_hybrid_mechanism mechanism then
        match o_public_key_data o with
        | None => (Err KeyHandleInvalid, rsa)
        | Some ml_dsa_vk => (hybrid_verify ml_dsa_vk (hybrid_ec_key o) data signature, rsa)
        end
      else
        with_public (λ modulus pub_exp,
          rsa_pkcs1v15_verify_cached slot_id key_handle modulus pub_exp data signature
            (mechanism_to_hash mechanism) rsa)
    end
  end.

Definition verify_prehashed (slot_id key_handle mechanism : Z) (dg signature : bytes)
    (o : StoredObject) (rsa : RsaCaches) : HsmResult bool * RsaCaches :=
  let with_public f :=
    match o_modulus o, o_public_exponent o with
    | Some modulus, Some pub_exp => f modulus pub_exp
    | _, _ => (Err KeyHandleInvalid, rsa)
    end in
  if is_pss_mechanism mechanism then
    with_public (λ modulus pub_exp,
      match pss_mechanism_to_hash mechanism with
      | Err x => (Err x, rsa)
      | Ok hash =>
        rsa_pss_verify_prehashed_cached slot_id key_handle modulus pub_exp dg signature hash rsa
      end)
  else if is_ecdsa_mechanism mechanism then
    match o_ec_point o with
    | None => (Err KeyHandleInvalid, rsa)
    | Some ec_point => (ecdsa_verify_prehashed (curve_of o) ec_point dg signature, rsa)
    end
  else
    with_public (λ modulus pub_exp,
      match mechanism_to_hash mechanism with
      | None => (Err MechanismInvalid, rsa)
      | Some hash_alg =>
        rsa_pkcs1v15_verify_prehashed_cached slot_id key_handle modulus pub_exp dg signature
          hash_alg rsa
      end).

Definition C_Sign e (session : Z) (p_data : option bytes) (p_signature : bool)
    (pul_signature_len : option Z) c : CallOut * CryptoCore :=
  match p_data, pul_signature_len with
  | Some data, Some buf_len =>
    match op_session session c with
    | Err x => (ret (error_to_rv x), c)
    | Ok (l, s) =>
      match s_active_operation s with
      | Some (OpSign mechanism key_handle _ _ _) =>
        if MAX_SINGLE_BUFFER <? blen data then (ret CKR_DATA_LEN_RANGE, set_op l s None c)
        else
          match op_object key_handle c with
          | Err x => (ret (error_to_rv x), set_op l s None c)
          | Ok o =>
            match o_key_material o with
            | None => (ret CKR_KEY_HANDLE_INVALID, set_op l s None c)
            | Some key_bytes =>
              if negb p_signature then
                match estimated_signature_len mechanism o with
                | None => (ret CKR_MECHANISM_INVALID, set_op l s None c)
                | Some est => (ret_len CKR_OK est, c)
                end
              else
                let '(result, rsa) := sign_single_shot e (s_slot_id s) key_handle mechanism
                                        key_bytes data o (cc_rsa c) in
                let c := c <| cc_rsa := rsa |> in
                match result with
                | Ok signature =>
                  if buf_len <? blen signature
                  then (ret_len CKR_BUFFER_TOO_SMALL (blen signature), c)
                  else (ret_data signature,
                        set_op l s None (op_audit session
                          (ASign mechanism (is_fips_approved mechanism)) Success c))
                | Err x =>
                  let rv := error_to_rv x in
                  (ret rv, set_op l s None (op_audit session
                     (ASign mechanism (is_fips_approved mechanism)) (Failure rv) c))
                end
            end
          end
      | _ => (ret CKR_OPERATION_NOT_INITIALIZED, c)
      end
    end
  | _, _ => (ret CKR_ARGUMENTS_BAD, c)
  end.

(** The end of a verification: the operation is over, the outcome is audited. *)
Definition verified (session mechanism : Z) (result : HsmResult bool) c : Z * CryptoCore :=
  let op := AVerify mechanism (is_fips_approved mechanism) in
  match result with
  | Ok true => (CKR_OK, op_audit session op Success c)
  | Ok false => (CKR_SIGNATURE_INVALID, op_audit session op (Failure CKR_SIGNATURE_INVALID) c)
  | Err x => let rv := error_to_rv x in (rv, op_audit session op (Failure rv) c)
  end.

Definition C_Verify (session : Z) (p_data p_signature : option bytes) c : Z * CryptoCore :=
  match p_data, p_signature with
  | Some data, Some signature =>
    match op_session session c with
    | Err x => (error_to_rv x, c)
    | Ok (l, s) =>
      match s_active_operation s with
      | Some (OpVerify mechanism key_handle _ _ _) =>
        if (MAX_SINGLE_BUFFER <? blen data) || (MAX_SINGLE_BUFFER <? blen signature)
        then (CKR_DATA_LEN_RANGE, set_op l s None c)
        else
          match op_object key_handle c with
          | Err x => (error_to_rv x, set_op l s None c)
          | Ok o =>
            let '(result, rsa) := verify_single_shot (s_slot_id s) key_handle mechanism data
                                    signature o (cc_rsa c) in
            verified session mechanism result (set_op l s None (c <| cc_rsa := rsa |>))
          end
      | _ => (CKR_OPERATION_NOT_INITIALIZED, c)
      end
    end
  | _, _ => (CKR_ARGUMENTS_BAD, c)
  end.

(** ** Multi-part encryption and decryption *)

(** [data.len().saturating_add(part.len()) > MAX_MULTIPART_ACCUMULATION]. *)
Definition overflows (data part : bytes) : bool :=
  MAX_MULTIPART_ACCUMULATION <? saturating_add u64_max (blen data) (blen part).

Definition C_EncryptUpdate (session : Z) (p_part : option bytes) (pul_encrypted_part_len : option Z) c :
    CallOut * CryptoCore :=
  match p_part, pul_encrypted_part_len with
  | Some part, Some _ =>
    match op_session session c with
    | Err x => (ret (error_to_rv x), c)
    | Ok (l, s) =>
      match s_active_operation s with
      | Some (OpEncrypt mechanism key_handle param data cached) =>
        if negb (encrypt_mechanism_supports_multipart mechanism)
        then (ret CKR_MECHANISM_INVALID, set_op l s None c)
        else if overflows data part then (ret CKR_DATA_LEN_RANGE, set_op l s None c)
        else (ret_len CKR_OK 0,
              set_op l s (Some (OpEncrypt mechanism key_handle param (data ++ part) cached)) c)
      | _ => (ret CKR_OPERATION_NOT_INITIALIZED, c)
      end
    end
  | _, _ => (ret CKR_ARGUMENTS_BAD, c)
  end.

Definition C_DecryptUpdate (session : Z) (p_part : option bytes) (pul_part_len : option Z) c :
    CallOut * CryptoCore :=
  match p_part, pul_part_len with
  | Some part, Some _ =>
    match op_session session c with
    | Err x => (ret (error_to_rv x), c)
    | Ok (l, s) =>
      match s_active_operation s with
      | Some (OpDecrypt mechanism key_handle param data cached) =>
        if negb (encrypt_mechanism_supports_multipart mechanism)
        then (ret CKR_MECHANISM_INVALID, set_op l s None c)
        else if overflows data part then (ret CKR_DATA_LEN_RANGE, set_op l s None c)
        else (ret_len CKR_OK 0,
              set_op l s (Some (OpDecrypt mechanism key_handle param (data ++ part) cached)) c)
      | _ => (ret CKR_OPERATION_NOT_INITIALIZED, c)
      end
    end
  | _, _ => (ret CKR_ARGUMENTS_BAD, c)
  end.

(** The ciphers of the final calls. *)
Definition final_encrypt (mechanism : Z) (mech_param key_bytes data : bytes) c :
    Result Z (HsmResult bytes) * CryptoCore :=
  let cipher := core_cipher (cc_core c) in
  if mech_in [CKM_AES_CBC; CKM_AES_CBC_PAD] mechanism then
    match mech_param with
    | [] => (Ok (Err MechanismParamInvalid), c)
    | _ => let '(r, cipher) := aes_cbc_encrypt key_bytes mech_param data cipher in
           (Ok r, put_cipher cipher c)
    end
  else if mechanism =? CKM_AES_CTR then
    match mech_param with
    | [] => (Ok (Err MechanismParamInvalid), c)
    | _ => let '(r, cipher) := aes_ctr_encrypt key_bytes mech_param data cipher in
           (Ok r, put_cipher cipher c)
    end
  else (Err CKR_MECHANISM_INVALID, c).

Definition final_decrypt (mechanism : Z) (mech_param key_bytes data : bytes) : Result Z (HsmResult bytes) :=
  if mech_in [CKM_AES_CBC; CKM_AES_CBC_PAD] mechanism then
    match mech_param with
    | [] => Ok (Err MechanismParamInvalid)
    | _ => Ok (aes_cbc_decrypt key_bytes mech_param data)
    end
  else if mechanism =? CKM_AES_CTR then
    match mech_param with
    | [] => Ok (Err MechanismParamInvalid)
    | _ => Ok (aes_ctr_decrypt key_bytes mech_param data)
    end
  else Err CKR_MECHANISM_INVALID.

Definition C_EncryptFinal (session : Z) (p_last_encrypted_part : bool)
    (pul_last_encrypted_part_len : option Z) c : CallOut * CryptoCore :=
  match pul_last_encrypted_part_len with
  | None => (ret CKR_ARGUMENTS_BAD, c)
  | Some buf_len =>
    match op_session session c with
    | Err x => (ret (error_to_rv x), c)
    | Ok (l, s) =>
      match s_active_operation s with
      | Some (OpEncrypt mechanism key_handle mech_param data cached) =>
        let over := set_op l s None in
        if negb (encrypt_mechanism_supports_multipart mechanism)
        then (ret CKR_MECHANISM_INVALID, over c)
        else
          let estimated := blen data + 16 in
          if negb p_last_encrypted_part then (ret_len CKR_OK estimated, c)
          else if buf_len <? estimated then (ret_len CKR_BUFFER_TOO_SMALL estimated, c)
          else
            match cached_or_stored cached key_handle c with
            | Err x => (ret (error_to_rv x), over c)
            | Ok o =>
              match o_key_material o with
              | None => (ret CKR_KEY_HANDLE_INVALID, over c)
              | Some key_bytes =>
                match final_encrypt mechanism mech_param key_bytes data c with
                | (Err rv, c) => (ret rv, over c)
                | (Ok (Ok encrypted), c) =>
                  if buf_len <? blen encrypted
                  then (ret_len CKR_BUFFER_TOO_SMALL (blen encrypted), over c)
                  else (ret_data encrypted,
                        over (op_audit session (AEncrypt mechanism (is_fips_approved mechanism))
                                Success c))
                | (Ok (Err x), c) => (ret (error_to_rv x), over c)
                end
              end
            end
      | _ => (ret CKR_OPERATION_NOT_INITIALIZED, c)
      end
    end
  end.

(** The decrypted data is written without a second look at the buffer's size:
    it is never longer than the accumulated ciphertext. *)
Definition C_DecryptFinal (session : Z) (p_last_part : bool) (pul_last_part_len : option Z) c :
    CallOut * CryptoCore :=
  match pul_last_part_len with
  | None => (ret CKR_ARGUMENTS_BAD, c)
  | Some buf_len =>
    match op_session session c with
    | Err x => (ret (error_to_rv x), c)
    | Ok (l, s) =>
      match s_active_operation s with
      | Some (OpDecrypt mechanism key_handle mech_param data cached) =>
        let over := set_op l s None in
        if negb (encrypt_mechanism_supports_multipart mechanism)
        then (ret CKR_MECHANISM_INVALID, over c)
        else
          let estimated := blen data in
          if negb p_last_part then (ret_len CKR_OK estimated, c)
          else if buf_len <? estimated then (ret_len CKR_BUFFER_TOO_SMALL estimated, c)
          else
            match cached_or_stored cached key_handle c with
            | Err x => (ret (error_to_rv x), over c)
            | Ok o =>
              match o_key_material o with
              | None => (ret CKR_KEY_HANDLE_INVALID, over c)
              | Some key_bytes =>
                match final_decrypt mechanism mech_param key_bytes data with
                | Err rv => (ret rv, over c)
                | Ok (Ok decrypted) =>
                  (ret_data decrypted,
                   over (op_audit session (ADecrypt mechanism (is_fips_approved mechanism))
                           Success c))
                | Ok (Err x) => (ret (error_to_rv x), over c)
                end
              end
            end
      | _ => (ret CKR_OPERATION_NOT_INITIALIZED, c)
      end
    end
  end.

(** ** Digests *)

Definition C_Digest (session : Z) (p_data : option bytes) (p_digest : bool)
    (pul_digest_len : option Z) c : CallOut * CryptoCore :=
  match p_data, pul_digest_len with
  | Some data, Some buf_len =>
    match op_session session c with
    | Err x => (ret (error_to_rv x), c)
    | Ok (l, s) =>
      match s_active_operation s with
      | Some (OpDigest mechanism _ accumulated_input) =>
        match accumulated_input with
        | _ :: _ => (ret CKR_OPERATION_ACTIVE, set_op l s None c)
        | [] =>
          if MAX_SINGLE_BUFFER <? blen data then (ret CKR_DATA_LEN_RANGE, set_op l s None c)
          else
            match compute_digest mechanism data with
            | Ok digest_out =>
              if negb p_digest then (ret_len CKR_OK (blen digest_out), c)
              else if buf_len <? blen digest_out
              then (ret_len CKR_BUFFER_TOO_SMALL (blen digest_out), c)
              else (ret_data digest_out, set_op l s None c)
            | Err x => (ret (error_to_rv x), set_op l s None c)
            end
        end
      | _ => (ret CKR_OPERATION_NOT_INITIALIZED, c)
      end
    end
  | _, _ => (ret CKR_ARGUMENTS_BAD, c)
  end.

Definition C_DigestUpdate (session : Z) (p_part : option bytes) c : Z * CryptoCore :=
  match p_part with
  | None => (CKR_ARGUMENTS_BAD, c)
  | Some data =>
    match op_session session c with
    | Err x => (error_to_rv x, c)
    | Ok (l, s) =>
      match s_active_operation s with
      | Some (OpDigest mechanism hasher accumulated_input) =>
        if overflows accumulated_input data then (CKR_DATA_LEN_RANGE, set_op l s None c)
        else (CKR_OK, set_op l s (Some (OpDigest mechanism (hasher_update data <$> hasher)
                                          (accumulated_input ++ data))) c)
      | _ => (CKR_OPERATION_NOT_INITIALIZED, c)
      end
    end
  end.

Definition C_DigestKey (session key : Z) c : Z * CryptoCore :=
  match op_session session c with
  | Err x => (error_to_rv x, c)
  | Ok (l, s) =>
    match s_active_operation s with
    | Some (OpDigest mechanism hasher accumulated_input) =>
      match op_object key c with
      | Err _ => (CKR_KEY_HANDLE_INVALID, c)
      | Ok o =>
        if negb (o_class o =? CKO_SECRET_KEY) then (CKR_KEY_INDIGESTIBLE, c)
        else if o_sensitive o then (CKR_KEY_INDIGESTIBLE, c)
        else
          match o_key_material o with
          | None => (CKR_KEY_INDIGESTIBLE, c)
          | Some key_bytes =>
            (CKR_OK, set_op l s (Some (OpDigest mechanism (hasher_update key_bytes <$> hasher)
                                         (accumulated_input ++ key_bytes))) c)
          end
      end
    | _ => (CKR_OPERATION_NOT_INITIALIZED, c)
    end
  end.

(** The algorithm of a digest operation's hasher: [create_hasher] was given the
    mechanism. *)
Definition C_DigestFinal (session : Z) (p_digest : bool) (pul_digest_len : option Z) c :
    CallOut * CryptoCore :=
  match pul_digest_len with
  | None => (ret CKR_ARGUMENTS_BAD, c)
  | Some buf_len =>
    match op_session session c with
    | Err x => (ret (error_to_rv x), c)
    | Ok (l, s) =>
      match s_active_operation s with
      | Some (OpDigest mechanism hasher _) =>
        match hasher, digest_alg mechanism with
        | Some h, Some d =>
          let output_len := Z.of_nat (digest_len d) in
          if negb p_digest then (ret_len CKR_OK output_len, c)
          else if buf_len <? output_len
          then (ret_len CKR_BUFFER_TOO_SMALL output_len, set_op l s None c)
          else (ret_data (hasher_finalize d h), set_op l s None c)
        | _, _ => (ret CKR_OPERATION_NOT_INITIALIZED, set_op l s None c)
        end
      | _ => (ret CKR_OPERATION_NOT_INITIALIZED, c)
      end
    end
  end.

(** ** Multi-part signatures *)

(** The digest a hasher of a signature computes: the one of the mechanism's
    built-in hash, or, for a restored operation, of the mechanism itself. *)
Definition hasher_alg (mechanism : Z) : option DigestAlg :=
  match sign_mechanism_to_digest_mechanism mechanism with
  | Some digest_mech => digest_alg digest_mech
  | None => digest_alg mechanism
  end.

(** One part of a multi-part signature or verification: the new data and
    hasher, or the error that ends the operation. *)
Definition feed_part (mechanism : Z) (data : bytes) (hasher : option bytes) (part : bytes) :
    Result Z (bytes * option bytes) :=
  if overflows data part then Err CKR_DATA_LEN_RANGE
  else match hasher with
  | Some h => Ok (data, Some (hasher_update part h))
  | None =>
    if sign_mechanism_supports_multipart mechanism then Err CKR_GENERAL_ERROR
    else Ok (data ++ part, None)
  end.

Definition C_SignUpdate (session : Z) (p_part : option bytes) c : Z * CryptoCore :=
  match p_part with
  | None => (CKR_ARGUMENTS_BAD, c)
  | Some part =>
    match op_session session c with
    | Err x => (error_to_rv x, c)
    | Ok (l, s) =>
      match s_active_operation s with
      | Some (OpSign mechanism key_handle data hasher cached) =>
        match feed_part mechanism data hasher part with
        | Err rv => (rv, set_op l s None c)
        | Ok (data, hasher) =>
          (CKR_OK, set_op l s (Some (OpSign mechanism key_handle data hasher cached)) c)
        end
      | _ => (CKR_OPERATION_NOT_INITIALIZED, c)
      end
    end
  end.

Definition C_VerifyUpdate (session : Z) (p_part : option bytes) c : Z * CryptoCore :=
  match p_part with
  | None => (CKR_ARGUMENTS_BAD, c)
  | Some part =>
    match op_session session c with
    | Err x => (error_to_rv x, c)
    | Ok (l, s) =>
      match s_active_operation s with
      | Some (OpVerify mechanism key_handle data hasher cached) =>
        match feed_part mechanism data hasher part with
        | Err rv => (rv, set_op l s None c)
        | Ok (data, hasher) =>
          (CKR_OK, set_op l s (Some (OpVerify mechanism key_handle data hasher cached)) c)
        end
      | _ => (CKR_OPERATION_NOT_INITIALIZED, c)
      end
    end
  end.

(** The signature of a final call: of the finished digest when there is a
    hasher, of the accumulated data otherwise. *)
Definition sign_final e (slot_id key_handle mechanism : Z) (key_bytes data : bytes)
    (hasher : option bytes) (o : StoredObject) (rsa : RsaCaches) : HsmResult bytes * RsaCaches :=
  match hasher, hasher_alg mechanism with
  | Some h, Some d =>
    sign_prehashed e slot_id key_handle mechanism key_bytes (hasher_finalize d h) o rsa
  | _, _ => sign_single_shot e slot_id key_handle mechanism key_bytes data o rsa
  end.
Definition verify_final (slot_id key_handle mechanism : Z) (data : bytes) (hasher : option bytes)
    (signature : bytes) (o : StoredObject) (rsa : RsaCaches) : HsmResult bool * RsaCaches :=
  match hasher, hasher_alg mechanism with
  | Some h, Some d =>
    verify_prehashed slot_id key_handle mechanism (hasher_finalize d h) signature o rsa
  | _, _ => verify_single_shot slot_id key_handle mechanism data signature o rsa
  end.

Definition C_SignFinal e (session : Z) (p_signature : bool) (pul_signature_len : option Z) c :
    CallOut * CryptoCore :=
  match pul_signature_len with
  | None => (ret CKR_ARGUMENTS_BAD, c)
  | Some buf_len =>
    match op_session session c with
    | Err x => (ret (error_to_rv x), c)
    | Ok (l, s) =>
      match s_active_operation s with
      | Some (OpSign mechanism key_handle data hasher cached) =>
        let over := set_op l s None in
        if negb p_signature then
          match op_object key_handle c with
          | Err x => (ret (error_to_rv x), over c)
          | Ok o =>
            match estimated_signature_len mechanism o with
            | None => (ret CKR_MECHANISM_INVALID, over c)
            | Some est => (ret_len CKR_OK est, c)
            end
          end
        else
          match cached_or_stored cached key_handle c with
          | Err x => (ret (error_to_rv x), over c)
          | Ok o =>
            match o_key_material o with
            | None => (ret CKR_KEY_HANDLE_INVALID, over c)
            | Some key_bytes =>
              let '(result, rsa) := sign_final e (s_slot_id s) key_handle mechanism key_bytes data
                                      hasher o (cc_rsa c) in
              let c := c <| cc_rsa := rsa |> in
              match result with
              | Ok signature =>
                if buf_len <? blen signature
                then (ret_len CKR_BUFFER_TOO_SMALL (blen signature), over c)
                else (ret_data signature,
                      over (op_audit session (ASign mechanism (is_fips_approved mechanism))
                              Success c))
              | Err x => (ret (error_to_rv x), over c)
              end
            end
          end
      | _ => (ret CKR_OPERATION_NOT_INITIALIZED, c)
      end
    end
  end.

Definition C_VerifyFinal (session : Z) (p_signature : option bytes) c : Z * CryptoCore :=
  match p_signature with
  | None => (CKR_ARGUMENTS_BAD, c)
  | Some signature =>
    match op_session session c with
    | Err x => (error_to_rv x, c)
    | Ok (l, s) =>
      match s_active_operation s with
      | Some (OpVerify mechanism key_handle data hasher cached) =>
        let over := set_op l s None in
        if MAX_SINGLE_BUFFER <? blen signature then (CKR_DATA_LEN_RANGE, over c)
        else
          match cached_or_stored cached key_handle c with
          | Err x => (error_to_rv x, over c)
          | Ok o =>
            let '(result, rsa) := verify_final (s_slot_id s) key_handle mechanism data hasher
                                    signature o (cc_rsa c) in
            verified session mechanism result (over (c <| cc_rsa := rsa |>))
          end
      | _ => (CKR_OPERATION_NOT_INITIALIZED, c)
      end
    end
  end.

(** ** Saving and restoring an operation *)

Definition C_GetOperationState (session : Z) (p_state : bool) (pul_len : option Z) c : CallOut :=
  match pul_len with
  | None => ret CKR_ARGUMENTS_BAD
  | Some buf_len =>
    match op_session session c with
    | Err x => ret (error_to_rv x)
    | Ok (_, s) =>
      match s_active_operation s with
      | None => ret CKR_OPERATION_NOT_INITIALIZED
      | Some (OpEncrypt _ _ _ _ _ | OpDecrypt _ _ _ _ _) => ret CKR_STATE_UNSAVEABLE
      | Some op =>
        match serialize_state op (state_hmac_key c) session (s_slot_id s) with
        | Err _ => ret CKR_STATE_UNSAVEABLE
        | Ok state_blob =>
          if negb p_state then ret_len CKR_OK (blen state_blob)
          else if buf_len <? blen state_blob
          then ret_len CKR_BUFFER_TOO_SMALL (blen state_blob)
          else ret_data state_blob
        end
      end
    end
  end.

(** A hasher for the mechanism, fed with the saved data. *)
Definition restored_hasher (mechanism : Z) (data : bytes) : HsmResult bytes :=
  let? h := create_hasher mechanism in
  Ok (match data with [] => h | _ => hasher_update data h end).

(** The operation a saved state restores. *)
Definition restore_operation (op_type mechanism key_handle h_auth : Z) (data : bytes) c :
    Result Z ActiveOperation :=
  let resolved_key := if negb (h_auth =? 0) then h_auth else key_handle in
  let hasher := match restored_hasher mechanism data with Ok h => Some h | Err _ => None end in
  if op_type =? OP_TYPE_DIGEST then
    match hasher with
    | None => Err CKR_SAVED_STATE_INVALID
    | Some h => Ok (OpDigest mechanism (Some h) data)
    end
  else if op_type =? OP_TYPE_SIGN then
    match op_object resolved_key c with
    | Err _ => Err CKR_KEY_HANDLE_INVALID
    | Ok _ => Ok (OpSign mechanism resolved_key data hasher None)
    end
  else if op_type =? OP_TYPE_VERIFY then
    match op_object resolved_key c with
    | Err _ => Err CKR_KEY_HANDLE_INVALID
    | Ok _ => Ok (OpVerify mechanism resolved_key data hasher None)
    end
  else Err CKR_SAVED_STATE_INVALID.

Definition C_SetOperationState (session : Z) (p_state : option bytes) (h_auth : Z) c :
    Z * CryptoCore :=
  match p_state with
  | None | Some [] => (CKR_ARGUMENTS_BAD, c)
  | Some blob =>
    if MAX_SINGLE_BUFFER <? blen blob then (CKR_SAVED_STATE_INVALID, c)
    else
      match op_session session c with
      | Err x => (error_to_rv x, c)
      | Ok (l, s) =>
        match deserialize_state blob (state_hmac_key c) session (s_slot_id s) with
        | Err _ => (CKR_SAVED_STATE_INVALID, c)
        | Ok (op_type, mechanism, key_handle, _, data) =>
          match restore_operation op_type mechanism key_handle h_auth data c with
          | Err rv => (rv, c)
          | Ok op => (CKR_OK, set_op l s (Some op) c)
          end
        end
      end
  end.

(** ** Random numbers *)

Definition C_SeedRandom (session : Z) c : Z :=
  match op_session session c with
  | Err x => error_to_rv x
  | Ok _ => CKR_RANDOM_SEED_NOT_SUPPORTED
  end.

(** [OsRng] fills the buffer: [oe_random] holds the [random_len] bytes, or that
    it panicked. *)
Definition C_GenerateRandom e (session : Z) (p_random_data : bool) (random_len : Z) c :
    CallOut * CryptoCore :=
  if negb p_random_data then (ret CKR_ARGUMENTS_BAD, c)
  else if MAX_SINGLE_BUFFER <? random_len then (ret CKR_DATA_LEN_RANGE, c)
  else
    match op_session session c with
    | Err x => (ret (error_to_rv x), c)
    | Ok _ =>
      match oe_random e with
      | Panicked => (ret CKR_GENERAL_ERROR, c)
      | Returns data =>
        ({| out_rv := CKR_OK; out_data := Some data; out_len := None |},
         op_audit session (AGenerateRandom (wrap 32 random_len)) Success c)
      end
    end.

(** The functions the library does not support. *)
Definition not_supported : Z := CKR_FUNCTION_NOT_SUPPORTED.

(** ** Mechanisms *)

Definition validate_slot (slot_id : Z) c : HsmResult unit :=
  if bool_decide (is_Some (slot_manager (cc_core c) !! slot_id)) then Ok () else Err SlotIdInvalid.

(** The value, the list written and the count written. *)
Definition C_GetMechanismList (slot_id : Z) (p_mechanism_list : bool) (pul_count : option Z) c :
    Z * option (list Z) * option Z :=
  match pul_count with
  | None => (CKR_ARGUMENTS_BAD, None, None)
  | Some count =>
    match validate_slot slot_id c with
    | Err x => (error_to_rv x, None, None)
    | Ok _ =>
      let mechs := supported_mechanisms_filtered (algorithm_config c) in
      let n := Z.of_nat (length mechs) in
      if negb p_mechanism_list then (CKR_OK, None, Some n)
      else if count <? n then (CKR_BUFFER_TOO_SMALL, None, Some n)
      else (CKR_OK, Some mechs, Some n)
    end
  end.

Definition C_GetMechanismInfo (slot_id mechanism_type : Z) (p_info : bool) c :
    Z * option CK_MECHANISM_INFO :=
  if negb p_info then (CKR_ARGUMENTS_BAD, None)
  else
    match validate_slot slot_id c with
    | Err x => (error_to_rv x, None)
    | Ok _ =>
      match mechanism_info mechanism_type with
      | Some info => (CKR_OK, Some info)
      | None => (CKR_MECHANISM_INVALID, None)
      end
    end.

(** ** Calls *)

(** An object a reference points to, after a call that turned the objects [old]
    into [new] and put new ones at the handles of [reloaded]. *)
Definition detach (reloaded : gset Z) (old new : gmap Z StoredObject) (r : ObjRef) : ObjRef :=
  match r with
  | Shared h =>
    match old !! h with
    | Some o => if bool_decide (is_Some (new !! h) ∧ h ∉ reloaded) then r else Detached o
    | None => r
    end
  | Detached _ => r
  end.

(** The handles at which a login puts the objects it loads: those it fills when
    the store holds none. *)
Definition reloaded_by (ce : CallEnv) (k : AbiCall) (c : HsmCore A B) : gset Z :=
  match k with
  | CallLogin _ _ _ =>
    let bare := c <| object_store := object_store c <| os_objects := ∅ |> |> in
    dom (os_objects (object_store (abi_call ce k bare).2))
  | _ => ∅
  end.

(** A call of Abi.v: the references of the running operations follow the
    store, and destroying an object evicts its parsed keys. *)
Definition core_call (ce : CallEnv) (k : AbiCall) c : Z * CryptoCore :=
  let before := cc_core c in
  let '(rv, core) := abi_call ce k before in
  let refs := match k with
              | CallSetAttributeValue _ _ _ => cc_refs c
              | _ => detach (reloaded_by ce k before) (os_objects (object_store before))
                       (os_objects (object_store core)) <$> cc_refs c
              end in
  let rsa := match k with
             | CallDestroyObject session object =>
               if rv =? CKR_OK then
                 match find_session session before with
                 | Ok (_, s) => evict_cached_keys (s_slot_id s) object (cc_rsa c)
                 | Err _ => cc_rsa c
                 end
               else cc_rsa c
             | _ => cc_rsa c
             end in
  (rv, c <| cc_core := core |> <| cc_refs := refs |> <| cc_rsa := rsa |>).

Definition rv_only (r : Z * CryptoCore) : CallOut * CryptoCore := (ret r.1, r.2).

Definition crypto_call e (k : CryptoCall) c : CallOut * CryptoCore :=
  match k with
  | KCore ce k => rv_only (core_call ce k c)
  | KEncryptInit session m key => rv_only (C_EncryptInit e session m key c)
  | KEncrypt session data out len => C_Encrypt e session data out len c
  | KEncryptUpdate session part len => C_EncryptUpdate session part len c
  | KEncryptFinal session out len => C_EncryptFinal session out len c
  | KDecryptInit session m key => rv_only (C_DecryptInit e session m key c)
  | KDecrypt session data out len => C_Decrypt session data out len c
  | KDecryptUpdate session part len => C_DecryptUpdate session part len c
  | KDecryptFinal session out len => C_DecryptFinal session out len c
  | KDigestInit session m => rv_only (C_DigestInit session m c)
  | KDigest session data out len => C_Digest session data out len c
  | KDigestUpdate session part => rv_only (C_DigestUpdate session part c)
  | KDigestKey session key => rv_only (C_DigestKey session key c)
  | KDigestFinal session out len => C_DigestFinal session out len c
  | KSignInit session m key => rv_only (C_SignInit e session m key c)
  | KSign session data out len => C_Sign e session data out len c
  | KSignUpdate session part => rv_only (C_SignUpdate session part c)
  | KSignFinal session out len => C_SignFinal e session out len c
  | KVerifyInit session m key => rv_only (C_VerifyInit e session m key c)
  | KVerify session data signature => rv_only (C_Verify session data signature c)
  | KVerifyUpdate session part => rv_only (C_VerifyUpdate session part c)
  | KVerifyFinal session signature => rv_only (C_VerifyFinal session signature c)
  | KSetOperationState session state h_auth => rv_only (C_SetOperationState session state h_auth c)
  | KGenerateRandom session out n => C_GenerateRandom e session out n c
  end.

(** A run: each call with its environment; the result of the last one. *)
Fixpoint crypto_run (calls : list (OpEnv * CryptoCall)) c : CryptoCore :=
  match calls with
  | [] => c
  | (e, k) :: calls => crypto_run calls (crypto_call e k c).2
  end.

(** [C_Finalize] and [C_Initialize] by process [pid]: a new core with its own
    configuration and state key; the caches of parsed keys are process-wide and
    neither call clears them. *)
Definition reinitialize (pid : Z) (post : CipherState → bool * CipherState)
    (core : option (HsmCore A B)) (config : AlgorithmConfig) (hmac_key : bytes) c : option CryptoCore :=
  let lib := {| lib_hsm := Some (cc_core c); lib_post_failed := false; lib_init_pid := pid;
                lib_cipher := core_cipher (cc_core c) |} in
  let '(_, lib) := C_Finalize false lib in
  let '(_, lib) := C_Initialize pid post core lib in
  match lib_hsm lib with
  | Some core =>
    Some {| cc_core := core; cc_rsa := cc_rsa c; cc_refs := ∅; cc_next_ref := cc_next_ref c;
            algorithm_config := config; state_hmac_key := hmac_key |}
  | None => None
  end.
End Operations.
Arguments CryptoCore {SP} A B.
