(* ===== verification/OperationProofs.v ===== *)
(** * Theorems on the cryptographic operations

    Signatures need a login; a saved operation state goes round that and loses
    the data of a hashed signature; a multi-part operation gives what the
    single call gives; a length query changes nothing and announces enough. *)

From S2P Require Import Prelude Pkcs11 Handles Hash PinCrypto TokenFiles Token Session SessionManager SessionProofs Dates Objects ObjectStore AuditChain Encrypt EncryptProofs Abi Mechanisms Sign SignProofs Operations.

(** A session that is signing is logged in. *)
Definition guarded (s : Session) : Prop :=
  match s_active_operation s with
  | Some (OpSign _ _ _ _ _) => is_logged_in (s_state s) = true
  | _ => True
  end.

Lemma guarded_none s : s_active_operation s = None → guarded s.
Proof. unfold guarded. by intros ->. Qed.
Lemma guarded_same s s' :
  s_active_operation s' = s_active_operation s → s_state s' = s_state s → guarded s → guarded s'.
Proof. unfold guarded. by intros -> ->. Qed.
Lemma guarded_state s s' :
  s_active_operation s' = s_active_operation s → is_logged_in (s_state s') = true → guarded s'.
Proof. unfold guarded. intros _ H. by repeat case_match. Qed.

Lemma on_login_guarded ty s s' : on_login ty s = Ok s' → guarded s'.
Proof.
  unfold on_login, on_user_login, on_so_login. intros Hl.
  apply (guarded_state s); repeat case_match; by simplify_eq.
Qed.
Lemma on_logout_guarded s s' : on_logout s = Ok s' → guarded s'.
Proof.
  unfold on_logout. intros Hl. apply guarded_none. by destruct (s_state s); simplify_eq/=.
Qed.

Section Guarded.
Context {A : Type} {HS : HandleSource A} {D : DashOrder}.
Implicit Types m : SessionManager A.

Definition all_guarded m : Prop := map_Forall (λ _, guarded) (sm_heap m).

Lemma write_guarded l s m : guarded s → all_guarded m → all_guarded (write_session l s m).
Proof. intros. by apply map_Forall_insert_2. Qed.
Lemma lookup_guarded m h l s : lookup_session m h = Some (l, s) → all_guarded m → guarded s.
Proof. intros [_ Hl]%lookup_session_Some Hm. exact (Hm _ _ Hl). Qed.

Lemma foldl_guarded {T} (proj : T → SessionManager A) (f : T → Z → T) keys t :
  (∀ t h, all_guarded (proj t) → all_guarded (proj (f t h))) →
  all_guarded (proj t) → all_guarded (proj (foldl f t keys)).
Proof. intros Hf. revert t. induction keys; simpl; auto. Qed.

Lemma logout_handle_guarded m h : all_guarded m → all_guarded (logout_handle m h).
Proof.
  unfold logout_handle. intros Hm. repeat case_match; try done.
  apply write_guarded; [|done]. by eapply on_logout_guarded.
Qed.

Lemma login_each_guarded slot ty hs logged m :
  all_guarded m → all_guarded (login_each slot ty hs logged m).2.
Proof.
  revert logged m. induction hs as [|h hs IH]; intros logged m Hm; cbn [login_each]; [done|].
  destruct (lookup_session m h) as [[l s]|] eqn:Hl; [|by apply IH].
  destruct (negb _); [by apply IH|]. destruct (on_login ty s) as [s'|] eqn:Ho.
  - apply IH, write_guarded; [|done]. by eapply on_login_guarded.
  - apply (foldl_guarded id); [|done]. apply logout_handle_guarded.
Qed.
Lemma login_all_guarded slot ty m : all_guarded m → all_guarded (login_all slot ty m).2.
Proof. unfold login_all. case_match; [done|]. apply login_each_guarded. Qed.

Lemma cancel_guarded slot m : all_guarded m → all_guarded (cancel_sessions_for_slot slot m).
Proof.
  apply (foldl_guarded id). intros m0 h Hm. unfold cancel_visit, id. repeat case_match; try done.
  - apply write_guarded; [by eapply on_logout_guarded|done].
  - apply write_guarded; [by apply guarded_none|done].
Qed.

Lemma close_session_guarded h m t cache r m' t' cache' :
  close_session h m t cache = (r, m', t', cache') → all_guarded m → all_guarded m'.
Proof.
  unfold close_session. intros Hc Hm. repeat case_match; simplify_eq; [|done].
  apply write_guarded; [|done]. by apply guarded_none.
Qed.

Lemma close_all_guarded slot m t cache m' t' cache' :
  close_all_sessions slot m t cache = (m', t', cache') → all_guarded m → all_guarded m'.
Proof.
  unfold close_all_sessions. intros Hc Hm.
  pose proof (foldl_guarded (λ acc, acc.1.2) (close_all_visit slot) (dash_keys (sm_sessions m))
    (false, m, t)) as Hf.
  destruct (foldl _ _ _) as [[any m1] t1]. simplify_eq.
  enough (all_guarded m1) by (by destruct any). apply Hf; [|done].
  intros [[a m2] t2] h Hm2. unfold close_all_visit. repeat case_match; try done.
  apply write_guarded; [|done]. by apply guarded_none.
Qed.

Lemma open_session_guarded slot flags now m t r m' t' :
  open_session slot flags now m t = (r, m', t') → all_guarded m → all_guarded m'.
Proof.
  unfold open_session. intros Ho Hm. repeat case_match; simplify_eq; try done;
    apply map_Forall_insert_2; try done; apply guarded_none; try done;
    unfold on_user_login, on_so_login in *; repeat case_match; by simplify_eq.
Qed.
End Guarded.

Section SignNeedsLogin.
Context {P : PinPrimitives} {X : HexCodec} {H : HashPrimitives} {CP : CipherPrimitives}.
Context {SP : SignPrimitives}.
Context {C : ObjectCodec} {SO : StoreOrder} {D : DashOrder} {AC : AuditCodec}.
Context {A B : Type} {HS : HandleSource A} {OH : ObjectHandles B}.
Implicit Types (c : CryptoCore A B) (e : OpEnv).

Definition core_guarded (c : HsmCore A B) : Prop := all_guarded (session_manager c).

Lemma put_session_guarded l s (c : HsmCore A B) :
  guarded s → core_guarded c → core_guarded (put_session l s c).
Proof. apply write_guarded. Qed.

Lemma find_session_guarded session (c : HsmCore A B) l s :
  find_session session c = Ok (l, s) → core_guarded c → guarded s.
Proof.
  unfold find_session. intros Hf. destruct (lookup_session _ _) as [[l' s']|] eqn:Hl; [|done].
  simplify_eq/=. by eapply lookup_guarded.
Qed.

Lemma abi_call_guarded ce k (c : HsmCore A B) :
  core_guarded c → core_guarded (abi_call ce k c).2.
Proof.
  intros Hc. destruct k; cbn [abi_call].
  all: unfold C_InitToken, C_InitPIN, C_SetPIN, C_OpenSession, C_CloseSession, C_CloseAllSessions,
    C_Login, C_Logout, C_CreateObject, C_DestroyObject, C_SetAttributeValue, C_CopyObject,
    C_FindObjectsInit, C_FindObjects, C_FindObjectsFinal, install_object_key.
  all: repeat case_match; simplify_eq; try exact Hc.
  all: try match goal with
    | K : open_session _ _ _ _ _ = _ |- _ => exact (open_session_guarded _ _ _ _ _ _ _ _ K Hc)
    | K : close_session _ _ _ _ = _ |- _ => exact (close_session_guarded _ _ _ _ _ _ _ _ K Hc)
    | K : close_all_sessions _ _ _ _ = _ |- _ => exact (close_all_guarded _ _ _ _ _ _ _ K Hc)
    | K : find_session _ _ = Ok _ |- core_guarded (_, put_session _ _ _).2 =>
      apply put_session_guarded; [|exact Hc];
      eapply guarded_same; [..|exact (find_session_guarded _ _ _ _ K Hc)]; done
    end.
  all: first [exact (login_all_guarded _ _ _ Hc) | exact (cancel_guarded _ _ Hc)].
Qed.

(** ** The operations *)

Definition op_guarded c : Prop := core_guarded (cc_core c).

Lemma set_op_guarded l s op c :
  guarded (s <| s_active_operation := op |>) → op_guarded c → op_guarded (set_op l s op c).
Proof. apply put_session_guarded. Qed.

Lemma op_session_guarded session c l s : op_session session c = Ok (l, s) → op_guarded c → guarded s.
Proof. apply find_session_guarded. Qed.

(** The ciphers leave the sessions alone. *)
Lemma run_encrypt_sessions e slot k mech param key data o c :
  session_manager (cc_core (run_encrypt e slot k mech param key data o c).2) =
  session_manager (cc_core c).
Proof. unfold run_encrypt. by repeat case_match. Qed.
Lemma run_encrypt_objects e slot k mech param key data o c :
  object_store (cc_core (run_encrypt e slot k mech param key data o c).2) = object_store (cc_core c).
Proof. unfold run_encrypt. by repeat case_match. Qed.
Lemma run_decrypt_sessions slot k mech param key data c :
  session_manager (cc_core (run_decrypt slot k mech param key data c).2) =
  session_manager (cc_core c).
Proof. unfold run_decrypt. by repeat case_match. Qed.
Lemma final_encrypt_sessions mech param key data c :
  session_manager (cc_core (final_encrypt mech param key data c).2) =
  session_manager (cc_core c).
Proof. unfold final_encrypt. by repeat case_match. Qed.

(** The state after a cipher call, in place of the one before. *)
Lemma sessions_guarded c c' :
  session_manager (cc_core c') = session_manager (cc_core c) → op_guarded c → op_guarded c'.
Proof. unfold op_guarded, core_guarded. by intros ->. Qed.

Lemma cipher_guarded {T} (r : T * CryptoCore A B) x c c' :
  session_manager (cc_core r.2) = session_manager (cc_core c) → r = (x, c') →
  op_guarded c → op_guarded c'.
Proof. intros Hr -> . by apply sessions_guarded. Qed.

Lemma sign_update_guarded s mech k data h ca mech' k' data' h' ca' :
  guarded s → s_active_operation s = Some (OpSign mech k data h ca) →
  guarded (s <| s_active_operation := Some (OpSign mech' k' data' h' ca') |>).
Proof. unfold guarded. intros Hs Hop. rewrite Hop in Hs. exact Hs. Qed.

Definition restores (k : CryptoCall) : bool :=
  match k with KSetOperationState _ _ _ => true | _ => false end.

Ltac guard_step Hc :=
  first
    [ exact Hc
    | match goal with
      | K : run_encrypt _ _ _ _ _ _ _ _ _ = _ |- _ =>
        eapply cipher_guarded in K; [|apply run_encrypt_sessions|exact Hc]
      | K : run_decrypt _ _ _ _ _ _ _ = _ |- _ =>
        eapply cipher_guarded in K; [|apply run_decrypt_sessions|exact Hc]
      | K : final_encrypt _ _ _ _ _ = _ |- _ =>
        eapply cipher_guarded in K; [|apply final_encrypt_sessions|exact Hc]
      end; first [eassumption | apply set_op_guarded; [by apply guarded_none|eassumption]]
    | apply set_op_guarded; [first [exact I | by apply guarded_none]|exact Hc] ].

Lemma crypto_call_guarded e k c :
  restores k = false → op_guarded c → op_guarded (crypto_call e k c).2.
Proof.
  intros Hk Hc. destruct k; try done; cbn [crypto_call rv_only snd].
  all: unfold C_EncryptInit, C_Encrypt, C_EncryptUpdate, C_EncryptFinal, C_DecryptInit, C_Decrypt,
    C_DecryptUpdate, C_DecryptFinal, C_DigestInit, C_Digest, C_DigestUpdate, C_DigestKey,
    C_DigestFinal, C_SignInit, C_Sign, C_SignUpdate, C_SignFinal, C_VerifyInit, C_Verify,
    C_VerifyUpdate, C_VerifyFinal, C_GenerateRandom, verified.
  1: { unfold core_call. pose proof (abi_call_guarded ce k (cc_core c) Hc) as Hk'.
       by destruct (abi_call ce k (cc_core c)). }
  all: unfold new_ref; repeat case_match; simplify_eq; cbn [fst snd]; try guard_step Hc.
  - apply set_op_guarded; [|exact Hc]. by apply negb_false_iff.
  - apply set_op_guarded; [|exact Hc]. eapply sign_update_guarded; [|eassumption].
    by eapply op_session_guarded.
Qed.

(** One call, other than one that restores a saved operation. *)
Definition crypto_step c c' : Prop := ∃ e k, restores k = false ∧ c' = (crypto_call e k c).2.

Lemma crypto_steps_guarded c c' : rtc crypto_step c c' → op_guarded c → op_guarded c'.
Proof. induction 1 as [|c c1 c2 (e & k & Hk & ->) _ IH]; eauto using crypto_call_guarded. Qed.

Lemma crypto_run_steps calls c :
  forallb (λ ek, negb (restores ek.2)) calls = true → rtc crypto_step c (crypto_run calls c).
Proof.
  revert c. induction calls as [|[e k] calls IH]; intros c; cbn [forallb crypto_run]; [done|].
  intros [Hk Hks]%andb_true_iff. eapply rtc_l; [|by apply IH].
  exists e, k. by apply negb_true_iff in Hk.
Qed.

(** C7: no signature without a login.  From a core with no sessions, over every
    sequence of calls that initialise tokens, open and close sessions, log in
    and out, work on objects, and start, feed and finish encryptions,
    decryptions, digests, signatures and verifications (all but restoring a
    saved operation state), a session that is not logged in cannot start a
    signature, and has none to feed or to finish: [C_SignInit] refuses, and
    [C_Sign], [C_SignUpdate] and [C_SignFinal] write nothing, change nothing and
    report that no operation is active.  In particular a signature started
    before a logout cannot be finished after it. *)
Theorem signatures_need_login c0 c session l s e m key data part out len
    (H0 : sm_heap (session_manager (cc_core c0)) = ∅) (Hrun : rtc crypto_step c0 c)
    (Hs : op_session session c = Ok (l, s)) (Hout : is_logged_in (s_state s) = false) :
  C_SignInit e session (Some m) key c = (CKR_USER_NOT_LOGGED_IN, c) ∧
  C_Sign e session (Some data) out (Some len) c = (ret CKR_OPERATION_NOT_INITIALIZED, c) ∧
  C_SignUpdate session (Some part) c = (CKR_OPERATION_NOT_INITIALIZED, c) ∧
  C_SignFinal e session out (Some len) c = (ret CKR_OPERATION_NOT_INITIALIZED, c).
Proof.
  assert (guarded s) as Hg.
  { eapply op_session_guarded; [exact Hs|]. apply (crypto_steps_guarded _ _ Hrun).
    unfold op_guarded, core_guarded, all_guarded. rewrite H0. apply map_Forall_empty. }
  unfold guarded in Hg. unfold C_SignInit, C_Sign, C_SignUpdate, C_SignFinal. rewrite Hs, Hout.
  destruct (s_active_operation s) as [[]|]; try congruence; done.
Qed.
End SignNeedsLogin.

(** ** Multi-part and single-part *)

Lemma mech_in_sub ms ms' m :
  mech_in ms m = false → forallb (mech_in ms) ms' = true → mech_in ms' m = false.
Proof.
  rewrite <- !not_true_iff_false, forallb_forall. intros Hn Hsub Hm.
  apply Hn, Hsub. by apply list_elem_of_In, mech_in_spec.
Qed.

Lemma sign_hasher_cases {SP : SignPrimitives} m :
  (sign_hasher m = None ∧ sign_mechanism_supports_multipart m = false) ∨
  (sign_hasher m = Some [] ∧ sign_mechanism_supports_multipart m = true ∧ is_Some (hasher_alg m)).
Proof.
  destruct (sign_mechanism_supports_multipart m) eqn:Hm;
    unfold sign_mechanism_supports_multipart in Hm.
  - right. rewrite mech_in_spec, !elem_of_cons, elem_of_nil in Hm.
    destruct Hm as [->|[->|[->|[->|[->|[->|[->|[->|[->|[]]]]]]]]]]; vm_compute; eauto.
  - left. split; [|done]. unfold sign_hasher, sign_mechanism_to_digest_mechanism.
    by rewrite !(mech_in_sub _ _ _ Hm) by reflexivity.
Qed.

Section Multipart.
Context {P : PinPrimitives} {X : HexCodec} {H : HashPrimitives} {CP : CipherPrimitives}.
Context {SP : SignPrimitives} {CL : CipherPrimitivesLaws CP} {SL : SignPrimitivesLaws SP}.
Context {C : ObjectCodec} {SO : StoreOrder} {D : DashOrder} {AC : AuditCodec}.
Context {A B : Type} {HS : HandleSource A} {OH : ObjectHandles B}.
Implicit Types (c : CryptoCore A B) (e : OpEnv) (s : Session).

Lemma op_session_heap session c l s :
  op_session session c = Ok (l, s) →
  sm_sessions (session_manager (cc_core c)) !! session = Some l ∧
  sm_heap (session_manager (cc_core c)) !! l = Some s.
Proof.
  unfold op_session, find_session. destruct (lookup_session _ _) as [[l' s']|] eqn:E; [|done].
  intros. simplify_eq/=. by apply lookup_session_Some.
Qed.

Lemma op_session_set session c l s op :
  op_session session c = Ok (l, s) →
  op_session session (set_op l s op c) = Ok (l, s <| s_active_operation := op |>).
Proof.
  intros [Hs Hl]%op_session_heap. unfold op_session, find_session, lookup_session.
  cbn -[lookup insert]. by rewrite Hs, lookup_insert_eq.
Qed.

Lemma active_set s op : s_active_operation (s <| s_active_operation := op |>) = op.
Proof. done. Qed.

Lemma set_op_twice l s op op' c :
  set_op l (s <| s_active_operation := op |>) op' (set_op l s op c) = set_op l s op' c.
Proof.
  unfold set_op, put_session, write_session. destruct c as [core ?????], core as [? m ??????], m.
  cbn -[insert]. by rewrite insert_insert_eq.
Qed.

Lemma set_op_same session c l s op :
  op_session session c = Ok (l, s) → s_active_operation s = op → set_op l s op c = c.
Proof.
  intros [_ Hl]%op_session_heap <-. unfold set_op, put_session, write_session.
  destruct c as [core ?????], core as [? m ??????], m, s. cbn -[insert lookup] in *.
  by rewrite insert_id.
Qed.

(** The call that feeds, ends or does at once the operation. *)
Definition update_call (op : ActiveOperation) (session : Z) (part : bytes) : CryptoCall :=
  match op with
  | OpEncrypt _ _ _ _ _ => KEncryptUpdate session (Some part) (Some 0)
  | OpDecrypt _ _ _ _ _ => KDecryptUpdate session (Some part) (Some 0)
  | OpSign _ _ _ _ _ => KSignUpdate session (Some part)
  | OpVerify _ _ _ _ _ => KVerifyUpdate session (Some part)
  | OpDigest _ _ _ => KDigestUpdate session (Some part)
  end.
Definition final_call (op : ActiveOperation) (session len : Z) : CryptoCall :=
  match op with
  | OpEncrypt _ _ _ _ _ => KEncryptFinal session true (Some len)
  | OpDecrypt _ _ _ _ _ => KDecryptFinal session true (Some len)
  | OpSign _ _ _ _ _ => KSignFinal session true (Some len)
  | OpVerify _ _ _ _ _ => KVerifyFinal session None
  | OpDigest _ _ _ => KDigestFinal session true (Some len)
  end.
Definition single_call (op : ActiveOperation) (session : Z) (data : bytes) (len : Z) : CryptoCall :=
  match op with
  | OpEncrypt _ _ _ _ _ => KEncrypt session (Some data) true (Some len)
  | OpDecrypt _ _ _ _ _ => KDecrypt session (Some data) true (Some len)
  | OpSign _ _ _ _ _ => KSign session (Some data) true (Some len)
  | OpVerify _ _ _ _ _ => KVerify session (Some data) None
  | OpDigest _ _ _ => KDigest session (Some data) true (Some len)
  end.

(** An operation as its initialisation leaves it, whose key is still in the
    store, and for a signature with a built-in hash on a curve, where that hash
    is the curve's. *)
Definition fresh_op c (op : ActiveOperation) : Prop :=
  match op with
  | OpEncrypt m k _ d ca | OpDecrypt m k _ d ca =>
    d = [] ∧ encrypt_mechanism_supports_multipart m = true ∧ cached_or_stored ca k c = op_object k c
  | OpSign m k d h ca =>
    d = [] ∧ h = sign_hasher m ∧ cached_or_stored ca k c = op_object k c ∧
    (∀ o, op_object k c = Ok o → is_ecdsa_mechanism m = true → h ≠ None →
       hasher_alg m = Some (curve_digest (curve_of o)))
  | OpVerify _ _ _ _ _ => False
  | OpDigest m h acc => h = Some [] ∧ acc = [] ∧ is_Some (digest_alg m)
  end.

(** The operation after [data] was fed. *)
Definition fed (op : ActiveOperation) (data : bytes) : ActiveOperation :=
  match op with
  | OpEncrypt m k p d ca => OpEncrypt m k p (d ++ data) ca
  | OpDecrypt m k p d ca => OpDecrypt m k p (d ++ data) ca
  | OpSign m k d (Some h) ca => OpSign m k d (Some (h ++ data)) ca
  | OpSign m k d None ca => OpSign m k (d ++ data) None ca
  | OpVerify m k d h ca => OpVerify m k d h ca
  | OpDigest m h acc => OpDigest m ((.++ data) <$> h) (acc ++ data)
  end.

(** The bytes an operation holds, and whether it can be fed. *)
Definition held (op : ActiveOperation) : bytes :=
  match op with
  | OpEncrypt _ _ _ d _ | OpDecrypt _ _ _ d _ | OpSign _ _ d _ _ | OpVerify _ _ d _ _ => d
  | OpDigest _ _ acc => acc
  end.
Definition can_feed (op : ActiveOperation) : bool :=
  match op with
  | OpEncrypt m _ _ _ _ | OpDecrypt m _ _ _ _ => encrypt_mechanism_supports_multipart m
  | OpSign m _ _ None _ => negb (sign_mechanism_supports_multipart m)
  | OpVerify _ _ _ _ _ => false
  | _ => true
  end.

Lemma overflows_false data part :
  blen data + blen part <= MAX_MULTIPART_ACCUMULATION → overflows data part = false.
Proof.
  intros Hle. unfold overflows, saturating_add. apply Z.ltb_ge.
  etrans; [apply Z.le_min_l|done].
Qed.

Lemma update_feeds e session c l s op part :
  op_session session c = Ok (l, s) → s_active_operation s = Some op → can_feed op = true →
  blen (held op) + blen part <= MAX_MULTIPART_ACCUMULATION →
  crypto_call e (update_call op session part) c =
    (match op with OpEncrypt _ _ _ _ _ | OpDecrypt _ _ _ _ _ => ret_len CKR_OK 0 | _ => ret CKR_OK end,
     set_op l s (Some (fed op part)) c).
Proof.
  intros Hs Hop Hf Hle. apply overflows_false in Hle.
  destruct op as [| |m k d [h|] ca| |]; cbn [update_call crypto_call held can_feed fed] in *;
    try discriminate Hf;
    unfold C_EncryptUpdate, C_DecryptUpdate, C_SignUpdate, C_DigestUpdate, feed_part, rv_only;
    rewrite Hs, Hop, ?Hf, ?Hle; try done.
  apply negb_true_iff in Hf. by rewrite Hf.
Qed.

Lemma fed_kind op data session part :
  update_call (fed op data) session part = update_call op session part ∧
  can_feed (fed op data) = can_feed op.
Proof. by destruct op as [| |m k d [h|] ca| |]. Qed.

Lemma fed_held op data :
  can_feed op = true → blen (held (fed op data)) <= blen (held op) + blen data.
Proof.
  intros Hf. destruct op as [| |m k d [h|] ca| |]; cbn [fed held can_feed] in *; try done;
    unfold blen; rewrite ?length_app; lia.
Qed.

Lemma fed_app op d1 d2 : fed (fed op d1) d2 = fed op (d1 ++ d2).
Proof.
  destruct op as [| |m k d [h|] ca| |m [h|] acc]; cbn [fed fmap option_fmap option_map];
    by rewrite ?(assoc_L (++)).
Qed.

Lemma fed_nil op : fed op [] = op.
Proof.
  destruct op as [| |m k d [h|] ca| |m [h|] acc]; cbn [fed fmap option_fmap option_map];
    by rewrite ?app_nil_r.
Qed.

(** Feeding the parts one by one is feeding their concatenation. *)
Lemma parts_fed e session parts c l s op :
  op_session session c = Ok (l, s) → s_active_operation s = Some op → can_feed op = true →
  blen (held op) + blen (concat parts) <= MAX_MULTIPART_ACCUMULATION →
  crypto_run ((λ part, (e, update_call op session part)) <$> parts) c =
    set_op l s (Some (fed op (concat parts))) c.
Proof.
  revert c s op. induction parts as [|part parts IH]; intros c s op Hs Hop Hf Hle;
    cbn [concat fmap list_fmap crypto_run] in *.
  - rewrite fed_nil. symmetry. by eapply set_op_same.
  - assert (blen (part ++ concat parts) = blen part + blen (concat parts)) as Hlen
      by (unfold blen; rewrite length_app; lia).
    rewrite (update_feeds e session c l s op part) by (done || unfold blen in *; lia).
    cbn [snd]. destruct (fed_kind op part session part) as [_ Hcf].
    pose proof (fed_held op part Hf).
    rewrite (list_fmap_ext (λ p, (e, update_call op session p))
      (λ p, (e, update_call (fed op part) session p)) parts)
      by (intros; by rewrite (proj1 (fed_kind op part session _))).
    rewrite (IH _ (s <| s_active_operation := Some (fed op part) |>) (fed op part));
      [|by eapply op_session_set|done|by rewrite Hcf|lia].
    by rewrite set_op_twice, fed_app.
Qed.

(** A hashed signature of a message is the signature of its digest. *)
Lemma digest_length_valid h data : validate_digest_length (digest (hash_digest h) data) h = Ok ().
Proof using SL. unfold validate_digest_length. rewrite digest_length. by destruct h. Qed.

Lemma with_key_ext {K T} (r : HsmResult K * RsaCaches) (f g : K → HsmResult T) :
  (∀ k, f k = g k) → with_key r f = with_key r g.
Proof. intros Hfg. unfold with_key. destruct r.1; [|done]. cbn. by rewrite Hfg. Qed.

Lemma pkcs1_prehashed slot k der data h rsa :
  validate_data_size data = Ok () →
  rsa_pkcs1v15_sign_prehashed_cached slot k der (digest (hash_digest h) data) h rsa =
  rsa_pkcs1v15_sign_cached slot k der data (Some h) rsa.
Proof using SL.
  intros Hd. unfold rsa_pkcs1v15_sign_prehashed_cached, rsa_pkcs1v15_sign_cached.
  rewrite digest_length_valid, Hd. cbn [checked]. apply with_key_ext. intros key.
  unfold pkcs1_sign_digest_with, pkcs1_sign_with, validate_rsa_private_key_size.
  destruct (Z.ltb_spec (private_modulus_bits key) RSA_MIN_MODULUS_BITS); [done|]. cbn.
  by rewrite pkcs1_sign_hashes.
Qed.

Lemma pss_prehashed rng slot k der data h rsa :
  validate_data_size data = Ok () →
  rsa_pss_sign_prehashed_cached rng slot k der (digest (hash_digest h) data) h rsa =
  rsa_pss_sign_cached rng slot k der data h rsa.
Proof using SL.
  intros Hd. unfold rsa_pss_sign_prehashed_cached, rsa_pss_sign_cached.
  rewrite digest_length_valid, Hd. cbn [checked]. apply with_key_ext. intros key.
  unfold pss_sign_digest_with, pss_sign_with, validate_rsa_private_key_size.
  destruct (Z.ltb_spec (private_modulus_bits key) RSA_MIN_MODULUS_BITS); [done|]. cbn.
  destruct rng; [|done]. cbn. by rewrite pss_sign_hashes.
Qed.

Lemma ecdsa_prehashed cv rng key data :
  validate_data_size data = Ok () →
  ecdsa_sign_prehashed cv rng key (digest (curve_digest cv) data) = ecdsa_sign cv rng key data.
Proof using SL.
  intros Hd. unfold ecdsa_sign_prehashed, ecdsa_sign.
  replace (curve_digest cv) with (hash_digest (curve_hash cv)) by (by destruct cv).
  rewrite digest_length_valid, Hd. cbn.
  destruct (ec_signing_key_parses cv key) eqn:Hk; [|done]. cbn. destruct rng; [|done]. cbn.
  replace (hash_digest (curve_hash cv)) with (curve_digest cv) by (by destruct cv).
  by rewrite ec_sign_hashes.
Qed.

(** The mechanisms with a hasher, and the signature of each in both ways. *)
Lemma hashed_mechanism e slot k m key data o rsa d :
  mech_in [CKM_SHA256_RSA_PKCS; CKM_SHA384_RSA_PKCS; CKM_SHA512_RSA_PKCS; CKM_SHA256_RSA_PKCS_PSS;
   CKM_SHA384_RSA_PKCS_PSS; CKM_SHA512_RSA_PKCS_PSS; CKM_ECDSA_SHA256; CKM_ECDSA_SHA384;
   CKM_ECDSA_SHA512] m = true →
  hasher_alg m = Some d → validate_data_size data = Ok () →
  (is_ecdsa_mechanism m = true → d = curve_digest (curve_of o)) →
  sign_prehashed e slot k m key (digest d data) o rsa =
  sign_single_shot e slot k m key data o rsa.
Proof using SL.
  rewrite mech_in_spec. intros Hm Hd Hv Hec. revert Hd Hec.
  rewrite !elem_of_cons, elem_of_nil in Hm.
  destruct Hm as [->|[->|[->|[->|[->|[->|[->|[->|[->|[]]]]]]]]]]; intros [= <-] Hec.
  1: exact (pkcs1_prehashed slot k key data HSha256 rsa Hv).
  1: exact (pkcs1_prehashed slot k key data HSha384 rsa Hv).
  1: exact (pkcs1_prehashed slot k key data HSha512 rsa Hv).
  1: exact (pss_prehashed (oe_rng e) slot k key data HSha256 rsa Hv).
  1: exact (pss_prehashed (oe_rng e) slot k key data HSha384 rsa Hv).
  1: exact (pss_prehashed (oe_rng e) slot k key data HSha512 rsa Hv).
  all: specialize (Hec eq_refl); rewrite Hec; unfold sign_prehashed, sign_single_shot.
  all: pose proof (ecdsa_prehashed (curve_of o) (oe_rng e) key data Hv) as He.
  all: by rewrite He.
Qed.

Lemma fresh_feeds c op : fresh_op c op → can_feed op = true ∧ held op = [].
Proof.
  destruct op as [| |m k d h ca| |]; cbn [fresh_op can_feed held].
  1-2: by intros (-> & -> & _).
  2: done.
  2: by intros (_ & -> & _).
  intros (-> & -> & _). split; [|done].
  destruct (sign_hasher_cases m) as [[-> ->]|[-> _]]; done.
Qed.

Lemma data_size_ok (data : bytes) :
  blen data <= MAX_MULTIPART_ACCUMULATION → validate_data_size data = Ok ().
Proof. intros Hle. unfold validate_data_size. by rewrite (proj2 (Z.ltb_ge _ _)). Qed.

(** The final signature of what was fed. *)
Lemma sign_final_fed e slot k m key data o rsa ca :
  blen data <= MAX_MULTIPART_ACCUMULATION →
  (is_ecdsa_mechanism m = true → sign_hasher m ≠ None →
   hasher_alg m = Some (curve_digest (curve_of o))) →
  match fed (OpSign m k [] (sign_hasher m) ca) data with
  | OpSign _ _ d h _ => sign_final e slot k m key d h o rsa
  | _ => (Err GeneralError, rsa)
  end = sign_single_shot e slot k m key data o rsa.
Proof using SL.
  intros Hle Hec. destruct (sign_hasher_cases m) as [[Hh _]|(Hh & Hm & [d Hd])]; rewrite Hh;
    cbn [fed]; unfold sign_final.
  - by destruct (hasher_alg m).
  - rewrite Hd. unfold hasher_finalize. apply (hashed_mechanism e slot k m key data o rsa d);
      [exact Hm|exact Hd|by apply data_size_ok|].
    intros Hm'. specialize (Hec Hm' ltac:(by rewrite Hh)). congruence.
Qed.

(** Writing the operation commutes with the rest of the state. *)
Lemma op_audit_set_op session ao r l s op c :
  op_audit session ao r (set_op l s op c) = set_op l s op (op_audit session ao r c).
Proof. done. Qed.
Lemma rsa_set_op rsa l s op c : set_op l s op c <| cc_rsa := rsa |> = set_op l s op (c <| cc_rsa := rsa |>).
Proof. done. Qed.
Lemma final_encrypt_set_op m p kb data l s op c :
  final_encrypt m p kb data (set_op l s op c) =
  ((final_encrypt m p kb data c).1, set_op l s op (final_encrypt m p kb data c).2).
Proof.
  unfold final_encrypt.
  change (core_cipher (cc_core (set_op l s op c))) with (core_cipher (cc_core c)).
  by repeat case_match.
Qed.

Lemma multipart_not_gcm m :
  encrypt_mechanism_supports_multipart m = true → (m =? CKM_AES_GCM) = false.
Proof.
  intros Hm. destruct (Z.eqb_spec m CKM_AES_GCM) as [->|]; [by vm_compute in Hm|done].
Qed.
Lemma multipart_cases m :
  encrypt_mechanism_supports_multipart m = true →
  mech_in [CKM_AES_CBC; CKM_AES_CBC_PAD] m = true ∨ (m =? CKM_AES_CTR) = true.
Proof.
  unfold encrypt_mechanism_supports_multipart, mech_in. cbn [existsb].
  rewrite !orb_true_iff. intros [?|[?|[?|?]]]; tauto.
Qed.

Lemma run_is_final e slot k m p kb data o c :
  encrypt_mechanism_supports_multipart m = true →
  run_encrypt e slot k m p kb data o c = final_encrypt m p kb data c.
Proof.
  intros Hm. unfold run_encrypt, final_encrypt. rewrite multipart_not_gcm by done.
  destruct (mech_in _ m) eqn:Hc; [done|]. by destruct (multipart_cases _ Hm) as [? | ->]; [congruence|].
Qed.
Lemma run_is_final_decrypt slot k m p kb data c :
  encrypt_mechanism_supports_multipart m = true →
  run_decrypt slot k m p kb data c = (final_decrypt m p kb data, c).
Proof.
  intros Hm. unfold run_decrypt, final_decrypt. rewrite multipart_not_gcm by done.
  destruct (mech_in _ m) eqn:Hc; [by destruct p|].
  destruct (multipart_cases _ Hm) as [? | ->]; [congruence|by destruct p].
Qed.

Lemma single_buffer_ok (data : bytes) :
  blen data <= MAX_MULTIPART_ACCUMULATION → (MAX_SINGLE_BUFFER <? blen data) = false.
Proof. by apply Z.ltb_ge. Qed.

Lemma final_is_encrypt e session c l s m k p ca data len :
  op_session session c = Ok (l, s) → s_active_operation s = Some (OpEncrypt m k p [] ca) →
  fresh_op c (OpEncrypt m k p [] ca) →
  blen data <= MAX_MULTIPART_ACCUMULATION → blen data + 16 <= len →
  let r1 := C_EncryptFinal session true (Some len) (set_op l s (Some (OpEncrypt m k p data ca)) c) in
  let r2 := C_Encrypt e session (Some data) true (Some len) c in
  r1.1 = r2.1 ∧ (out_rv r1.1 = CKR_OK → r1.2 = r2.2).
Proof.
  intros Hs Hop (_ & Hm & Hkey) Hsize Hlen r1 r2. subst r1 r2.
  unfold C_EncryptFinal, C_Encrypt.
  rewrite (op_session_set _ _ _ _ _ Hs), Hs, Hop, single_buffer_ok by done.
  rewrite active_set, Hm. cbn [negb].
  rewrite (proj2 (Z.ltb_ge _ _) Hlen).
  change (cached_or_stored ca k (set_op _ _ _ c)) with (cached_or_stored ca k c). rewrite Hkey.
  destruct (op_object k c) as [o|]; [|by rewrite set_op_twice].
  destruct (o_key_material o) as [kb|]; [|by rewrite set_op_twice].
  rewrite run_is_final, final_encrypt_set_op by done.
  destruct (final_encrypt m p kb data c) as [[[enc|x]|rv] c'] eqn:E; cbn [fst snd];
    rewrite ?op_audit_set_op, ?set_op_twice; [|by split; [|intros ?%error_to_rv_not_ok]|done].
  by destruct (len <? blen enc).
Qed.

Lemma final_decrypt_length m p kb data out :
  final_decrypt m p kb data = Ok (Ok out) → blen out <= blen data.
Proof using CL.
  unfold final_decrypt, aes_cbc_decrypt, aes_ctr_decrypt, aes_ctr_apply, blen. intros Hf.
  destruct (mech_in _ m); [|destruct (m =? CKM_AES_CTR); [|done]]; (destruct p as [|b p]; [done|]).
  - destruct (negb _); [done|]. destruct (aes_key_len_ok kb); [|done].
    destruct (cbc_decrypt kb (b :: p) data) as [pt|] eqn:E; simplify_eq/=.
    apply cbc_decrypt_length in E. lia.
  - destruct (aes_ctr_validate _ _ _) as [[]|]; [|done]. destruct (aes_key_len_ok kb); simplify_eq/=.
    by rewrite ctr_length.
Qed.

Lemma final_is_decrypt session c l s m k p ca data len :
  op_session session c = Ok (l, s) → s_active_operation s = Some (OpDecrypt m k p [] ca) →
  fresh_op c (OpDecrypt m k p [] ca) →
  blen data <= MAX_MULTIPART_ACCUMULATION → blen data <= len →
  let r1 := C_DecryptFinal session true (Some len) (set_op l s (Some (OpDecrypt m k p data ca)) c) in
  let r2 := C_Decrypt session (Some data) true (Some len) c in
  r1.1 = r2.1 ∧ (out_rv r1.1 = CKR_OK → r1.2 = r2.2).
Proof using CL.
  intros Hs Hop (_ & Hm & Hkey) Hsize Hlen r1 r2. subst r1 r2.
  unfold C_DecryptFinal, C_Decrypt.
  rewrite (op_session_set _ _ _ _ _ Hs), Hs, Hop, single_buffer_ok by done.
  rewrite active_set, Hm. cbn [negb]. rewrite (proj2 (Z.ltb_ge _ _) Hlen).
  change (cached_or_stored ca k (set_op _ _ _ c)) with (cached_or_stored ca k c). rewrite Hkey.
  destruct (op_object k c) as [o|]; [|by rewrite set_op_twice].
  destruct (o_key_material o) as [kb|]; [|by rewrite set_op_twice].
  rewrite run_is_final_decrypt by done.
  destruct (final_decrypt m p kb data) as [[dec|x]|rv] eqn:E; cbn [fst snd];
    rewrite ?op_audit_set_op, ?set_op_twice; [|by split; [|intros ?%error_to_rv_not_ok]|done].
  apply final_decrypt_length in E. by rewrite (proj2 (Z.ltb_ge _ _)) by lia.
Qed.

Lemma final_is_digest session c l s m data len :
  op_session session c = Ok (l, s) → s_active_operation s = Some (OpDigest m (Some []) []) →
  is_Some (digest_alg m) → blen data <= MAX_MULTIPART_ACCUMULATION →
  let r1 := C_DigestFinal session true (Some len) (set_op l s (Some (OpDigest m (Some data) data)) c) in
  let r2 := C_Digest session (Some data) true (Some len) c in
  r1.1 = r2.1 ∧ (out_rv r1.1 = CKR_OK → r1.2 = r2.2).
Proof using SL.
  intros Hs Hop [d Hd] Hsize r1 r2. subst r1 r2. unfold C_DigestFinal, C_Digest.
  rewrite (op_session_set _ _ _ _ _ Hs), Hs, Hop, single_buffer_ok by done.
  rewrite active_set. unfold compute_digest, hasher_finalize. rewrite Hd. cbn [negb].
  unfold blen. rewrite digest_length. destruct (len <? _); [done|]. by rewrite set_op_twice.
Qed.

Lemma final_is_sign e session c l s m k ca data len :
  op_session session c = Ok (l, s) →
  s_active_operation s = Some (OpSign m k [] (sign_hasher m) ca) →
  fresh_op c (OpSign m k [] (sign_hasher m) ca) → blen data <= MAX_MULTIPART_ACCUMULATION →
  let r1 := C_SignFinal e session true (Some len)
              (set_op l s (Some (fed (OpSign m k [] (sign_hasher m) ca) data)) c) in
  let r2 := C_Sign e session (Some data) true (Some len) c in
  r1.1 = r2.1 ∧ (out_rv r1.1 = CKR_OK → r1.2 = r2.2).
Proof using SL.
  intros Hs Hop (_ & _ & Hkey & Hec) Hsize r1 r2. subst r1 r2. unfold C_SignFinal, C_Sign.
  rewrite (op_session_set _ _ _ _ _ Hs), Hs, Hop, single_buffer_ok by done.
  rewrite active_set. cbn [negb].
  destruct (fed (OpSign m k [] (sign_hasher m) ca) data) as [| |m' k' d h ca'| |] eqn:Hfed;
    try (by destruct (sign_hasher m)).
  assert (m' = m ∧ k' = k ∧ ca' = ca) as (-> & -> & ->) by (by destruct (sign_hasher m); simplify_eq/=).
  change (cached_or_stored ca k (set_op _ _ _ c)) with (cached_or_stored ca k c). rewrite Hkey.
  destruct (op_object k c) as [o|] eqn:Ho; [|by rewrite set_op_twice].
  destruct (o_key_material o) as [kb|]; [|by rewrite set_op_twice].
  change (cc_rsa (set_op _ _ _ c)) with (cc_rsa c).
  change (s_slot_id (s <| s_active_operation := _ |>)) with (s_slot_id s).
  pose proof (sign_final_fed e (s_slot_id s) k m kb data o (cc_rsa c) ca Hsize (Hec o eq_refl)) as Hsf.
  rewrite Hfed in Hsf. rewrite Hsf.
  destruct (sign_single_shot _ _ _ _ _ _ _ _) as [[sig|x] rsa];
    rewrite rsa_set_op, ?op_audit_set_op, ?set_op_twice;
    [|by split; [|intros ?%error_to_rv_not_ok]].
  by destruct (len <? blen sig).
Qed.

End Multipart.

(** ** Saved operation states *)

Section SavedState.
Context {P : PinPrimitives} {X : HexCodec} {H : HashPrimitives} {CP : CipherPrimitives}.
Context {SP : SignPrimitives} {HL : HashPrimitivesLaws H}.
Context {C : ObjectCodec} {SO : StoreOrder} {D : DashOrder} {AC : AuditCodec}.
Context {A B : Type} {HS : HandleSource A} {OH : ObjectHandles B}.
Implicit Types (c : CryptoCore A B) (e : OpEnv) (s : Session).

(** The sign mechanisms are not digest mechanisms: a restored signature has no
    hasher. *)
Lemma sign_not_digest m : is_sign_mechanism m = true → digest_alg m = None.
Proof.
  unfold is_sign_mechanism. rewrite mech_in_spec. intros Hm. revert m Hm.
  apply Forall_forall. repeat constructor.
Qed.

Lemma restored_hasher_none m data :
  is_sign_mechanism m = true → restored_hasher m data = Err MechanismInvalid.
Proof. intros Hm. unfold restored_hasher, create_hasher. by rewrite sign_not_digest. Qed.

(** Restoring a saved signature succeeds in its session with any existing key. *)
Lemma restore_sign session c l s m k d h ca blob key o :
  op_session session c = Ok (l, s) → in_width 64 session → in_width 64 (s_slot_id s) →
  in_width 64 m → in_width 64 k → is_sign_mechanism m = true →
  serialize_state (OpSign m k d h ca) (state_hmac_key c) session (s_slot_id s) = Ok blob →
  blen blob <= MAX_SINGLE_BUFFER →
  op_object (if negb (key =? 0) then key else k) c = Ok o →
  C_SetOperationState session (Some blob) key c =
  (CKR_OK, set_op l s (Some (OpSign m (if negb (key =? 0) then key else k) d None None)) c).
Proof using HL.
  intros Hs Hws Hwl Hwm Hwk Hm Hser Hle Ho. unfold C_SetOperationState.
  destruct blob as [|b blob].
  { unfold serialize_state in Hser. by destruct (serialize_body _) as [body|]. }
  rewrite Hs, (proj2 (Z.ltb_ge _ _) Hle).
  rewrite (deserialize_serialized (OpSign m k d h ca) _ _ _ _ _ _ Hws Hwl (conj Hwm Hwk) Hser).
  rewrite bool_decide_eq_true_2 by done. cbn [op_fields].
  unfold restore_operation. by rewrite restored_hasher_none, Ho.
Qed.

(** restoring a saved state goes round every check on a signature.  A state
    saved from a signature started in a session can be restored in that session
    at any later time, over any operation in progress, with any object of the
    store as its key: neither a login, nor the key's permission to sign, its
    lifecycle, its privacy or the mechanism policy is asked for, and [C_Sign]
    then returns the signature under that key, while [C_SignInit] refuses the
    session when it is not logged in. *)
Theorem saved_state_bypasses_checks session c l s m k d h ca blob key o kb e data len sig rsa
    (Hs : op_session session c = Ok (l, s))
    (Hw : in_width 64 session ∧ in_width 64 (s_slot_id s) ∧ in_width 64 m ∧ in_width 64 k)
    (Hm : is_sign_mechanism m = true)
    (Hser : serialize_state (OpSign m k d h ca) (state_hmac_key c) session (s_slot_id s) = Ok blob)
    (Hblob : blen blob <= MAX_SINGLE_BUFFER)
    (Hkey : key ≠ 0) (Ho : op_object key c = Ok o) (Hkb : o_key_material o = Some kb)
    (Hdata : blen data <= MAX_SINGLE_BUFFER)
    (Hsig : sign_single_shot e (s_slot_id s) key m kb data o (cc_rsa c) = (Ok sig, rsa))
    (Hlen : blen sig <= len) :
  (∃ c', C_SetOperationState session (Some blob) key c = (CKR_OK, c') ∧
     (C_Sign e session (Some data) true (Some len) c').1 = ret_data sig) ∧
  (is_logged_in (s_state s) = false →
   ∀ p, C_SignInit e session (Some p) key c = (CKR_USER_NOT_LOGGED_IN, c)).
Proof using HL.
  destruct Hw as (Hws & Hwl & Hwm & Hwk). split.
  - pose proof (restore_sign session c l s m k d h ca blob key o) as Hr.
    rewrite (proj2 (Z.eqb_neq _ _) Hkey) in Hr. cbn [negb] in Hr. eexists. split; [by apply Hr|].
    unfold C_Sign. rewrite (op_session_set _ _ _ _ _ Hs), active_set.
    rewrite (proj2 (Z.ltb_ge _ _) Hdata).
    change (op_object key (set_op _ _ _ c)) with (op_object key c). rewrite Ho, Hkb. cbn [negb].
    change (cc_rsa (set_op _ _ _ c)) with (cc_rsa c).
    change (s_slot_id (s <| s_active_operation := _ |>)) with (s_slot_id s). rewrite Hsig.
    by rewrite (proj2 (Z.ltb_ge _ _) Hlen).
  - intros Hout p. unfold C_SignInit. by rewrite Hs, Hout.
Qed.

(** a saved signature forgets its message.  When a multi-part signature with
    a built-in hash has been fed any data and its state is saved and restored,
    finishing it returns the signature of the empty message, and feeding it
    further data fails and ends it: the running hash is not part of the saved
    state and is not rebuilt. *)
Theorem restored_signature_forgets_data session c l s m k fed_data ca blob e len part
    (Hs : op_session session c = Ok (l, s))
    (Hw : in_width 64 session ∧ in_width 64 (s_slot_id s) ∧ in_width 64 m ∧ in_width 64 k)
    (Hop : s_active_operation s = Some (OpSign m k [] (Some fed_data) ca))
    (Hm : is_sign_mechanism m = true) (Hmulti : sign_mechanism_supports_multipart m = true)
    (Hblob : C_GetOperationState session true (Some len) c = ret_data blob)
    (Hle : blen blob <= MAX_SINGLE_BUFFER) (Hk : is_ok (op_object k c) = true)
    (Hpart : blen part <= MAX_MULTIPART_ACCUMULATION) :
  ∃ c', C_SetOperationState session (Some blob) 0 c = (CKR_OK, c') ∧
    (C_SignFinal e session true (Some len) c').1 = (C_Sign e session (Some []) true (Some len) c).1 ∧
    C_SignUpdate session (Some part) c' = (CKR_GENERAL_ERROR, set_op l s None c).
Proof using HL.
  destruct Hw as (Hws & Hwl & Hwm & Hwk). unfold C_GetOperationState in Hblob. rewrite Hs, Hop in Hblob.
  destruct (serialize_state _ _ _ _) as [b|] eqn:Hser; [|done]. cbn [negb] in Hblob.
  destruct (len <? blen b); [done|]. assert (b = blob) as -> by (unfold ret_data in Hblob; congruence).
  destruct (op_object k c) as [o|] eqn:Ho; [|done].
  pose proof (restore_sign session c l s m k [] (Some fed_data) ca blob 0 o) as Hr.
  cbn [Z.eqb negb] in Hr. eexists. split; [by apply Hr|]. split.
  - unfold C_SignFinal, C_Sign. rewrite (op_session_set _ _ _ _ _ Hs), Hs, Hop, active_set.
    change (MAX_SINGLE_BUFFER <? blen []) with false. cbn [negb cached_or_stored].
    change (op_object k (set_op _ _ _ c)) with (op_object k c). rewrite Ho.
    destruct (o_key_material o); [|done]. unfold sign_final.
    change (cc_rsa (set_op _ _ _ c)) with (cc_rsa c).
    change (s_slot_id (s <| s_active_operation := _ |>)) with (s_slot_id s).
    destruct (sign_single_shot _ _ _ _ _ _ _ _) as [[sig|x] rsa]; [|done].
    by destruct (len <? blen sig).
  - unfold C_SignUpdate, feed_part. rewrite (op_session_set _ _ _ _ _ Hs), active_set.
    by rewrite (overflows_false [] part Hpart), Hmulti, set_op_twice.
Qed.
End SavedState.

(** ** Output buffers *)

Section Buffers.
Context {P : PinPrimitives} {X : HexCodec} {H : HashPrimitives} {CP : CipherPrimitives}.
Context {SP : SignPrimitives} {CL : CipherPrimitivesLaws CP}.
Context {C : ObjectCodec} {SO : StoreOrder} {D : DashOrder} {AC : AuditCodec}.
Context {A B : Type} {HS : HandleSource A} {OH : ObjectHandles B}.
Implicit Types (c : CryptoCore A B) (e : OpEnv) (s : Session).

(** The nonce prefixes are four bytes, the drawn one included. *)
Definition prefixes_ok e c : Prop :=
  (∀ p, oe_prefix e = Ok p → length p = 4%nat) ∧
  (∀ k p, gcm_prefixes (core_cipher (cc_core c)) !! k = Some p → length p = 4%nat).

Lemma gcm_output_length drbg key plain (cs : CipherState) out cs' :
  (∀ p, drbg = Ok p → length p = 4%nat) →
  (∀ k p, gcm_prefixes cs !! k = Some p → length p = 4%nat) →
  aes_256_gcm_encrypt drbg key plain cs = (Ok out, cs') → blen out = blen plain + 28.
Proof using CL.
  intros Hd Hp E. destruct (gcm_encrypt_effect _ _ _ _ _ _ _ E) as (used & G & Hu).
  destruct (Hu out eq_refl) as (_ & n & ct & Hus & Hs & ->).
  assert (length n = 12%nat).
  { destruct G as [| | |ct' prefix _ _ Epf|ct' prefix _ _ _ Hdr]; try done; injection Hus as <-;
      rewrite length_app, length_to_be_bytes_8; [by rewrite (Hp _ _ Epf)|by rewrite (Hd _ Hdr)]. }
  pose proof (gcm_seal_length _ _ _ _ _ Hs). unfold blen. rewrite length_app.
  unfold TAG_LEN in *. lia.
Qed.

Lemma cbc_output_length key iv plain (cs : CipherState) out cs' :
  aes_cbc_encrypt key iv plain cs = (Ok out, cs') → blen out <= blen plain + 16.
Proof using CL.
  unfold aes_cbc_encrypt. intros E. repeat case_match; simplify_eq.
  pose proof (cbc_encrypt_length key iv plain). unfold blen. lia.
Qed.
Lemma ctr_output_length key iv plain (cs : CipherState) out cs' :
  aes_ctr_encrypt key iv plain cs = (Ok out, cs') → blen out = blen plain.
Proof using CL.
  unfold aes_ctr_encrypt, aes_ctr_apply. intros E. repeat case_match; simplify_eq.
  unfold blen. by rewrite ctr_length.
Qed.

Lemma run_encrypt_length e slot k m p kb data o c out c' :
  prefixes_ok e c → m ≠ CKM_RSA_PKCS_OAEP →
  run_encrypt e slot k m p kb data o c = (Ok (Ok out), c') →
  ∃ L, encrypt_estimate m (blen data) o = Ok L ∧ blen out <= L.
Proof using CL.
  intros [Hd Hp] Hm. unfold run_encrypt, encrypt_estimate.
  destruct (m =? CKM_AES_GCM).
  { destruct (aes_256_gcm_encrypt _ _ _ _) as [r x] eqn:E. intros [= -> _].
    apply gcm_output_length in E; [|done|done]. eexists. split; [done|]. lia. }
  destruct (mech_in _ m).
  { destruct p as [|b p]; [done|]. destruct (aes_cbc_encrypt _ _ _ _) as [r x] eqn:E. intros [= -> _].
    apply cbc_output_length in E. eauto. }
  destruct (m =? CKM_AES_CTR).
  { destruct p as [|b p]; [done|]. destruct (aes_ctr_encrypt _ _ _ _) as [r x] eqn:E. intros [= -> _].
    apply ctr_output_length in E as ->. eexists. by split. }
  by rewrite (proj2 (Z.eqb_neq _ _) Hm).
Qed.

Lemma run_decrypt_length slot k m p kb data c out c' :
  m ≠ CKM_RSA_PKCS_OAEP → run_decrypt slot k m p kb data c = (Ok (Ok out), c') →
  ∃ L, decrypt_estimate m (blen data) = Ok L ∧ blen out <= L.
Proof using CL.
  intros Hm. unfold run_decrypt, decrypt_estimate.
  destruct (m =? CKM_AES_GCM).
  { unfold aes_256_gcm_decrypt, aes_256_gcm_decrypt_with_aad. intros E.
    destruct (negb _); [done|]. destruct (Nat.ltb_spec (length data) 28); [done|].
    destruct (gcm_open _ _ _ _) as [pt|] eqn:Eo; simplify_eq/=. apply gcm_open_length in Eo.
    rewrite length_drop in Eo. eexists. split; [done|]. unfold saturating_sub, blen, TAG_LEN in *. lia. }
  pose proof (final_decrypt_length m p kb data out) as Hf. unfold final_decrypt in Hf.
  destruct (mech_in _ m).
  { intros E. exists (blen data). split; [done|]. apply Hf. destruct p; congruence. }
  destruct (m =? CKM_AES_CTR).
  { intros E. exists (blen data). split; [done|]. apply Hf. destruct p; congruence. }
  by rewrite (proj2 (Z.eqb_neq _ _) Hm).
Qed.

(** a length query costs nothing and announces enough.  For AES in every mode,
    in every state: a query ([C_Encrypt] or [C_Decrypt] with no output buffer)
    that returns a length changes nothing, so the operation, the GCM nonces and
    the IV records are as they were; and the call that follows with a buffer of
    at least that length is not refused for lack of room and never writes more
    than the announced number of bytes. *)
Theorem length_query_suffices e e' session c l s data len0 len L
    (Hs : op_session session c = Ok (l, s)) (Hpre : prefixes_ok e' c)
    (Hop : match s_active_operation s with
           | Some (OpEncrypt m _ _ _ _ | OpDecrypt m _ _ _ _) => m ≠ CKM_RSA_PKCS_OAEP
           | _ => False
           end)
    (Hlen : L <= len) :
  (∀ c1, C_Encrypt e session (Some data) false (Some len0) c = (ret_len CKR_OK L, c1) →
     c1 = c ∧
     let r := (C_Encrypt e' session (Some data) true (Some len) c).1 in
     match out_data r with Some out => blen out <= L | None => out_len r = None end) ∧
  (∀ c1, C_Decrypt session (Some data) false (Some len0) c = (ret_len CKR_OK L, c1) →
     c1 = c ∧
     let r := (C_Decrypt session (Some data) true (Some len) c).1 in
     match out_data r with Some out => blen out <= L | None => out_len r = None end).
Proof using CL.
  unfold C_Encrypt, C_Decrypt. rewrite Hs.
  destruct (s_active_operation s) as [[m k p d ca|m k p d ca|m k d h ca|m k d h ca|m h a]|];
    try done; split; intros c1; try done;
    (destruct (_ <? blen data); [done|]); (destruct (op_object k c) as [o|]; [|done]);
    (destruct (o_key_material o) as [kb|]; [|done]); cbn [negb].
  - destruct (encrypt_estimate m (blen data) o) as [n|] eqn:Ee; [|done]. intros [= -> <-].
    split; [done|]. destruct (run_encrypt _ _ _ _ _ _ _ _ _) as [[[out|x]|rv] c'] eqn:Er; [|done..].
    destruct (run_encrypt_length _ _ _ _ _ _ _ _ _ _ _ Hpre Hop Er) as (L' & He' & HL).
    assert (L' = L) as -> by congruence. by rewrite (proj2 (Z.ltb_ge _ _)) by lia.
  - destruct (decrypt_estimate m (blen data)) as [n|] eqn:Ee; [|done]. intros [= -> <-].
    split; [done|]. destruct (run_decrypt _ _ _ _ _ _ _) as [[[out|x]|rv] c'] eqn:Er; [|done..].
    destruct (run_decrypt_length _ _ _ _ _ _ _ _ _ Hop Er) as (L' & He' & HL).
    assert (L' = L) as -> by congruence. by rewrite (proj2 (Z.ltb_ge _ _)) by lia.
Qed.

(** The IV of a successful encryption is recorded: the same one is refused. *)
Lemma iv_recorded key iv cs cs' :
  check_iv_reuse key iv cs = (Ok tt, cs') → (check_iv_reuse key iv cs').1 = Err MechanismParamInvalid.
Proof.
  unfold check_iv_reuse at 1. set (kh := sha256 key). set (ivs := default ∅ (iv_tracker cs !! kh)).
  intros E. repeat case_match; simplify_eq.
  assert (iv_tracker (cs <| iv_tracker := <[kh := {[iv]} ∪ ivs]> (iv_tracker cs) |>) !! kh =
    Some ({[iv]} ∪ ivs)) as Hl by apply lookup_insert_eq.
  unfold check_iv_reuse. fold kh. rewrite Hl. cbn [default].
  rewrite bool_decide_eq_false_2 by done. cbn [andb].
  by rewrite bool_decide_eq_true_2 by set_solver.
Qed.

Lemma cbc_again key iv plain cs out cs' :
  aes_cbc_encrypt key iv plain cs = (Ok out, cs') →
  (aes_cbc_encrypt key iv plain cs').1 = Err MechanismParamInvalid.
Proof.
  unfold aes_cbc_encrypt. intros E. destruct (_ <? _); [done|]. destruct (negb _); [done|].
  destruct (all_zero iv); [done|]. destruct (check_iv_reuse key iv cs) as [[[]|] cs1] eqn:Ec; [|done].
  destruct (aes_key_len_ok key); [|done]. injection E as _ <-. apply iv_recorded in Ec.
  destruct (check_iv_reuse key iv cs1) as [r cs2]. cbn [fst] in Ec. by subst r.
Qed.
Lemma ctr_again key iv plain cs out cs' :
  aes_ctr_encrypt key iv plain cs = (Ok out, cs') →
  (aes_ctr_encrypt key iv plain cs').1 = Err MechanismParamInvalid.
Proof.
  unfold aes_ctr_encrypt. intros E. destruct (aes_ctr_validate _ _ _); [|done].
  destruct (check_iv_reuse key iv cs) as [[[]|] cs1] eqn:Ec; [|done].
  injection E as _ <-. apply iv_recorded in Ec.
  destruct (check_iv_reuse key iv cs1) as [r cs2]. cbn [fst] in Ec. by subst r.
Qed.

Lemma run_again e e' slot k m p kb data o c out c' :
  encrypt_mechanism_supports_multipart m = true →
  run_encrypt e slot k m p kb data o c = (Ok (Ok out), c') →
  (run_encrypt e' slot k m p kb data o c').1 = Ok (Err MechanismParamInvalid).
Proof.
  intros Hm. rewrite !run_is_final by done. unfold final_encrypt.
  destruct (mech_in _ m) eqn:Hc.
  - destruct p as [|b p]; [done|].
    destruct (aes_cbc_encrypt _ _ _ (core_cipher (cc_core c))) as [r cs] eqn:E.
    intros [= -> <-]. apply cbc_again in E.
    change (core_cipher (cc_core (put_cipher cs c))) with cs.
    destruct (aes_cbc_encrypt _ _ _ cs) as [r cs2]. cbn [fst] in *. by subst r.
  - destruct (multipart_cases m Hm) as [Hc'|Hctr]; [congruence|]. rewrite Hctr.
    destruct p as [|b p]; [done|].
    destruct (aes_ctr_encrypt _ _ _ (core_cipher (cc_core c))) as [r cs] eqn:E.
    intros [= -> <-]. apply ctr_again in E.
    change (core_cipher (cc_core (put_cipher cs c))) with cs.
    destruct (aes_ctr_encrypt _ _ _ cs) as [r cs2]. cbn [fst] in *. by subst r.
Qed.

(** a buffer that is too small spoils a CBC or CTR encryption.  When [C_Encrypt]
    answers that the output buffer is too small, the operation stays active, as
    the two-call idiom asks for, but the IV has been recorded as used: every
    retry on the same data, however large its buffer, fails with
    [CKR_MECHANISM_PARAM_INVALID]. *)
Theorem too_small_buffer_burns_iv e session c l s m k p d ca data len n c1 e' len'
    (Hs : op_session session c = Ok (l, s))
    (Hop : s_active_operation s = Some (OpEncrypt m k p d ca))
    (Hm : encrypt_mechanism_supports_multipart m = true)
    (Hfirst : C_Encrypt e session (Some data) true (Some len) c =
              (ret_len CKR_BUFFER_TOO_SMALL n, c1)) :
  op_session session c1 = Ok (l, s) ∧
  (C_Encrypt e' session (Some data) true (Some len') c1).1 = ret CKR_MECHANISM_PARAM_INVALID.
Proof.
  unfold C_Encrypt in Hfirst. rewrite Hs, Hop in Hfirst.
  destruct (MAX_SINGLE_BUFFER <? blen data) eqn:Hb; [done|].
  destruct (op_object k c) as [o|] eqn:Ho; [|done].
  destruct (o_key_material o) as [kb|] eqn:Hkb; [|done]. cbn [negb] in Hfirst.
  destruct (run_encrypt e _ _ _ _ _ _ _ _) as [[[out|x]|rv] c'] eqn:Er; [|done..].
  destruct (len <? blen out); [|done]. injection Hfirst as _ <-.
  pose proof (run_encrypt_sessions e (s_slot_id s) k m p kb data o c) as Hsm.
  pose proof (run_encrypt_objects e (s_slot_id s) k m p kb data o c) as Hob.
  rewrite Er in Hsm, Hob. cbn [snd] in Hsm, Hob.
  assert (op_session session c' = Ok (l, s)) as Hs' by (unfold op_session, find_session; by rewrite Hsm).
  assert (op_object k c' = Ok o) as Ho' by (unfold op_object; by rewrite Hob).
  split; [done|]. unfold C_Encrypt. rewrite Hs', Hop, Hb, Ho', Hkb. cbn [negb].
  pose proof (run_again e e' (s_slot_id s) k m p kb data o c out c' Hm Er) as Ha.
  destruct (run_encrypt e' _ _ _ _ _ _ _ c') as [r c2]. cbn [fst] in Ha. by subst r.
Qed.
End Buffers.
