(* ===== verification/OperationDemo.v ===== *)
(** * A concrete run of the cryptographic operations

    The core of AbiDemo.v with an AES key and a signing key in its store, on the
    toy primitives; the witnesses of OperationProofs.v evaluate it. *)

From S2P Require Import Prelude Pkcs11 Handles Hash PinCrypto TokenFiles Token TokenDemo TokenProofs Session SessionManager SessionProofs Dates Objects ObjectProofs ObjectStore ObjectStoreProofs ObjectPersist AuditChain AuditProofs Encrypt EncryptProofs Abi AbiProofs AbiDemo Mechanisms Sign SignProofs Operations OperationProofs.

Section OperationDemo.
#[local] Existing Instance toy_primitives.
#[local] Existing Instance toy_hex.
#[local] Existing Instance toy_hash.
#[local] Existing Instance toy_codec.
#[local] Existing Instance toy_store_order.
#[local] Existing Instance toy_order.
#[local] Existing Instance toy_audit_codec.
#[local] Existing Instance toy_ciphers.
#[local] Existing Instance toy_sign.

Definition DemoCrypto : Type := CryptoCore SessionHandleAllocator ObjectHandleAllocator.

Definition demo_algorithms : AlgorithmConfig :=
  {| fips_approved_only := false; allow_weak_rsa := false; allow_sha1_signing := false;
     enable_pqc := true |}.
Definition demo_op_env : OpEnv :=
  {| oe_rng := Ok [42]; oe_prefix := Ok [1; 2; 3; 4]; oe_wall := 1700000000;
     oe_random := Returns [] |}.
Definition demo_crypto (core : DemoCore) : DemoCrypto :=
  {| cc_core := core; cc_rsa := RsaCaches_empty; cc_refs := ∅; cc_next_ref := 0;
     algorithm_config := demo_algorithms; state_hmac_key := replicate 32 9 |}.

(** An initialised token and an open session that is not logged in. *)
Definition demo_public : DemoCrypto :=
  crypto_run ((λ k, (demo_op_env, KCore demo_call_env k)) <$>
    [CallInitToken 0 (Some demo_so_pin) (Some demo_label); CallOpenSession 0 rw_flags true])
    (demo_crypto demo_core).
Definition demo_public_session : Z * Session :=
  match op_session demo_handle demo_public with Ok ls => ls | Err _ => (0, Session_new 0 0 0 0) end.
Definition demo_rsa_mechanism : CK_MECHANISM :=
  {| m_mechanism := CKM_SHA256_RSA_PKCS; m_parameter := None |}.

Lemma signatures_need_login_witness :
  C_SignInit demo_op_env demo_handle (Some demo_rsa_mechanism) 7 demo_public =
    (CKR_USER_NOT_LOGGED_IN, demo_public) ∧
  (C_SignFinal demo_op_env demo_handle true (Some 512) demo_public).1 =
    ret CKR_OPERATION_NOT_INITIALIZED.
Proof.
  destruct (signatures_need_login (demo_crypto demo_core) demo_public demo_handle
    demo_public_session.1 demo_public_session.2 demo_op_env demo_rsa_mechanism 7 [1] [1] true 512)
    as (Hi & _ & _ & Hf).
  - reflexivity.
  - apply crypto_run_steps. reflexivity.
  - vm_compute. reflexivity.
  - vm_compute. reflexivity.
  - split; [exact Hi|]. rewrite Hf. reflexivity.
Defined.

(** The keys of the user's session: an AES key at 88, a signing key at 77, and a
    key that may not sign at 66. *)
Definition demo_aes_object : StoredObject :=
  StoredObject_new 88 CKO_SECRET_KEY 0 <| o_key_material := Some demo_aes_key |>
    <| o_can_encrypt := true |>.
Definition demo_sign_object : StoredObject :=
  StoredObject_new 77 CKO_PRIVATE_KEY 0 <| o_key_material := Some [7] |> <| o_can_sign := true |>.
Definition demo_other_object : StoredObject :=
  StoredObject_new 66 CKO_PRIVATE_KEY 0 <| o_key_material := Some [6] |>.
Definition demo_keys (core : DemoCore) : DemoCrypto :=
  demo_crypto (put_object 88 demo_aes_object (put_object 77 demo_sign_object
    (put_object 66 demo_other_object core))).

Definition session_of (c : DemoCrypto) : Z * Session :=
  match op_session demo_handle c with Ok ls => ls | Err _ => (0, Session_new 0 0 0 0) end.

(** An encryption with CBC, started. *)
Definition demo_iv : bytes := replicate 16 3.
Definition demo_cbc : CK_MECHANISM := {| m_mechanism := CKM_AES_CBC; m_parameter := Some demo_iv |}.
Definition demo_encrypting : DemoCrypto :=
  (C_EncryptInit demo_op_env demo_handle (Some demo_cbc) 88 (demo_keys demo_in)).2.
Definition demo_encrypt_op : ActiveOperation := OpEncrypt CKM_AES_CBC 88 demo_iv [] (Some 0).
Definition demo_parts : list bytes := [[1; 2]; [3]].

Definition demo_finish : CallOut * DemoCrypto :=
  crypto_call demo_op_env (final_call demo_encrypt_op demo_handle 64)
    (crypto_run ((λ part, (demo_op_env, update_call demo_encrypt_op demo_handle part)) <$>
       demo_parts) demo_encrypting).
Definition demo_at_once : CallOut * DemoCrypto :=
  crypto_call demo_op_env (single_call demo_encrypt_op demo_handle (concat demo_parts) 64)
    demo_encrypting.


Definition demo_query : CallOut * DemoCrypto :=
  C_Encrypt demo_op_env demo_handle (Some [1; 2; 3]) false (Some 0) demo_encrypting.

Lemma length_query_suffices_witness :
  demo_query.1 = ret_len CKR_OK 19 ∧ demo_query.2 = demo_encrypting.
Proof.
  assert (E : demo_query.1 = ret_len CKR_OK 19) by (vm_compute; reflexivity).
  split; [exact E|].
  refine (proj1 (proj1 (length_query_suffices demo_op_env demo_op_env demo_handle demo_encrypting
    (session_of demo_encrypting).1 (session_of demo_encrypting).2 [1; 2; 3] 0 19 19 _ _ _ _)
    demo_query.2 _)).
  - vm_compute. reflexivity.
  - split; [by intros p [= <-]|]. intros k p Hk. vm_compute in Hk. discriminate Hk.
  - vm_compute. congruence.
  - exact (Z.le_refl 19).
  - vm_compute. reflexivity.
Defined.

Lemma too_small_buffer_burns_iv_witness :
  ∃ c1, C_Encrypt demo_op_env demo_handle (Some [1; 2; 3]) true (Some 2) demo_encrypting =
      (ret_len CKR_BUFFER_TOO_SMALL 3, c1) ∧
    (C_Encrypt demo_op_env demo_handle (Some [1; 2; 3]) true (Some 64) c1).1 =
      ret CKR_MECHANISM_PARAM_INVALID.
Proof.
  exists (C_Encrypt demo_op_env demo_handle (Some [1; 2; 3]) true (Some 2) demo_encrypting).2.
  assert (E : C_Encrypt demo_op_env demo_handle (Some [1; 2; 3]) true (Some 2) demo_encrypting =
    (ret_len CKR_BUFFER_TOO_SMALL 3,
     (C_Encrypt demo_op_env demo_handle (Some [1; 2; 3]) true (Some 2) demo_encrypting).2))
    by (vm_compute; reflexivity).
  split; [exact E|].
  refine (proj2 (too_small_buffer_burns_iv demo_op_env demo_handle demo_encrypting
    (session_of demo_encrypting).1 (session_of demo_encrypting).2 CKM_AES_CBC 88 demo_iv []
    (Some 0) [1; 2; 3] 2 3 _ demo_op_env 64 _ _ _ E)); vm_compute; reflexivity.
Defined.

(** A signature started by the user, its saved state, and the session after the
    user has logged out. *)
Definition demo_signing : DemoCrypto :=
  (C_SignInit demo_op_env demo_handle (Some demo_rsa_mechanism) 77 (demo_keys demo_in)).2.
Definition demo_blob : bytes :=
  default [] (out_data (C_GetOperationState demo_handle true (Some 4096) demo_signing)).
Definition demo_left : DemoCrypto := (core_call demo_call_env (CallLogout demo_handle) demo_signing).2.

Lemma saved_state_bypasses_checks_witness :
  is_logged_in (s_state (session_of demo_left).2) = false ∧ o_can_sign demo_other_object = false ∧
  ∃ c', C_SetOperationState demo_handle (Some demo_blob) 66 demo_left = (CKR_OK, c') ∧
    (C_Sign demo_op_env demo_handle (Some [1; 2]) true (Some 512) c').1 =
    ret_data ([6; 1; 2] ++ replicate 30 0).
Proof.
  split; [vm_compute; reflexivity|]. split; [reflexivity|].
  refine (proj1 (saved_state_bypasses_checks demo_handle demo_left (session_of demo_left).1
    (session_of demo_left).2 CKM_SHA256_RSA_PKCS 77 [] (Some []) None demo_blob 66 demo_other_object
    [6] demo_op_env [1; 2] 512 ([6; 1; 2] ++ replicate 30 0)
    {| rc_der := []; rc_priv := [((0, 66), [6])]; rc_pub := [] |} _ _ _ _ _ _ _ _ _ _ _)).
  - vm_compute. reflexivity.
  - vm_compute. repeat split; congruence.
  - vm_compute. reflexivity.
  - vm_compute. reflexivity.
  - vm_compute. congruence.
  - discriminate.
  - vm_compute. reflexivity.
  - reflexivity.
  - vm_compute. congruence.
  - vm_compute. reflexivity.
  - vm_compute. congruence.
Defined.

(** The signature with a part of the message fed. *)
Definition demo_fed : DemoCrypto := (C_SignUpdate demo_handle (Some [1; 2]) demo_signing).2.
Definition demo_fed_blob : bytes :=
  default [] (out_data (C_GetOperationState demo_handle true (Some 4096) demo_fed)).

Lemma restored_signature_forgets_data_witness :
  ∃ c', C_SetOperationState demo_handle (Some demo_fed_blob) 0 demo_fed = (CKR_OK, c') ∧
    (C_SignFinal demo_op_env demo_handle true (Some 4096) c').1 =
    (C_Sign demo_op_env demo_handle (Some []) true (Some 4096) demo_fed).1.
Proof.
  destruct (restored_signature_forgets_data demo_handle demo_fed (session_of demo_fed).1
    (session_of demo_fed).2 CKM_SHA256_RSA_PKCS 77 [1; 2] (Some 0) demo_fed_blob demo_op_env 4096 [3])
    as (c' & Hset & Hfin & _).
  - vm_compute. reflexivity.
  - vm_compute. repeat split; congruence.
  - vm_compute. reflexivity.
  - vm_compute. reflexivity.
  - vm_compute. reflexivity.
  - vm_compute. reflexivity.
  - vm_compute. congruence.
  - vm_compute. reflexivity.
  - vm_compute. congruence.
  - exact (ex_intro _ c' (conj Hset Hfin)).
Defined.
End OperationDemo.
