(* ===== verification/EntropyHealth.v ===== *)
(** * Entropy health tests (src/crypto/entropy_health.rs)

    The repetition count and adaptive proportion tests of SP 800-90B on the
    raw entropy, the process-wide monitor with its latched error flag, and the
    random generator that consults it.  The operating system's generator is a
    parameter: the bytes it delivers are arguments.  The monitor's lock makes
    [global_observe] atomic, so a process is a sequence of calls.

    The main result states exactly which streams are accepted: a call succeeds
    if and only if everything delivered since the start of the process,
    startup samples included, has no run of 41 equal bytes and no window of
    1024 bytes in which the window's first byte occurs 670 times. *)

From S2P Require Import Prelude Pkcs11.

Definition REPETITION_COUNT_CUTOFF : Z := 41.
Definition ADAPTIVE_PROPORTION_WINDOW : Z := 1024.
Definition ADAPTIVE_PROPORTION_CUTOFF : Z := 670.
Definition STARTUP_SAMPLES : Z := 1024.

Record EntropyHealthMonitor := {
  last_sample : Z;
  repetition_count : Z;
  first_sample_seen : bool;
  window : list Z;
  window_pos : Z;
  window_value : Z;
  window_count : Z;
  window_initialized : bool;
  startup_passed : bool;
}.

#[export] Instance EntropyHealthMonitor_expand : FieldExpansion EntropyHealthMonitor :=
  λ m, Build_EntropyHealthMonitor (last_sample m) (repetition_count m) (first_sample_seen m)
         (window m) (window_pos m) (window_value m) (window_count m) (window_initialized m)
         (startup_passed m).

(** [EntropyHealthMonitor::new]. *)
Definition EntropyHealthMonitor_new : EntropyHealthMonitor := {|
  last_sample := 0; repetition_count := 0; first_sample_seen := false;
  window := replicate (Z.to_nat ADAPTIVE_PROPORTION_WINDOW) 0; window_pos := 0;
  window_value := 0; window_count := 0; window_initialized := false;
  startup_passed := false |}.

(** The monitor is changed in place also when a test fails. *)
Definition Tested := (Result HsmError unit * EntropyHealthMonitor)%type.

Definition repetition_count_test (sample : Z) (m : EntropyHealthMonitor) : Tested :=
  if negb (first_sample_seen m) then
    (Ok (), m <| last_sample := sample |> <| repetition_count := 1 |>
              <| first_sample_seen := true |>)
  else if sample =? last_sample m then
    let m := m <| repetition_count := wrap 32 (repetition_count m + 1) |> in
    if REPETITION_COUNT_CUTOFF <=? repetition_count m then (Err GeneralError, m)
    else (Ok (), m)
  else (Ok (), m <| last_sample := sample |> <| repetition_count := 1 |>).

(** Indexing the window past its end panics. *)
Definition adaptive_proportion_test (sample : Z) (m : EntropyHealthMonitor) : MayPanic Tested :=
  if negb (window_initialized m) then
    Returns (Ok (), m <| window_value := sample |> <| window_count := 1 |>
                      <| window := <[0%nat := sample]> (window m) |>
                      <| window_pos := 1 |> <| window_initialized := true |>)
  else if Z.of_nat (length (window m)) <=? window_pos m then Panicked
  else
    let m := m <| window := <[Z.to_nat (window_pos m) := sample]> (window m) |> in
    let m := m <| window_pos := window_pos m + 1 |> in
    let m := if sample =? window_value m
             then m <| window_count := wrap 32 (window_count m + 1) |> else m in
    if ADAPTIVE_PROPORTION_CUTOFF <=? window_count m then Returns (Err GeneralError, m)
    else
      let m := if ADAPTIVE_PROPORTION_WINDOW <=? window_pos m
               then m <| window_pos := 0 |> <| window_initialized := false |> else m in
      Returns (Ok (), m).

Definition feed_sample_unchecked (sample : Z) (m : EntropyHealthMonitor) : MayPanic Tested :=
  match repetition_count_test sample m with
  | (Err e, m) => Returns (Err e, m)
  | (Ok _, m) => adaptive_proportion_test sample m
  end.

(** The loops of [startup_test] and [feed_bytes]: they stop at the first
    failing sample. *)
Fixpoint feed_all (bs : bytes) (m : EntropyHealthMonitor) : MayPanic Tested :=
  match bs with
  | [] => Returns (Ok (), m)
  | b :: bs =>
    match feed_sample_unchecked b m with
    | Returns (Ok _, m) => feed_all bs m
    | r => r
    end
  end.

Definition startup_test (entropy_bytes : bytes) (m : EntropyHealthMonitor) : MayPanic Tested :=
  if Z.of_nat (length entropy_bytes) <? STARTUP_SAMPLES then Returns (Err GeneralError, m)
  else
    let m := m <| repetition_count := 0 |> <| first_sample_seen := false |>
               <| window_pos := 0 |> <| window_initialized := false |> in
    match feed_all (take (Z.to_nat STARTUP_SAMPLES) entropy_bytes) m with
    | Returns (Ok _, m) => Returns (Ok (), m <| startup_passed := true |>)
    | r => r
    end.

Definition feed_sample (sample : Z) (m : EntropyHealthMonitor) : MayPanic Tested :=
  if negb (startup_passed m) then Returns (Err GeneralError, m)
  else feed_sample_unchecked sample m.

Definition feed_bytes (bs : bytes) (m : EntropyHealthMonitor) : MayPanic Tested :=
  if negb (startup_passed m) then Returns (Err GeneralError, m) else feed_all bs m.

Definition observe (bs : bytes) (m : EntropyHealthMonitor) : MayPanic Tested := feed_bytes bs m.

(** ** The process-wide monitor *)

(** [GLOBAL_ENTROPY_ERROR], and [GLOBAL_MONITOR] once its initialiser ran. *)
Record GlobalEntropy := {
  ge_error : bool;
  ge_monitor : option EntropyHealthMonitor;
}.

#[export] Instance GlobalEntropy_expand : FieldExpansion GlobalEntropy :=
  λ g, Build_GlobalEntropy (ge_error g) (ge_monitor g).

Definition GlobalEntropy_new : GlobalEntropy := {| ge_error := false; ge_monitor := None |}.

(** The initialiser of [GLOBAL_MONITOR], [startup] being the bytes the
    operating system delivers to it. *)
Definition init_global_monitor (startup : bytes) (g : GlobalEntropy) :
    MayPanic (EntropyHealthMonitor * GlobalEntropy) :=
  match ge_monitor g with
  | Some m => Returns (m, g)
  | None =>
    match startup_test startup EntropyHealthMonitor_new with
    | Returns (r, m) =>
      let g := if is_ok r then g else g <| ge_error := true |> in
      Returns (m, g <| ge_monitor := Some m |>)
    | Panicked => Panicked
    end
  end.

Definition global_is_error_state (g : GlobalEntropy) : bool := ge_error g.

Definition global_observe (startup bs : bytes) (g : GlobalEntropy) :
    MayPanic (Result HsmError unit * GlobalEntropy) :=
  if ge_error g then Returns (Err GeneralError, g)
  else
    match init_global_monitor startup g with
    | Panicked => Panicked
    | Returns (m, g) =>
      if ge_error g then Returns (Err GeneralError, g)
      else
        match observe bs m with
        | Panicked => Panicked
        | Returns (Ok _, m) => Returns (Ok (), g <| ge_monitor := Some m |>)
        | Returns (Err e, m) =>
          Returns (Err e, g <| ge_monitor := Some m |> <| ge_error := true |>)
        end
    end.

(** ** [HealthMonitoredRng] *)

(** What filling a buffer can do. *)
Inductive RngOutcome (A : Type) : Type := Filled (a : A) | RngAborts | RngPanics.
Arguments Filled {A} a.
Arguments RngAborts {A}.
Arguments RngPanics {A}.

(** [fill_bytes]; [src] is what the entropy source writes to the buffer. *)
Definition monitored_fill_bytes (startup src : bytes) (g : GlobalEntropy) :
    RngOutcome (bytes * GlobalEntropy) :=
  match global_observe startup src g with
  | Returns (Ok _, g) => Filled (src, g)
  | Returns (Err _, _) => RngAborts
  | Panicked => RngPanics
  end.

(** [try_fill_bytes]: the buffer keeps the bytes also when they are bad. *)
Definition monitored_try_fill_bytes (startup src : bytes) (g : GlobalEntropy) :
    RngOutcome (Result HsmError unit * bytes * GlobalEntropy) :=
  match global_observe startup src g with
  | Returns (r, g) => Filled (r, src, g)
  | Panicked => RngPanics
  end.

(** ** What a healthy stream is (SP 800-90B, 4.4.1 and 4.4.2) *)

(** No value occurs [c] times in a row. *)
Definition no_run (c : nat) (xs : bytes) : Prop :=
  ∀ pre b post, xs ≠ pre ++ replicate c b ++ post.

(** How often the first byte of a window occurs in it. *)
Definition head_count (w : bytes) : nat :=
  match w with [] => 0%nat | b :: _ => length (filter (b =.) w) end.

(** Cut into windows of [W] bytes, the last one possibly shorter, no window
    has its first byte [c] times. *)
Definition windows_below (W c : nat) (xs : bytes) : Prop :=
  ∀ i, (head_count (take W (drop (i * W) xs)) < c)%nat.

Definition healthy (xs : bytes) : Prop :=
  no_run (Z.to_nat REPETITION_COUNT_CUTOFF) xs ∧
  windows_below (Z.to_nat ADAPTIVE_PROPORTION_WINDOW) (Z.to_nat ADAPTIVE_PROPORTION_CUTOFF) xs.

(** ** Runs *)

(** [xs] ends with exactly [n] copies of [b]. *)
Definition ends_with (xs : bytes) (b : Z) (n : nat) : Prop :=
  ∃ pre, xs = pre ++ replicate n b ∧ last pre ≠ Some b.

Lemma replicate_suffix_le n m (b : Z) (pre pre' : bytes) :
  last pre ≠ Some b → pre ++ replicate n b = pre' ++ replicate m b → (m <= n)%nat.
Proof.
  revert pre' m. induction n as [|n IH]; intros pre' m Hl Heq.
  - destruct m as [|m]; [lia|]. rewrite app_nil_r in Heq. subst pre.
    rewrite replicate_S_end, (assoc_L (++)), last_snoc in Hl. done.
  - destruct m as [|m]; [lia|]. rewrite !replicate_S_end, !(assoc_L (++)) in Heq.
    apply app_inj_2 in Heq as [Heq _]; [|done]. specialize (IH _ _ Hl Heq). lia.
Qed.

Lemma ends_with_same xs b n : ends_with xs b n → ends_with (xs ++ [b]) b (S n).
Proof.
  intros (pre & -> & Hl). exists pre. split; [|done].
  by rewrite replicate_S_end, (assoc_L (++)).
Qed.

Lemma ends_with_other xs b n x :
  ends_with xs b n → n ≠ 0%nat → x ≠ b → ends_with (xs ++ [x]) x 1.
Proof.
  intros (pre & -> & _) Hn Hx. exists (pre ++ replicate n b). split; [done|].
  destruct n as [|n]; [done|]. rewrite replicate_S_end, (assoc_L (++)), last_snoc. congruence.
Qed.

Lemma no_run_snoc c xs x n :
  ends_with (xs ++ [x]) x n → no_run c (xs ++ [x]) ↔ no_run c xs ∧ (n < c)%nat.
Proof.
  intros (pre & Heq & Hl). split.
  - intros Hno. split.
    + intros p b q ->. apply (Hno p b (q ++ [x])). by rewrite <- !(assoc_L (++)).
    + apply Nat.nle_gt. intros Hc. apply (Hno (pre ++ replicate (n - c) x) x []).
      rewrite Heq, app_nil_r, <- (assoc_L (++)), <- replicate_add. do 2 f_equal. lia.
  - intros [Hno Hc] p b q Hrun. destruct q as [|y q _] using rev_ind.
    + rewrite app_nil_r in Hrun. destruct c as [|c]; [lia|].
      assert (b = x) as ->.
      { apply (f_equal last) in Hrun.
        by rewrite replicate_S_end, (assoc_L (++)), !last_snoc in Hrun; simplify_eq. }
      rewrite Heq in Hrun. pose proof (replicate_suffix_le _ _ _ _ _ Hl Hrun). lia.
    + rewrite !(assoc_L (++)) in Hrun. apply app_inj_2 in Hrun as [-> _]; [|done].
      apply (Hno p b q). by rewrite (assoc_L (++)).
Qed.

(** ** Windows *)

Lemma head_count_snoc b w x :
  head_count ((b :: w) ++ [x]) =
  (head_count (b :: w) + if decide (x = b) then 1 else 0)%nat.
Proof.
  cbn [head_count app]. change (b :: w ++ [x]) with ((b :: w) ++ [x]).
  rewrite filter_app, length_app. f_equal. rewrite filter_cons, filter_nil.
  destruct (decide (b = x)), (decide (x = b)); simpl; congruence.
Qed.

(** All windows but the last are full. *)
Lemma windows_below_app W c q done w :
  W ≠ 0%nat → c ≠ 0%nat → length done = (q * W)%nat → (length w <= W)%nat →
  windows_below W c (done ++ w) ↔ windows_below W c done ∧ (head_count w < c)%nat.
Proof.
  intros HW Hc Hd Hw.
  assert (Hi : ∀ i, (i < q)%nat →
    take W (drop (i * W) (done ++ w)) = take W (drop (i * W) done)).
  { intros i Hi. rewrite drop_app_le by nia. rewrite take_app_le; [done|].
    rewrite length_drop. nia. }
  assert (Hq : take W (drop (q * W) (done ++ w)) = w).
  { rewrite <- Hd, drop_app_length. by apply take_ge. }
  split.
  - intros Hok. split; [|by rewrite <- Hq].
    intros i. destruct (decide (i < q)%nat) as [Hlt|]; [by rewrite <- (Hi i Hlt)|].
    rewrite drop_ge by nia. rewrite take_nil. simpl. lia.
  - intros [Hok Hlast] i. destruct (Nat.lt_trichotomy i q) as [Hlt|[->|Hgt]].
    + by rewrite (Hi i Hlt).
    + by rewrite Hq.
    + rewrite drop_ge by (rewrite length_app; nia). rewrite take_nil. simpl. lia.
Qed.

Lemma healthy_prefix xs ys : healthy (xs ++ ys) → healthy xs.
Proof.
  intros [Hr Hw]. split.
  - intros p b q ->. apply (Hr p b (q ++ ys)). by rewrite <- !(assoc_L (++)).
  - intros i. specialize (Hw i). revert Hw. set (W := Z.to_nat ADAPTIVE_PROPORTION_WINDOW).
    set (c := Z.to_nat ADAPTIVE_PROPORTION_CUTOFF). clearbody W c. intros Hw.
    destruct (decide (i * W <= length xs)%nat) as [Hle|];
      [|rewrite drop_ge by lia; rewrite take_nil; simpl; lia].
    rewrite drop_app_le, take_app in Hw by done.
    destruct (take W (drop (i * W) xs)) as [|b v]; [simpl; lia|].
    cbn [head_count app] in *. change (b :: v ++ ?l) with ((b :: v) ++ l) in Hw.
    rewrite filter_app, length_app in Hw. lia.
Qed.

(** ** The state of the tests after a healthy stream *)

Definition run_state (xs : bytes) (m : EntropyHealthMonitor) : Prop :=
  if first_sample_seen m then
    ∃ n, repetition_count m = Z.of_nat n ∧ n ≠ 0%nat ∧ ends_with xs (last_sample m) n
  else xs = [].

Definition window_state (xs : bytes) (m : EntropyHealthMonitor) : Prop :=
  length (window m) = Z.to_nat ADAPTIVE_PROPORTION_WINDOW ∧
  ∃ q d w, xs = d ++ w ∧ length d = (q * Z.to_nat ADAPTIVE_PROPORTION_WINDOW)%nat ∧
    (length w < Z.to_nat ADAPTIVE_PROPORTION_WINDOW)%nat ∧
    if window_initialized m then
      head w = Some (window_value m) ∧ window_pos m = Z.of_nat (length w) ∧
      window_count m = Z.of_nat (head_count w)
    else w = [].

Record fed (xs : bytes) (m : EntropyHealthMonitor) : Prop := {
  fd_healthy : healthy xs;
  fd_run : run_state xs m;
  fd_window : window_state xs m;
}.

Lemma repetition_count_test_spec xs x m :
  no_run (Z.to_nat REPETITION_COUNT_CUTOFF) xs → run_state xs m →
  let '(r, m') := repetition_count_test x m in
  run_state (xs ++ [x]) m' ∧ (∀ ys, window_state ys m → window_state ys m') ∧
  startup_passed m' = startup_passed m ∧
  match r with
  | Ok _ => no_run (Z.to_nat REPETITION_COUNT_CUTOFF) (xs ++ [x])
  | Err e => e = GeneralError ∧ ¬ no_run (Z.to_nat REPETITION_COUNT_CUTOFF) (xs ++ [x])
  end.
Proof.
  unfold run_state, repetition_count_test. intros Hno Hrun.
  destruct (first_sample_seen m) eqn:Ef; cbn [negb].
  - destruct Hrun as (n & Hn & Hn0 & He).
    destruct (Z.eqb_spec x (last_sample m)) as [->|Hx].
    + pose proof (ends_with_same _ _ _ He) as He'.
      pose proof (no_run_snoc (Z.to_nat REPETITION_COUNT_CUTOFF) _ _ _ He') as Hs.
      assert (Hlt : (n < Z.to_nat REPETITION_COUNT_CUTOFF)%nat).
      { apply Nat.nle_gt. intros Hge. destruct He as (pre & -> & _).
        apply (Hno (pre ++ replicate (n - Z.to_nat REPETITION_COUNT_CUTOFF) (last_sample m))
                 (last_sample m) []).
        rewrite app_nil_r, <- (assoc_L (++)), <- replicate_add. do 2 f_equal. lia. }
      assert (Hw : wrap 32 (repetition_count m + 1) = Z.of_nat (S n)).
      { unfold REPETITION_COUNT_CUTOFF in *. rewrite Hn, wrap_small by (unfold in_width; lia). lia. }
      cbn [set_field repetition_count first_sample_seen last_sample startup_passed].
      rewrite Hw. destruct (Z.leb_spec REPETITION_COUNT_CUTOFF (Z.of_nat (S n))); cbn;
        rewrite Ef; split_and!; try done; try (exists (S n); done).
      * rewrite Hs. lia.
      * apply Hs. split; [done|lia].
    + pose proof (ends_with_other _ _ _ _ He Hn0 Hx) as He'.
      cbn. rewrite Ef. split_and!; try done; [by exists 1%nat|].
      apply (no_run_snoc _ _ _ _ He'). split; [done|].
      unfold REPETITION_COUNT_CUTOFF. lia.
  - subst xs. assert (He : ends_with ([] ++ [x]) x 1) by by exists [].
    cbn. split_and!; try done; [by exists 1%nat|].
    apply (no_run_snoc _ _ _ _ He). split; [done|]. unfold REPETITION_COUNT_CUTOFF. lia.
Qed.

(** The last, incomplete window decides whether the stream stays within the
    cutoff. *)
Lemma windows_snoc q d w x :
  length d = (q * Z.to_nat ADAPTIVE_PROPORTION_WINDOW)%nat →
  (length w < Z.to_nat ADAPTIVE_PROPORTION_WINDOW)%nat →
  windows_below (Z.to_nat ADAPTIVE_PROPORTION_WINDOW) (Z.to_nat ADAPTIVE_PROPORTION_CUTOFF)
    (d ++ w) →
  windows_below (Z.to_nat ADAPTIVE_PROPORTION_WINDOW) (Z.to_nat ADAPTIVE_PROPORTION_CUTOFF)
    ((d ++ w) ++ [x]) ↔ (head_count (w ++ [x]) < Z.to_nat ADAPTIVE_PROPORTION_CUTOFF)%nat.
Proof.
  assert (HW : Z.to_nat ADAPTIVE_PROPORTION_WINDOW ≠ 0%nat)
    by (unfold ADAPTIVE_PROPORTION_WINDOW; lia).
  assert (Hc : Z.to_nat ADAPTIVE_PROPORTION_CUTOFF ≠ 0%nat)
    by (unfold ADAPTIVE_PROPORTION_CUTOFF; lia).
  revert HW Hc. generalize (Z.to_nat ADAPTIVE_PROPORTION_WINDOW) as W.
  generalize (Z.to_nat ADAPTIVE_PROPORTION_CUTOFF) as c. intros c W HW Hc Hd Hw Hok.
  apply (windows_below_app W c q d w HW Hc Hd) in Hok as [Hok _]; [|lia].
  rewrite <- (assoc_L (++)), (windows_below_app W c q d (w ++ [x]) HW Hc Hd)
    by (rewrite length_app; simpl; lia). tauto.
Qed.

Lemma adaptive_proportion_test_step x m :
  window_initialized m = true → window_pos m < Z.of_nat (length (window m)) →
  let k := if x =? window_value m then wrap 32 (window_count m + 1) else window_count m in
  let m1 := m <| window := <[Z.to_nat (window_pos m) := x]> (window m) |>
              <| window_pos := window_pos m + 1 |> <| window_count := k |> in
  adaptive_proportion_test x m =
    if ADAPTIVE_PROPORTION_CUTOFF <=? k then Returns (Err GeneralError, m1)
    else Returns (Ok (), if ADAPTIVE_PROPORTION_WINDOW <=? window_pos m + 1
                         then m1 <| window_pos := 0 |> <| window_initialized := false |> else m1).
Proof.
  intros Ei Hp. unfold adaptive_proportion_test. rewrite Ei, (proj2 (Z.leb_gt _ _)) by done.
  cbn [negb]. destruct m as [a1 a2 a3 a4 a5 v a7 a8 a9]; cbn. by destruct (x =? v).
Qed.

Lemma adaptive_proportion_test_spec xs x m :
  windows_below (Z.to_nat ADAPTIVE_PROPORTION_WINDOW) (Z.to_nat ADAPTIVE_PROPORTION_CUTOFF) xs →
  window_state xs m →
  ∃ r m', adaptive_proportion_test x m = Returns (r, m') ∧
  (∀ ys, run_state ys m → run_state ys m') ∧ startup_passed m' = startup_passed m ∧
  match r with
  | Ok _ => window_state (xs ++ [x]) m' ∧
      windows_below (Z.to_nat ADAPTIVE_PROPORTION_WINDOW)
        (Z.to_nat ADAPTIVE_PROPORTION_CUTOFF) (xs ++ [x])
  | Err e => e = GeneralError ∧
      ¬ windows_below (Z.to_nat ADAPTIVE_PROPORTION_WINDOW)
          (Z.to_nat ADAPTIVE_PROPORTION_CUTOFF) (xs ++ [x])
  end.
Proof.
  intros Hok (Hlen & q & d & w & -> & Hd & Hw & Hst).
  pose proof (windows_snoc q d w x Hd Hw Hok) as Hs. clear Hok.
  destruct (window_initialized m) eqn:Ei; cbn [negb].
  - destruct Hst as (Hh & Hp & Hc). destruct w as [|b w]; [done|]. injection Hh as ->.
    set (b := window_value m) in *. rewrite (head_count_snoc b w x) in Hs.
    set (k := if x =? b then wrap 32 (window_count m + 1) else window_count m).
    assert (Hk : k = Z.of_nat (head_count (b :: w) + if decide (x = b) then 1 else 0)).
    { assert (head_count (b :: w) <= length (b :: w))%nat by apply length_filter.
      unfold ADAPTIVE_PROPORTION_WINDOW in *. unfold k.
      rewrite Hc. destruct (Z.eqb_spec x b), (decide (x = b)); try done; [|lia].
      rewrite wrap_small by (unfold in_width; lia). lia. }
    pose proof (adaptive_proportion_test_step x m Ei ltac:(lia)) as Hstep.
    cbn zeta in Hstep. fold b k in Hstep.
    rewrite Hstep. destruct (Z.leb_spec ADAPTIVE_PROPORTION_CUTOFF k) as [Hge|Hlt].
    { eexists _, _. split; [reflexivity|]. split_and!; try done. rewrite Hs. lia. }
    eexists _, _. split; [reflexivity|].
    assert (Hlen' : length ((b :: w) ++ [x]) = S (length (b :: w)))
      by (rewrite length_app; simpl; lia).
    destruct (Z.leb_spec ADAPTIVE_PROPORTION_WINDOW (window_pos m + 1)) as [Hfull|Hpart];
      (split_and!; [done|done| |apply Hs; lia]).
    + split; [cbn; by rewrite length_insert|].
      exists (S q), ((d ++ b :: w) ++ [x]), []. cbn [set_field window_initialized].
      rewrite app_nil_r, <- (assoc_L (++)), length_app, Hlen', Hd.
      split_and!; try done; [lia|]. cbn [length]. lia.
    + split; [cbn; by rewrite length_insert|].
      exists q, d, ((b :: w) ++ [x]). cbn [set_field window_initialized window_pos window_value window_count].
      rewrite Ei, (head_count_snoc b w x), Hlen', <- (assoc_L (++)).
      split_and!; try done; lia.
  - subst w. rewrite app_nil_r in *. unfold adaptive_proportion_test. rewrite Ei. cbn [negb].
    eexists _, _. split; [reflexivity|]. split_and!; try done.
    + split; [cbn; by rewrite length_insert|].
      exists q, d, [x]. cbn. destruct (decide (x = x)); [|done].
      split_and!; try done. unfold ADAPTIVE_PROPORTION_WINDOW. lia.
    + apply Hs. cbn. destruct (decide (x = x)); [|done]. cbn.
      unfold ADAPTIVE_PROPORTION_CUTOFF. lia.
Qed.

(** ** Feeding *)

Lemma feed_sample_spec xs x m :
  fed xs m →
  ∃ r m', feed_sample_unchecked x m = Returns (r, m') ∧ startup_passed m' = startup_passed m ∧
  match r with
  | Ok _ => fed (xs ++ [x]) m'
  | Err e => e = GeneralError ∧ ¬ healthy (xs ++ [x])
  end.
Proof.
  intros [[Hr Hw] Hrs Hws]. unfold feed_sample_unchecked.
  pose proof (repetition_count_test_spec xs x m Hr Hrs) as H1.
  destruct (repetition_count_test x m) as [[u|e] m1].
  - destruct H1 as (Hrs' & Hkeep & Hs1 & Hr').
    destruct (adaptive_proportion_test_spec xs x m1 Hw (Hkeep _ Hws))
      as (r & m' & -> & Hkeep' & Hs2 & H2).
    exists r, m'. split_and!; [done|congruence|]. destruct r.
    + destruct H2 as [Hws' Hw']. split; [split; done|by apply Hkeep'|done].
    + destruct H2 as [-> H2]. split; [done|]. intros [_ Hh]. by apply H2.
  - destruct H1 as (_ & _ & Hs1 & -> & H1). exists (Err GeneralError), m1.
    split_and!; try done. intros [Hh _]. by apply H1.
Qed.

Lemma feed_all_spec ys : ∀ xs m,
  fed xs m →
  ∃ r m', feed_all ys m = Returns (r, m') ∧ startup_passed m' = startup_passed m ∧
  match r with
  | Ok _ => fed (xs ++ ys) m'
  | Err e => e = GeneralError ∧ ¬ healthy (xs ++ ys)
  end.
Proof.
  induction ys as [|y ys IH]; intros xs m Hf; cbn [feed_all].
  { exists (Ok ()), m. by rewrite app_nil_r. }
  destruct (feed_sample_spec xs y m Hf) as (r & m1 & -> & Hs & H1). destruct r as [u|e].
  - destruct (IH _ _ H1) as (r & m' & -> & Hs' & H2). exists r, m'.
    rewrite <- (assoc_L (++)) in H2. split_and!; try done; congruence.
  - destruct H1 as [-> H1]. exists (Err GeneralError), m1. split_and!; try done.
    intros Hh. apply H1, (healthy_prefix _ ys). by rewrite <- (assoc_L (++)).
Qed.

Lemma healthy_nil : healthy [].
Proof.
  split.
  - intros p b q H. apply (f_equal length) in H. rewrite !length_app, length_replicate in H.
    unfold REPETITION_COUNT_CUTOFF in H. simpl in H. lia.
  - intros i. rewrite drop_nil, take_nil. unfold ADAPTIVE_PROPORTION_CUTOFF. simpl. lia.
Qed.

(** A startup test of a monitor in any state accepts exactly the healthy
    samples. *)
Lemma startup_test_spec startup m :
  length (window m) = Z.to_nat ADAPTIVE_PROPORTION_WINDOW →
  Z.of_nat (length startup) = STARTUP_SAMPLES →
  ∃ r m', startup_test startup m = Returns (r, m') ∧
  match r with
  | Ok _ => fed startup m' ∧ startup_passed m' = true
  | Err e => e = GeneralError ∧ ¬ healthy startup
  end.
Proof.
  intros Hw Hl. unfold startup_test. rewrite (proj2 (Z.ltb_ge _ _)) by lia.
  rewrite take_ge by lia. cbv zeta. set (m0 := m <| repetition_count := _ |> <| _ := _ |>
    <| _ := _ |> <| _ := _ |>).
  assert (H0 : fed [] m0).
  { split; [apply healthy_nil|done|]. split; [done|]. exists 0%nat, [], [].
    split_and!; try done. unfold ADAPTIVE_PROPORTION_WINDOW. simpl. lia. }
  destruct (feed_all_spec startup [] m0 H0) as (r & m' & -> & _ & H1).
  destruct r as [u|e]; [|by exists (Err e), m'].
  eexists _, _. split; [reflexivity|]. split; [|done]. destruct H1. split; done.
Qed.

(** ** The process *)

(** The monitor of a process to which [xs] was delivered after the startup
    samples. *)
Definition monitored (startup xs : bytes) (g : GlobalEntropy) : Prop :=
  if ge_error g then ¬ healthy (startup ++ xs)
  else match ge_monitor g with
       | None => xs = []
       | Some m => fed (startup ++ xs) m ∧ startup_passed m = true
       end.

Lemma global_observe_spec startup xs ys g :
  Z.of_nat (length startup) = STARTUP_SAMPLES → monitored startup xs g →
  ∃ r g', global_observe startup ys g = Returns (r, g') ∧ monitored startup (xs ++ ys) g' ∧
  (r = Ok () ∧ ge_error g' = false ∧ healthy (startup ++ xs ++ ys) ∨
   r = Err GeneralError ∧ ge_error g' = true ∧ ¬ healthy (startup ++ xs ++ ys)).
Proof.
  intros Hl Hm. unfold global_observe.
  assert (Hbad : ∀ zs, ¬ healthy (startup ++ zs) → ¬ healthy (startup ++ zs ++ ys)).
  { intros zs Hb Hh. apply Hb, (healthy_prefix _ ys). by rewrite <- (assoc_L (++)). }
  destruct (ge_error g) eqn:Eg.
  { unfold monitored in Hm. rewrite Eg in Hm. eexists _, g. split; [reflexivity|].
    unfold monitored. rewrite Eg. split; [by apply Hbad|]. right. auto. }
  assert (Hgo : ∀ m g0, ge_error g0 = false → fed (startup ++ xs) m → startup_passed m = true →
    ∃ r g', match observe ys m with
      | Panicked => Panicked
      | Returns (Ok _, m) => Returns (Ok (), g0 <| ge_monitor := Some m |>)
      | Returns (Err e, m) => Returns (Err e, g0 <| ge_monitor := Some m |> <| ge_error := true |>)
      end = Returns (r, g') ∧ monitored startup (xs ++ ys) g' ∧
      (r = Ok () ∧ ge_error g' = false ∧ healthy (startup ++ xs ++ ys) ∨
       r = Err GeneralError ∧ ge_error g' = true ∧ ¬ healthy (startup ++ xs ++ ys))).
  { intros m g0 Hg0 Hf Hs. unfold observe, feed_bytes. rewrite Hs. cbn [negb].
    destruct (feed_all_spec ys _ m Hf) as (r & m' & -> & Hs' & H1).
    rewrite <- (assoc_L (++)) in H1. destruct r as [u|e]; (eexists _, _; split; [reflexivity|]).
    - unfold monitored. cbn. rewrite Hg0. split; [split; [done|congruence]|]. left.
      split_and!; try done. by destruct H1.
    - destruct H1 as [-> H1]. unfold monitored. cbn. split; [done|]. right. auto. }
  unfold init_global_monitor. unfold monitored in Hm. rewrite Eg in Hm.
  destruct (ge_monitor g) as [m|].
  - destruct Hm as [Hf Hs]. rewrite Eg. by apply Hgo.
  - subst xs. destruct (startup_test_spec startup EntropyHealthMonitor_new) as (r & m' & -> & H1);
      [done|done|].
    destruct r as [u|e]; cbn [is_ok].
    + change (ge_error (g <| ge_monitor := Some m' |>)) with (ge_error g). rewrite Eg.
      destruct H1. apply (Hgo m' (g <| ge_monitor := Some m' |>)); [done| |done].
      by rewrite app_nil_r.
    + destruct H1 as [-> H1]. eexists _, _. split; [reflexivity|]. unfold monitored. cbn.
      rewrite <- (app_nil_r startup) in H1. apply Hbad in H1. split; [done|]. right. auto.
Qed.

(** A process: successive deliveries and the answers to them. *)
Fixpoint observe_run (startup : bytes) (chunks : list bytes) (g : GlobalEntropy) :
    MayPanic (list (Result HsmError unit) * GlobalEntropy) :=
  match chunks with
  | [] => Returns ([], g)
  | c :: chunks =>
    match global_observe startup c g with
    | Panicked => Panicked
    | Returns (r, g) =>
      match observe_run startup chunks g with
      | Panicked => Panicked
      | Returns (rs, g) => Returns (r :: rs, g)
      end
    end
  end.

(** C25: The monitor accepts exactly the healthy streams.  However the bytes
    of the entropy source are split into calls, no call panics, and the
    [i]-th one succeeds if and only if all bytes so far, the 1024 startup
    samples included, contain no run of 41 equal bytes and no window of 1024
    whose first byte occurs 670 times in it; otherwise it fails, and so does
    every later call. *)
Theorem monitor_accepts_exactly_healthy (startup : bytes) (chunks : list bytes) :
  Z.of_nat (length startup) = STARTUP_SAMPLES →
  ∃ rs g, observe_run startup chunks GlobalEntropy_new = Returns (rs, g) ∧
    length rs = length chunks ∧
    (∀ i r, rs !! i = Some r →
       r = Ok () ∧ healthy (startup ++ concat (take (S i) chunks)) ∨
       r = Err GeneralError ∧ ¬ healthy (startup ++ concat (take (S i) chunks))) ∧
    (global_is_error_state g = true ↔ Err GeneralError ∈ rs).
Proof.
  intros Hl.
  assert (K : ∀ chunks xs g, monitored startup xs g → ∃ rs g',
    observe_run startup chunks g = Returns (rs, g') ∧ length rs = length chunks ∧
    (∀ i r, rs !! i = Some r →
       r = Ok () ∧ healthy (startup ++ xs ++ concat (take (S i) chunks)) ∨
       r = Err GeneralError ∧ ¬ healthy (startup ++ xs ++ concat (take (S i) chunks))) ∧
    (ge_error g' = true ↔ Err GeneralError ∈ rs ∨ ge_error g = true)).
  { clear chunks. induction chunks as [|c chunks IH]; intros xs g Hm; cbn [observe_run].
    { exists [], g. split_and!; try done. rewrite elem_of_nil. tauto. }
    destruct (global_observe_spec startup xs c g Hl Hm) as (r & g1 & Hobs & Hm1 & Hr).
    rewrite Hobs. destruct (IH _ _ Hm1) as (rs & g2 & -> & Hlen & Hi & He).
    exists (r :: rs), g2. split_and!; [done|by simpl; rewrite Hlen| |].
    - intros [|i] r' Hr'; simpl in Hr'.
      + injection Hr' as <-. cbn [take concat]. rewrite app_nil_r. naive_solver.
      + apply Hi in Hr'. rewrite <- (assoc_L (++)) in Hr'. exact Hr'.
    - rewrite He, elem_of_cons. destruct Hr as [(-> & Hg & _)|(-> & Hg & _)]; rewrite Hg; [|tauto].
      assert (ge_error g = false) as ->; [|naive_solver].
      unfold global_observe in Hobs. by destruct (ge_error g). }
  destruct (K chunks [] GlobalEntropy_new eq_refl) as (rs & g & Hrun & Hlen & Hi & He).
  exists rs, g. split_and!; try done. unfold global_is_error_state. rewrite He. naive_solver.
Qed.

(** A source that sticks at zero after some good bytes is caught. *)
Lemma monitor_accepts_exactly_healthy_witness :
  let startup := Z.of_nat <$> seq 0 1024 in
  ∃ rs g, observe_run startup [[7; 9]; replicate 41 0] GlobalEntropy_new = Returns (rs, g) ∧
    rs !! 1%nat = Some (Err GeneralError).
Proof.
  intros startup.
  assert (Hl : Z.of_nat (length startup) = STARTUP_SAMPLES).
  { unfold startup. rewrite length_fmap, length_seq. reflexivity. }
  destruct (monitor_accepts_exactly_healthy startup [[7; 9]; replicate 41 0] Hl)
    as (rs & g & Hrun & Hlen & Hi & _).
  exists rs, g. split; [exact Hrun|].
  destruct (lookup_lt_is_Some_2 rs 1) as [r Hr]; [rewrite Hlen; simpl; lia|].
  rewrite Hr. destruct (Hi _ _ Hr) as [[_ [Hno _]]|[-> _]]; [|reflexivity].
  destruct (Hno (startup ++ [7; 9]) 0 []). by rewrite <- (assoc_L (++)).
Defined.

Lemma monitored_fill_bytes_spec startup xs src g :
  Z.of_nat (length startup) = STARTUP_SAMPLES → monitored startup xs g →
  (∃ g', monitored_fill_bytes startup src g = Filled (src, g') ∧
         monitored startup (xs ++ src) g' ∧ healthy (startup ++ xs ++ src)) ∨
  monitored_fill_bytes startup src g = RngAborts ∧ ¬ healthy (startup ++ xs ++ src).
Proof.
  intros Hl Hm. unfold monitored_fill_bytes.
  destruct (global_observe_spec startup xs src g Hl Hm) as (r & g' & -> & Hm' & Hr).
  destruct Hr as [(-> & _ & Hh)|(-> & _ & Hh)]; [left; eauto|by right].
Qed.

(** ** A simple healthy stream *)

Fixpoint neighbours_differ (xs : bytes) : bool :=
  match xs with
  | x :: ((y :: _) as rest) => negb (x =? y) && neighbours_differ rest
  | _ => true
  end.

Lemma neighbours_differ_no_run c xs :
  (2 <= c)%nat → neighbours_differ xs = true → no_run c xs.
Proof.
  intros Hc Hd pre b post ->. destruct c as [|[|c]]; [lia|lia|]. revert Hd.
  induction pre as [|x pre IH]; cbn [replicate app].
  - cbn [neighbours_differ]. by rewrite Z.eqb_refl.
  - intros H. apply IH. cbn [neighbours_differ] in H.
    destruct (pre ++ _); [done|]. by apply andb_true_iff in H as [_ H].
Qed.

(** A startup window and one more, with distinct neighbours and few
    repetitions of their first bytes. *)
Lemma healthy_two_windows d w :
  Z.of_nat (length d) = ADAPTIVE_PROPORTION_WINDOW →
  Z.of_nat (length w) <= ADAPTIVE_PROPORTION_WINDOW →
  neighbours_differ (d ++ w) = true →
  Z.of_nat (head_count d) < ADAPTIVE_PROPORTION_CUTOFF →
  Z.of_nat (head_count w) < ADAPTIVE_PROPORTION_CUTOFF → healthy (d ++ w).
Proof.
  intros Hd Hw Hn Hcd Hcw. split.
  { apply neighbours_differ_no_run; [unfold REPETITION_COUNT_CUTOFF; lia|done]. }
  assert (HW : Z.to_nat ADAPTIVE_PROPORTION_WINDOW ≠ 0%nat)
    by (unfold ADAPTIVE_PROPORTION_WINDOW; lia).
  assert (Hc : Z.to_nat ADAPTIVE_PROPORTION_CUTOFF ≠ 0%nat)
    by (unfold ADAPTIVE_PROPORTION_CUTOFF; lia).
  apply (windows_below_app _ _ 1); [done|done|lia|lia|]. split; [|lia].
  apply (windows_below_app _ _ 0 [] d); [done|done|done|lia|]. split; [|lia].
  apply healthy_nil.
Qed.
