(* ===== verification/Drbg.v ===== *)
(** * The random generator (src/crypto/drbg.rs)

    HMAC_DRBG of SP 800-90A with HMAC-SHA-256, reseeded from the monitored
    entropy source on every request.  HMAC-SHA-256 comes from a third-party
    crate and is a parameter, part of [HashPrimitives].  The main results: a request
    returns exactly the output of the standard's generate process on the
    reseeded state, or an error when two consecutive blocks are equal; and a
    generator is only ever keyed with entropy the health tests accepted. *)

From S2P Require Import Prelude Pkcs11 Hash EntropyHealth.

Definition RESEED_INTERVAL : Z := 2 ^ 48.

Record HmacDrbg := {
  dr_key : bytes;
  dr_value : bytes;
  reseed_counter : Z;
  last_output : bytes;
  has_output : bool;
}.

#[export] Instance HmacDrbg_expand : FieldExpansion HmacDrbg :=
  λ d, Build_HmacDrbg (dr_key d) (dr_value d) (reseed_counter d) (last_output d) (has_output d).

Section Drbg.
Context {M : HashPrimitives}.

(** [update]. *)
Definition drbg_update (provided_data : option bytes) (d : HmacDrbg) : HmacDrbg :=
  let d := d <| dr_key := hmac_sha256 (dr_key d) (dr_value d ++ [0] ++ default [] provided_data) |> in
  let d := d <| dr_value := hmac_sha256 (dr_key d) (dr_value d) |> in
  match provided_data with
  | Some ((_ :: _) as data) =>
    let d := d <| dr_key := hmac_sha256 (dr_key d) (dr_value d ++ [1] ++ data) |> in
    d <| dr_value := hmac_sha256 (dr_key d) (dr_value d) |>
  | _ => d
  end.

(** [new]; [src] is the 48 bytes the entropy source delivers. *)
Definition HmacDrbg_new (startup src : bytes) (g : GlobalEntropy) :
    RngOutcome (HsmResult HmacDrbg * GlobalEntropy) :=
  let drbg := {| dr_key := replicate 32 0; dr_value := replicate 32 1; reseed_counter := 0;
                 last_output := replicate 32 0; has_output := false |} in
  match monitored_fill_bytes startup src g with
  | Filled (seed, g) =>
    Filled (Ok (drbg_update (Some seed) drbg <| reseed_counter := 1 |>), g)
  | RngAborts => RngAborts
  | RngPanics => RngPanics
  end.

Definition reseed (startup src : bytes) (d : HmacDrbg) (g : GlobalEntropy) :
    RngOutcome (HsmResult unit * HmacDrbg * GlobalEntropy) :=
  match monitored_fill_bytes startup src g with
  | Filled (entropy, g) => Filled (Ok (), drbg_update (Some entropy) d <| reseed_counter := 1 |>, g)
  | RngAborts => RngAborts
  | RngPanics => RngPanics
  end.

Definition health_check (current : bytes) (d : HmacDrbg) : HsmResult unit :=
  if bool_decide (current = last_output d) then Err GeneralError else Ok ().

(** The loop of [generate], from position [pos] of the buffer [out]; [None]
    is running out of fuel, which [generate_blocks_total] excludes. *)
Fixpoint generate_blocks (fuel pos : nat) (out : bytes) (d : HmacDrbg) :
    option (HsmResult unit * bytes * HmacDrbg) :=
  if (length out <=? pos)%nat then Some (Ok (), out, d)
  else match fuel with
  | O => None
  | S fuel =>
    let d := d <| dr_value := hmac_sha256 (dr_key d) (dr_value d) |> in
    let current_block := dr_value d in
    match (if has_output d then health_check current_block d else Ok ()) with
    | Err e => Some (Err e, out, d)
    | Ok _ =>
      let d := d <| last_output := current_block |> <| has_output := true |> in
      let remaining := (length out - pos)%nat in
      let copy_len := Nat.min remaining 32 in
      let out := take pos out ++ take copy_len (dr_value d) ++ drop (pos + copy_len) out in
      generate_blocks fuel (pos + copy_len) out d
    end
  end.

(** [generate] into the buffer [out]; [src1] is what the entropy source
    delivers to the reseed of an exhausted generator, [src2] to the other. *)
Definition generate (startup src1 src2 out : bytes) (d : HmacDrbg) (g : GlobalEntropy) :
    option (RngOutcome (HsmResult unit * bytes * HmacDrbg * GlobalEntropy)) :=
  match (if RESEED_INTERVAL <? reseed_counter d then reseed startup src1 d g
         else Filled (Ok (), d, g)) with
  | RngAborts => Some RngAborts
  | RngPanics => Some RngPanics
  | Filled (Err e, d, g) => Some (Filled (Err e, out, d, g))
  | Filled (Ok _, d, g) =>
    match reseed startup src2 d g with
    | RngAborts => Some RngAborts
    | RngPanics => Some RngPanics
    | Filled (Err e, d, g) => Some (Filled (Err e, out, d, g))
    | Filled (Ok _, d, g) =>
      match generate_blocks (length out) 0 out d with
      | None => None
      | Some (Err e, out, d) => Some (Filled (Err e, out, d, g))
      | Some (Ok _, out, d) =>
        let d := drbg_update None d in
        Some (Filled (Ok (), out, d <| reseed_counter := wrap 64 (reseed_counter d + 1) |>, g))
      end
    end
  end.

(** [DrbgRng::fill_bytes]: an error aborts the process. *)
Definition DrbgRng_fill_bytes (startup src1 src2 dest : bytes) (d : HmacDrbg) (g : GlobalEntropy) :
    option (RngOutcome (bytes * HmacDrbg * GlobalEntropy)) :=
  match generate startup src1 src2 dest d g with
  | None => None
  | Some (Filled (Ok _, dest, d, g)) => Some (Filled (dest, d, g))
  | Some (Filled (Err _, _, _, _)) => Some RngAborts
  | Some RngAborts => Some RngAborts
  | Some RngPanics => Some RngPanics
  end.

(** [DrbgRng::try_fill_bytes]. *)
Definition DrbgRng_try_fill_bytes (startup src1 src2 dest : bytes) (d : HmacDrbg)
    (g : GlobalEntropy) : option (RngOutcome (HsmResult unit * bytes * HmacDrbg * GlobalEntropy)) :=
  generate startup src1 src2 dest d g.

(** [next_u32] and [next_u64], for [n] = 4 and 8. *)
Definition DrbgRng_next (n : nat) (startup src1 src2 : bytes) (d : HmacDrbg) (g : GlobalEntropy) :
    option (RngOutcome (Z * HmacDrbg * GlobalEntropy)) :=
  match DrbgRng_fill_bytes startup src1 src2 (replicate n 0) d g with
  | None => None
  | Some (Filled (buf, d, g)) => Some (Filled (from_le_bytes buf, d, g))
  | Some RngAborts => Some RngAborts
  | Some RngPanics => Some RngPanics
  end.

(** ** The standard's generate process (SP 800-90A, 10.1.2.5) *)

(** [n] successive values of [V = HMAC (K, V)]. *)
Fixpoint hmac_blocks (n : nat) (k v : bytes) : list bytes :=
  match n with
  | O => []
  | S n => let v := hmac_sha256 k v in v :: hmac_blocks n k v
  end.

(** The number of blocks for [n] bytes. *)
Definition block_count (n : nat) : nat := ((n + 31) / 32)%nat.

(** No two neighbours are equal. *)
Fixpoint no_repeat (bs : list bytes) : bool :=
  match bs with
  | b :: ((c :: _) as rest) => negb (bool_decide (c = b)) && no_repeat rest
  | _ => true
  end.

(** The blocks compared by the continuous test. *)
Definition tested_blocks (d : HmacDrbg) (bs : list bytes) : list bytes :=
  if has_output d then last_output d :: bs else bs.

(** The state after producing the blocks [bs]. *)
Definition after_blocks (bs : list bytes) (d : HmacDrbg) : HmacDrbg :=
  match last bs with
  | None => d
  | Some b => d <| dr_value := b |> <| last_output := b |> <| has_output := true |>
  end.

(** ** The loop *)

Lemma block_count_0 : block_count 0 = 0%nat.
Proof. reflexivity. Qed.

Lemma block_count_step n :
  n ≠ 0%nat → block_count n = S (block_count (n - Nat.min n 32)).
Proof.
  intros Hn. unfold block_count.
  pose proof (Nat.div_mod_eq (n + 31) 32). pose proof (Nat.mod_upper_bound (n + 31) 32).
  pose proof (Nat.div_mod_eq (n - Nat.min n 32 + 31) 32).
  pose proof (Nat.mod_upper_bound (n - Nat.min n 32 + 31) 32). lia.
Qed.

Lemma block_count_le n : (block_count n <= n)%nat.
Proof.
  unfold block_count. pose proof (Nat.div_mod_eq (n + 31) 32).
  pose proof (Nat.mod_upper_bound (n + 31) 32). lia.
Qed.

Lemma hmac_blocks_length n k v : length (hmac_blocks n k v) = n.
Proof. revert v. induction n; intros v; simpl; congruence. Qed.

Lemma after_blocks_cons b bs d :
  after_blocks (b :: bs) d =
  after_blocks bs (d <| dr_value := b |> <| last_output := b |> <| has_output := true |>).
Proof. unfold after_blocks. rewrite last_cons. by destruct (last bs). Qed.

Section Laws.
Context {ML : HashPrimitivesLaws M}.

(** The keys, values and recorded outputs are always 32 bytes. *)
Record drbg_wf (d : HmacDrbg) : Prop := {
  dw_key : length (dr_key d) = 32%nat;
  dw_value : length (dr_value d) = 32%nat;
  dw_last : length (last_output d) = 32%nat;
}.

Lemma drbg_update_wf p d : drbg_wf d → drbg_wf (drbg_update p d).
Proof using ML.
  intros []. unfold drbg_update. cbn zeta.
  destruct p as [[|]|]; split; cbn; rewrite ?hmac_length; done.
Qed.

(** One round of the loop. *)
Lemma generate_blocks_step fuel pos out d :
  (pos < length out)%nat →
  let v := hmac_sha256 (dr_key d) (dr_value d) in
  let cl := Nat.min (length out - pos) 32 in
  generate_blocks (S fuel) pos out d =
    if no_repeat (tested_blocks d [v]) then
      generate_blocks fuel (pos + cl) (take pos out ++ take cl v ++ drop (pos + cl) out)
        (d <| dr_value := v |> <| last_output := v |> <| has_output := true |>)
    else Some (Err GeneralError, out, d <| dr_value := v |>).
Proof.
  intros Hlt. cbn [generate_blocks]. rewrite (proj2 (Nat.leb_gt _ _)) by done.
  destruct d as [k v0 c l h]. unfold tested_blocks, health_check. cbn.
  destruct h; [|done]. cbn [no_repeat]. by destruct (bool_decide _).
Qed.

Lemma no_repeat_tested d b bs :
  no_repeat (tested_blocks d (b :: bs)) =
  no_repeat (tested_blocks d [b]) && no_repeat (b :: bs).
Proof. unfold tested_blocks. destruct (has_output d); simpl; [|done]. by rewrite andb_true_r. Qed.

(** The loop ends within its fuel with the standard's blocks, or with an
    error when the continuous test fails. *)
Lemma generate_blocks_spec fuel : ∀ pos out d,
  (pos <= length out)%nat → (block_count (length out - pos) <= fuel)%nat →
  let bs := hmac_blocks (block_count (length out - pos)) (dr_key d) (dr_value d) in
  if no_repeat (tested_blocks d bs) then
    generate_blocks fuel pos out d =
      Some (Ok (), take pos out ++ take (length out - pos) (concat bs), after_blocks bs d)
  else ∃ out' d', generate_blocks fuel pos out d = Some (Err GeneralError, out', d') ∧
                  length out' = length out.
Proof using ML.
  induction fuel as [|fuel IH]; intros pos out d Hpos Hf; cbn zeta;
    destruct (decide (length out - pos = 0)%nat) as [H0|H0].
  1,3: rewrite H0, block_count_0; cbn [hmac_blocks concat generate_blocks];
    unfold tested_blocks, after_blocks;
    rewrite (proj2 (Nat.leb_le _ _)), take_ge, take_0, app_nil_r by lia;
    by destruct (has_output d).
  { rewrite block_count_step in Hf by done. lia. }
  rewrite generate_blocks_step by lia. cbn zeta.
  rewrite block_count_step in Hf |- * by lia. set (cl := Nat.min (length out - pos) 32) in *.
  cbn [hmac_blocks concat]. cbn zeta. set (v := hmac_sha256 (dr_key d) (dr_value d)).
  assert (Hv : length v = 32%nat) by apply hmac_length.
  rewrite no_repeat_tested. destruct (no_repeat (tested_blocks d [v])); [|cbn [andb]; by eauto].
  set (out2 := take pos out ++ take cl v ++ drop (pos + cl) out).
  assert (Hl2 : length out2 = length out).
  { unfold out2. rewrite !length_app, !length_take, length_drop. lia. }
  rewrite after_blocks_cons. set (d2 := d <| dr_value := v |> <| _ := _ |> <| _ := _ |>).
  specialize (IH (pos + cl)%nat out2 d2). rewrite Hl2, Nat.sub_add_distr in IH.
  specialize (IH ltac:(lia) ltac:(lia)). cbn zeta in IH.
  change (dr_key d2) with (dr_key d) in IH. change (dr_value d2) with v in IH.
  unfold tested_blocks in IH. cbn [has_output set_field d2] in IH.
  set (bs := hmac_blocks _ (dr_key d) v) in *. cbn [andb].
  change (last_output d2) with v in IH. destruct (no_repeat (v :: bs)); [|done].
  rewrite IH. do 2 f_equal. f_equal.
  assert (take (pos + cl) out2 = take pos out ++ take cl v) as ->.
  { unfold out2. rewrite (assoc_L (++)). apply take_app_length'.
    rewrite length_app, !length_take. lia. }
  rewrite <- (assoc_L (++)). f_equal. rewrite take_app, Hv. f_equal.
  - destruct (decide (length out - pos <= 32)%nat).
    + f_equal. lia.
    + rewrite !take_ge; [done|lia|lia].
  - f_equal. lia.
Qed.

Lemma generate_blocks_wf fuel : ∀ pos out d r out' d',
  generate_blocks fuel pos out d = Some (r, out', d') → drbg_wf d →
  drbg_wf d' ∧ reseed_counter d' = reseed_counter d.
Proof using ML.
  induction fuel as [|fuel IH]; intros pos out d r out' d' H Hd.
  { cbn [generate_blocks] in H. case_match; by simplify_eq. }
  destruct (Nat.leb_spec (length out) pos) as [Hge|Hlt].
  { cbn [generate_blocks] in H. rewrite (proj2 (Nat.leb_le _ _)) in H by done. by simplify_eq. }
  rewrite generate_blocks_step in H by done. cbn zeta in H. destruct Hd as [H1 H2 H3].
  case_match; [|simplify_eq; repeat split; cbn; rewrite ?hmac_length; done].
  apply IH in H; [done|]. split; cbn; rewrite ?hmac_length; done.
Qed.

Lemma after_blocks_fields bs d :
  dr_key (after_blocks bs d) = dr_key d ∧ reseed_counter (after_blocks bs d) = reseed_counter d.
Proof. unfold after_blocks. by destruct (last bs). Qed.

Lemma drbg_update_counter p d : reseed_counter (drbg_update p d) = reseed_counter d.
Proof. unfold drbg_update. by destruct p as [[|]|]. Qed.

(** ** A process and its generators *)

(** The monitor, the entropy delivered to the generators so far, and the
    generators in the order of their creation. *)
Record DrbgProcess := {
  dp_entropy : GlobalEntropy;
  dp_consumed : bytes;
  dp_drbgs : list HmacDrbg;
}.

Definition DrbgProcess_start : DrbgProcess :=
  {| dp_entropy := GlobalEntropy_new; dp_consumed := []; dp_drbgs := [] |}.

(** A call that returns; the seed buffer has 48 bytes, a reseed buffer 32. *)
Inductive drbg_step (startup : bytes) : DrbgProcess → DrbgProcess → Prop :=
| drbg_step_new src d g' p :
    length src = 48%nat →
    HmacDrbg_new startup src (dp_entropy p) = Filled (Ok d, g') →
    drbg_step startup p
      {| dp_entropy := g'; dp_consumed := dp_consumed p ++ src; dp_drbgs := dp_drbgs p ++ [d] |}
| drbg_step_reseed i d src r d' g' p :
    length src = 32%nat → dp_drbgs p !! i = Some d →
    reseed startup src d (dp_entropy p) = Filled (r, d', g') →
    drbg_step startup p
      {| dp_entropy := g'; dp_consumed := dp_consumed p ++ src;
         dp_drbgs := <[i := d']> (dp_drbgs p) |}
| drbg_step_generate i d src1 src2 out r out' d' g' p :
    length src1 = 32%nat → length src2 = 32%nat → dp_drbgs p !! i = Some d →
    generate startup src1 src2 out d (dp_entropy p) = Some (Filled (r, out', d', g')) →
    drbg_step startup p
      {| dp_entropy := g';
         dp_consumed := dp_consumed p ++
           (if RESEED_INTERVAL <? reseed_counter d then src1 else []) ++ src2;
         dp_drbgs := <[i := d']> (dp_drbgs p) |}.

(** A generator between calls. *)
Definition drbg_ok (d : HmacDrbg) : Prop := drbg_wf d ∧ 1 <= reseed_counter d <= 2.

Record process_ok (startup : bytes) (p : DrbgProcess) : Prop := {
  po_monitored : monitored startup (dp_consumed p) (dp_entropy p);
  po_drbgs : Forall drbg_ok (dp_drbgs p);
  po_healthy : dp_drbgs p ≠ [] → healthy (startup ++ dp_consumed p);
}.

Lemma reseed_spec startup src d xs g :
  Z.of_nat (length startup) = STARTUP_SAMPLES → monitored startup xs g →
  (∃ g', reseed startup src d g =
           Filled (Ok (), drbg_update (Some src) d <| reseed_counter := 1 |>, g') ∧
         monitored startup (xs ++ src) g' ∧ healthy (startup ++ xs ++ src)) ∨
  reseed startup src d g = RngAborts ∧ ¬ healthy (startup ++ xs ++ src).
Proof.
  intros Hl Hm. unfold reseed.
  destruct (monitored_fill_bytes_spec startup xs src g Hl Hm) as [(g' & -> & H)|[-> H]]; eauto.
Qed.

Lemma reseeded_ok p d : drbg_wf d → drbg_ok (drbg_update p d <| reseed_counter := 1 |>).
Proof using ML.
  intros Hd. apply (drbg_update_wf p) in Hd as []. split; [split; done|]. cbn. lia.
Qed.

(** A request on a generator in order. *)
Lemma generate_spec startup src1 src2 out d xs g :
  Z.of_nat (length startup) = STARTUP_SAMPLES → monitored startup xs g → drbg_ok d →
  let d1 := drbg_update (Some src2) d <| reseed_counter := 1 |> in
  let bs := hmac_blocks (block_count (length out)) (dr_key d1) (dr_value d1) in
  (∃ g', monitored startup (xs ++ src2) g' ∧ healthy (startup ++ xs ++ src2) ∧
     if no_repeat (tested_blocks d bs) then
       generate startup src1 src2 out d g =
         Some (Filled (Ok (), take (length out) (concat bs),
                       drbg_update None (after_blocks bs d1) <| reseed_counter := 2 |>, g'))
     else ∃ out' d', drbg_ok d' ∧ length out' = length out ∧
       generate startup src1 src2 out d g = Some (Filled (Err GeneralError, out', d', g'))) ∨
  generate startup src1 src2 out d g = Some RngAborts ∧ ¬ healthy (startup ++ xs ++ src2).
Proof using ML.
  intros Hl Hm [Hwf Hc] d1 bs. unfold generate.
  rewrite (proj2 (Z.ltb_ge _ _)) by (unfold RESEED_INTERVAL; lia).
  destruct (reseed_spec startup src2 d xs g Hl Hm) as [(g' & -> & Hm' & Hh)|[-> Hh]]; [|by right].
  left. exists g'. split_and!; [done|done|]. fold d1.
  pose proof (generate_blocks_spec (length out) 0 out d1 ltac:(lia)) as Hs.
  rewrite Nat.sub_0_r in Hs. specialize (Hs (block_count_le _)). cbn zeta in Hs. fold bs in Hs.
  assert (tested_blocks d1 bs = tested_blocks d bs) as Ht.
  { unfold d1, drbg_update. by destruct src2. }
  rewrite Ht in Hs. destruct (no_repeat (tested_blocks d bs)).
  - rewrite Hs, take_0. do 3 f_equal. f_equal.
    rewrite drbg_update_counter. by rewrite (proj2 (after_blocks_fields bs d1)).
  - destruct Hs as (out' & d' & Hg & Hlen). rewrite Hg. exists out', d'. split_and!; try done.
    pose proof (reseeded_ok (Some src2) d Hwf) as [Hw1 _].
    apply generate_blocks_wf in Hg as [Hw2 Hc2]; [|done]. split; [done|]. rewrite Hc2. cbn. lia.
Qed.

Lemma HmacDrbg_new_spec startup src xs g :
  Z.of_nat (length startup) = STARTUP_SAMPLES → monitored startup xs g →
  (∃ d g', HmacDrbg_new startup src g = Filled (Ok d, g') ∧ drbg_ok d ∧
           monitored startup (xs ++ src) g' ∧ healthy (startup ++ xs ++ src)) ∨
  HmacDrbg_new startup src g = RngAborts ∧ ¬ healthy (startup ++ xs ++ src).
Proof using ML.
  intros Hl Hm. unfold HmacDrbg_new.
  destruct (monitored_fill_bytes_spec startup xs src g Hl Hm) as [(g' & -> & H)|[-> H]]; [|by right].
  left. eexists _, g'. split; [reflexivity|]. split; [|done]. by apply reseeded_ok.
Qed.

Lemma after_blocks_wf n d :
  drbg_wf d → drbg_wf (after_blocks (hmac_blocks n (dr_key d) (dr_value d)) d).
Proof using ML.
  intros []. unfold after_blocks. destruct (last _) as [b|] eqn:El; [|done].
  assert (length b = 32%nat) as Hb; [|split; done].
  apply last_Some_elem_of in El. revert El. generalize (dr_value d) as v.
  induction n as [|n IH]; intros v; cbn [hmac_blocks]; [by rewrite elem_of_nil|].
  rewrite elem_of_cons. intros [->|Hb]; [apply hmac_length|by eapply IH].
Qed.

Lemma drbg_step_ok startup p p' :
  Z.of_nat (length startup) = STARTUP_SAMPLES →
  drbg_step startup p p' → process_ok startup p → process_ok startup p'.
Proof using ML.
  intros Hl S [Hm Hd Hh]. destruct S as [src d g' p _ H|i d src r d' g' p _ Hi H
    |i d src1 src2 out r out' d' g' p _ _ Hi H].
  - destruct (HmacDrbg_new_spec startup src _ _ Hl Hm) as [(d2 & g2 & H2 & Hok & Hm2 & Hh2)|[H2 _]];
      rewrite H2 in H; [|done]. injection H as -> ->.
    split; cbn [dp_entropy dp_consumed dp_drbgs]; [done| |done]. apply Forall_app. by rewrite Forall_singleton.
  - pose proof (Forall_lookup_1 _ _ _ _ Hd Hi) as [Hw _].
    destruct (reseed_spec startup src d _ _ Hl Hm) as [(g2 & H2 & Hm2 & Hh2)|[H2 _]];
      rewrite H2 in H; [|done]. injection H as <- <- <-.
    split; cbn [dp_entropy dp_consumed dp_drbgs]; [done| |done].
    apply Forall_insert; [done|exact (reseeded_ok (Some src) d Hw)].
  - pose proof (Forall_lookup_1 _ _ _ _ Hd Hi) as Hok. pose proof Hok as [Hw Hc].
    rewrite (proj2 (Z.ltb_ge _ _)) by (unfold RESEED_INTERVAL; lia).
    destruct (generate_spec startup src1 src2 out d _ _ Hl Hm Hok)
      as [(g2 & Hm2 & Hh2 & Hg)|[H2 _]]; [|by rewrite H2 in H].
    assert (drbg_ok d' ∧ g' = g2) as [Hok' ->].
    { destruct (no_repeat _) in Hg.
      - rewrite Hg in H. injection H as <- <- <- <-. split; [|done].
        destruct (reseeded_ok (Some src2) d Hw) as [Hw1 _].
        apply (after_blocks_wf (block_count (length out))) in Hw1.
        apply (drbg_update_wf None) in Hw1 as []. split; [split; assumption|cbn; lia].
      - destruct Hg as (o & d2 & Hok2 & _ & Hg). rewrite Hg in H. by injection H as <- <- <- <-. }
    split; cbn [dp_entropy dp_consumed dp_drbgs]; [done|by apply Forall_insert|done].
Qed.

Lemma drbg_reachable_ok startup p :
  Z.of_nat (length startup) = STARTUP_SAMPLES →
  rtc (drbg_step startup) DrbgProcess_start p → process_ok startup p.
Proof using ML.
  intros Hl Hrun.
  refine (rtc_ind_l (λ p0, process_ok startup p0 → process_ok startup p) p _ _ _ Hrun _).
  - done.
  - intros x y S _ IH Hx. by apply IH, (drbg_step_ok startup x).
  - split; cbn [dp_entropy dp_consumed dp_drbgs]; [done|apply Forall_nil_2|done].
Qed.

(** Every generator a process ever holds is well formed and keyed with
    healthy entropy: over every sequence of creations, reseeds and requests
    that the health tests let through, key, value and recorded output are 32
    bytes, the reseed counter is 1 or 2 (the limit of 2^48 is never met), and
    the startup samples followed by all entropy delivered to the generators
    form a stream that passes both health tests. *)
Theorem drbg_state_invariant (startup : bytes) (p : DrbgProcess) (i : nat) (d : HmacDrbg) :
  Z.of_nat (length startup) = STARTUP_SAMPLES →
  rtc (drbg_step startup) DrbgProcess_start p → dp_drbgs p !! i = Some d →
  length (dr_key d) = 32%nat ∧ length (dr_value d) = 32%nat ∧ length (last_output d) = 32%nat ∧
  1 <= reseed_counter d <= 2 ∧ healthy (startup ++ dp_consumed p).
Proof using ML.
  intros Hl Hrun Hi. destruct (drbg_reachable_ok startup p Hl Hrun) as [_ Hd Hh].
  destruct (Forall_lookup_1 _ _ _ _ Hd Hi) as [[] Hc]. split_and!; try lia.
  apply Hh. by destruct (dp_drbgs p).
Qed.

(** C26: A request is the standard's generate process with prediction
    resistance.  Whatever happened in the process before, a request for
    [length out] bytes ends; if the fresh entropy passes the health tests, the
    generator is reseeded with it and the buffer receives exactly the first
    [length out] bytes of the blocks [V = HMAC (K, V)], after which the state
    is updated without input, unless two consecutive blocks (the last one of
    the previous request included) are equal, which is an error; if the
    entropy fails the tests the process aborts. *)
Theorem generate_is_hmac_drbg (startup : bytes) (p : DrbgProcess) (i : nat) (d : HmacDrbg)
    (src1 src2 out : bytes) :
  Z.of_nat (length startup) = STARTUP_SAMPLES →
  rtc (drbg_step startup) DrbgProcess_start p → dp_drbgs p !! i = Some d →
  let d1 := drbg_update (Some src2) d <| reseed_counter := 1 |> in
  let bs := hmac_blocks (block_count (length out)) (dr_key d1) (dr_value d1) in
  (healthy (startup ++ dp_consumed p ++ src2) ∧ ∃ g',
     if no_repeat (tested_blocks d bs) then
       generate startup src1 src2 out d (dp_entropy p) =
         Some (Filled (Ok (), take (length out) (concat bs),
                       drbg_update None (after_blocks bs d1) <| reseed_counter := 2 |>, g'))
     else ∃ out' d', length out' = length out ∧
       generate startup src1 src2 out d (dp_entropy p) =
         Some (Filled (Err GeneralError, out', d', g'))) ∨
  generate startup src1 src2 out d (dp_entropy p) = Some RngAborts ∧
  ¬ healthy (startup ++ dp_consumed p ++ src2).
Proof using ML.
  intros Hl Hrun Hi d1 bs. destruct (drbg_reachable_ok startup p Hl Hrun) as [Hm Hd _].
  pose proof (Forall_lookup_1 _ _ _ _ Hd Hi) as Hok.
  destruct (generate_spec startup src1 src2 out d _ _ Hl Hm Hok) as [(g' & _ & Hh & Hg)|H];
    [|by right]. left. split; [done|]. exists g'. fold d1 in Hg. fold bs in Hg.
  destruct (no_repeat _); [done|]. destruct Hg as (o & d' & _ & Hg). eauto.
Qed.
End Laws.
End Drbg.

(** ** A concrete process *)

#[local] Existing Instance toy_hash.

Definition demo_startup : bytes := (λ i, Z.of_nat i mod 256) <$> seq 0 1024.
Definition demo_seed : bytes := (λ i, Z.of_nat i) <$> seq 0 48.
Definition demo_entropy : bytes := (λ i, Z.of_nat i) <$> seq 100 32.

Lemma demo_startup_length : Z.of_nat (length demo_startup) = STARTUP_SAMPLES.
Proof. unfold demo_startup. rewrite length_fmap, length_seq. reflexivity. Qed.

Lemma demo_healthy : healthy (demo_startup ++ demo_seed ++ demo_entropy).
Proof. apply healthy_two_windows; [apply demo_startup_length|vm_compute; congruence..]. Qed.

(** The process after the creation of one generator. *)
Lemma demo_process :
  ∃ p d, rtc (drbg_step demo_startup) DrbgProcess_start p ∧ dp_drbgs p !! 0%nat = Some d ∧
         dp_consumed p = demo_seed.
Proof.
  pose proof demo_healthy as Hh. rewrite (assoc_L (++)) in Hh. apply healthy_prefix in Hh.
  destruct (HmacDrbg_new_spec demo_startup demo_seed [] GlobalEntropy_new demo_startup_length eq_refl)
    as [(d & g' & Hn & _)|[_ Hn]]; [|by destruct (Hn Hh)].
  eexists _, d. split; [|split].
  - eapply rtc_once. by apply (drbg_step_new demo_startup demo_seed d g' DrbgProcess_start).
  - reflexivity.
  - reflexivity.
Qed.

Lemma drbg_state_invariant_witness :
  ∃ p d, rtc (drbg_step demo_startup) DrbgProcess_start p ∧ dp_drbgs p !! 0%nat = Some d ∧
         length (dr_key d) = 32%nat ∧ 1 <= reseed_counter d <= 2.
Proof.
  destruct demo_process as (p & d & Hrun & Hi & _). exists p, d.
  destruct (drbg_state_invariant demo_startup p 0 d demo_startup_length Hrun Hi)
    as (Hk & _ & _ & Hc & _). auto.
Defined.

(** Forty bytes are requested of the new generator: two blocks are made. *)
Lemma generate_is_hmac_drbg_witness :
  ∃ p d, rtc (drbg_step demo_startup) DrbgProcess_start p ∧ dp_drbgs p !! 0%nat = Some d ∧
    ∃ r out' d' g', generate demo_startup [] demo_entropy (replicate 40 0) d (dp_entropy p) =
                      Some (Filled (r, out', d', g')).
Proof.
  destruct demo_process as (p & d & Hrun & Hi & Hc). exists p, d. split; [exact Hrun|].
  split; [exact Hi|].
  destruct (generate_is_hmac_drbg demo_startup p 0 d [] demo_entropy (replicate 40 0)
              demo_startup_length Hrun Hi) as [[_ [g' Hg]]|[_ Hn]].
  - destruct (no_repeat _).
    + eexists _, _, _, _. exact Hg.
    + destruct Hg as (o & d' & _ & Hg). eexists _, _, _, _. exact Hg.
  - exfalso. apply Hn. rewrite Hc. exact demo_healthy.
Defined.
