(* ===== verification/KeyCrypto.v ===== *)
(** * Creating, wrapping and agreeing on keys (src/crypto/keygen.rs,
    src/crypto/wrap.rs, src/crypto/derive.rs, src/crypto/pqc.rs,
    src/crypto/pairwise_test.rs)

    The validation and composition around the crates.  What the crates compute
    ([rsa], [p256], [p384], [ed25519-dalek], [x25519-dalek], [ml-kem],
    [ml-dsa], [slh-dsa], [aes-kw], [hkdf]) is the parameter [KeyPrimitives], with
    what they document in [KeyPrimitivesLaws].  Randomness is an argument: [rng]
    is the outcome of creating a generator of src/crypto/drbg.rs with the bytes
    it then delivers, [random n] the outcome of filling a buffer of [n] bytes
    from a new one; a process that aborts for want of entropy makes no call.
    The functions for the two curves, for the variants of one post-quantum
    scheme and for the three lengths of a wrapping key are the same code, and
    are one definition each. *)

From S2P Require Import Prelude Pkcs11 Hash EntropyHealth Drbg Mechanisms Sign.

Inductive MlKemVariant := MlKem512 | MlKem768 | MlKem1024.
Inductive HybridKemVariant := X25519MlKem768 | X25519MlKem1024.

Class KeyPrimitives (SP : SignPrimitives) := {
  (** [rsa] *)
  rsa_generate : bytes → Z → option RsaPrivateKey;
  rsa_modulus : RsaPrivateKey → bytes;
  rsa_exponent : RsaPrivateKey → bytes;
  to_pkcs8_der : RsaPrivateKey → option bytes;
  (** [p256] and [p384]: a secret key is its bytes, a public key its
      uncompressed SEC1 encoding *)
  ec_random : Curve → bytes → bytes;
  ec_public : Curve → bytes → bytes;
  ec_secret_parses : Curve → bytes → bool;
  ec_public_parses : Curve → bytes → bool;
  ec_dh : Curve → bytes → bytes → bytes;
  (** [ed25519-dalek] *)
  ed_random : bytes → bytes;
  ed_public : bytes → bytes;
  (** [x25519-dalek] *)
  x_public : bytes → bytes;
  x_dh : bytes → bytes → bytes;
  (** [ml-kem]: a decapsulation key is its seed *)
  kem_to_seed : MlKemVariant → bytes → option bytes;
  kem_public : MlKemVariant → bytes → bytes;
  kem_ek_parses : MlKemVariant → bytes → bool;
  kem_encapsulate : MlKemVariant → bytes → bytes → bytes * bytes;
  kem_ct_parses : MlKemVariant → bytes → bool;
  kem_decapsulate : MlKemVariant → bytes → bytes → bytes;
  (** [ml-dsa] and [slh-dsa] *)
  ml_random : MlDsaVariant → bytes → bytes;
  ml_public : MlDsaVariant → bytes → bytes;
  slh_random : SlhDsaVariant → bytes → bytes;
  slh_public : SlhDsaVariant → bytes → bytes;
  (** [aes-kw] *)
  kw_wrap : bytes → bytes → option bytes;
  kw_unwrap : bytes → bytes → option bytes;
  (** [hkdf] with SHA-256: salt, input, info and length *)
  hkdf_sha256 : bytes → bytes → bytes → nat → option bytes;
}.

(** What the crates document. *)
Class KeyPrimitivesLaws (SP : SignPrimitives) (KP : KeyPrimitives SP) := {
  ec_random_parses cv r : ec_secret_parses cv (ec_random cv r) = true;
  ec_public_ok cv k : ec_secret_parses cv k = true → ec_public_parses cv (ec_public cv k) = true;
  ec_dh_agree cv a b : ec_secret_parses cv a = true → ec_secret_parses cv b = true →
    ec_dh cv a (ec_public cv b) = ec_dh cv b (ec_public cv a);
  x_public_length k : length (x_public k) = 32%nat;
  x_dh_agree a b : x_dh a (x_public b) = x_dh b (x_public a);
  kem_to_seed_same v seed : length seed = 64%nat → kem_to_seed v seed = Some seed;
  kem_public_ok v seed : kem_ek_parses v (kem_public v seed) = true;
  kem_ek_nonempty v ek : kem_ek_parses v ek = true → ek ≠ [];
  kem_ct_ok v r ek : kem_ct_parses v (kem_encapsulate v r ek).1 = true;
  kem_ct_nonempty v ct : kem_ct_parses v ct = true → ct ≠ [];
  kem_correct v r seed : length seed = 64%nat →
    kem_decapsulate v seed (kem_encapsulate v r (kem_public v seed)).1 =
      (kem_encapsulate v r (kem_public v seed)).2;
  kw_wrap_ok kek key : (16 <= length key)%nat → (length key mod 8 = 0)%nat →
    ∃ w, kw_wrap kek key = Some w ∧ length w = (length key + 8)%nat;
  kw_unwrap_wrap kek key w : kw_wrap kek key = Some w → kw_unwrap kek w = Some key;
  kw_unwrap_only kek w key : kw_unwrap kek w = Some key → kw_wrap kek key = Some w;
  hkdf_length salt ikm info n : (n <= 255 * 32)%nat →
    ∃ okm, hkdf_sha256 salt ikm info n = Some okm ∧ length okm = n;
}.

Section KeyCrypto.
Context {SP : SignPrimitives} {KP : KeyPrimitives SP}.

(** ** Key generation (src/crypto/keygen.rs) *)

(** [generate_random_bytes]: a new generator, then one request.  [src0] is the
    entropy of its seed, [src1] and [src2] that of the request. *)
Definition generate_random_bytes {M : HashPrimitives} (startup src0 src1 src2 out : bytes)
    (g : GlobalEntropy) : option (RngOutcome (HsmResult unit * bytes * GlobalEntropy)) :=
  match HmacDrbg_new startup src0 g with
  | RngAborts => Some RngAborts
  | RngPanics => Some RngPanics
  | Filled (Err x, g) => Some (Filled (Err x, out, g))
  | Filled (Ok d, g) =>
    match generate startup src1 src2 out d g with
    | None => None
    | Some RngAborts => Some RngAborts
    | Some RngPanics => Some RngPanics
    | Some (Filled (r, out, _, g)) => Some (Filled (r, out, g))
    end
  end.

Definition generate_aes_key (random : nat → HsmResult bytes) (key_len_bytes : Z)
    (fips_mode : bool) : HsmResult bytes :=
  if negb (bool_decide (key_len_bytes ∈ [16; 24; 32])) then Err KeySizeRange
  else if fips_mode && (key_len_bytes =? 16) then Err MechanismParamInvalid
  else random (Z.to_nat key_len_bytes).

Definition generate_rsa_key_pair (rng : HsmResult bytes) (modulus_bits : Z) (fips_mode : bool) :
    HsmResult (bytes * bytes * bytes) :=
  if negb (bool_decide (modulus_bits ∈ [2048; 3072; 4096])) then Err KeySizeRange
  else if fips_mode && (modulus_bits <? 3072) then Err MechanismParamInvalid
  else
    let? r := rng in
    let? private_key := ok_or (rsa_generate r modulus_bits) GeneralError in
    let modulus := rsa_modulus private_key in
    let pub_exp := rsa_exponent private_key in
    let? der := ok_or (to_pkcs8_der private_key) GeneralError in
    Ok (der, modulus, pub_exp).

Definition generate_ec_key_pair (cv : Curve) (rng : HsmResult bytes) : HsmResult (bytes * bytes) :=
  let? r := rng in
  let secret_key := ec_random cv r in
  Ok (secret_key, ec_public cv secret_key).

Definition generate_ed25519_key_pair (rng : HsmResult bytes) : HsmResult (bytes * bytes) :=
  let? r := rng in
  let signing_key := ed_random r in
  Ok (signing_key, ed_public signing_key).

(** ** Key wrapping (src/crypto/wrap.rs) *)

Definition aes_key_wrap (wrapping_key key_to_wrap : bytes) (fips_mode : bool) : HsmResult bytes :=
  if negb (length key_to_wrap mod 8 =? 0)%nat || (length key_to_wrap <? 16)%nat
  then Err DataLenRange
  else if fips_mode && (length wrapping_key =? 16)%nat then Err KeySizeRange
  else if bool_decide (length wrapping_key ∈ [16; 24; 32]%nat)
  then ok_or (kw_wrap wrapping_key key_to_wrap) GeneralError
  else Err KeySizeRange.

Definition aes_key_unwrap (wrapping_key wrapped_key : bytes) (fips_mode : bool) : HsmResult bytes :=
  if negb (length wrapped_key mod 8 =? 0)%nat || (length wrapped_key <? 24)%nat
  then Err DataLenRange
  else if fips_mode && (length wrapping_key =? 16)%nat then Err KeySizeRange
  else if bool_decide (length wrapping_key ∈ [16; 24; 32]%nat)
  then ok_or (kw_unwrap wrapping_key wrapped_key) EncryptedDataInvalid
  else Err KeySizeRange.

(** ** Key agreement (src/crypto/derive.rs) *)

Definition MAX_OKM_LEN : Z := 64.
Definition validate_okm_len (len : Z) : HsmResult unit :=
  if (len =? 0) || (MAX_OKM_LEN <? len) then Err KeySizeRange else Ok ().

(** "CratonHSM-ECDH-HKDF-Salt-v1". *)
Definition HKDF_SALT : bytes :=
  [67; 114; 97; 116; 111; 110; 72; 83; 77; 45; 69; 67; 68; 72; 45; 72; 75; 68; 70; 45; 83; 97;
   108; 116; 45; 118; 49].
Definition apply_hkdf (ikm info : bytes) (okm_len : nat) : HsmResult bytes :=
  ok_or (hkdf_sha256 HKDF_SALT ikm info okm_len) GeneralError.

Definition curve_oid (cv : Curve) : bytes :=
  match cv with
  | P256 => [6; 8; 42; 134; 72; 206; 61; 3; 1; 7]
  | P384 => [6; 5; 43; 129; 4; 0; 34]
  end.
Definition curve_okm_len (cv : Curve) : Z := match cv with P256 => 32 | P384 => 48 end.

(** The info of the derivation: the curve, the length and both public keys. *)
Definition ecdh_info (cv : Curve) (derived_len : Z) (our_public peer_public_key_sec1 : bytes) :
    bytes :=
  curve_oid cv ++ to_be_bytes_4 (wrap 32 derived_len) ++ our_public ++ peer_public_key_sec1.

Definition ecdh (cv : Curve) (private_key_bytes peer_public_key_sec1 : bytes)
    (okm_len : option Z) : HsmResult bytes :=
  let derived_len := default (curve_okm_len cv) okm_len in
  let? _ := validate_okm_len derived_len in
  if negb (ec_secret_parses cv private_key_bytes) then Err KeyHandleInvalid
  else if negb (ec_public_parses cv peer_public_key_sec1) then Err ArgumentsBad
  else
    let raw_bytes := ec_dh cv private_key_bytes peer_public_key_sec1 in
    let info := ecdh_info cv derived_len (ec_public cv private_key_bytes) peer_public_key_sec1 in
    apply_hkdf raw_bytes info (Z.to_nat derived_len).

(** ** Post-quantum key pairs and encapsulation (src/crypto/pqc.rs) *)

Definition ml_kem_keygen (random : nat → HsmResult bytes) (variant : MlKemVariant) :
    HsmResult (bytes * bytes) :=
  let? seed := random 64%nat in
  let? stored_seed := ok_or (kem_to_seed variant seed) GeneralError in
  Ok (stored_seed, kem_public variant seed).

Definition ml_kem_encapsulate (rng : HsmResult bytes) (ek_bytes : bytes) (variant : MlKemVariant) :
    HsmResult (bytes * bytes) :=
  let? r := rng in
  if negb (kem_ek_parses variant ek_bytes) then Err KeyHandleInvalid
  else Ok (kem_encapsulate variant r ek_bytes).

Definition ml_kem_decapsulate (dk_seed ciphertext : bytes) (variant : MlKemVariant) :
    HsmResult bytes :=
  if negb (length dk_seed =? 64)%nat then Err KeyHandleInvalid
  else if negb (kem_ct_parses variant ciphertext) then Err EncryptedDataInvalid
  else Ok (kem_decapsulate variant dk_seed ciphertext).

Definition ml_dsa_keygen (rng : HsmResult bytes) (variant : MlDsaVariant) :
    HsmResult (bytes * bytes) :=
  let? r := rng in
  let seed := ml_random variant r in
  Ok (seed, ml_public variant seed).

Definition slh_dsa_keygen (rng : HsmResult bytes) (variant : SlhDsaVariant) :
    HsmResult (bytes * bytes) :=
  let? r := rng in
  let sk := slh_random variant r in
  Ok (sk, slh_public variant sk).

Definition hybrid_kem_ml_kem_variant (v : HybridKemVariant) : MlKemVariant :=
  match v with X25519MlKem768 => MlKem768 | X25519MlKem1024 => MlKem1024 end.

Definition X25519_KEY_LEN : nat := 32.
Definition ML_KEM_SEED_LEN : nat := 64.

(** [x_random] fills the secret's buffer, [random] is that of the ML-KEM key. *)
Definition hybrid_kem_keygen (x_random random : nat → HsmResult bytes)
    (variant : HybridKemVariant) : HsmResult (bytes * bytes) :=
  let? x_secret_bytes := x_random X25519_KEY_LEN in
  let x_pub := x_public x_secret_bytes in
  let? p := ml_kem_keygen random (hybrid_kem_ml_kem_variant variant) in
  let '(ml_dk_seed, ml_ek_bytes) := p in
  Ok (x_secret_bytes ++ ml_dk_seed, x_pub ++ ml_ek_bytes).

(** "CratonHSM-HybridKEM-v1" and "hybrid-kem-shared-secret". *)
Definition HYBRID_SALT : bytes :=
  [67; 114; 97; 116; 111; 110; 72; 83; 77; 45; 72; 121; 98; 114; 105; 100; 75; 69; 77; 45; 118; 49].
Definition HYBRID_INFO : bytes :=
  [104; 121; 98; 114; 105; 100; 45; 107; 101; 109; 45; 115; 104; 97; 114; 101; 100; 45; 115; 101;
   99; 114; 101; 116].
Definition combine_kem_secrets (x25519_ss ml_kem_ss : bytes) : HsmResult bytes :=
  ok_or (hkdf_sha256 HYBRID_SALT (x25519_ss ++ ml_kem_ss) HYBRID_INFO 32%nat) GeneralError.

Definition hybrid_kem_encapsulate (x_random : nat → HsmResult bytes) (rng : HsmResult bytes)
    (composite_ek : bytes) (variant : HybridKemVariant) : HsmResult (bytes * bytes) :=
  if (length composite_ek <? X25519_KEY_LEN + 1)%nat then Err KeyHandleInvalid
  else
    let x_peer_pub := take X25519_KEY_LEN composite_ek in
    let ml_ek_bytes := drop X25519_KEY_LEN composite_ek in
    let? eph_secret := x_random X25519_KEY_LEN in
    let eph_public := x_public eph_secret in
    let x_shared := x_dh eph_secret x_peer_pub in
    let? p := ml_kem_encapsulate rng ml_ek_bytes (hybrid_kem_ml_kem_variant variant) in
    let '(ml_ct, ml_ss) := p in
    let? combined_ss := combine_kem_secrets x_shared ml_ss in
    Ok (eph_public ++ ml_ct, combined_ss).

Definition hybrid_kem_decapsulate (composite_dk composite_ct : bytes) (variant : HybridKemVariant) :
    HsmResult bytes :=
  if (length composite_dk <? X25519_KEY_LEN + ML_KEM_SEED_LEN)%nat then Err KeyHandleInvalid
  else if (length composite_ct <? X25519_KEY_LEN + 1)%nat then Err EncryptedDataInvalid
  else
    let x_secret := take X25519_KEY_LEN composite_dk in
    let ml_dk_seed := take ML_KEM_SEED_LEN (drop X25519_KEY_LEN composite_dk) in
    let eph_public := take X25519_KEY_LEN composite_ct in
    let ml_ct := drop X25519_KEY_LEN composite_ct in
    let x_shared := x_dh x_secret eph_public in
    let? ml_ss := ml_kem_decapsulate ml_dk_seed ml_ct (hybrid_kem_ml_kem_variant variant) in
    combine_kem_secrets x_shared ml_ss.

Definition mechanism_to_ml_kem_variant (mechanism : Z) : option MlKemVariant :=
  if mechanism =? CKM_ML_KEM_512 then Some MlKem512
  else if mechanism =? CKM_ML_KEM_768 then Some MlKem768
  else if mechanism =? CKM_ML_KEM_1024 then Some MlKem1024
  else None.
Definition mechanism_to_hybrid_kem_variant (mechanism : Z) : option HybridKemVariant :=
  if mechanism =? CKM_HYBRID_X25519_ML_KEM_768 then Some X25519MlKem768
  else if mechanism =? CKM_HYBRID_X25519_ML_KEM_1024 then Some X25519MlKem1024
  else None.
Definition is_ml_kem_mechanism (mechanism : Z) : bool :=
  bool_decide (is_Some (mechanism_to_ml_kem_variant mechanism)).

(** ** Pairwise consistency (src/crypto/pairwise_test.rs) *)

(** "FIPS 140-3 pairwise consistency test". *)
Definition PAIRWISE_TEST_DATA : bytes :=
  [70; 73; 80; 83; 32; 49; 52; 48; 45; 51; 32; 112; 97; 105; 114; 119; 105; 115; 101; 32; 99; 111;
   110; 115; 105; 115; 116; 101; 110; 99; 121; 32; 116; 101; 115; 116].

(** Signing, then verifying; every failure is [GeneralError]. *)
Definition pairwise (signature : HsmResult bytes) (verify : bytes → HsmResult bool) :
    HsmResult unit :=
  match signature with
  | Err _ => Err GeneralError
  | Ok signature =>
    match verify signature with
    | Ok true => Ok ()
    | Ok false | Err _ => Err GeneralError
    end
  end.

(** The signature goes through the cache of parsed keys. *)
Definition rsa_pairwise_test (private_key_der modulus public_exponent : bytes) (c : RsaCaches) :
    HsmResult unit * RsaCaches :=
  match rsa_pkcs1v15_sign private_key_der PAIRWISE_TEST_DATA (Some HSha256) c with
  | (Err _, c) => (Err GeneralError, c)
  | (Ok signature, c) =>
    (pairwise (Ok signature) (λ signature,
       rsa_pkcs1v15_verify modulus public_exponent PAIRWISE_TEST_DATA signature (Some HSha256)), c)
  end.

Definition ecdsa_pairwise_test (cv : Curve) (rng : HsmResult bytes)
    (private_key public_key : bytes) : HsmResult unit :=
  pairwise (ecdsa_sign cv rng private_key PAIRWISE_TEST_DATA)
    (ecdsa_verify cv public_key PAIRWISE_TEST_DATA).

Definition ed25519_pairwise_test (private_key public_key : bytes) : HsmResult unit :=
  pairwise (ed25519_sign private_key PAIRWISE_TEST_DATA)
    (ed25519_verify public_key PAIRWISE_TEST_DATA).

Definition ml_dsa_pairwise_test (private_key public_key : bytes) (variant : MlDsaVariant) :
    HsmResult unit :=
  pairwise (ml_dsa_sign private_key PAIRWISE_TEST_DATA variant)
    (λ signature, ml_dsa_verify public_key PAIRWISE_TEST_DATA signature variant).

Definition slh_dsa_pairwise_test (private_key public_key : bytes) (variant : SlhDsaVariant) :
    HsmResult unit :=
  pairwise (slh_dsa_sign private_key PAIRWISE_TEST_DATA variant)
    (λ signature, slh_dsa_verify public_key PAIRWISE_TEST_DATA signature variant).

Definition ml_kem_pairwise_test (rng : HsmResult bytes) (private_key public_key : bytes)
    (variant : MlKemVariant) : HsmResult unit :=
  match ml_kem_encapsulate rng public_key variant with
  | Err _ => Err GeneralError
  | Ok (ciphertext, shared_secret_enc) =>
    match ml_kem_decapsulate private_key ciphertext variant with
    | Err _ => Err GeneralError
    | Ok shared_secret_dec =>
      if bool_decide (shared_secret_enc = shared_secret_dec) then Ok () else Err GeneralError
    end
  end.
End KeyCrypto.
