(* ===== verification/KeyCryptoProofs.v ===== *)
(** * Properties of key wrapping, encapsulation and agreement

    The hybrid encapsulation of src/crypto/pqc.rs delivers both sides the same
    secret; the key agreement of src/crypto/derive.rs does not. *)

From S2P Require Import Prelude Pkcs11 Hash EntropyHealth Drbg Mechanisms Sign SignProofs KeyCrypto.

(** A source of random bytes that fills the buffers it is given. *)
Definition fills (random : nat → HsmResult bytes) : Prop :=
  ∀ n, ∃ bs, random n = Ok bs ∧ length bs = n.

Section KeyCryptoProofs.
Context {SP : SignPrimitives} {KP : KeyPrimitives SP} {KL : KeyPrimitivesLaws SP KP}.

Lemma apply_hkdf_ok ikm info n : (n <= 64)%nat →
  ∃ okm, apply_hkdf ikm info n = Ok okm ∧ length okm = n ∧
    hkdf_sha256 HKDF_SALT ikm info n = Some okm.
Proof using KL.
  intros Hn. destruct (hkdf_length HKDF_SALT ikm info n) as (okm & Hok & Hl); [lia|].
  exists okm. unfold apply_hkdf. by rewrite Hok.
Qed.

Lemma combine_kem_secrets_ok a b : ∃ ss, combine_kem_secrets a b = Ok ss ∧ length ss = 32%nat.
Proof using KL.
  destruct (hkdf_length HYBRID_SALT (a ++ b) HYBRID_INFO 32) as (ss & Hok & Hl); [lia|].
  exists ss. unfold combine_kem_secrets. by rewrite Hok.
Qed.

(** Wrapping under a key of an allowed length, and back. *)
Lemma aes_key_unwrap_wrap kek key fips w :
  aes_key_wrap kek key fips = Ok w →
  aes_key_unwrap kek w fips = Ok key ∧ length w = (length key + 8)%nat.
Proof using KL.
  unfold aes_key_wrap, aes_key_unwrap.
  destruct (_ || _) eqn:H1; [done|]. apply orb_false_iff in H1 as [H1 H2].
  apply negb_false_iff, Nat.eqb_eq in H1. apply Nat.ltb_ge in H2.
  destruct (_ && _); [done|]. destruct (bool_decide _); [|done].
  destruct (kw_wrap_ok kek key H2 H1) as (w' & Hw & Hl). rewrite Hw. intros [= <-].
  rewrite (kw_unwrap_wrap _ _ _ Hw), Hl, Nat.Div0.add_mod, H1.
  assert (length key + 8 <? 24 = false)%nat as -> by (apply Nat.ltb_ge; lia). done.
Qed.

(** Unwrapping accepts only what wrapping the result gives. *)
Lemma aes_key_unwrap_only kek w fips key :
  aes_key_unwrap kek w fips = Ok key → kw_wrap kek key = Some w.
Proof using KL.
  unfold aes_key_unwrap. intros Hu. split_tests_in Hu.
  destruct (kw_unwrap kek w) as [key'|] eqn:Hk; [|done]. simplify_eq/=. by apply kw_unwrap_only.
Qed.

Lemma ecdh_eq cv priv peer len n :
  len = default (curve_okm_len cv) n → 1 <= len <= 64 →
  ec_secret_parses cv priv = true → ec_public_parses cv peer = true →
  ecdh cv priv peer n =
    apply_hkdf (ec_dh cv priv peer) (ecdh_info cv len (ec_public cv priv) peer) (Z.to_nat len).
Proof.
  intros -> Hl Hs Hp. unfold ecdh, validate_okm_len, MAX_OKM_LEN.
  set (len := default _ n) in *. destruct (_ || _) eqn:Hb; [lia|]. by rewrite Hs, Hp.
Qed.

Lemma ecdh_info_swap cv len a b :
  length a = length b → ecdh_info cv len a b = ecdh_info cv len b a → a = b.
Proof.
  intros Hl Heq. unfold ecdh_info in Heq. do 2 apply app_inv_head in Heq.
  by apply app_inj_1 in Heq as [-> _].
Qed.

(** C39: The two parties of a key agreement do not agree.  Both compute the same
    shared point, but each puts its own public key first in the info of the
    derivation, so that the two infos differ whenever the two public keys do,
    and the keys are the HKDF outputs for different infos. *)
Theorem ecdh_parties_disagree cv (a b : bytes) (n : option Z)
    (Ha : ec_secret_parses cv a = true) (Hb : ec_secret_parses cv b = true)
    (Hn : 1 <= default (curve_okm_len cv) n <= 64)
    (Hl : length (ec_public cv a) = length (ec_public cv b))
    (Hab : ec_public cv a ≠ ec_public cv b) :
  ∃ ss info_a info_b key_a key_b,
    ecdh cv a (ec_public cv b) n = Ok key_a ∧ ecdh cv b (ec_public cv a) n = Ok key_b ∧
    hkdf_sha256 HKDF_SALT ss info_a (length key_a) = Some key_a ∧
    hkdf_sha256 HKDF_SALT ss info_b (length key_b) = Some key_b ∧
    info_a ≠ info_b.
Proof using KL.
  set (len := default (curve_okm_len cv) n) in *.
  set (ss := ec_dh cv a (ec_public cv b)).
  set (info_a := ecdh_info cv len (ec_public cv a) (ec_public cv b)).
  set (info_b := ecdh_info cv len (ec_public cv b) (ec_public cv a)).
  destruct (apply_hkdf_ok ss info_a (Z.to_nat len)) as (ka & Hka & Hla & Hha); [lia|].
  destruct (apply_hkdf_ok ss info_b (Z.to_nat len)) as (kb & Hkb & Hlb & Hhb); [lia|].
  exists ss, info_a, info_b, ka, kb. rewrite Hla, Hlb. split_and!; [| |done|done|].
  - rewrite (ecdh_eq _ _ _ len); [done|done|done|done|by apply ec_public_ok].
  - rewrite (ecdh_eq _ _ _ len); [|done|done|done|by apply ec_public_ok].
    by rewrite (ec_dh_agree cv b a Hb Ha).
  - intros Heq. by apply Hab, (ecdh_info_swap cv len).
Qed.

Lemma ml_kem_keygen_ok random v : fills random →
  ∃ seed, ml_kem_keygen random v = Ok (seed, kem_public v seed) ∧ length seed = 64%nat.
Proof using KL.
  intros Hr. destruct (Hr 64%nat) as (seed & Hs & Hl). exists seed.
  unfold ml_kem_keygen. rewrite Hs. by rewrite (kem_to_seed_same v seed Hl).
Qed.

(** Hybrid encapsulation delivers one secret.  A key pair made by
    [hybrid_kem_keygen] has a 96-byte private key; encapsulating to its public
    key succeeds with every generator that delivers, and decapsulating the
    ciphertext with the private key gives the same 32-byte secret. *)
Theorem hybrid_kem_agrees v x_random random eph r
    (Hx : fills x_random) (Hr : fills random) (He : fills eph) :
  ∃ sk pk ct ss,
    hybrid_kem_keygen x_random random v = Ok (sk, pk) ∧ length sk = 96%nat ∧
    hybrid_kem_encapsulate eph (Ok r) pk v = Ok (ct, ss) ∧ length ss = 32%nat ∧
    hybrid_kem_decapsulate sk ct v = Ok ss.
Proof using KL.
  destruct (Hx X25519_KEY_LEN) as (xs & Hxs & Hxl). destruct (He X25519_KEY_LEN) as (es & Hes & Hel).
  set (mv := hybrid_kem_ml_kem_variant v).
  destruct (ml_kem_keygen_ok random mv Hr) as (seed & Hk & Hsl).
  set (ek := kem_public mv seed). set (enc := kem_encapsulate mv r ek).
  pose proof (kem_public_ok mv seed) as Hek. pose proof (kem_ct_ok mv r ek) as Hct.
  pose proof (kem_ek_nonempty _ _ Hek) as Hne. pose proof (kem_ct_nonempty _ _ Hct) as Hnc.
  destruct (combine_kem_secrets_ok (x_dh es (x_public xs)) enc.2) as (ss & Hss & Hssl).
  assert (∀ k l, l ≠ [] → (length (x_public k ++ l) <? X25519_KEY_LEN + 1)%nat = false) as Hshort.
  { intros k [|z l] Hl; [done|]. by rewrite length_app, x_public_length. }
  exists (xs ++ seed), (x_public xs ++ ek), (x_public es ++ enc.1), ss. split_and!.
  - unfold hybrid_kem_keygen. rewrite Hxs. fold mv. by rewrite Hk.
  - rewrite length_app. unfold X25519_KEY_LEN in *. lia.
  - unfold hybrid_kem_encapsulate. rewrite Hshort by done. rewrite Hes.
    rewrite take_app_length', drop_app_length' by (by rewrite x_public_length).
    unfold ml_kem_encapsulate. fold mv. fold ek in Hek. rewrite Hek. cbn [negb].
    fold enc. destruct enc as [ct ms]. cbn [fst snd] in *. by rewrite Hss.
  - done.
  - unfold hybrid_kem_decapsulate. rewrite Hshort by done.
    replace (length (xs ++ seed) <? _)%nat with false
      by (rewrite length_app, Hxl, Hsl; done).
    rewrite !take_app_length', !drop_app_length' by (done || by rewrite x_public_length).
    rewrite take_ge by (unfold ML_KEM_SEED_LEN; lia).
    unfold ml_kem_decapsulate. rewrite Hsl. fold mv. unfold enc. rewrite Hct. cbn [negb Nat.eqb].
    unfold ek. rewrite (kem_correct mv r seed Hsl), (x_dh_agree xs es). done.
Qed.
End KeyCryptoProofs.

(** ** A toy instance, and the theorems at work *)

Definition byte_sum (bs : bytes) : Z := foldl Z.add 0 bs.
Definition pad32 (bs : bytes) : bytes := take 32 (bs ++ replicate 32 0).

#[export] Instance toy_keys : KeyPrimitives toy_sign := {|
  rsa_generate r bits := Some (bits :: r) : option (@RsaPrivateKey toy_sign);
  rsa_modulus k := replicate 256 255;
  rsa_exponent _ := [1; 0; 1];
  to_pkcs8_der k := Some k;
  ec_random _ r := pad32 r;
  ec_public _ k := 4 :: k;
  ec_secret_parses _ _ := true;
  ec_public_parses _ _ := true;
  ec_dh _ a p := [byte_sum (4 :: a) * byte_sum p];
  ed_random r := pad32 r;
  ed_public k := k;
  x_public := pad32;
  x_dh a p := [byte_sum (pad32 a) * byte_sum p];
  kem_to_seed _ seed := Some seed;
  kem_public _ seed := 1 :: seed;
  kem_ek_parses _ ek := negb (bool_decide (ek = []));
  kem_encapsulate _ r ek := (9 :: r, pad32 (r ++ tail ek));
  kem_ct_parses _ ct := negb (bool_decide (ct = []));
  kem_decapsulate _ seed ct := pad32 (tail ct ++ seed);
  ml_random _ r := pad32 r;
  ml_public _ k := k;
  slh_random _ r := pad32 r;
  slh_public _ k := k;
  kw_wrap kek key := Some (take 8 (pad32 kek) ++ key);
  kw_unwrap kek w :=
    if bool_decide (take 8 w = take 8 (pad32 kek)) then Some (drop 8 w) else None;
  hkdf_sha256 salt ikm info n := Some (to_le_bytes n (toy_checksum (salt ++ ikm ++ info)));
|}.

Lemma length_pad32 bs : length (pad32 bs) = 32%nat.
Proof. unfold pad32. rewrite length_take, length_app, length_replicate. lia. Qed.

#[export] Instance toy_keys_laws : KeyPrimitivesLaws toy_sign toy_keys.
Proof.
  split; try done; cbn -[pad32 take replicate byte_sum toy_checksum].
  - intros cv a b _ _. by rewrite Z.mul_comm.
  - intros k. apply length_pad32.
  - intros a b. by rewrite Z.mul_comm.
  - intros _ ek Hek ->. done.
  - intros _ ct Hct ->. done.
  - intros kek key _ _. eexists. split; [done|].
    rewrite length_app, length_take, length_pad32. lia.
  - intros kek key w [= <-]. rewrite take_app_length', drop_app_length'
      by (rewrite length_take, length_pad32; lia). by rewrite bool_decide_true.
  - intros kek w key. case_bool_decide as H; [|done]. intros [= <-].
    by rewrite <- H, take_drop.
  - intros salt ikm info n _. eexists. split; [done|]. apply length_to_le_bytes.
Qed.

Section KeyCryptoWitness.
#[local] Existing Instance toy_sign.

Definition demo_fill (x : Z) (n : nat) : HsmResult bytes := Ok (replicate n x).
Lemma demo_fills x : fills (demo_fill x).
Proof. intros n. exists (replicate n x). by rewrite length_replicate. Qed.

Lemma hybrid_kem_agrees_witness : ∃ sk pk ct ss,
  hybrid_kem_keygen (demo_fill 3) (demo_fill 5) X25519MlKem768 = Ok (sk, pk) ∧
  length sk = 96%nat ∧
  hybrid_kem_encapsulate (demo_fill 7) (Ok [1; 2]) pk X25519MlKem768 = Ok (ct, ss) ∧
  length ss = 32%nat ∧ hybrid_kem_decapsulate sk ct X25519MlKem768 = Ok ss.
Proof.
  exact (hybrid_kem_agrees X25519MlKem768 (demo_fill 3) (demo_fill 5) (demo_fill 7) [1; 2]
    (demo_fills 3) (demo_fills 5) (demo_fills 7)).
Defined.

(** The derived keys of two parties on concrete inputs. *)
Lemma ecdh_parties_disagree_witness :
  (∃ ss info_a info_b key_a key_b,
    ecdh P256 [1] [4; 2] None = Ok key_a ∧ ecdh P256 [2] [4; 1] None = Ok key_b ∧
    hkdf_sha256 HKDF_SALT ss info_a (length key_a) = Some key_a ∧
    hkdf_sha256 HKDF_SALT ss info_b (length key_b) = Some key_b ∧ info_a ≠ info_b) ∧
  ecdh P256 [1] [4; 2] None ≠ ecdh P256 [2] [4; 1] None.
Proof.
  split; [|by vm_compute].
  exact (ecdh_parties_disagree P256 [1] [2] None eq_refl eq_refl
    ltac:(vm_compute; split; discriminate) eq_refl ltac:(discriminate)).
Defined.
End KeyCryptoWitness.
