(* ===== verification/KeyManagement.v ===== *)
(** * Key management functions of the PKCS#11 interface

    [C_GenerateKey], [C_GenerateKeyPair], [C_WrapKey], [C_UnwrapKey] and
    [C_DeriveKey] of src/pkcs11_abi/functions.rs, on the state of Operations.v,
    together with the error state a failed pairwise consistency test puts the
    library in ([POST_FAILED], which [get_hsm] reads before every call).  As in
    Operations.v a pointer argument is an option or whether it is non-null, and
    what a call writes through its pointers is part of its result. *)

From S2P Require Import Prelude Pkcs11 Handles Hash PinCrypto TokenFiles Token Session SessionManager Dates Objects ObjectStore AuditChain Encrypt Abi Mechanisms Sign Operations KeyCrypto.

Definition CKK_RSA : Z := 0x00000000.
Definition CKK_AES : Z := 0x0000001F.
Definition CKK_EC_EDWARDS : Z := 0x00000040.
Definition CKK_ML_KEM : Z := 0x80000001.
Definition CKK_SLH_DSA : Z := 0x80000003.
Definition CKA_WRAP_WITH_TRUSTED : Z := 0x00000210.
Definition CKA_TRUSTED : Z := 0x00000086.
Definition CKR_WRAPPED_KEY_LEN_RANGE : Z := 0x00000112.

(** What a call observes: the outcomes of its generators (a buffer filled from
    a new generator, the generator of a key pair, the one of its consistency
    test), the clock when each object is made and the database when it is
    stored. *)
Record KeyEnv := {
  ke_random : nat → HsmResult bytes;
  ke_rng : HsmResult bytes;
  ke_test_rng : HsmResult bytes;
  ke_wall : Z;
  ke_wall2 : Z;
  ke_persist : PersistEnv;
  ke_persist2 : PersistEnv;
}.

(** ** Templates *)

(** The first attribute of a type, as a number when it has eight bytes. *)
Fixpoint find_attr (template : Template) (attr : Z) : option bytes :=
  match template with
  | [] => None
  | (t, v) :: template => if t =? attr then Some v else find_attr template attr
  end.
Definition read_ulong_attr (template : Template) (attr : Z) : option Z :=
  match find_attr template attr with Some v => read_ck_ulong v | None => None end.

(** A template pointer: null is the empty template. *)
Definition optional_template (p_template : option (list RawAttr)) : Result Z Template :=
  match p_template with None => Ok [] | Some attrs => parse_template attrs end.

(** The loops over a template: one attribute after the other, the first error
    ends it. *)
Fixpoint apply_each (f : StoredObject → Z → bytes → Result Z StoredObject) (o : StoredObject)
    (template : Template) : Result Z StoredObject :=
  match template with
  | [] => Ok o
  | (attr_type, value) :: template =>
    let? o := f o attr_type value in apply_each f o template
  end.

Definition flag_attr (value : bytes) (f : bool → StoredObject) : Result Z StoredObject :=
  let? b := parse_ck_bbool value in Ok (f b).
Definition date_attr (value : bytes) (old : option bytes) : option bytes :=
  if (length value =? 8)%nat then Some value
  else if (length value =? 0)%nat then None else old.

(** The attributes of [C_GenerateKey]. *)
Definition generate_attribute (o : StoredObject) (attr_type : Z) (value : bytes) :
    Result Z StoredObject :=
  match attr_of attr_type with
  | A_LABEL => Ok (o <| o_label := value |>)
  | A_ID => Ok (o <| o_id := value |>)
  | A_TOKEN => flag_attr value (λ b, o <| o_token_object := b |>)
  | A_PRIVATE => flag_attr value (λ b, o <| o_private := b |>)
  | A_SENSITIVE => flag_attr value (λ b, o <| o_sensitive := b |>)
  | A_EXTRACTABLE => flag_attr value (λ b, o <| o_extractable := b |>)
  | A_ENCRYPT => flag_attr value (λ b, o <| o_can_encrypt := b |>)
  | A_DECRYPT => flag_attr value (λ b, o <| o_can_decrypt := b |>)
  | A_WRAP => flag_attr value (λ b, o <| o_can_wrap := b |>)
  | A_UNWRAP => flag_attr value (λ b, o <| o_can_unwrap := b |>)
  | A_START_DATE => Ok (o <| o_start_date := date_attr value (o_start_date o) |>)
  | A_END_DATE => Ok (o <| o_end_date := date_attr value (o_end_date o) |>)
  | _ => Ok o
  end.

Definition apply_pub_template (o : StoredObject) (attr_type : Z) (value : bytes) :
    Result Z StoredObject :=
  match attr_of attr_type with
  | A_LABEL => Ok (o <| o_label := value |>)
  | A_ID => Ok (o <| o_id := value |>)
  | A_TOKEN => flag_attr value (λ b, o <| o_token_object := b |>)
  | A_VERIFY => flag_attr value (λ b, o <| o_can_verify := b |>)
  | A_ENCRYPT => flag_attr value (λ b, o <| o_can_encrypt := b |>)
  | A_WRAP => flag_attr value (λ b, o <| o_can_wrap := b |>)
  | A_START_DATE => Ok (o <| o_start_date := date_attr value (o_start_date o) |>)
  | A_END_DATE => Ok (o <| o_end_date := date_attr value (o_end_date o) |>)
  | _ => Ok o
  end.

Definition apply_priv_template (o : StoredObject) (attr_type : Z) (value : bytes) :
    Result Z StoredObject :=
  match attr_of attr_type with
  | A_LABEL => Ok (o <| o_label := value |>)
  | A_ID => Ok (o <| o_id := value |>)
  | A_TOKEN => flag_attr value (λ b, o <| o_token_object := b |>)
  | A_SENSITIVE => flag_attr value (λ b, o <| o_sensitive := b |>)
  | A_EXTRACTABLE => flag_attr value (λ b, o <| o_extractable := b |>)
  | A_SIGN => flag_attr value (λ b, o <| o_can_sign := b |>)
  | A_DECRYPT => flag_attr value (λ b, o <| o_can_decrypt := b |>)
  | A_UNWRAP => flag_attr value (λ b, o <| o_can_unwrap := b |>)
  | A_DERIVE => flag_attr value (λ b, o <| o_can_derive := b |>)
  | A_START_DATE => Ok (o <| o_start_date := date_attr value (o_start_date o) |>)
  | A_END_DATE => Ok (o <| o_end_date := date_attr value (o_end_date o) |>)
  | _ => Ok o
  end.

(** The attributes shared by [C_UnwrapKey] and [C_DeriveKey]; [sensitive] is
    the flag of the key the new one comes from. *)
Definition inherit_attribute (sensitive : bool) (o : StoredObject) (attr_type : Z)
    (value : bytes) : Result Z StoredObject :=
  match attr_of attr_type with
  | A_LABEL => Ok (o <| o_label := value |>)
  | A_ID => Ok (o <| o_id := value |>)
  | A_TOKEN => flag_attr value (λ b, o <| o_token_object := b |>)
  | A_SENSITIVE =>
    let? requested := parse_ck_bbool value in
    if sensitive && negb requested then Err CKR_TEMPLATE_INCONSISTENT
    else Ok (o <| o_sensitive := requested |>)
  | A_EXTRACTABLE =>
    let? requested := parse_ck_bbool value in
    if negb (o_extractable o) && requested then Err CKR_TEMPLATE_INCONSISTENT
    else Ok (o <| o_extractable := requested |>)
  | _ => Ok o
  end.

Definition unwrap_attribute (sensitive : bool) (o : StoredObject) (attr_type : Z)
    (value : bytes) : Result Z StoredObject :=
  match attr_of attr_type with
  | A_ENCRYPT => flag_attr value (λ b, o <| o_can_encrypt := b |>)
  | A_DECRYPT => flag_attr value (λ b, o <| o_can_decrypt := b |>)
  | _ => inherit_attribute sensitive o attr_type value
  end.

(** ** The objects the functions make *)

Definition new_aes_key (handle now : Z) (key : bytes) : StoredObject :=
  StoredObject_new handle CKO_SECRET_KEY now
    <| o_key_type := Some CKK_AES |> <| o_key_material := Some key |>
    <| o_value_len := Some (blen key) |> <| o_sensitive := true |>
    <| o_extractable := false |> <| o_can_encrypt := true |> <| o_can_decrypt := true |>.

(** A flag kept among the extra attributes. *)
Definition extra_flag (o : StoredObject) (attr : Z) : bool :=
  match o_extra_attributes o !! attr with
  | Some (b :: _) => negb (b =? 0)
  | _ => false
  end.

Section KeyManagement.
Context {P : PinPrimitives} {X : HexCodec} {H : HashPrimitives} {CP : CipherPrimitives}.
Context {SP : SignPrimitives} {KP : KeyPrimitives SP}.
Context {C : ObjectCodec} {SO : StoreOrder} {D : DashOrder} {AC : AuditCodec}.
Context {A B : Type} {HS : HandleSource A} {OH : ObjectHandles B}.
Implicit Types (c : CryptoCore A B) (e : KeyEnv).

(** [next_handle] and [insert_object] on the core; an object the new one
    replaces stays with the operations that refer to it. *)
Definition key_handle c : HsmResult Z * CryptoCore A B :=
  let '(r, s) := next_handle (object_store (cc_core c)) in
  (r, c <| cc_core := cc_core c <| object_store := s |> |>).
Definition insert_key (pe : PersistEnv) (o : StoredObject) c : HsmResult Z * CryptoCore A B :=
  let before := object_store (cc_core c) in
  match insert_object pe o before with
  | (Err x, s) => (Err x, c <| cc_core := cc_core c <| object_store := s |> |>)
  | (Ok h, s) =>
    (Ok h, c <| cc_core := cc_core c <| object_store := s |> |>
             <| cc_refs := detach {[h]} (os_objects before) (os_objects s) <$> cc_refs c |>)
  end.

(** ** [C_GenerateKey] *)

Definition C_GenerateKey e (session : Z) (p_mechanism : option CK_MECHANISM)
    (p_template : option (list RawAttr)) (ph_key : bool) c : Z * option Z * CryptoCore A B :=
  match p_mechanism with
  | None => (CKR_ARGUMENTS_BAD, None, c)
  | Some m =>
    if negb ph_key then (CKR_ARGUMENTS_BAD, None, c)
    else
      match op_session session c with
      | Err x => (error_to_rv x, None, c)
      | Ok (_, s) =>
        if negb (session_is_rw s) then (CKR_SESSION_READ_ONLY, None, c)
        else
          let mechanism := m_mechanism m in
          if negb (mechanism =? CKM_AES_KEY_GEN) then (CKR_MECHANISM_INVALID, None, c)
          else
            match
              (let? _ := validate_mechanism_for_policy mechanism (algorithm_config c) false in
               let? template := optional_template p_template in
               let key_len := default 32 (read_ulong_attr template CKA_VALUE_LEN) in
               match
                 (let? _ := enforce mechanism (algorithm_config c)
                              (Some (saturating_mul u32_max (wrap 32 key_len) 8)) in
                  generate_aes_key (ke_random e) key_len
                    (fips_approved_only (algorithm_config c)))
               with
               | Err x => Err (error_to_rv x)
               | Ok key_material => Ok (template, key_len, key_material)
               end)
            with
            | Err rv => (rv, None, c)
            | Ok (template, key_len, key_material) =>
              let '(r, c) := key_handle c in
              match r with
              | Err x => (error_to_rv x, None, c)
              | Ok handle =>
                let obj := new_aes_key handle (ke_wall e) key_material
                             <| o_value_len := Some key_len |> <| o_private := true |> in
                match apply_each generate_attribute obj template with
                | Err rv => (rv, None, c)
                | Ok obj =>
                  match insert_key (ke_persist e) obj c with
                  | (Err x, c) => (error_to_rv x, None, c)
                  | (Ok _, c) =>
                    (CKR_OK, Some handle,
                     op_audit session
                       (AGenerateKey mechanism (wrap 32 key_len) (is_fips_approved mechanism))
                       Success c)
                  end
                end
              end
            end
      end
  end.

(** ** [C_GenerateKeyPair] *)

(** Storing a new pair: the handles are drawn and the templates applied for the
    public key, then for the private one; the public object is stored first. *)
Definition store_pair e (pub priv : Z → StoredObject) (pub_template priv_template : Template) c :
    Result Z (Z * Z) * CryptoCore A B :=
  let '(r, c) := key_handle c in
  match r with
  | Err x => (Err (error_to_rv x), c)
  | Ok pub_handle =>
    match apply_each apply_pub_template (pub pub_handle) pub_template with
    | Err rv => (Err rv, c)
    | Ok pub_obj =>
      let '(r, c) := key_handle c in
      match r with
      | Err x => (Err (error_to_rv x), c)
      | Ok priv_handle =>
        match apply_each apply_priv_template (priv priv_handle) priv_template with
        | Err rv => (Err rv, c)
        | Ok priv_obj =>
          match insert_key (ke_persist e) pub_obj c with
          | (Err x, c) => (Err (error_to_rv x), c)
          | (Ok _, c) =>
            match insert_key (ke_persist2 e) priv_obj c with
            | (Err x, c) => (Err (error_to_rv x), c)
            | (Ok _, c) => (Ok (pub_handle, priv_handle), c)
            end
          end
        end
      end
    end
  end.

(** The two objects of every kind of pair, before the kind's own fields. *)
Definition new_public_key e (key_type handle : Z) : StoredObject :=
  StoredObject_new handle CKO_PUBLIC_KEY (ke_wall e) <| o_key_type := Some key_type |>
    <| o_private := false |> <| o_sensitive := false |>.
Definition new_private_key e (key_type : Z) (key : bytes) (handle : Z) : StoredObject :=
  StoredObject_new handle CKO_PRIVATE_KEY (ke_wall2 e) <| o_key_type := Some key_type |>
    <| o_key_material := Some key |> <| o_sensitive := true |> <| o_extractable := false |>
    <| o_private := true |>.

(** A helper's outcome: the error a call returns, or whether the pair failed
    its test, or the handles and the length of the key. *)
Inductive PairOutcome := PairError (rv : Z) | PairInconsistent | Paired (pub priv key_length : Z).

(** After the pair is made: its test, then the store. *)
Definition tested_pair e (test : HsmResult unit) (key_length : Z) (pub priv : Z → StoredObject)
    (pub_template priv_template : Template) c : PairOutcome * CryptoCore A B :=
  match test with
  | Err _ => (PairInconsistent, c)
  | Ok _ =>
    match store_pair e pub priv pub_template priv_template c with
    | (Err rv, c) => (PairError rv, c)
    | (Ok (pub_handle, priv_handle), c) => (Paired pub_handle priv_handle key_length, c)
    end
  end.

Definition generate_rsa_keypair e (pub_template priv_template : Template) c :
    PairOutcome * CryptoCore A B :=
  let modulus_bits := wrap 32 (default 2048 (read_ulong_attr pub_template CKA_MODULUS_BITS)) in
  match generate_rsa_key_pair (ke_rng e) modulus_bits (fips_approved_only (algorithm_config c)) with
  | Err x => (PairError (error_to_rv x), c)
  | Ok (private_key_der, modulus, pub_exp) =>
    let '(test, rsa) := rsa_pairwise_test private_key_der modulus pub_exp (cc_rsa c) in
    tested_pair e test modulus_bits
      (λ h, new_public_key e CKK_RSA h
              <| o_modulus := Some modulus |> <| o_modulus_bits := Some modulus_bits |>
              <| o_public_exponent := Some pub_exp |> <| o_can_verify := true |>
              <| o_can_encrypt := true |>)
      (λ h, new_private_key e CKK_RSA private_key_der h
              <| o_modulus := Some modulus |> <| o_modulus_bits := Some modulus_bits |>
              <| o_public_exponent := Some pub_exp |> <| o_can_sign := true |>
              <| o_can_decrypt := true |>)
      pub_template priv_template (c <| cc_rsa := rsa |>)
  end.

Definition generate_ec_keypair e (pub_template priv_template : Template) c :
    PairOutcome * CryptoCore A B :=
  let ec_params := default [] (find_attr pub_template CKA_EC_PARAMS) in
  let cv := if is_p384_params ec_params then P384 else P256 in
  let key_bits := match cv with P256 => 256 | P384 => 384 end in
  match generate_ec_key_pair cv (ke_rng e) with
  | Err x => (PairError (error_to_rv x), c)
  | Ok (private_key, public_key) =>
    tested_pair e (ecdsa_pairwise_test cv (ke_test_rng e) private_key public_key) key_bits
      (λ h, new_public_key e CKK_EC h
              <| o_ec_params := Some ec_params |> <| o_ec_point := Some public_key |>
              <| o_can_verify := true |>)
      (λ h, new_private_key e CKK_EC private_key h
              <| o_ec_params := Some ec_params |> <| o_ec_point := Some public_key |>
              <| o_can_sign := true |> <| o_can_derive := true |>)
      pub_template priv_template c
  end.

Definition generate_ed25519_keypair e (pub_template priv_template : Template) c :
    PairOutcome * CryptoCore A B :=
  match generate_ed25519_key_pair (ke_rng e) with
  | Err x => (PairError (error_to_rv x), c)
  | Ok (private_key, public_key) =>
    tested_pair e (ed25519_pairwise_test private_key public_key) 256
      (λ h, new_public_key e CKK_EC_EDWARDS h
              <| o_public_key_data := Some public_key |> <| o_ec_point := Some public_key |>
              <| o_can_verify := true |>)
      (λ h, new_private_key e CKK_EC_EDWARDS private_key h
              <| o_public_key_data := Some public_key |> <| o_ec_point := Some public_key |>
              <| o_can_sign := true |>)
      pub_template priv_template c
  end.

Definition ml_kem_bits (v : MlKemVariant) : Z :=
  match v with MlKem512 => 512 | MlKem768 => 768 | MlKem1024 => 1024 end.
Definition ml_dsa_bits (v : MlDsaVariant) : Z :=
  match v with MlDsa44 => 44 | MlDsa65 => 65 | MlDsa87 => 87 end.
Definition slh_dsa_bits (v : SlhDsaVariant) : Z :=
  match v with Sha2_128s => 128 | Sha2_256s => 256 end.

(** The two objects of a post-quantum pair: keys of the encapsulation scheme
    derive, the others sign and verify. *)
Definition store_pqc_pair e (key_type key_bits : Z) (private_key public_key : bytes)
    (test : HsmResult unit) (pub_template priv_template : Template) c :
    PairOutcome * CryptoCore A B :=
  let kem := key_type =? CKK_ML_KEM in
  tested_pair e test key_bits
    (λ h, new_public_key e key_type h <| o_public_key_data := Some public_key |>
            <| o_can_verify := negb kem |> <| o_can_derive := kem |>)
    (λ h, new_private_key e key_type private_key h <| o_public_key_data := Some public_key |>
            <| o_can_sign := negb kem |> <| o_can_derive := kem |>)
    pub_template priv_template c.

Definition generate_pqc_keypair e (mechanism : Z) (pub_template priv_template : Template) c :
    PairOutcome * CryptoCore A B :=
  match mechanism_to_ml_kem_variant mechanism with
  | Some v =>
    match ml_kem_keygen (ke_random e) v with
    | Err x => (PairError (error_to_rv x), c)
    | Ok (dk_seed, ek_bytes) =>
      store_pqc_pair e CKK_ML_KEM (ml_kem_bits v) dk_seed ek_bytes
        (ml_kem_pairwise_test (ke_test_rng e) dk_seed ek_bytes v) pub_template priv_template c
    end
  | None =>
    match mechanism_to_ml_dsa_variant mechanism with
    | Some v =>
      match ml_dsa_keygen (ke_rng e) v with
      | Err x => (PairError (error_to_rv x), c)
      | Ok (sk_seed, vk_bytes) =>
        store_pqc_pair e CKK_ML_DSA (ml_dsa_bits v) sk_seed vk_bytes
          (ml_dsa_pairwise_test sk_seed vk_bytes v) pub_template priv_template c
      end
    | None =>
      match mechanism_to_slh_dsa_variant mechanism with
      | Some v =>
        match slh_dsa_keygen (ke_rng e) v with
        | Err x => (PairError (error_to_rv x), c)
        | Ok (sk_bytes, vk_bytes) =>
          store_pqc_pair e CKK_SLH_DSA (slh_dsa_bits v) sk_bytes vk_bytes
            (slh_dsa_pairwise_test sk_bytes vk_bytes v) pub_template priv_template c
        end
      | None => (PairError CKR_MECHANISM_INVALID, c)
      end
    end
  end.

(** The choice of the helper. *)
Definition generate_pair e (mechanism : Z) (pub_template priv_template : Template) c :
    PairOutcome * CryptoCore A B :=
  if mechanism =? CKM_RSA_PKCS_KEY_PAIR_GEN then
    generate_rsa_keypair e pub_template priv_template c
  else if mechanism =? CKM_EC_KEY_PAIR_GEN then generate_ec_keypair e pub_template priv_template c
  else if mechanism =? CKM_EDDSA then generate_ed25519_keypair e pub_template priv_template c
  else if is_ml_kem_mechanism mechanism || is_ml_dsa_mechanism mechanism
          || is_slh_dsa_mechanism mechanism
  then generate_pqc_keypair e mechanism pub_template priv_template c
  else (PairError CKR_MECHANISM_INVALID, c).

(** What [C_GenerateKeyPair] writes: the two handles; and whether it puts the
    library in the error state. *)
Record PairOut := { po_rv : Z; po_handles : option (Z * Z); po_post_failed : bool }.
Definition pair_err (rv : Z) : PairOut :=
  {| po_rv := rv; po_handles := None; po_post_failed := false |}.

Definition C_GenerateKeyPair e (session : Z) (p_mechanism : option CK_MECHANISM)
    (p_public_key_template p_private_key_template : option (list RawAttr))
    (ph_public_key ph_private_key : bool) c : PairOut * CryptoCore A B :=
  match p_mechanism with
  | None => (pair_err CKR_ARGUMENTS_BAD, c)
  | Some m =>
    if negb ph_public_key || negb ph_private_key then (pair_err CKR_ARGUMENTS_BAD, c)
    else
      match op_session session c with
      | Err x => (pair_err (error_to_rv x), c)
      | Ok (_, s) =>
        if negb (session_is_rw s) then (pair_err CKR_SESSION_READ_ONLY, c)
        else
          let mechanism := m_mechanism m in
          if negb (is_keypair_gen_mechanism mechanism) then (pair_err CKR_MECHANISM_INVALID, c)
          else
            match
              (let? _ := validate_mechanism_for_policy mechanism (algorithm_config c) false in
               let? pub_template := optional_template p_public_key_template in
               let? priv_template := optional_template p_private_key_template in
               let keygen_bits :=
                 if mechanism =? CKM_RSA_PKCS_KEY_PAIR_GEN
                 then Some (wrap 32 (default 2048 (read_ulong_attr pub_template CKA_MODULUS_BITS)))
                 else None in
               match enforce mechanism (algorithm_config c) keygen_bits with
               | Err x => Err (error_to_rv x)
               | Ok _ => Ok (pub_template, priv_template)
               end)
            with
            | Err rv => (pair_err rv, c)
            | Ok (pub_template, priv_template) =>
              match generate_pair e mechanism pub_template priv_template c with
              | (PairError rv, c) => (pair_err rv, c)
              | (PairInconsistent, c) =>
                ({| po_rv := CKR_GENERAL_ERROR; po_handles := None; po_post_failed := true |}, c)
              | (Paired pub_handle priv_handle key_length, c) =>
                ({| po_rv := CKR_OK; po_handles := Some (pub_handle, priv_handle);
                    po_post_failed := false |},
                 op_audit session
                   (AGenerateKeyPair mechanism key_length (is_fips_approved mechanism)) Success c)
              end
            end
      end
  end.

(** ** [C_WrapKey], [C_UnwrapKey], [C_DeriveKey] *)

(** The checks of [C_WrapKey] and the wrapped key. *)
Definition wrapped_key (mechanism wrapping_key key : Z) (is_logged_in : bool) c :
    Result Z bytes :=
  if negb (is_wrap_mechanism mechanism) then Err CKR_MECHANISM_INVALID
  else
    let? _ := validate_mechanism_for_policy mechanism (algorithm_config c) false in
    match op_object wrapping_key c with
    | Err x => Err (error_to_rv x)
    | Ok wk =>
      if o_private wk && negb is_logged_in then Err CKR_USER_NOT_LOGGED_IN
      else if negb (o_can_wrap wk) then Err CKR_KEY_FUNCTION_NOT_PERMITTED
      else
        match enforce mechanism (algorithm_config c) (stored_key_bits wk) with
        | Err x => Err (error_to_rv x)
        | Ok _ =>
          let wk_is_trusted := extra_flag wk CKA_TRUSTED in
          match o_key_material wk with
          | None => Err CKR_KEY_HANDLE_INVALID
          | Some wk_bytes =>
            match op_object key c with
            | Err x => Err (error_to_rv x)
            | Ok o =>
              if negb (o_extractable o) then Err (error_to_rv KeyFunctionNotPermitted)
              else if extra_flag o CKA_WRAP_WITH_TRUSTED && negb wk_is_trusted
              then Err CKR_KEY_FUNCTION_NOT_PERMITTED
              else
                match o_key_material o with
                | None => Err CKR_KEY_HANDLE_INVALID
                | Some key_bytes =>
                  match aes_key_wrap wk_bytes key_bytes
                          (fips_approved_only (algorithm_config c)) with
                  | Err x => Err (error_to_rv x)
                  | Ok wrapped => Ok wrapped
                  end
                end
            end
          end
        end
    end.

Definition C_WrapKey (session : Z) (p_mechanism : option CK_MECHANISM) (wrapping_key key : Z)
    (p_wrapped_key : bool) (pul_wrapped_key_len : option Z) c : CallOut :=
  match p_mechanism, pul_wrapped_key_len with
  | Some m, Some buf_len =>
    match op_session session c with
    | Err x => ret (error_to_rv x)
    | Ok (_, s) =>
      match wrapped_key (m_mechanism m) wrapping_key key (is_logged_in (s_state s)) c with
      | Err rv => ret rv
      | Ok wrapped =>
        if negb p_wrapped_key then ret_len CKR_OK (blen wrapped)
        else if buf_len <? blen wrapped then ret_len CKR_BUFFER_TOO_SMALL (blen wrapped)
        else ret_data wrapped
      end
    end
  | _, _ => ret CKR_ARGUMENTS_BAD
  end.

(** The unwrapping key's material and its sensitivity, then the key. *)
Definition unwrapped_key (mechanism unwrapping_key : Z) (wrapped_data : bytes)
    (is_logged_in : bool) c : Result Z (bytes * bool) :=
  if negb (is_wrap_mechanism mechanism) then Err CKR_MECHANISM_INVALID
  else
    let? _ := validate_mechanism_for_policy mechanism (algorithm_config c) false in
    match op_object unwrapping_key c with
    | Err x => Err (error_to_rv x)
    | Ok uk =>
      if o_private uk && negb is_logged_in then Err CKR_USER_NOT_LOGGED_IN
      else if negb (o_can_unwrap uk) then Err CKR_KEY_FUNCTION_NOT_PERMITTED
      else
        match enforce mechanism (algorithm_config c) (stored_key_bits uk) with
        | Err x => Err (error_to_rv x)
        | Ok _ =>
          match o_key_material uk with
          | None => Err CKR_KEY_HANDLE_INVALID
          | Some uk_bytes =>
            if MAX_SINGLE_BUFFER <? blen wrapped_data then Err CKR_WRAPPED_KEY_LEN_RANGE
            else
              match aes_key_unwrap uk_bytes wrapped_data
                      (fips_approved_only (algorithm_config c)) with
              | Err x => Err (error_to_rv x)
              | Ok unwrapped => Ok (unwrapped, o_sensitive uk)
              end
          end
        end
    end.

(** Storing a new secret key: the handle, the template, the store. *)
Definition store_secret e (key : bytes)
    (attribute : StoredObject → Z → bytes → Result Z StoredObject) (template : Template) c :
    Z * option Z * CryptoCore A B :=
  let '(r, c) := key_handle c in
  match r with
  | Err x => (error_to_rv x, None, c)
  | Ok handle =>
    match apply_each attribute (new_aes_key handle (ke_wall e) key) template with
    | Err rv => (rv, None, c)
    | Ok obj =>
      match insert_key (ke_persist e) obj c with
      | (Err x, c) => (error_to_rv x, None, c)
      | (Ok _, c) => (CKR_OK, Some handle, c)
      end
    end
  end.

Definition C_UnwrapKey e (session : Z) (p_mechanism : option CK_MECHANISM) (unwrapping_key : Z)
    (p_wrapped_key : option bytes) (p_template : option (list RawAttr)) (ph_key : bool) c :
    Z * option Z * CryptoCore A B :=
  match p_mechanism, p_wrapped_key with
  | Some m, Some wrapped_data =>
    if negb ph_key then (CKR_ARGUMENTS_BAD, None, c)
    else
      match op_session session c with
      | Err x => (error_to_rv x, None, c)
      | Ok (_, s) =>
        if negb (session_is_rw s) then (CKR_SESSION_READ_ONLY, None, c)
        else
          match
            (let? p := unwrapped_key (m_mechanism m) unwrapping_key wrapped_data
                         (is_logged_in (s_state s)) c in
             let? template := optional_template p_template in
             Ok (p, template))
          with
          | Err rv => (rv, None, c)
          | Ok ((unwrapped, uk_sensitive), template) =>
            store_secret e unwrapped (unwrap_attribute uk_sensitive) template c
          end
      end
  | _, _ => (CKR_ARGUMENTS_BAD, None, c)
  end.

Definition aes_len (n : Z) : bool := bool_decide (n ∈ [16; 24; 32]).

(** The secret a derivation agrees on. *)
Definition shared_secret (mechanism : Z) (bk_bytes ec_params mech_param : bytes)
    (requested_len : option Z) : HsmResult bytes :=
  match mechanism_to_ml_kem_variant mechanism with
  | Some variant => ml_kem_decapsulate bk_bytes mech_param variant
  | None =>
    ecdh (if is_p384_params ec_params then P384 else P256) bk_bytes mech_param requested_len
  end.

(** The base key's checks, the template and the new key. *)
Definition derived_key (m : CK_MECHANISM) (base_key : Z) (p_template : option (list RawAttr)) c :
    Result Z (bytes * bool * Template) :=
  let mechanism := m_mechanism m in
  if negb (is_derive_mechanism mechanism) && negb (is_kem_mechanism mechanism)
  then Err CKR_MECHANISM_INVALID
  else
    let? _ := validate_mechanism_for_policy mechanism (algorithm_config c) false in
    match op_object base_key c with
    | Err x => Err (error_to_rv x)
    | Ok bk =>
      if negb (o_can_derive bk) then Err CKR_KEY_FUNCTION_NOT_PERMITTED
      else
        match enforce mechanism (algorithm_config c) (stored_key_bits bk) with
        | Err x => Err (error_to_rv x)
        | Ok _ =>
          match o_key_material bk with
          | None => Err CKR_KEY_HANDLE_INVALID
          | Some bk_bytes =>
            let mech_param := extract_mechanism_param m in
            if bool_decide (mech_param = []) then Err CKR_MECHANISM_PARAM_INVALID
            else
              let? template := optional_template p_template in
              let requested_len := read_ulong_attr template CKA_VALUE_LEN in
              if negb (default true (aes_len <$> requested_len)) then Err CKR_KEY_SIZE_RANGE
              else
                match shared_secret mechanism bk_bytes (default [] (o_ec_params bk)) mech_param
                        requested_len with
                | Err x => Err (error_to_rv x)
                | Ok secret =>
                  if negb (aes_len (blen secret)) then Err CKR_KEY_SIZE_RANGE
                  else Ok (secret, o_sensitive bk, template)
                end
          end
        end
    end.

Definition C_DeriveKey e (session : Z) (p_mechanism : option CK_MECHANISM) (base_key : Z)
    (p_template : option (list RawAttr)) (ph_key : bool) c : Z * option Z * CryptoCore A B :=
  match p_mechanism with
  | None => (CKR_ARGUMENTS_BAD, None, c)
  | Some m =>
    if negb ph_key then (CKR_ARGUMENTS_BAD, None, c)
    else
      match op_session session c with
      | Err x => (error_to_rv x, None, c)
      | Ok (_, s) =>
        if negb (session_is_rw s) then (CKR_SESSION_READ_ONLY, None, c)
        else
          match derived_key m base_key p_template c with
          | Err rv => (rv, None, c)
          | Ok (secret, bk_sensitive, template) =>
            store_secret e secret (inherit_attribute bk_sensitive) template c
          end
      end
  end.

(** ** Calls of the library *)

Inductive KeyCall :=
| LCrypto (oe : OpEnv) (k : CryptoCall)
| LGenerateKey (session : Z) (m : option CK_MECHANISM) (template : option (list RawAttr)) (ph : bool)
| LGenerateKeyPair (session : Z) (m : option CK_MECHANISM) (pub priv : option (list RawAttr))
    (ph_pub ph_priv : bool)
| LUnwrapKey (session : Z) (m : option CK_MECHANISM) (unwrapping_key : Z) (wrapped : option bytes)
    (template : option (list RawAttr)) (ph : bool)
| LDeriveKey (session : Z) (m : option CK_MECHANISM) (base_key : Z)
    (template : option (list RawAttr)) (ph : bool).

(** The core and [POST_FAILED]. *)
Record KeyLibrary := { kl_core : CryptoCore A B; kl_post_failed : bool }.

(** A call: [get_hsm] refuses it in the error state. *)
Definition key_call e (k : KeyCall) (l : KeyLibrary) : Z * KeyLibrary :=
  if kl_post_failed l then (CKR_GENERAL_ERROR, l)
  else
    let c := kl_core l in
    let put r := (r.1.1, {| kl_core := r.2; kl_post_failed := false |}) in
    match k with
    | LCrypto oe k =>
      let '(out, c) := crypto_call oe k c in
      (out_rv out, {| kl_core := c; kl_post_failed := false |})
    | LGenerateKey session m template ph => put (C_GenerateKey e session m template ph c)
    | LGenerateKeyPair session m pub priv ph_pub ph_priv =>
      let '(out, c) := C_GenerateKeyPair e session m pub priv ph_pub ph_priv c in
      (po_rv out, {| kl_core := c; kl_post_failed := po_post_failed out |})
    | LUnwrapKey session m key wrapped template ph =>
      put (C_UnwrapKey e session m key wrapped template ph c)
    | LDeriveKey session m key template ph => put (C_DeriveKey e session m key template ph c)
    end.

Fixpoint key_run (calls : list (KeyEnv * KeyCall)) (l : KeyLibrary) : list Z * KeyLibrary :=
  match calls with
  | [] => ([], l)
  | (e, k) :: calls =>
    let '(rv, l) := key_call e k l in
    let '(rvs, l) := key_run calls l in (rv :: rvs, l)
  end.
End KeyManagement.
Arguments KeyLibrary {SP} A B.
