(* ===== verification/KeyProofs.v ===== *)
(** * Properties of key management

    What the key functions of the interface guarantee of keys: a protected key
    stays protected and cannot be read, wrapping and unwrapping restore a key, a
    generated pair is consistent or the library stops. *)

From S2P Require Import Prelude Pkcs11 Handles Hash PinCrypto TokenFiles Token Session SessionManager SessionProofs Dates Objects ObjectProofs ObjectStore ObjectStoreProofs AuditChain Encrypt Abi AbiProofs Mechanisms Sign Operations OperationProofs KeyCrypto KeyCryptoProofs KeyManagement.

Section KeyProofs.
Context {P : PinPrimitives} {X : HexCodec} {H : HashPrimitives} {CP : CipherPrimitives}.
Context {SP : SignPrimitives} {KP : KeyPrimitives SP}.
Context {C : ObjectCodec} {SO : StoreOrder} {D : DashOrder} {AC : AuditCodec}.
Context {A B : Type} {HS : HandleSource A} {OH : ObjectHandles B} {OHL : ObjectHandlesLaws B}.
Implicit Types (c : CryptoCore A B) (e : KeyEnv) (l : KeyLibrary A B) (s : ObjectStore B).

(** ** Protected keys *)

Definition protected (o : StoredObject) : bool := o_sensitive o && negb (o_extractable o).

(** What decides who may read a key. *)
Definition same_protection (o o' : StoredObject) : Prop :=
  o_key_material o' = o_key_material o ∧ o_sensitive o' = o_sensitive o ∧
  o_extractable o' = o_extractable o.

(** From one store to a later one: no handle is forgotten, and the object at
    [h], if there is one, is that of before with the same protection. *)
Definition keeps (h : Z) s s' : Prop :=
  (∀ x, oh_used (os_alloc s) x → oh_used (os_alloc s') x) ∧
  ∀ o', os_objects s' !! h = Some o' → ∃ o, os_objects s !! h = Some o ∧ same_protection o o'.

Lemma keeps_refl h s : keeps h s s.
Proof. split; [done|]. intros o Ho. by exists o. Qed.

Lemma keeps_trans h s1 s2 s3 : keeps h s1 s2 → keeps h s2 s3 → keeps h s1 s3.
Proof.
  intros [U1 K1] [U2 K2]. split; [auto|]. intros o3 Ho3.
  destruct (K2 _ Ho3) as (o2 & Ho2 & E1 & E2 & E3). destruct (K1 _ Ho2) as (o & Ho & F1 & F2 & F3).
  exists o. unfold same_protection. rewrite E1, E2, E3, F1, F2, F3. done.
Qed.

Lemma next_handle_keeps h s r s' : oh_room (os_alloc s) → oh_used (os_alloc s) h →
  next_handle s = (r, s') → keeps h s s' ∧ r ≠ Ok h.
Proof using OHL.
  intros Hroom Hu. destruct (oh_next_fresh _ Hroom) as (h' & a' & Hn & Hf & _ & _ & Hm).
  unfold next_handle. rewrite Hn. intros [= <- <-]. split; [|by intros [= ->]].
  split; [done|]. intros o Ho. by exists o.
Qed.

Lemma insert_object_keeps h pe o s r s' : o_handle o ≠ h →
  insert_object pe o s = (r, s') → keeps h s s'.
Proof.
  intros Hne. unfold insert_object. case_match; intros [= <- <-]; [apply keeps_refl|].
  split; cbn; rewrite ?persist_object_objects, ?persist_object_alloc; [done|].
  intros o' Ho'. rewrite lookup_insert_ne in Ho' by done. by exists o'.
Qed.

Lemma create_object_keeps h pe now template s r s' :
  oh_room (os_alloc s) → oh_used (os_alloc s) h →
  create_object pe now template s = (r, s') → keeps h s s'.
Proof using OHL.
  intros Hroom Hu. unfold create_object. case_match; [intros [= <- <-]; apply keeps_refl|].
  case_match; [|intros [= <- <-]; apply keeps_refl].
  destruct (oh_next_fresh _ Hroom) as (h' & a' & Hn & Hf & _ & _ & Hm). rewrite Hn.
  destruct (apply_template _ _) as [o|]; intros [= <- <-].
  - split; cbn; rewrite ?persist_object_objects, ?persist_object_alloc; [done|]. cbn.
    intros o' Ho'. rewrite lookup_insert_ne in Ho' by (intros ->; done). by exists o'.
  - split; [done|]. intros o' Ho'. by exists o'.
Qed.

Lemma destroy_object_keeps h pe h' s r s' :
  destroy_object pe h' s = (r, s') → keeps h s s'.
Proof.
  unfold destroy_object. repeat case_match; intros [= <- <-]; try apply keeps_refl.
  split; rewrite ?unpersist_object_alloc, ?unpersist_object_objects; [done|]. cbn.
  intros o' Ho'. apply lookup_delete_Some in Ho' as [_ Ho']. by exists o'.
Qed.

Lemma clear_keeps h io s : keeps h s (clear io s).
Proof. unfold clear. case_match; (split; [done|]); cbn; intros o Ho; by rewrite lookup_empty in Ho. Qed.

Lemma set_attributes_protection template o : same_protection o (set_attributes template o).2.
Proof.
  revert o. induction template as [|[t v] template IH]; intros o; cbn [set_attributes]; [done|].
  repeat case_match; try done;
    match goal with |- context [set_attributes template ?x] => exact (IH x) end.
Qed.

Lemma put_object_keeps h h' o o' (c : HsmCore A B) :
  os_objects (object_store c) !! h' = Some o → same_protection o o' →
  keeps h (object_store c) (object_store (put_object h' o' c)).
Proof.
  intros Ho Hs. split; [done|]. cbn. intros o1 Ho1.
  destruct (decide (h' = h)) as [->|Hne].
  - rewrite lookup_insert_eq in Ho1. simplify_eq. by exists o.
  - rewrite lookup_insert_ne in Ho1 by done. by exists o1.
Qed.

Lemma copy_attributes_handle o attrs o' :
  copy_attributes o attrs = Ok o' → o_handle o' = o_handle o.
Proof.
  revert o. induction attrs as [|[t v] attrs IH]; intros o; cbn [copy_attributes]; [by intros [= ->]|].
  case_match; [done|]. destruct (copy_attribute o t _) as [o1|] eqn:E; [|done]. intros Hr.
  rewrite (IH _ Hr). unfold copy_attribute in E. by split_tests_in E.
Qed.

(** Every call on the core, the store not being persistent. *)
Lemma abi_call_keeps h ce k (c : HsmCore A B) :
  persist_objects c = false → oh_room (os_alloc (object_store c)) →
  oh_used (os_alloc (object_store c)) h →
  persist_objects (abi_call ce k c).2 = false ∧
  keeps h (object_store c) (object_store (abi_call ce k c).2).
Proof using OHL.
  intros Hp Hroom Hu. destruct k; cbn [abi_call].
  all: unfold C_InitToken, C_InitPIN, C_SetPIN, C_OpenSession, C_CloseSession, C_CloseAllSessions,
    C_Login, C_Logout, C_CreateObject, C_DestroyObject, C_SetAttributeValue, C_CopyObject,
    C_FindObjectsInit, C_FindObjects, C_FindObjectsFinal, get_object.
  all: repeat case_match; simplify_eq; try (split; [exact Hp|]); try apply keeps_refl.
  all: try match goal with
    | K : (persist_objects _ && _)%bool = true |- _ =>
      apply andb_true_iff in K as [K _]; change (persist_objects c = true) in K; congruence
    | K : create_object _ _ _ _ = _ |- _ => exact (create_object_keeps h _ _ _ _ _ _ Hroom Hu K)
    | K : destroy_object _ _ _ = _ |- _ => exact (destroy_object_keeps h _ _ _ _ _ K)
    | K : set_attributes ?t ?o = (_, ?o') |- _ =>
      pose proof (set_attributes_protection t o) as Hs; rewrite K in Hs;
      destruct (os_objects (object_store c) !! object) eqn:Ho; simplify_eq/=;
      by eapply put_object_keeps
    end.
  all: try (eapply keeps_trans; [apply (clear_keeps h (ce_clear_io ce))|split; [done|];
       intros o Ho; by exists o]).
  all: try (split; [done|]; intros o1 Ho1; by exists o1).
  all: match goal with K : next_handle _ = _ |- _ =>
         destruct (next_handle_keeps h _ _ _ Hroom Hu K) as [K1 K2] end; try exact K1.
  all: match goal with K : insert_object _ _ _ = _ |- _ =>
         apply (insert_object_keeps h) in K; [exact (keeps_trans h _ _ _ K1 K)|] end.
  all: match goal with K : copy_attributes _ _ = _ |- _ =>
         rewrite (copy_attributes_handle _ _ _ K); cbn; congruence end.
Qed.

(** The cryptographic operations leave the objects alone. *)
Definition same_store c c' : Prop :=
  object_store (cc_core c') = object_store (cc_core c) ∧
  persist_objects (cc_core c') = persist_objects (cc_core c).

Lemma run_encrypt_store oe slot k mech param key data o c :
  same_store c (run_encrypt oe slot k mech param key data o c).2.
Proof. unfold run_encrypt. by repeat case_match. Qed.
Lemma run_decrypt_store slot k mech param key data c :
  same_store c (run_decrypt slot k mech param key data c).2.
Proof. unfold run_decrypt. by repeat case_match. Qed.
Lemma final_encrypt_store mech param key data c :
  same_store c (final_encrypt mech param key data c).2.
Proof. unfold final_encrypt. by repeat case_match. Qed.

Definition is_core_call (k : CryptoCall) : bool := match k with KCore _ _ => true | _ => false end.

Lemma crypto_call_store oe k c :
  is_core_call k = false → same_store c (crypto_call oe k c).2.
Proof.
  intros Hk. destruct k; try done; cbn [crypto_call rv_only snd].
  all: unfold C_EncryptInit, C_Encrypt, C_EncryptUpdate, C_EncryptFinal, C_DecryptInit, C_Decrypt,
    C_DecryptUpdate, C_DecryptFinal, C_DigestInit, C_Digest, C_DigestUpdate, C_DigestKey,
    C_DigestFinal, C_SignInit, C_Sign, C_SignUpdate, C_SignFinal, C_VerifyInit, C_Verify,
    C_VerifyUpdate, C_VerifyFinal, C_SetOperationState, C_GenerateRandom, verified, restore_operation.
  all: unfold new_ref; repeat case_match; simplify_eq; cbn [fst snd]; try done.
  all: match goal with
    | K : run_encrypt ?e ?a ?b ?m ?p ?k ?d ?o ?c0 = _ |- _ =>
      pose proof (run_encrypt_store e a b m p k d o c0) as Hs
    | K : run_decrypt ?a ?b ?m ?p ?k ?d ?c0 = _ |- _ =>
      pose proof (run_decrypt_store a b m p k d c0) as Hs
    | K : final_encrypt ?m ?p ?k ?d ?c0 = _ |- _ =>
      pose proof (final_encrypt_store m p k d c0) as Hs
    end; match goal with K : _ = (_, ?c1) |- _ => rewrite K in Hs end; exact Hs.
Qed.

(** ** The calls that make keys *)

Definition store_of c : ObjectStore B := object_store (cc_core c).
(** [keeps] on cores, persistence included. *)
Definition core_keeps (h : Z) c c' : Prop :=
  persist_objects (cc_core c') = persist_objects (cc_core c) ∧ keeps h (store_of c) (store_of c').

Lemma core_keeps_trans h c1 c2 c3 : core_keeps h c1 c2 → core_keeps h c2 c3 → core_keeps h c1 c3.
Proof. intros [E1 K1] [E2 K2]. split; [congruence|by eapply keeps_trans]. Qed.

Lemma same_store_keeps h c c' : same_store c c' → core_keeps h c c'.
Proof. intros [E1 E2]. split; [done|]. unfold store_of. rewrite E1. apply keeps_refl. Qed.

Lemma key_handle_keeps h c r c' :
  oh_room (os_alloc (store_of c)) → oh_used (os_alloc (store_of c)) h →
  key_handle c = (r, c') →
  core_keeps h c c' ∧ r ≠ Ok h ∧ os_alloc (store_of c') = (oh_next (os_alloc (store_of c))).2.
Proof using OHL.
  intros Hroom Hu. unfold key_handle.
  destruct (next_handle (object_store (cc_core c))) as [r' s'] eqn:E. intros [= <- <-].
  destruct (next_handle_keeps h _ _ _ Hroom Hu E) as [K1 K2]. split_and!; [done|done|].
  unfold next_handle in E. unfold store_of. cbn. by destruct (oh_next _) as [? ?]; simplify_eq.
Qed.

Lemma insert_key_keeps h pe o c r c' : o_handle o ≠ h →
  insert_key pe o c = (r, c') → core_keeps h c c'.
Proof.
  intros Hne. unfold insert_key.
  destruct (insert_object pe o (object_store (cc_core c))) as [[h'|x] s'] eqn:E;
    intros [= <- <-]; (split; [done|]); exact (insert_object_keeps h _ _ _ _ _ Hne E).
Qed.

(** The attribute functions never touch an object's handle. *)
Definition keeps_handle (f : StoredObject → Z → bytes → Result Z StoredObject) : Prop :=
  ∀ o t v o', f o t v = Ok o' → o_handle o' = o_handle o.

Lemma generate_attribute_handle : keeps_handle generate_attribute.
Proof. intros o t v o' E. unfold generate_attribute, flag_attr in E. by split_tests_in E. Qed.
Lemma apply_pub_template_handle : keeps_handle apply_pub_template.
Proof. intros o t v o' E. unfold apply_pub_template, flag_attr in E. by split_tests_in E. Qed.
Lemma apply_priv_template_handle : keeps_handle apply_priv_template.
Proof. intros o t v o' E. unfold apply_priv_template, flag_attr in E. by split_tests_in E. Qed.
Lemma inherit_attribute_handle b : keeps_handle (inherit_attribute b).
Proof. intros o t v o' E. unfold inherit_attribute, flag_attr in E. by split_tests_in E. Qed.
Lemma unwrap_attribute_handle b : keeps_handle (unwrap_attribute b).
Proof.
  intros o t v o' E. unfold unwrap_attribute, flag_attr in E.
  case_match; try (by split_tests_in E); by apply inherit_attribute_handle in E.
Qed.

Lemma apply_each_pres {T} (field : StoredObject → T) f o template o' :
  (∀ o t v o', f o t v = Ok o' → field o' = field o) →
  apply_each f o template = Ok o' → field o' = field o.
Proof.
  intros Hf. revert o. induction template as [|[t v] template IH]; intros o; cbn [apply_each];
    [by intros [= ->]|].
  destruct (f o t v) as [o1|] eqn:E; [|done]. intros Hr. rewrite (IH _ Hr). by eapply Hf.
Qed.
Lemma apply_each_handle f o template o' : keeps_handle f →
  apply_each f o template = Ok o' → o_handle o' = o_handle o.
Proof. apply apply_each_pres. Qed.

Lemma store_secret_keeps h e key f template c : keeps_handle f →
  oh_room (os_alloc (store_of c)) → oh_used (os_alloc (store_of c)) h →
  core_keeps h c (store_secret e key f template c).2.
Proof using OHL.
  intros Hf Hroom Hu. unfold store_secret. destruct (key_handle c) as [r c1] eqn:Hk.
  destruct (key_handle_keeps h c r c1 Hroom Hu Hk) as (K1 & Hne & _).
  destruct r as [h'|x]; [|done].
  destruct (apply_each _ _ _) as [o|rv] eqn:Ha; [|done].
  destruct (insert_key _ _ _) as [[h1|x] c2] eqn:Hi; cbn [snd].
  all: eapply core_keeps_trans; [done|]; eapply insert_key_keeps; [|done].
  all: rewrite (apply_each_handle _ _ _ _ Hf Ha); cbn; congruence.
Qed.

Lemma store_pair_keeps h e pub priv pt vt c :
  (∀ x, o_handle (pub x) = x) → (∀ x, o_handle (priv x) = x) →
  oh_room (os_alloc (store_of c)) → oh_room (oh_next (os_alloc (store_of c))).2 →
  oh_used (os_alloc (store_of c)) h → core_keeps h c (store_pair e pub priv pt vt c).2.
Proof using OHL.
  intros Hpub Hpriv Hroom Hroom2 Hu. unfold store_pair.
  destruct (key_handle c) as [r c1] eqn:Hk.
  destruct (key_handle_keeps h c r c1 Hroom Hu Hk) as (K1 & Hne & Hal).
  destruct r as [h1|x]; [|done]. destruct (apply_each _ _ pt) as [o1|rv] eqn:Ha; [|done].
  destruct (key_handle c1) as [r2 c2] eqn:Hk2. rewrite <- Hal in Hroom2.
  destruct (key_handle_keeps h c1 r2 c2 Hroom2 (proj1 (proj2 K1) _ Hu) Hk2) as (K2 & Hne2 & _).
  pose proof (core_keeps_trans _ _ _ _ K1 K2) as K12.
  destruct r2 as [h2|x]; [|done]. destruct (apply_each _ _ vt) as [o2|rv] eqn:Ha2; [|done].
  apply apply_each_handle in Ha; [|apply apply_pub_template_handle].
  apply apply_each_handle in Ha2; [|apply apply_priv_template_handle].
  rewrite Hpub in Ha. rewrite Hpriv in Ha2.
  destruct (insert_key _ o1 c2) as [r3 c3] eqn:Hi.
  apply (insert_key_keeps h) in Hi; [|congruence].
  pose proof (core_keeps_trans _ _ _ _ K12 Hi) as K13. destruct r3; [|done].
  destruct (insert_key _ o2 c3) as [r4 c4] eqn:Hi2.
  apply (insert_key_keeps h) in Hi2; [|congruence].
  pose proof (core_keeps_trans _ _ _ _ K13 Hi2). by destruct r4.
Qed.

Lemma op_audit_keeps h session op r c c' : core_keeps h c c' → core_keeps h c (op_audit session op r c').
Proof. done. Qed.

(** The handles still to be issued suffice for one call. *)
Definition room_for_pair c : Prop :=
  oh_room (os_alloc (store_of c)) ∧ oh_room (oh_next (os_alloc (store_of c))).2.

Lemma tested_pair_keeps h e test n pub priv pt vt c :
  (∀ x, o_handle (pub x) = x) → (∀ x, o_handle (priv x) = x) → room_for_pair c →
  oh_used (os_alloc (store_of c)) h → core_keeps h c (tested_pair e test n pub priv pt vt c).2.
Proof using OHL.
  intros Hpub Hpriv [Hr1 Hr2] Hu. unfold tested_pair.
  pose proof (store_pair_keeps h e pub priv pt vt c Hpub Hpriv Hr1 Hr2 Hu) as K.
  destruct test; [|by apply same_store_keeps]. by destruct (store_pair _ _ _ _ _ _) as [[[? ?]|?] ?].
Qed.

Lemma generate_pair_keeps h e mech pt vt c : room_for_pair c →
  oh_used (os_alloc (store_of c)) h → core_keeps h c (generate_pair e mech pt vt c).2.
Proof using OHL.
  intros Hr Hu. unfold generate_pair, generate_rsa_keypair, generate_ec_keypair,
    generate_ed25519_keypair, generate_pqc_keypair, store_pqc_pair.
  repeat case_match; try (by apply same_store_keeps);
    match goal with |- core_keeps h c (tested_pair _ ?t ?n ?pub ?priv _ _ ?c1).2 =>
      exact (tested_pair_keeps h e t n pub priv pt vt c1 (λ _, eq_refl) (λ _, eq_refl) Hr Hu) end.
Qed.

Lemma key_call_keeps h e k l : kl_post_failed l = false → persist_objects (cc_core (kl_core l)) = false →
  room_for_pair (kl_core l) → oh_used (os_alloc (store_of (kl_core l))) h →
  core_keeps h (kl_core l) (kl_core (key_call e k l).2).
Proof using OHL.
  intros Hf Hp Hr Hu. unfold key_call. rewrite Hf. destruct k.
  - destruct (crypto_call oe k (kl_core l)) as [out c'] eqn:E. cbn [snd kl_core].
    destruct (is_core_call k) eqn:Hk; [destruct k; try done|
      pose proof (crypto_call_store oe k (kl_core l) Hk) as K; rewrite E in K; by apply same_store_keeps].
    cbn [crypto_call] in E. unfold core_call, rv_only in E.
    destruct (abi_call_keeps h ce k (cc_core (kl_core l)) Hp (proj1 Hr) Hu) as [K1 K2].
    destruct (abi_call ce k (cc_core (kl_core l))) as [rv core]. simplify_eq/=.
    split; [exact (eq_trans K1 (eq_sym Hp))|exact K2].
  - cbn [snd kl_core]. unfold C_GenerateKey.
    repeat case_match; simplify_eq; cbn [snd]; try (by apply same_store_keeps).
    all: match goal with K : key_handle _ = _ |- _ =>
      destruct (key_handle_keeps h _ _ _ (proj1 Hr) Hu K) as (K1 & K2 & _) end; try done.
    all: match goal with K : insert_key _ _ _ = _, K' : apply_each _ _ _ = _ |- _ =>
      apply (insert_key_keeps h) in K;
      [ try apply op_audit_keeps; by eapply core_keeps_trans
      | rewrite (apply_each_handle _ _ _ _ generate_attribute_handle K'); cbn; congruence ] end.
  - pose proof (λ mech pt vt, generate_pair_keeps h e mech pt vt _ Hr Hu) as Kg.
    destruct (C_GenerateKeyPair _ _ _ _ _ _ _ _) as [out c'] eqn:E. cbn [snd kl_core].
    unfold C_GenerateKeyPair in E.
    repeat (case_match; simplify_eq); try (by apply same_store_keeps).
    all: match goal with K : generate_pair _ ?m ?a ?b _ = _ |- _ =>
      specialize (Kg m a b); rewrite K in Kg end; exact Kg.
  - cbn [snd kl_core]. unfold C_UnwrapKey.
    repeat case_match; simplify_eq; try (by apply same_store_keeps).
    apply store_secret_keeps; [apply unwrap_attribute_handle|apply Hr|done].
  - cbn [snd kl_core]. unfold C_DeriveKey.
    repeat case_match; simplify_eq; try (by apply same_store_keeps).
    apply store_secret_keeps; [apply inherit_attribute_handle|apply Hr|done].
Qed.

(** One call of the library, while handles remain. *)
Definition key_step l l' : Prop :=
  room_for_pair (kl_core l) ∧ ∃ e k, l' = (key_call e k l).2.

Lemma key_steps_keep h l l' : rtc key_step l l' →
  persist_objects (cc_core (kl_core l)) = false → oh_used (os_alloc (store_of (kl_core l))) h →
  core_keeps h (kl_core l) (kl_core l').
Proof using OHL.
  induction 1 as [l|l l1 l2 (Hr & e & k & ->) _ IH]; intros Hp Hu; [by apply same_store_keeps|].
  assert (core_keeps h (kl_core l) (kl_core (key_call e k l).2)) as K.
  { destruct (kl_post_failed l) eqn:Hf; [|by apply key_call_keeps].
    unfold key_call. rewrite Hf. by apply same_store_keeps. }
  destruct K as [K1 K2]. eapply core_keeps_trans; [split; [exact K1|exact K2]|].
  apply IH; [congruence|by apply K2].
Qed.

(** The same core with another key at [h]. *)
Definition with_material (h : Z) (key : option bytes) c : CryptoCore A B :=
  match os_objects (store_of c) !! h with
  | Some o => c <| cc_core := put_object h (o <| o_key_material := key |>) (cc_core c) |>
  | None => c
  end.

Lemma with_material_object h key c h' o :
  os_objects (store_of c) !! h = Some o →
  op_object h' (with_material h key c) =
    if decide (h' = h) then Ok (o <| o_key_material := key |>) else op_object h' c.
Proof.
  intros Ho. unfold with_material, op_object, get_object. rewrite Ho. cbn.
  case_decide as Hd; [subst; by rewrite lookup_insert_eq|by rewrite lookup_insert_ne].
Qed.

Lemma get_attributes_protected o key li rv attrs : protected o = true →
  get_attributes (o <| o_key_material := key |>) li rv attrs = get_attributes o li rv attrs.
Proof.
  intros Hp. revert rv. induction attrs as [|a attrs IH]; intros rv; cbn [get_attributes]; [done|].
  assert (get_attribute (o <| o_key_material := key |>) li a = get_attribute o li a) as ->.
  { unfold get_attribute, read_attribute. cbn. unfold protected in Hp. by rewrite Hp. }
  destruct (get_attribute o li a) as [a' r]. by rewrite IH.
Qed.

Lemma get_attribute_value_protected h key c session object template o :
  os_objects (store_of c) !! h = Some o → protected o = true →
  C_GetAttributeValue session object template (cc_core (with_material h key c)) =
  C_GetAttributeValue session object template (cc_core c).
Proof.
  intros Ho Hp. pose proof (with_material_object h key c object o Ho) as Hm.
  assert (find_session session (cc_core (with_material h key c)) = find_session session (cc_core c))
    as Hs by (unfold with_material; by rewrite Ho).
  unfold C_GetAttributeValue. rewrite Hs. unfold op_object in Hm. rewrite Hm.
  case_decide as Hd; [subst object|done]. unfold get_object. fold (store_of c). rewrite Ho.
  cbn [ok_or]. destruct template as [attrs|]; [|done]. case_match; [done|].
  destruct (find_session session (cc_core c)) as [[l s]|]; [|done].
  rewrite get_attributes_protected by done. done.
Qed.

Lemma wrap_key_protected h key c session m wk k out len o :
  os_objects (store_of c) !! h = Some o → protected o = true → wk ≠ h →
  C_WrapKey session m wk k out len (with_material h key c) = C_WrapKey session m wk k out len c.
Proof.
  intros Ho Hp Hne. unfold C_WrapKey, wrapped_key. unfold op_session.
  assert (find_session session (cc_core (with_material h key c)) = find_session session (cc_core c)
    ∧ algorithm_config (with_material h key c) = algorithm_config c) as [-> ->]
    by (unfold with_material; by rewrite Ho).
  rewrite !(with_material_object h key c _ o Ho). rewrite decide_False by done.
  case_decide as Hd; [subst k|done].
  assert (op_object h c = Ok o) as -> by (unfold op_object, get_object; fold (store_of c); by rewrite Ho).
  unfold protected in Hp. apply andb_true_iff in Hp as [_ Hx].
  cbn. by rewrite Hx.
Qed.

(** C3: a protected key is out of reach for good.  Take an object that is
    sensitive and not extractable in a library that keeps its objects in
    memory.  After every sequence of calls, of all kinds and by all sessions,
    it has been destroyed, or it still has its key and is still sensitive and
    not extractable; and then no [C_GetAttributeValue] on any object, and no
    [C_WrapKey] under another key, depends on the key: with any other key in
    its place each answers the same. *)
Theorem protected_key_confined h l l' o
    (Hmem : persist_objects (cc_core (kl_core l)) = false)
    (Hused : oh_used (os_alloc (store_of (kl_core l))) h)
    (Ho : os_objects (store_of (kl_core l)) !! h = Some o) (Hp : protected o = true)
    (Hrun : rtc key_step l l') :
  let c := kl_core l' in
  os_objects (store_of c) !! h = None ∨
  (∃ o', os_objects (store_of c) !! h = Some o' ∧ o_key_material o' = o_key_material o ∧
     protected o' = true) ∧
  ∀ key, (∀ session object template,
      C_GetAttributeValue session object template (cc_core (with_material h key c)) =
      C_GetAttributeValue session object template (cc_core c)) ∧
    (∀ session m wk k out len, wk ≠ h →
      C_WrapKey session m wk k out len (with_material h key c) = C_WrapKey session m wk k out len c).
Proof using OHL.
  intros c. destruct (key_steps_keep h l l' Hrun Hmem Hused) as [_ [_ K]].
  destruct (os_objects (store_of c) !! h) as [o'|] eqn:E; [right|by left].
  destruct (K o' E) as (o1 & Ho1 & E1 & E2 & E3). rewrite Ho in Ho1. injection Ho1 as <-.
  assert (protected o' = true) as Hp' by (unfold protected; by rewrite E2, E3).
  split; [by exists o'|]. intros key. split.
  - intros session object template. by eapply get_attribute_value_protected.
  - intros session m wk k out len Hne. by eapply wrap_key_protected.
Qed.

(** ** Wrapping and unwrapping *)

Lemma key_handle_fresh c : oh_room (os_alloc (store_of c)) → handles_ok (store_of c) →
  ∃ h c1, key_handle c = (Ok h, c1) ∧ os_objects (store_of c) !! h = None ∧
    os_objects (store_of c1) = os_objects (store_of c) ∧
    os_alloc (store_of c1) = (oh_next (os_alloc (store_of c))).2 ∧ handles_ok (store_of c1) ∧
    oh_used (os_alloc (store_of c1)) h.
Proof using OHL.
  intros Hroom Hok. destruct (oh_next_fresh _ Hroom) as (h & a & Hn & Hf & _ & Hu & Hm).
  unfold key_handle, next_handle. fold (store_of c). rewrite Hn. do 2 eexists. split_and!; [done|..]; cbn.
  - destruct (os_objects (store_of c) !! h) eqn:E; [|done]. by apply Hok in E as [_ ?].
  - done.
  - done.
  - intros h' o' E. apply Hok in E as [? ?]. auto.
  - done.
Qed.

Lemma insert_key_fits pe o c : objects_len (store_of c) < MAX_OBJECTS →
  ∃ c1, insert_key pe o c = (Ok (o_handle o), c1) ∧
    os_objects (store_of c1) = <[o_handle o := o]> (os_objects (store_of c)) ∧
    os_alloc (store_of c1) = os_alloc (store_of c).
Proof.
  intros Hl. unfold insert_key, insert_object. fold (store_of c).
  replace (MAX_OBJECTS <=? _) with false by (symmetry; apply Z.leb_gt; lia).
  eexists. split; [done|]. unfold store_of; cbn. by rewrite persist_object_objects, persist_object_alloc.
Qed.

Lemma wrapped_key_inv mech wk k li c w ow :
  wrapped_key mech wk k li c = Ok w → op_object wk c = Ok ow →
  is_wrap_mechanism mech = true ∧
  validate_mechanism_for_policy mech (algorithm_config c) false = Ok () ∧
  enforce mech (algorithm_config c) (stored_key_bits ow) = Ok () ∧
  ∃ kek o key, o_key_material ow = Some kek ∧ op_object k c = Ok o ∧ o_extractable o = true ∧
    o_key_material o = Some key ∧
    aes_key_wrap kek key (fips_approved_only (algorithm_config c)) = Ok w.
Proof.
  unfold wrapped_key. intros Hw Ho. rewrite Ho in Hw.
  destruct (is_wrap_mechanism mech); [|done].
  destruct (validate_mechanism_for_policy _ _ _) as [[]|]; [|done].
  destruct (o_private ow && _); [done|]. destruct (o_can_wrap ow); [|done].
  destruct (enforce _ _ _) as [[]|]; [|done]. destruct (o_key_material ow) as [kek|]; [|done].
  destruct (op_object k c) as [o|]; [|done]. destruct (o_extractable o) eqn:Hx; [|done].
  cbn [negb] in Hw. destruct (extra_flag o _ && _); [done|].
  destruct (o_key_material o) as [key|] eqn:Hk; [|done].
  destruct (aes_key_wrap kek key _) as [w'|] eqn:Ha; [|done]. injection Hw as ->.
  split_and!; try done. by exists kek, o, key.
Qed.

(** C21: unwrapping restores the key.  When [C_WrapKey] has given out a wrapped
    key, then in every later state with the same policy, from every read-write
    session that may use it, [C_UnwrapKey] with a key of the same value and
    without a template succeeds: it adds one object, under a handle no object
    had, that holds the very key that was wrapped, and that is sensitive and
    not extractable; every other object is as before.  (The wrapped key was
    extractable.) *)
Theorem wrapped_key_unwraps {KL : KeyPrimitivesLaws SP KP} e session m wk k len c w ow
    session' uk c' (x' : Z) (s' : Session) ou
    (Hwrap : out_data (C_WrapKey session (Some m) wk k true len c) = Some w)
    (How : op_object wk c = Ok ow)
    (Hcfg : algorithm_config c' = algorithm_config c)
    (Hs : op_session session' c' = Ok (x', s')) (Hrw : session_is_rw s' = true)
    (Hou : op_object uk c' = Ok ou) (Huse : o_can_unwrap ou = true)
    (Hpriv : o_private ou = true → is_logged_in (s_state s') = true)
    (Hmat : o_key_material ou = o_key_material ow)
    (Hbits : stored_key_bits ou = stored_key_bits ow)
    (Hbuf : blen w <= MAX_SINGLE_BUFFER)
    (Hroom : oh_room (os_alloc (store_of c'))) (Hok : handles_ok (store_of c'))
    (Hfits : objects_len (store_of c') < MAX_OBJECTS) :
  ∃ o key h c'' o',
    op_object k c = Ok o ∧ o_key_material o = Some key ∧ o_extractable o = true ∧
    C_UnwrapKey e session' (Some m) uk (Some w) None true c' = (CKR_OK, Some h, c'') ∧
    os_objects (store_of c') !! h = None ∧
    os_objects (store_of c'') = <[h := o']> (os_objects (store_of c')) ∧
    o_key_material o' = Some key ∧ protected o' = true.
Proof using OHL.
  assert (∃ li, wrapped_key (m_mechanism m) wk k li c = Ok w) as [li Hw].
  { unfold C_WrapKey in Hwrap. destruct len as [len|]; [|done].
    destruct (op_session session c) as [[l s]|]; [|done]. exists (is_logged_in (s_state s)).
    destruct (wrapped_key _ _ _ _ _) as [w'|]; [|done]. cbn [negb] in Hwrap.
    case_match; [done|]. by injection Hwrap as ->. }
  destruct (wrapped_key_inv _ _ _ _ _ _ _ Hw How)
    as (Hm & Hpol & Henf & kek & o & key & Hkek & Ho & Hx & Hk & Ha).
  destruct (aes_key_unwrap_wrap _ _ _ _ Ha) as [Hu _].
  destruct (key_handle_fresh c' Hroom Hok) as (h & c1 & Hh & Hnone & Hobj & _ & _).
  set (o' := new_aes_key h (ke_wall e) key).
  destruct (insert_key_fits (ke_persist e) o' c1) as (c2 & Hi & Hobj2 & _).
  { unfold objects_len in *. by rewrite Hobj. }
  exists o, key, h, c2, o'. rewrite Hobj in Hobj2. split_and!; try done.
  unfold C_UnwrapKey. rewrite Hs, Hrw. cbn [negb]. unfold unwrapped_key.
  rewrite Hm, Hcfg, Hpol, Hou. cbn [negb]. rewrite Hbits, Henf, Hmat, Hkek, Huse, Hu.
  replace (o_private ou && negb (is_logged_in (s_state s'))) with false
    by (destruct (o_private ou); [by rewrite Hpriv|done]).
  cbn [negb]. rewrite (proj2 (Z.ltb_ge _ _) Hbuf). cbn [optional_template].
  unfold store_secret. rewrite Hh. cbn [apply_each]. fold o'. by rewrite Hi.
Qed.

(** ** Key pairs *)

(** No attribute function fails with [CKR_OK]. *)
Definition fails_properly (f : StoredObject → Z → bytes → Result Z StoredObject) : Prop :=
  ∀ o t v rv, f o t v = Err rv → rv ≠ CKR_OK.
Lemma parse_ck_bbool_err v rv : parse_ck_bbool v = Err rv → rv ≠ CKR_OK.
Proof. unfold parse_ck_bbool. by repeat case_match; intros [= <-]. Qed.
Lemma flag_attr_err v f rv : flag_attr v f = Err rv → rv ≠ CKR_OK.
Proof.
  unfold flag_attr. destruct (parse_ck_bbool v) eqn:E; [done|]. intros [= <-].
  by eapply parse_ck_bbool_err.
Qed.
Lemma apply_pub_template_err : fails_properly apply_pub_template.
Proof. intros o t v rv. unfold apply_pub_template. by case_match; try done; apply flag_attr_err. Qed.
Lemma apply_priv_template_err : fails_properly apply_priv_template.
Proof. intros o t v rv. unfold apply_priv_template. by case_match; try done; apply flag_attr_err. Qed.
Lemma apply_each_err f o template rv :
  fails_properly f → apply_each f o template = Err rv → rv ≠ CKR_OK.
Proof.
  intros Hf. revert o. induction template as [|[t v] template IH]; intros o; cbn [apply_each]; [done|].
  destruct (f o t v) eqn:E; [by apply IH|]. intros [= <-]. by eapply Hf.
Qed.

(** What [C_GenerateKeyPair] may leave in the store: the pair, nothing, or, one
    short of the limit, a public key alone. *)
Definition pair_stored (pub priv : StoredObject → Prop) (hp hv : Z) c c' : Prop :=
  ∃ op ov, pub op ∧ priv ov ∧ hp ≠ hv ∧
    os_objects (store_of c) !! hp = None ∧ os_objects (store_of c) !! hv = None ∧
    os_objects (store_of c') = <[hv := ov]> (<[hp := op]> (os_objects (store_of c))).
Definition nothing_stored c c' : Prop :=
  os_objects (store_of c') = os_objects (store_of c) ∨
  objects_len (store_of c) = MAX_OBJECTS - 1 ∧ ∃ hp op,
    os_objects (store_of c) !! hp = None ∧
    os_objects (store_of c') = <[hp := op]> (os_objects (store_of c)).

Lemma insert_key_full pe o c r c' : insert_key pe o c = (r, c') →
  r = Ok (o_handle o) ∧ objects_len (store_of c) < MAX_OBJECTS ∧
    os_objects (store_of c') = <[o_handle o := o]> (os_objects (store_of c)) ∨
  (∃ x, r = Err x) ∧ MAX_OBJECTS <= objects_len (store_of c) ∧
    os_objects (store_of c') = os_objects (store_of c).
Proof.
  intros Hi. destruct (Z.lt_ge_cases (objects_len (store_of c)) MAX_OBJECTS) as [Hl|Hl].
  - left. destruct (insert_key_fits pe o c Hl) as (c1 & Hi1 & Ho & _). rewrite Hi in Hi1. by simplify_eq.
  - right. unfold insert_key, insert_object in Hi. fold (store_of c) in Hi.
    rewrite (proj2 (Z.leb_le _ _) Hl) in Hi. simplify_eq. split_and!; [by eexists|done|done].
Qed.

Lemma store_pair_spec e pub priv pt vt c r c' :
  (∀ x, o_handle (pub x) = x) → (∀ x, o_handle (priv x) = x) →
  room_for_pair c → handles_ok (store_of c) → store_pair e pub priv pt vt c = (r, c') →
  match r with
  | Ok (hp, hv) =>
    pair_stored (λ o, apply_each apply_pub_template (pub hp) pt = Ok o)
      (λ o, apply_each apply_priv_template (priv hv) vt = Ok o) hp hv c c'
  | Err rv => rv ≠ CKR_OK ∧ nothing_stored c c'
  end.
Proof using OHL.
  intros Hpub Hpriv [Hr1 Hr2] Hok. unfold store_pair.
  destruct (key_handle_fresh c Hr1 Hok) as (hp & c1 & -> & Hn1 & Ho1 & Ha1 & Hok1 & Hu1).
  destruct (apply_each _ _ pt) as [op|rv] eqn:Hp;
    [|intros [= <- <-]; split; [by eapply apply_each_err in Hp; [|apply apply_pub_template_err]|by left]].
  rewrite <- Ha1 in Hr2. destruct (key_handle_fresh c1 Hr2 Hok1) as (hv & c2 & Hk2 & Hn2 & Ho2 & _).
  destruct (key_handle_keeps hp c1 _ _ Hr2 Hu1 Hk2) as (_ & Hne & _). rewrite Hk2.
  rewrite Ho1 in Hn2, Ho2.
  destruct (apply_each _ _ vt) as [ov|rv] eqn:Hv;
    [|intros [= <- <-]; split; [by eapply apply_each_err in Hv; [|apply apply_priv_template_err]|by left]].
  pose proof (apply_each_handle _ _ _ _ apply_pub_template_handle Hp) as Ehp. rewrite Hpub in Ehp.
  pose proof (apply_each_handle _ _ _ _ apply_priv_template_handle Hv) as Ehv. rewrite Hpriv in Ehv.
  destruct (insert_key _ op c2) as [r1 c3] eqn:Hi1.
  destruct (insert_key_full _ _ _ _ _ Hi1) as [(-> & Hl & Ho3)|([x ->] & _ & Ho3)]; rewrite Ho2 in Ho3;
    [|intros [= <- <-]; split; [apply error_to_rv_not_ok|by left]].
  destruct (insert_key _ ov c3) as [r2 c4] eqn:Hi2. rewrite Ehp in Ho3.
  destruct (insert_key_full _ _ _ _ _ Hi2) as [(-> & _ & Ho4)|([x ->] & Hl2 & Ho4)]; rewrite Ho3 in Ho4;
    intros [= <- <-].
  - rewrite Ehv in Ho4. exists op, ov. split_and!; try done. congruence.
  - split; [apply error_to_rv_not_ok|]. right. split; [|by exists hp, op].
    unfold objects_len in *. rewrite Ho2 in Hl. rewrite Ho3, map_size_insert_None in Hl2 by done. lia.
Qed.

(** What a passed consistency test shows of the two objects: a signature by
    the private one verifies with the public one, or what is encapsulated to
    the public one is recovered by the private one. *)
Inductive consistent_pair (rng : HsmResult bytes) (op ov : StoredObject) : Prop :=
| CPRsa der n x cache sg :
  o_key_material ov = Some der → o_modulus op = Some n → o_public_exponent op = Some x →
  (rsa_pkcs1v15_sign der PAIRWISE_TEST_DATA (Some HSha256) cache).1 = Ok sg →
  rsa_pkcs1v15_verify n x PAIRWISE_TEST_DATA sg (Some HSha256) = Ok true →
  consistent_pair rng op ov
| CPEc cv key point sg :
  o_key_material ov = Some key → o_ec_point op = Some point →
  ecdsa_sign cv rng key PAIRWISE_TEST_DATA = Ok sg →
  ecdsa_verify cv point PAIRWISE_TEST_DATA sg = Ok true → consistent_pair rng op ov
| CPEd key public sg :
  o_key_material ov = Some key → o_public_key_data op = Some public →
  ed25519_sign key PAIRWISE_TEST_DATA = Ok sg →
  ed25519_verify public PAIRWISE_TEST_DATA sg = Ok true → consistent_pair rng op ov
| CPMlDsa v key public sg :
  o_key_material ov = Some key → o_public_key_data op = Some public →
  ml_dsa_sign key PAIRWISE_TEST_DATA v = Ok sg →
  ml_dsa_verify public PAIRWISE_TEST_DATA sg v = Ok true → consistent_pair rng op ov
| CPSlhDsa v key public sg :
  o_key_material ov = Some key → o_public_key_data op = Some public →
  slh_dsa_sign key PAIRWISE_TEST_DATA v = Ok sg →
  slh_dsa_verify public PAIRWISE_TEST_DATA sg v = Ok true → consistent_pair rng op ov
| CPKem v key public ct ss :
  o_key_material ov = Some key → o_public_key_data op = Some public →
  ml_kem_encapsulate rng public v = Ok (ct, ss) →
  ml_kem_decapsulate key ct v = Ok ss → consistent_pair rng op ov.

(** The fields no template changes. *)
Definition fixed_fields (o : StoredObject) :=
  (o_class o, o_private o, o_key_material o, o_modulus o, o_public_exponent o, o_ec_point o,
   o_public_key_data o).
Lemma apply_pub_template_fixed o t v o' :
  apply_pub_template o t v = Ok o' → fixed_fields o' = fixed_fields o.
Proof. intros E. unfold apply_pub_template, flag_attr in E. by split_tests_in E. Qed.
Lemma apply_priv_template_fixed o t v o' :
  apply_priv_template o t v = Ok o' → fixed_fields o' = fixed_fields o.
Proof. intros E. unfold apply_priv_template, flag_attr in E. by split_tests_in E. Qed.

(** What the outcome of a helper says of the store. *)
Definition public_half (o : StoredObject) : Prop :=
  o_class o = CKO_PUBLIC_KEY ∧ o_private o = false ∧ o_key_material o = None.
Definition private_half (o : StoredObject) : Prop :=
  o_class o = CKO_PRIVATE_KEY ∧ o_private o = true.
Definition new_pair (rng : HsmResult bytes) (hp hv : Z) c c' : Prop :=
  ∃ op ov, consistent_pair rng op ov ∧ public_half op ∧ private_half ov ∧ hp ≠ hv ∧
    os_objects (store_of c) !! hp = None ∧ os_objects (store_of c) !! hv = None ∧
    os_objects (store_of c') = <[hv := ov]> (<[hp := op]> (os_objects (store_of c))).
Definition pair_outcome_ok (rng : HsmResult bytes) c (out : PairOutcome) c' : Prop :=
  match out with
  | Paired hp hv _ => new_pair rng hp hv c c'
  | PairInconsistent => os_objects (store_of c') = os_objects (store_of c)
  | PairError rv => rv ≠ CKR_OK ∧ nothing_stored c c'
  end.

Lemma tested_pair_ok rng e test n pub priv pt vt c :
  (∀ x, o_handle (pub x) = x ∧ public_half (pub x)) →
  (∀ x, o_handle (priv x) = x ∧ private_half (priv x)) →
  (∀ x y op ov, test = Ok () → fixed_fields op = fixed_fields (pub x) →
     fixed_fields ov = fixed_fields (priv y) → consistent_pair rng op ov) →
  room_for_pair c → handles_ok (store_of c) →
  pair_outcome_ok rng c (tested_pair e test n pub priv pt vt c).1 (tested_pair e test n pub priv pt vt c).2.
Proof using OHL.
  intros Hpub Hpriv Hcons Hr Hok. unfold tested_pair. destruct test as [[]|]; [|done].
  destruct (store_pair e pub priv pt vt c) as [[[hp hv]|rv] c'] eqn:E;
    (apply store_pair_spec in E; [|intros x; by destruct (Hpub x)|intros x; by destruct (Hpriv x)|done|done]);
    [|done].
  destruct E as (op & ov & Hp & Hv & Hne & Hn1 & Hn2 & Ho).
  apply (apply_each_pres fixed_fields _ _ _ _ apply_pub_template_fixed) in Hp.
  apply (apply_each_pres fixed_fields _ _ _ _ apply_priv_template_fixed) in Hv.
  exists op, ov. split; [by eapply Hcons|].
  destruct (Hpub hp) as [_ (E1 & E2 & E3)], (Hpriv hv) as [_ [F1 F2]].
  injection Hp as P1 P2 P3 _ _ _ _. injection Hv as V1 V2 _ _ _ _ _.
  unfold public_half, private_half. rewrite P1, P2, P3, V1, V2. by split_and!.
Qed.

Lemma pairwise_ok sg verify : pairwise sg verify = Ok () → ∃ x, sg = Ok x ∧ verify x = Ok true.
Proof.
  unfold pairwise. destruct sg as [x|]; [|done]. destruct (verify x) as [[]|] eqn:E; [|done..].
  by exists x.
Qed.
Lemma kem_pairwise_ok rng sk pk v : ml_kem_pairwise_test rng sk pk v = Ok () →
  ∃ ct ss, ml_kem_encapsulate rng pk v = Ok (ct, ss) ∧ ml_kem_decapsulate sk ct v = Ok ss.
Proof.
  unfold ml_kem_pairwise_test. destruct (ml_kem_encapsulate rng pk v) as [[ct ss]|]; [|done].
  destruct (ml_kem_decapsulate sk ct v) as [ss'|] eqn:E; [|done]. case_bool_decide; [|done].
  subst. intros _. by exists ct, ss'.
Qed.
Lemma rsa_pairwise_ok der n x cache cache' : rsa_pairwise_test der n x cache = (Ok (), cache') →
  ∃ sg, (rsa_pkcs1v15_sign der PAIRWISE_TEST_DATA (Some HSha256) cache).1 = Ok sg ∧
    rsa_pkcs1v15_verify n x PAIRWISE_TEST_DATA sg (Some HSha256) = Ok true.
Proof.
  unfold rsa_pairwise_test. destruct (rsa_pkcs1v15_sign _ _ _ _) as [[sg|] c1]; [|done].
  intros E. destruct (pairwise_ok _ _ (f_equal fst E)) as (y & [= ->] & Hs). by exists y.
Qed.

Lemma pair_outcome_rsa rng c r out c' :
  pair_outcome_ok rng (c <| cc_rsa := r |>) out c' → pair_outcome_ok rng c out c'.
Proof. by destruct out. Qed.

Lemma generate_pair_ok e mech pt vt c : room_for_pair c → handles_ok (store_of c) →
  pair_outcome_ok (ke_test_rng e) c (generate_pair e mech pt vt c).1 (generate_pair e mech pt vt c).2.
Proof using OHL.
  intros Hr Hok. unfold generate_pair.
  assert (∀ x, pair_outcome_ok (ke_test_rng e) c (PairError (error_to_rv x)) c) as Herr
    by (intros x; split; [apply error_to_rv_not_ok|by left]).
  assert (pair_outcome_ok (ke_test_rng e) c (PairError CKR_MECHANISM_INVALID) c) as Hinv
    by (split; [done|by left]).
  unfold generate_rsa_keypair, generate_ec_keypair, generate_ed25519_keypair, generate_pqc_keypair,
    store_pqc_pair.
  repeat first [ done | apply Herr | progress (case_match; cbn [fst snd]) ].
  1: apply pair_outcome_rsa with (r := r0).
  all: apply tested_pair_ok; [done|done| |done|done]; intros x y op ov Ht Ep Ev;
    injection Ep as P1 P2 P3 P4 P5 P6 P7; injection Ev as V1 V2 V3 V4 V5 V6 V7.
  - rewrite Ht in *. match goal with K : rsa_pairwise_test _ _ _ _ = _ |- _ =>
      apply rsa_pairwise_ok in K as (sg & Hs & Hv) end. by eapply CPRsa.
  - apply pairwise_ok in Ht as (sg & Hs & Hv). by eapply CPEc.
  - apply pairwise_ok in Ht as (sg & Hs & Hv). by eapply CPEc.
  - apply pairwise_ok in Ht as (sg & Hs & Hv). by eapply CPEd.
  - apply kem_pairwise_ok in Ht as (ct & ss & Hs & Hv). by eapply CPKem.
  - apply pairwise_ok in Ht as (sg & Hs & Hv). by eapply CPMlDsa.
  - apply pairwise_ok in Ht as (sg & Hs & Hv). by eapply CPSlhDsa.
Qed.

Lemma validate_policy_err mech cfg b rv :
  validate_mechanism_for_policy mech cfg b = Err rv → rv ≠ CKR_OK.
Proof. unfold validate_mechanism_for_policy. by repeat case_match; intros [= <-]. Qed.
Lemma optional_template_err pt rv : optional_template pt = Err rv → rv ≠ CKR_OK.
Proof. destruct pt as [attrs|]; [|done]. apply parse_template_err. Qed.

(** What the call's answer says of the store. *)
Definition pair_answer (rng : HsmResult bytes) c (out : PairOut) c' : Prop :=
  match po_handles out with
  | Some (hp, hv) => po_rv out = CKR_OK ∧ po_post_failed out = false ∧ new_pair rng hp hv c c'
  | None => po_rv out ≠ CKR_OK ∧ nothing_stored c c' ∧
    (po_post_failed out = true → os_objects (store_of c') = os_objects (store_of c))
  end.

(** C29: a generated pair is consistent, or the library stops.  In a store whose
    objects are filed under handles the allocator knows, [C_GenerateKeyPair]
    either returns [CKR_OK] and has added exactly two objects, under two
    handles no object had: a public key that is not private and holds no
    secret, and a private key that is, which together passed the consistency
    test of their algorithm; or it returns an error and has added nothing,
    except that, one object short of the limit, the public key stays without
    its private one; and if the pair failed the test, every later call is
    refused with [CKR_GENERAL_ERROR] and changes nothing. *)
Theorem generated_pair_consistent e session m pt vt ph1 ph2 c out c'
    (Hr : room_for_pair c) (Hok : handles_ok (store_of c))
    (E : C_GenerateKeyPair e session m pt vt ph1 ph2 c = (out, c')) :
  match po_handles out with
  | Some (hp, hv) =>
    po_rv out = CKR_OK ∧ po_post_failed out = false ∧ new_pair (ke_test_rng e) hp hv c c'
  | None => po_rv out ≠ CKR_OK ∧ nothing_stored c c' ∧
    (po_post_failed out = true →
     os_objects (store_of c') = os_objects (store_of c) ∧
     ∀ e' k, let l := {| kl_core := c'; kl_post_failed := po_post_failed out |} in
       key_call e' k l = (CKR_GENERAL_ERROR, l))
  end.
Proof using OHL.
  assert (∀ rv, rv ≠ CKR_OK → pair_answer (ke_test_rng e) c (pair_err rv) c) as Herr
    by (intros rv Hrv; split; [done|split; [by left|done]]).
  enough (pair_answer (ke_test_rng e) c out c') as Ha.
  { unfold pair_answer in Ha. destruct (po_handles out) as [[hp hv]|]; [done|].
    destruct Ha as (Ha & Hn & Hp). split_and!; [done|done|]. intros Hf. split; [by apply Hp|].
    intros e' k. unfold key_call. cbn [kl_post_failed]. by rewrite Hf. }
  unfold C_GenerateKeyPair in E. destruct m as [m|]; [|injection E as <- <-; by apply Herr].
  destruct (_ || _); [injection E as <- <-; by apply Herr|].
  destruct (op_session session c) as [[l s]|x];
    [|injection E as <- <-; apply Herr, error_to_rv_not_ok].
  destruct (negb (session_is_rw s)); [injection E as <- <-; by apply Herr|].
  destruct (negb (is_keypair_gen_mechanism _)); [injection E as <- <-; by apply Herr|].
  destruct (validate_mechanism_for_policy _ _ _) as [[]|rv] eqn:Hv;
    [|injection E as <- <-; apply Herr; by eapply validate_policy_err].
  destruct (optional_template pt) as [pt'|rv] eqn:Hpt;
    [|injection E as <- <-; apply Herr; by eapply optional_template_err].
  destruct (optional_template vt) as [vt'|rv] eqn:Hvt;
    [|injection E as <- <-; apply Herr; by eapply optional_template_err].
  destruct (enforce _ _ _) as [[]|x]; [|injection E as <- <-; apply Herr, error_to_rv_not_ok].
  pose proof (generate_pair_ok e (m_mechanism m) pt' vt' c Hr Hok) as Hg.
  destruct (generate_pair e (m_mechanism m) pt' vt' c) as [[rv| |hp hv n] c1];
    injection E as <- <-; cbn [fst snd pair_outcome_ok] in Hg; unfold pair_answer; cbn.
  - destruct Hg. done.
  - split_and!; [done|by left|done].
  - done.
Qed.
End KeyProofs.
