(* ===== verification/KeyDemo.v ===== *)
(** * A concrete run of key management

    A library that keeps its objects in memory, with a user logged in, on the
    toy primitives; the witnesses of KeyProofs.v evaluate it. *)

From S2P Require Import Prelude Pkcs11 Handles Hash PinCrypto TokenFiles Token TokenDemo TokenProofs Session SessionManager SessionProofs Dates Objects ObjectProofs ObjectStore ObjectStoreProofs ObjectPersist AuditChain AuditProofs Encrypt EncryptProofs Abi AbiProofs AbiDemo Mechanisms Sign SignProofs Operations OperationProofs OperationDemo KeyCrypto KeyCryptoProofs KeyManagement KeyProofs.

Section KeyDemo.
#[local] Existing Instance toy_primitives.
#[local] Existing Instance toy_hex.
#[local] Existing Instance toy_hash.
#[local] Existing Instance toy_codec.
#[local] Existing Instance toy_store_order.
#[local] Existing Instance toy_order.
#[local] Existing Instance toy_audit_codec.
#[local] Existing Instance toy_ciphers.
#[local] Existing Instance toy_sign.

Definition demo_key_env (x : Z) : KeyEnv :=
  {| ke_random := demo_fill x; ke_rng := Ok [x]; ke_test_rng := Ok [x + 1]; ke_wall := 1700000000;
     ke_wall2 := 1700000000; ke_persist := demo_persist_env; ke_persist2 := demo_persist_env |}.
Definition demo_memory : DemoCrypto :=
  demo_crypto (demo_in <| persist_objects := false |>
                       <| object_store := ObjectStore_new demo_object_alloc |>).
Definition demo_aes_gen : CK_MECHANISM := {| m_mechanism := CKM_AES_KEY_GEN; m_parameter := None |}.

(** A wrapping key, and after it an extractable key. *)
Definition demo_wrapper : Z * option Z * DemoCrypto :=
  C_GenerateKey (demo_key_env 3) demo_handle (Some demo_aes_gen)
    (Some [(CKA_WRAP, Some [1]); (CKA_UNWRAP, Some [1])]) true demo_memory.
Definition demo_exportable : Z * option Z * DemoCrypto :=
  C_GenerateKey (demo_key_env 5) demo_handle (Some demo_aes_gen)
    (Some [(CKA_EXTRACTABLE, Some [1]); (CKA_VALUE_LEN, Some [16; 0; 0; 0; 0; 0; 0; 0])]) true
    demo_wrapper.2.
Definition demo_wrapper_handle : Z := default 0 demo_wrapper.1.2.
Definition demo_exportable_handle : Z := default 0 demo_exportable.1.2.
Definition demo_wrapper_object : StoredObject :=
  default (StoredObject_new 0 0 0) (os_objects (store_of demo_wrapper.2) !! demo_wrapper_handle).

Lemma demo_wrapper_handles : handles_ok (store_of demo_wrapper.2).
Proof.
  apply (handles_ok_singleton _ demo_wrapper_handle demo_wrapper_object).
  - vm_compute. reflexivity.
  - vm_compute. reflexivity.
  - right. exists 1. split; [vm_compute; split; congruence|vm_compute; reflexivity].
Qed.

Definition demo_library : KeyLibrary SessionHandleAllocator ObjectHandleAllocator :=
  {| kl_core := demo_wrapper.2; kl_post_failed := false |}.
Definition demo_library2 : KeyLibrary SessionHandleAllocator ObjectHandleAllocator :=
  (key_call (demo_key_env 5)
     (LGenerateKey demo_handle (Some demo_aes_gen) (Some [(CKA_EXTRACTABLE, Some [1])]) true)
     demo_library).2.
Definition demo_value_query : option (list OutAttr) :=
  Some [{| oa_type := CKA_VALUE; oa_value := Some (replicate 64 0); oa_value_len := 64 |}].

Lemma protected_key_confined_witness :
  (C_GetAttributeValue demo_handle demo_wrapper_handle demo_value_query
     (cc_core (kl_core demo_library2))).1 = CKR_ATTRIBUTE_SENSITIVE ∧
  C_GetAttributeValue demo_handle demo_wrapper_handle demo_value_query
    (cc_core (with_material demo_wrapper_handle (Some [1]) (kl_core demo_library2))) =
  C_GetAttributeValue demo_handle demo_wrapper_handle demo_value_query
    (cc_core (kl_core demo_library2)).
Proof.
  split; [vm_compute; reflexivity|].
  destruct (protected_key_confined demo_wrapper_handle demo_library demo_library2
    demo_wrapper_object) as [Hn|[_ Hq]].
  - vm_compute. reflexivity.
  - right. exists 1. split; [vm_compute; split; congruence|vm_compute; reflexivity].
  - vm_compute. reflexivity.
  - vm_compute. reflexivity.
  - apply rtc_once. split; [vm_compute; repeat split; congruence|].
    exists (demo_key_env 5),
      (LGenerateKey demo_handle (Some demo_aes_gen) (Some [(CKA_EXTRACTABLE, Some [1])]) true).
    reflexivity.
  - vm_compute in Hn. discriminate Hn.
  - apply (Hq (Some [1])).
Defined.

Definition demo_kw : CK_MECHANISM := {| m_mechanism := CKM_AES_KEY_WRAP; m_parameter := None |}.
Definition demo_wrapped : bytes :=
  default [] (out_data (C_WrapKey demo_handle (Some demo_kw) demo_wrapper_handle
    demo_exportable_handle true (Some 64) demo_exportable.2)).
Definition demo_wrapper_session : Z * Session := session_of demo_wrapper.2.

Lemma wrapped_key_unwraps_witness :
  length demo_wrapped = 24%nat ∧
  ∃ o key h c'' o',
    op_object demo_exportable_handle demo_exportable.2 = Ok o ∧ o_key_material o = Some key ∧
    o_extractable o = true ∧
    C_UnwrapKey (demo_key_env 9) demo_handle (Some demo_kw) demo_wrapper_handle
      (Some demo_wrapped) None true demo_wrapper.2 = (CKR_OK, Some h, c'') ∧
    os_objects (store_of demo_wrapper.2) !! h = None ∧
    os_objects (store_of c'') = <[h := o']> (os_objects (store_of demo_wrapper.2)) ∧
    o_key_material o' = Some key ∧ protected o' = true.
Proof.
  split; [vm_compute; reflexivity|].
  apply (wrapped_key_unwraps (demo_key_env 9) demo_handle demo_kw demo_wrapper_handle
    demo_exportable_handle (Some 64) demo_exportable.2 demo_wrapped demo_wrapper_object
    demo_handle demo_wrapper_handle demo_wrapper.2 demo_wrapper_session.1 demo_wrapper_session.2
    demo_wrapper_object).
  - vm_compute. reflexivity.
  - vm_compute. reflexivity.
  - vm_compute. reflexivity.
  - vm_compute. reflexivity.
  - vm_compute. reflexivity.
  - vm_compute. reflexivity.
  - vm_compute. reflexivity.
  - intros _. vm_compute. reflexivity.
  - reflexivity.
  - reflexivity.
  - vm_compute. congruence.
  - vm_compute. repeat split; congruence.
  - exact demo_wrapper_handles.
  - vm_compute. reflexivity.
Defined.

Definition demo_pair : PairOut * DemoCrypto :=
  C_GenerateKeyPair (demo_key_env 4) demo_handle
    (Some {| m_mechanism := CKM_EC_KEY_PAIR_GEN; m_parameter := None |}) None None true true
    demo_wrapper.2.
Definition demo_pair_handles : Z * Z := default (0, 0) (po_handles demo_pair.1).

Lemma generated_pair_consistent_witness :
  po_rv demo_pair.1 = CKR_OK ∧
  new_pair (Ok [5]) demo_pair_handles.1 demo_pair_handles.2 demo_wrapper.2 demo_pair.2.
Proof.
  split; [vm_compute; reflexivity|].
  pose proof (generated_pair_consistent (demo_key_env 4) demo_handle
    (Some {| m_mechanism := CKM_EC_KEY_PAIR_GEN; m_parameter := None |}) None None true true
    demo_wrapper.2 demo_pair.1 demo_pair.2) as Hg.
  assert (E : po_handles demo_pair.1 = Some (demo_pair_handles.1, demo_pair_handles.2))
    by (vm_compute; reflexivity).
  rewrite E in Hg. apply Hg.
  - vm_compute. repeat split; congruence.
  - exact demo_wrapper_handles.
  - vm_compute. reflexivity.
Defined.
End KeyDemo.
