(* ===== verification/Backup.v ===== *)
(** * Encrypted backups (src/store/backup.rs)

    A backup is [RHBK], the version, a salt, a nonce and the AES-256-GCM
    encryption of a JSON document with the objects.  [create_backup] and
    [restore_backup] are pure functions of what they draw and of the clock;
    the guard that remembers the backups already restored owns a text file
    with one identifier per line.  A Rust string is its UTF-8 bytes. *)

From stdpp Require Import pretty.
From S2P Require Import Prelude Pkcs11 PinCrypto TokenFiles TokenDemo Dates Objects ObjectStore ObjectStoreProofs Config.

(** ** Text *)

(** [str::chars]: the code points of a well-formed string. *)
Fixpoint chars (s : bytes) : list Z :=
  match s with
  | [] => []
  | b0 :: s1 =>
    if b0 <? 128 then b0 :: chars s1
    else
      match s1 with
      | [] => []
      | b1 :: s2 =>
        if b0 <? 224 then (Z.land b0 31 * 64 + Z.land b1 63) :: chars s2
        else
          match s2 with
          | [] => []
          | b2 :: s3 =>
            let low := Z.land b1 63 * 64 + Z.land b2 63 in
            if b0 <? 240 then (Z.land b0 15 * 4096 + low) :: chars s3
            else
              match s3 with
              | [] => []
              | b3 :: s4 =>
                (Z.land b0 7 * 262144 + low * 64 + Z.land b3 63) :: chars s4
              end
          end
      end
  end.

(** The UTF-8 encodings of the characters [str::trim] removes. *)
Definition white_space : list bytes :=
  ((λ b, [b]) <$> [9; 10; 11; 12; 13; 32]) ++ [[194; 133]; [194; 160]; [225; 154; 128]] ++
  ((λ b, [226; 128; b]) <$> (seqZ 128 11 ++ [168; 169; 175])) ++
  [[226; 129; 159]; [227; 128; 128]].

Definition starts_with (w s : bytes) : bool := bool_decide (take (length w) s = w).

(** Each round removes at least one byte, so the length is enough fuel. *)
Fixpoint strip (fuel : nat) (ws : list bytes) (s : bytes) : bytes :=
  match fuel with
  | O => s
  | S fuel =>
    match List.find (λ w, starts_with w s) ws with
    | Some w => strip fuel ws (drop (length w) s)
    | None => s
    end
  end.
Definition trim (s : bytes) : bytes :=
  let s := strip (length s) white_space s in
  reverse (strip (length s) (reverse <$> white_space) (reverse s)).

(** [str::lines], without the carriage return that may end a line. *)
Fixpoint split_lines (line s : bytes) : list bytes :=
  match s with
  | [] => match line with [] => [] | _ => [line] end
  | b :: s => if b =? 10 then line :: split_lines [] s else split_lines (line ++ [b]) s
  end.
Definition drop_cr (line : bytes) : bytes :=
  match last line with
  | Some b => if b =? 13 then take (length line - 1) line else line
  | None => line
  end.
Definition lines (s : bytes) : list bytes := drop_cr <$> split_lines [] s.

(** ** The format *)

Definition BACKUP_MAGIC : bytes := ascii_bytes "RHBK".
Definition BACKUP_VERSION : Z := 1.
Definition HEADER_LEN : nat := 4 + 4 + SALT_LEN + NONCE_LEN.
Definition MIN_PASSPHRASE_LEN : nat := 16.
Definition DEFAULT_MAX_BACKUP_AGE_SECS : Z := 30 * 24 * 3600.

Record BackupPayload := {
  bp_version : Z;
  bp_created : bytes;
  bp_created_epoch : Z;
  bp_backup_id : bytes;
  bp_token_serial : bytes;
  bp_object_count : Z;
  bp_objects : list StoredObject;
}.

(** [serde_json] on [BackupPayload]. *)
Class BackupCodec := {
  payload_to_vec : BackupPayload → option bytes;
  payload_from_slice : bytes → option BackupPayload;
}.
Class BackupCodecLaws (K : BackupCodec) := {
  payload_from_to_vec p b : payload_to_vec p = Some b → payload_from_slice b = Some p;
}.

(** The [hex] crate writes two lower-case hexadecimal digits per byte. *)
Definition hex_digit (b : Z) : bool := in_range 48 b 57 || in_range 97 b 102.
Class HexDigits (X : HexCodec) := {
  hex_encode_digits b : Forall is_byte b → forallb hex_digit (ascii_bytes (hex_encode b)) = true;
  hex_encode_length b : Forall is_byte b →
    length (ascii_bytes (hex_encode b)) = (2 * length b)%nat;
}.

(** ** Passphrases *)

Record CharScan := {
  cs_lower : bool;
  cs_upper : bool;
  cs_digit : bool;
  cs_symbol : bool;
  cs_unique : gset Z;
}.

Definition scan_char (p : CharScan) (ch : Z) : CharScan :=
  let unique := {[ch]} ∪ cs_unique p in
  let '(Build_CharScan l u d y _) := p in
  if in_range 97 ch 122 then Build_CharScan true u d y unique
  else if in_range 65 ch 90 then Build_CharScan l true d y unique
  else if in_range 48 ch 57 then Build_CharScan l u true y unique
  else Build_CharScan l u d true unique.

Definition check_passphrase_complexity (passphrase : bytes) : bool :=
  let p := foldl scan_char (Build_CharScan false false false false ∅) (chars passphrase) in
  let class_count :=
    Z.b2z (cs_lower p) + Z.b2z (cs_upper p) + Z.b2z (cs_digit p) + Z.b2z (cs_symbol p) in
  let char_count := Z.of_nat (length (chars passphrase)) in
  let unique_count := Z.of_nat (size (cs_unique p)) in
  let policy_a := (3 <=? class_count) && (6 <=? unique_count) in
  let policy_b := (24 <=? char_count) && (12 <=? unique_count) in
  policy_a || policy_b.

(** ** Backup and restore *)

(** What [create_backup] draws, and its two readings of the clock. *)
Record BackupEnv := {
  be_uuid : bytes;
  be_now : Z;
  be_stamp : Z;
  be_salt : bytes;
  be_nonce : bytes;
}.

Definition chrono_timestamp (now : Z) : bytes :=
  ascii_bytes (pretty now) ++ ascii_bytes "s-since-epoch".

Section Backup.
Context {P : PinPrimitives} {X : HexCodec} {K : BackupCodec}.

Definition create_backup (objects : list StoredObject) (passphrase token_serial : bytes)
    (pbkdf2_iterations : option Z) (e : BackupEnv) : HsmResult bytes :=
  if (length (chars passphrase) <? MIN_PASSPHRASE_LEN)%nat then Err PinLenRange
  else if negb (check_passphrase_complexity passphrase) then Err PinInvalid
  else
    let payload :=
      {| bp_version := BACKUP_VERSION; bp_created := chrono_timestamp (be_stamp e);
         bp_created_epoch := be_now e; bp_backup_id := ascii_bytes (hex_encode (be_uuid e));
         bp_token_serial := token_serial; bp_object_count := Z.of_nat (length objects);
         bp_objects := objects |} in
    let? json := ok_or (payload_to_vec payload) GeneralError in
    let '(key, salt) := derive_key_from_pin passphrase None pbkdf2_iterations (be_salt e) in
    let? ciphertext := ok_or (aes_gcm_encrypt key (be_nonce e) json) GeneralError in
    Ok (BACKUP_MAGIC ++ to_le_bytes 4 BACKUP_VERSION ++ salt ++ be_nonce e ++ ciphertext).

(** The decryption half of [restore_backup]. *)
Definition open_backup (data passphrase : bytes) (pbkdf2_iterations : option Z) :
    HsmResult BackupPayload :=
  if (length data <? HEADER_LEN)%nat then Err DataInvalid
  else if negb (bool_decide (slice data 0 4 = BACKUP_MAGIC)) then Err DataInvalid
  else if negb (from_le_bytes (slice data 4 8) =? BACKUP_VERSION) then Err DataInvalid
  else
    let salt := slice data 8 (8 + SALT_LEN) in
    let nonce_bytes := slice data (8 + SALT_LEN) HEADER_LEN in
    let ciphertext := drop HEADER_LEN data in
    let key := (derive_key_from_pin passphrase (Some salt) pbkdf2_iterations []).1 in
    let? plaintext := ok_or (aes_gcm_decrypt key nonce_bytes ciphertext) PinIncorrect in
    ok_or (payload_from_slice plaintext) DataInvalid.

Definition max_backup_age (max_age_secs : option Z) : option Z :=
  match max_age_secs with
  | Some age => if age =? 0 then None else Some age
  | None => Some DEFAULT_MAX_BACKUP_AGE_SECS
  end.

(** [now] is the clock, as a [u64] of seconds. *)
Definition backup_age_ok (max_age_secs : option Z) (now created_epoch : Z) : bool :=
  match max_backup_age max_age_secs with
  | None => true
  | Some max =>
    negb (wrap 64 (now + 300) <? created_epoch) && negb (max <? saturating_sub now created_epoch)
  end.

Definition restore_backup (data passphrase expected_serial : bytes) (max_age_secs : option Z)
    (pbkdf2_iterations : option Z) (now : Z) (consumed_ids : option (gset bytes)) :
    HsmResult (list StoredObject) * option (gset bytes) :=
  match open_backup data passphrase pbkdf2_iterations with
  | Err x => (Err x, consumed_ids)
  | Ok payload =>
    if negb (bp_object_count payload =? Z.of_nat (length (bp_objects payload)))
    then (Err DataInvalid, consumed_ids)
    else if negb (bool_decide (bp_token_serial payload = expected_serial))
    then (Err DataInvalid, consumed_ids)
    else if match consumed_ids with
            | Some ids => bool_decide (bp_backup_id payload ∈ ids)
            | None => false
            end
    then (Err DataInvalid, consumed_ids)
    else if negb (backup_age_ok max_age_secs now (bp_created_epoch payload))
    then (Err DataInvalid, consumed_ids)
    else (Ok (bp_objects payload), (λ ids, {[bp_backup_id payload]} ∪ ids) <$> consumed_ids)
  end.
End Backup.

(** ** The replay guard *)

Record PersistentReplayGuard := {
  rg_ids : gset bytes;
  rg_path : bool;
}.

(** [PersistentReplayGuard::new] on the guard file. *)
Definition guard_new (f : File bytes) : PersistentReplayGuard :=
  let ids :=
    match f with
    | Contents content =>
      foldl (λ ids line,
               let trimmed := trim line in
               match trimmed with [] => ids | _ => {[trimmed]} ∪ ids end) ∅ (lines content)
    | Missing | Unreadable | Corrupt => ∅
    end in
  {| rg_ids := ids; rg_path := true |}.

Definition guard_in_memory : PersistentReplayGuard := {| rg_ids := ∅; rg_path := false |}.

Definition is_consumed (id : bytes) (g : PersistentReplayGuard) : bool :=
  bool_decide (id ∈ rg_ids g).

(** The outcome of each call of [record]; [gi_write] is the number of bytes
    that reached the file when the write failed. *)
Record GuardIO := {
  gi_open : bool;
  gi_restrict : bool;
  gi_lock : bool;
  gi_write : option nat;
}.
Definition guard_io_ok : GuardIO :=
  {| gi_open := true; gi_restrict := true; gi_lock := true; gi_write := None |}.

(** Appending; opening creates the file. *)
Definition append_file (f : File bytes) (b : bytes) : File bytes :=
  match f with
  | Missing => Contents b
  | Contents a => Contents (a ++ b)
  | Unreadable => Unreadable
  | Corrupt => Corrupt
  end.

Definition guard_record (io : GuardIO) (id : bytes) (g : PersistentReplayGuard) (f : File bytes) :
    HsmResult unit * PersistentReplayGuard * File bytes :=
  let known := {| rg_ids := {[id]} ∪ rg_ids g; rg_path := rg_path g |} in
  if negb (rg_path g) then (Ok tt, known, f)
  else if negb (gi_open io) then (Err GeneralError, g, f)
  else
    let f := append_file f [] in
    if negb (gi_restrict io) then (Err GeneralError, g, f)
    else if negb (gi_lock io) then (Err GeneralError, g, f)
    else
      match gi_write io with
      | Some n => (Err GeneralError, g, append_file f (take n (id ++ [10])))
      | None => (Ok tt, known, append_file f (id ++ [10]))
      end.

(** ** Facts about the guard file *)

Lemma strip_none fuel ws s : (∀ w, w ∈ ws → starts_with w s = false) → strip fuel ws s = s.
Proof.
  intros H. destruct fuel as [|fuel]; [done|]. simpl.
  destruct (List.find _ ws) as [w|] eqn:E; [|done].
  apply List.find_some in E as [Hin Hw]. rewrite H in Hw; [done|].
  by apply list_elem_of_In.
Qed.

(** A word of hexadecimal digits starts with no encoding whose first byte is
    not one. *)
Lemma hex_starts ws s :
  forallb hex_digit s = true → s ≠ [] →
  forallb (λ w, match w with [] => false | b :: _ => negb (hex_digit b) end) ws = true →
  ∀ w, w ∈ ws → starts_with w s = false.
Proof.
  intros Hs Hne Hws w Hin. apply bool_decide_eq_false. intros E.
  rewrite forallb_forall in Hws. specialize (Hws w (proj1 (list_elem_of_In _ _) Hin)).
  destruct w as [|b w]; [done|]. destruct s as [|c s]; [done|].
  injection E as E _. subst c. simpl in Hs. apply andb_true_iff in Hs as [Hb _].
  by rewrite Hb in Hws.
Qed.

Lemma forallb_reverse {T} (f : T → bool) l : forallb f (reverse l) = forallb f l.
Proof.
  induction l as [|x l IH]; [done|]. rewrite reverse_cons, forallb_app, IH. simpl.
  by rewrite andb_true_r, andb_comm.
Qed.

Lemma trim_hex s : forallb hex_digit s = true → s ≠ [] → trim s = s.
Proof.
  intros Hs Hne. unfold trim.
  rewrite (strip_none (length s) white_space s) by (apply hex_starts; [done|done|vm_compute; done]).
  rewrite strip_none; [apply reverse_involutive|]. apply hex_starts.
  - by rewrite forallb_reverse.
  - intros E. apply (f_equal reverse) in E. rewrite reverse_involutive in E. done.
  - vm_compute. done.
Qed.

Lemma split_lines_hex line s rest :
  forallb hex_digit s = true →
  split_lines line (s ++ 10 :: rest) = (line ++ s) :: split_lines [] rest.
Proof.
  revert line. induction s as [|b s IH]; intros line Hs; simpl.
  - by rewrite app_nil_r.
  - apply andb_true_iff in Hs as [Hb Hs].
    destruct (b =? 10) eqn:E; [apply Z.eqb_eq in E; by subst|].
    rewrite IH by done. by rewrite <- app_assoc.
Qed.

Lemma drop_cr_hex s : forallb hex_digit s = true → drop_cr s = s.
Proof.
  intros Hs. unfold drop_cr. destruct (last s) as [b|] eqn:E; [|done].
  destruct (b =? 13) eqn:Eb; [|done]. apply Z.eqb_eq in Eb as ->.
  apply last_Some in E as [s' ->]. rewrite forallb_app in Hs.
  apply andb_true_iff in Hs as [_ Hs]. done.
Qed.

(** The file after recording [ids]. *)
Definition guard_text (ids : list bytes) : bytes := concat ((λ id, id ++ [10]) <$> ids).
Definition guard_file (ids : list bytes) (f : File bytes) : Prop :=
  f = Contents (guard_text ids) ∨ (f = Missing ∧ ids = []).
Definition guard_id (id : bytes) : Prop := forallb hex_digit id = true ∧ id ≠ [].

Lemma lines_guard_text ids : Forall guard_id ids → lines (guard_text ids) = ids.
Proof.
  unfold lines. intros H. induction H as [|id ids [Hid _] _ IH]; [done|].
  unfold guard_text in *. simpl. rewrite <- app_assoc. simpl.
  rewrite split_lines_hex by done. rewrite fmap_cons, drop_cr_hex by done. f_equal. exact IH.
Qed.

Lemma guard_new_ids ids f :
  Forall guard_id ids → guard_file ids f → rg_ids (guard_new f) = list_to_set ids.
Proof.
  intros H [->|[-> ->]]; [|done]. simpl. rewrite lines_guard_text by done.
  assert (∀ acc : gset bytes,
    foldl (λ ids line, match trim line with [] => ids | _ => {[trim line]} ∪ ids end) acc ids
    = list_to_set ids ∪ acc) as ->; [|set_solver].
  induction H as [|id ids [Hid Hne] _ IH]; intros acc; simpl; [set_solver|].
  rewrite (trim_hex id) by done. destruct id as [|b id]; [done|]. rewrite IH. set_solver.
Qed.

Lemma guard_record_file io ids id g f g' f' :
  guard_file ids f → rg_path g = true →
  guard_record io id g f = (Ok tt, g', f') →
  guard_file (ids ++ [id]) f' ∧ rg_path g' = true ∧ rg_ids g' = {[id]} ∪ rg_ids g.
Proof.
  unfold guard_record. intros Hf -> E. simpl in E.
  destruct (gi_open io), (gi_restrict io), (gi_lock io), (gi_write io); try done.
  injection E as <- <-. split; [|done]. left. unfold guard_text.
  rewrite fmap_app, concat_app. simpl. rewrite app_nil_r.
  destruct Hf as [->|[-> ->]]; simpl; [|done]. unfold guard_text. by rewrite app_nil_r.
Qed.

(** ** What a backup restores *)

Section BackupProofs.
Context {P : PinPrimitives} {PL : PinPrimitivesLaws P} {X : HexCodec}.
Context {K : BackupCodec} {KL : BackupCodecLaws K}.

Lemma open_frame salt nonce c passphrase iters :
  length salt = SALT_LEN → length nonce = NONCE_LEN →
  open_backup (BACKUP_MAGIC ++ to_le_bytes 4 BACKUP_VERSION ++ salt ++ nonce ++ c) passphrase iters =
  let? plaintext :=
    ok_or (aes_gcm_decrypt (derive_key_from_pin passphrase (Some salt) iters []).1 nonce c)
      PinIncorrect in
  ok_or (payload_from_slice plaintext) DataInvalid.
Proof.
  intros Hs Hn. unfold open_backup.
  set (data := BACKUP_MAGIC ++ _).
  assert (length data = (HEADER_LEN + length c)%nat) as Hlen.
  { unfold data. rewrite !length_app, length_to_le_bytes, Hs, Hn. unfold HEADER_LEN. simpl. lia. }
  assert (slice data 0 4 = BACKUP_MAGIC) as -> by done.
  assert (slice data 4 8 = to_le_bytes 4 BACKUP_VERSION) as -> by done.
  assert (slice data 8 (8 + SALT_LEN) = salt) as ->.
  { apply (slice_at (BACKUP_MAGIC ++ to_le_bytes 4 BACKUP_VERSION) salt (nonce ++ c)); [|done|lia].
    unfold data. by rewrite <- app_assoc. }
  assert (slice data (8 + SALT_LEN) HEADER_LEN = nonce) as ->.
  { apply (slice_at (BACKUP_MAGIC ++ to_le_bytes 4 BACKUP_VERSION ++ salt) nonce c).
    - unfold data. by rewrite <- !app_assoc.
    - rewrite !length_app, length_to_le_bytes, Hs. done.
    - rewrite Hn. done. }
  assert (drop HEADER_LEN data = c) as ->.
  { unfold data. rewrite !app_assoc. apply drop_app_length'.
    rewrite !length_app, length_to_le_bytes, Hs, Hn. done. }
  rewrite Hlen, (proj2 (Nat.ltb_ge _ _)) by lia. done.
Qed.

Lemma open_created objects passphrase serial iters e data :
  length (be_salt e) = SALT_LEN → length (be_nonce e) = NONCE_LEN →
  create_backup objects passphrase serial iters e = Ok data →
  open_backup data passphrase iters =
    Ok {| bp_version := BACKUP_VERSION; bp_created := chrono_timestamp (be_stamp e);
          bp_created_epoch := be_now e; bp_backup_id := ascii_bytes (hex_encode (be_uuid e));
          bp_token_serial := serial; bp_object_count := Z.of_nat (length objects);
          bp_objects := objects |}.
Proof using PL KL.
  intros Hs Hn. unfold create_backup. case_match; [done|]. case_match; [done|].
  destruct (payload_to_vec _) as [json|] eqn:Ej; [|done]. simpl.
  destruct (aes_gcm_encrypt _ _ json) as [c|] eqn:Ec; [|done]. intros [= Ed].
  rewrite <- (Ed : BACKUP_MAGIC ++ to_le_bytes 4 BACKUP_VERSION ++ be_salt e ++ be_nonce e ++ c = data).
  rewrite open_frame by done. unfold derive_key_from_pin. cbn [fst]. rewrite (gcm_decrypts _ _ _ _ Ec). simpl.
  by rewrite (payload_from_to_vec _ _ Ej).
Qed.

(** C30: A backup restores exactly the objects it was made from, under the same
    passphrase and for the same token, while it is not too old and as long as
    it has not been restored before; then its identifier joins the restored
    ones.  For another token, or a second time, it is refused and nothing is
    remembered. *)
Theorem backup_restores objects passphrase serial iters e data
    (Hsalt : length (be_salt e) = SALT_LEN) (Hnonce : length (be_nonce e) = NONCE_LEN)
    (Hmade : create_backup objects passphrase serial iters e = Ok data) :
  let id := ascii_bytes (hex_encode (be_uuid e)) in
  ∀ age now ids,
    (id ∉ default ∅ ids → backup_age_ok age now (be_now e) = true →
     restore_backup data passphrase serial age iters now ids
     = (Ok objects, (λ ids, {[id]} ∪ ids) <$> ids)) ∧
    (id ∈ default ∅ ids →
     restore_backup data passphrase serial age iters now ids = (Err DataInvalid, ids)) ∧
    (∀ serial', serial' ≠ serial →
     restore_backup data passphrase serial' age iters now ids = (Err DataInvalid, ids)).
Proof using PL KL.
  intros id age now ids.
  pose proof (open_created _ _ _ _ _ _ Hsalt Hnonce Hmade) as Hopen.
  unfold restore_backup. rewrite Hopen. simpl. rewrite Z.eqb_refl. simpl. split_and!.
  - intros Hid Hage. rewrite bool_decide_eq_true_2 by done. rewrite Hage.
    destruct ids as [ids|]; simpl; [|done]. by rewrite bool_decide_eq_false_2 by done.
  - intros Hid. rewrite bool_decide_eq_true_2 by done. simpl.
    destruct ids as [ids|]; simpl in *; [|set_solver]. by rewrite bool_decide_eq_true_2 by done.
  - intros serial' Hne. by rewrite bool_decide_eq_false_2 by done.
Qed.
End BackupProofs.

(** ** Instances *)

(** A codec that writes every string after its length, and every object as one
    number. *)
Definition put_str (s : bytes) : bytes := Z.of_nat (length s) :: s.
Definition get_str (b : bytes) : option (bytes * bytes) :=
  match b with n :: b => Some (take (Z.to_nat n) b, drop (Z.to_nat n) b) | [] => None end.
Definition get_object_number (z : Z) : option StoredObject :=
  match z with Zpos p => decode p | _ => None end.

Definition put_payload (p : BackupPayload) : bytes :=
  [bp_version p; bp_created_epoch p; bp_object_count p] ++ put_str (bp_created p) ++
  put_str (bp_backup_id p) ++ put_str (bp_token_serial p) ++
  ((λ o, Zpos (encode o)) <$> bp_objects p).
Definition get_payload (b : bytes) : option BackupPayload :=
  match b with
  | v :: e :: n :: b =>
    '(c, b) ← get_str b; '(i, b) ← get_str b; '(s, b) ← get_str b;
    objects ← mapM get_object_number b; Some (Build_BackupPayload v c e i s n objects)
  | _ => None
  end.

Lemma get_put_str s b : get_str (put_str s ++ b) = Some (s, b).
Proof. simpl. by rewrite Nat2Z.id, take_app_length, drop_app_length. Qed.

Lemma get_put_payload p : get_payload (put_payload p) = Some p.
Proof.
  unfold get_payload, put_payload. cbn [app].
  do 3 (rewrite get_put_str; cbn [mbind option_bind]).
  assert (mapM get_object_number ((λ o, Zpos (encode o)) <$> bp_objects p)
          = Some (bp_objects p)) as ->; [|by destruct p].
  induction (bp_objects p) as [|o os IH]; [done|]. rewrite fmap_cons. cbn [mapM].
  cbn [get_object_number]. rewrite decode_encode, IH. done.
Qed.

Definition toy_backup_codec : BackupCodec :=
  {| payload_to_vec p := Some (put_payload p); payload_from_slice := get_payload |}.
#[export] Instance toy_backup_codec_laws : BackupCodecLaws toy_backup_codec.
Proof. split. intros p b E. injection E as <-. apply get_put_payload. Defined.

(** Hexadecimal text. *)
Definition nibble (n : Z) : Ascii.ascii := byte_ascii (if n <? 10 then 48 + n else 87 + n).
Definition nibble_value (a : Ascii.ascii) : Z :=
  let b := ascii_byte a in if b <? 97 then b - 48 else b - 87.
Fixpoint hex_chars (b : bytes) : string :=
  match b with
  | [] => EmptyString
  | x :: b => String (nibble (x / 16)) (String (nibble (x mod 16)) (hex_chars b))
  end.
Fixpoint hex_values (s : string) : option bytes :=
  match s with
  | EmptyString => Some []
  | String a (String c s) => (cons (nibble_value a * 16 + nibble_value c)) <$> hex_values s
  | String _ EmptyString => None
  end.
Definition text_hex : HexCodec := {| hex_encode := hex_chars; hex_decode := hex_values |}.

Lemma nibble_byte n : 0 <= n < 16 →
  ascii_byte (nibble n) = (if n <? 10 then 48 + n else 87 + n).
Proof.
  intros H. unfold nibble, ascii_byte, byte_ascii. rewrite Ascii.N_ascii_embedding.
  - destruct (Z.ltb_spec n 10); lia.
  - destruct (Z.ltb_spec n 10); lia.
Qed.

Lemma nibble_value_byte n : 0 <= n < 16 → nibble_value (nibble n) = n.
Proof.
  intros H. unfold nibble_value. rewrite nibble_byte by done.
  destruct (Z.ltb_spec n 10); [destruct (Z.ltb_spec (48 + n) 97)|destruct (Z.ltb_spec (87 + n) 97)];
    lia.
Qed.

Lemma nibble_hex n : 0 <= n < 16 → hex_digit (ascii_byte (nibble n)) = true.
Proof.
  intros H. rewrite nibble_byte by done. unfold hex_digit, in_range.
  destruct (Z.ltb_spec n 10); apply orb_true_iff; [left|right]; apply andb_true_iff; lia.
Qed.

Lemma byte_nibbles x : is_byte x →
  0 <= x / 16 < 16 ∧ 0 <= x mod 16 < 16 ∧ x / 16 * 16 + x mod 16 = x.
Proof.
  intros Hx. unfold is_byte in Hx. split_and!.
  - apply Z.div_pos; lia.
  - apply Z.div_lt_upper_bound; lia.
  - apply Z.mod_pos_bound; lia.
  - apply Z.mod_pos_bound; lia.
  - pose proof (Z.div_mod x 16). lia.
Qed.

#[export] Instance text_hex_digits : HexDigits text_hex.
Proof.
  split; intros b Hb; simpl; induction Hb as [|x b Hx _ IH]; simpl; [done| |done|].
  - apply byte_nibbles in Hx as (Hh & Hl & _). apply andb_true_iff.
    split; [by apply nibble_hex|]. apply andb_true_iff. split; [by apply nibble_hex|exact IH].
  - simpl in IH. rewrite IH. lia.
Defined.

#[export] Instance text_hex_laws : HexCodecLaws text_hex.
Proof.
  split. intros b Hb. simpl. induction Hb as [|x b Hx _ IH]; simpl; [done|].
  rewrite IH. simpl. do 2 f_equal. apply byte_nibbles in Hx as (Hh & Hl & E).
  rewrite !nibble_value_byte by done. exact E.
Defined.

(** ** A backup of one key *)

Definition demo_passphrase : bytes := ascii_bytes "Test-P@ssphr4se-Long".
Definition demo_backup_env : BackupEnv :=
  {| be_uuid := replicate 16 171; be_now := 1700000000; be_stamp := 1700000000;
     be_salt := replicate 32 5; be_nonce := replicate 12 6 |}.
Definition demo_serial : bytes := ascii_bytes "0000000000000001".
Definition demo_backup : HsmResult bytes :=
  @create_backup toy_primitives text_hex toy_backup_codec [] demo_passphrase demo_serial None
    demo_backup_env.
Definition demo_backup_data : bytes := match demo_backup with Ok d => d | Err _ => [] end.

Lemma backup_restores_witness :
  demo_backup = Ok demo_backup_data ∧
  @restore_backup toy_primitives toy_backup_codec demo_backup_data demo_passphrase demo_serial
    None None 1700000600 None = (Ok [], None).
Proof.
  assert (E : demo_backup = Ok demo_backup_data) by (vm_compute; reflexivity).
  split; [exact E|].
  refine (proj1 (@backup_restores toy_primitives _ text_hex toy_backup_codec _ [] demo_passphrase
    demo_serial None demo_backup_env demo_backup_data eq_refl eq_refl E None 1700000600 None) _ _).
  - apply not_elem_of_empty.
  - vm_compute. reflexivity.
Defined.
