(* ===== verification/ImportParse.v ===== *)
(** * Key files (tools/craton-hsm-admin/src/commands/import_parse.rs)

    Parsing an RSA or EC key file and building the PKCS#11 template for it.
    The PEM, DER, PKCS#1, PKCS#8 and SEC1 decoders, the RSA consistency check
    and big-number printing come from third-party crates and are the class
    [KeyFileCrates].  An error message is a constructor of [ParseError]. *)

From stdpp Require Import pretty.
From S2P Require Import Prelude Pkcs11 PinCrypto TokenFiles Objects ObjectProofs ObjectStore ObjectStoreProofs Mechanisms Config Operations KeyCrypto KeyManagement.

(** ** Object identifiers and curves *)

Definition Oid : Type := list Z.
Definition OID_RSA_ENCRYPTION : Oid := [1; 2; 840; 113549; 1; 1; 1].
Definition OID_EC_PUBLIC_KEY : Oid := [1; 2; 840; 10045; 2; 1].
Definition OID_P256 : Oid := [1; 2; 840; 10045; 3; 1; 7].
Definition OID_P384 : Oid := [1; 3; 132; 0; 34].

Inductive Curve := P256 | P384.

Definition Curve_from_oid (oid : Oid) : option Curve :=
  if bool_decide (oid = OID_P256) then Some P256
  else if bool_decide (oid = OID_P384) then Some P384
  else None.

Definition uncompressed_point_len (c : Curve) : nat :=
  match c with P256 => 1 + 2 * 32 | P384 => 1 + 2 * 48 end.

(** ** Parsed keys *)

Record ParsedRsaPrivate := {
  rp_modulus : bytes;
  rp_public_exponent : bytes;
  rp_private_exponent : bytes;
  rp_prime_1 : bytes;
  rp_prime_2 : bytes;
  rp_exponent_1 : bytes;
  rp_exponent_2 : bytes;
  rp_coefficient : bytes;
}.
Record ParsedRsaPublic := { ru_modulus : bytes; ru_public_exponent : bytes }.
Record ParsedEcPrivate := {
  ep_curve : Curve;
  ep_private_scalar : bytes;
  ep_public_point : option bytes;
}.
Record ParsedEcPublic := { eu_curve : Curve; eu_public_point : bytes }.

Inductive ParsedKey :=
| RsaPrivate (p : ParsedRsaPrivate)
| RsaPublic (p : ParsedRsaPublic)
| EcPrivate (p : ParsedEcPrivate)
| EcPublic (p : ParsedEcPublic).

Inductive ParseError :=
| MalformedPem
| UnsupportedPemLabel
| UnknownDer
| Pkcs8Decode
| InnerRsaDecode
| UnsupportedAlgorithm
| MissingCurve
| CurveNotOid
| UnsupportedCurve
| SpkiDecode
| UnalignedBitString
| Pkcs1Decode
| RsaReserialize
| RsaValidation
| RsaInconsistent
| TooFewPrimes
| MissingPrime
| NoCrtCoefficient
| Sec1Decode
| MissingNamedCurve
| NotNamedCurve
| ScalarTooLong
| EmptyPoint
| PointNotUncompressed
| PointLength
| ClassDisagrees.

(** ** The third-party decoders *)

Record AlgorithmIdentifier := { ai_oid : Oid; ai_parameters : option bytes }.
Record PrivateKeyInfo := { pki_algorithm : AlgorithmIdentifier; pki_private_key : bytes }.
(** The key is [None] when its bit string does not end on a byte. *)
Record SubjectPublicKeyInfo := { spki_algorithm : AlgorithmIdentifier; spki_key : option bytes }.
(** An [rsa::RsaPrivateKey]. *)
Record RsaKey := {
  rk_n : Z;
  rk_e : Z;
  rk_d : Z;
  rk_primes : list Z;
  rk_dp : option Z;
  rk_dq : option Z;
  rk_coefficient : option Z;
}.
(** The parameters of a SEC1 key, if any, and the curve they name, if any. *)
Record EcPrivateKey := {
  ek_private_key : bytes;
  ek_parameters : option (option Oid);
  ek_public_key : option bytes;
}.

Class KeyFileCrates := {
  pem_decode_vec : bytes → option (bytes * bytes);
  PrivateKeyInfo_try_from : bytes → option PrivateKeyInfo;
  SubjectPublicKeyInfo_try_from : bytes → option SubjectPublicKeyInfo;
  any_decode_as_oid : bytes → option Oid;
  Pkcs1RsaPrivateKey : Type;
  Pkcs1RsaPrivateKey_from_der : bytes → option Pkcs1RsaPrivateKey;
  Pkcs1RsaPrivateKey_to_der : Pkcs1RsaPrivateKey → option bytes;
  Pkcs1RsaPublicKey : Type;
  Pkcs1RsaPublicKey_from_der : bytes → option Pkcs1RsaPublicKey;
  Pkcs1RsaPublicKey_to_der : Pkcs1RsaPublicKey → option bytes;
  RsaPrivateKey_from_pkcs1_der : bytes → option RsaKey;
  RsaPrivateKey_validate : RsaKey → bool;
  RsaPublicKey_from_pkcs1_der : bytes → option (Z * Z);
  EcPrivateKey_from_der : bytes → option EcPrivateKey;
  to_bytes_be : Z → bytes;
  (** The DER encoding of an identifier; the code expects it to succeed on the
      two curves. *)
  oid_to_der : Oid → option bytes;
}.
(** The encodings of the two curves, as X.690 defines them. *)
Class KeyFileCratesLaws (G : KeyFileCrates) := {
  oid_to_der_p256 : oid_to_der OID_P256 = Some [6; 8; 42; 134; 72; 206; 61; 3; 1; 7];
  oid_to_der_p384 : oid_to_der OID_P384 = Some [6; 5; 43; 129; 4; 0; 34];
}.

(** ** Encodings *)

Definition ck_ulong_bytes (v : Z) : bytes := to_le_bytes 8 v.

(** The base-256 digits of a length, least significant first; the fuel covers
    64 bits. *)
Fixpoint length_digits (fuel : nat) (l : Z) : bytes :=
  match fuel with
  | O => []
  | S fuel => if 0 <? l then Z.land l 255 :: length_digits fuel (Z.shiftr l 8) else []
  end.
Definition encode_der_length (len : Z) : bytes :=
  if len <? 128 then [len]
  else let tmp := reverse (length_digits 8 len) in
       Z.lor 128 (Z.of_nat (length tmp)) :: tmp.
Definition wrap_octet_string (inner : bytes) : bytes :=
  4 :: encode_der_length (Z.of_nat (length inner)) ++ inner.

(** [u8::leading_zeros]. *)
Definition leading_zeros (b : Z) : Z := if b =? 0 then 8 else 7 - Z.log2 b.
Fixpoint strip_zeros (m : bytes) : bytes :=
  match m with b :: m' => if b =? 0 then strip_zeros m' else m | [] => [] end.
Definition modulus_bit_len (modulus : bytes) : Z :=
  match strip_zeros modulus with
  | [] => 0
  | b :: rest => Z.of_nat (length (b :: rest)) * 8 - leading_zeros b
  end.

(** ** Command-line checks *)

Definition ascii_lower (b : Z) : Z := if (65 <=? b) && (b <=? 90) then b + 32 else b.
Definition eq_ignore_ascii_case (a b : bytes) : bool :=
  bool_decide (ascii_lower <$> a = ascii_lower <$> b).

Definition key_type_name (k : ParsedKey) : bytes :=
  match k with
  | RsaPrivate _ | RsaPublic _ => ascii_bytes "RSA"
  | EcPrivate _ | EcPublic _ => ascii_bytes "EC"
  end.
Definition inferred_class_name (k : ParsedKey) : bytes :=
  match k with
  | RsaPrivate _ | EcPrivate _ => ascii_bytes "private"
  | RsaPublic _ | EcPublic _ => ascii_bytes "public"
  end.
Definition confirm_class (k : ParsedKey) (requested : option bytes) : Result ParseError unit :=
  match requested with
  | None => Ok tt
  | Some r => if eq_ignore_ascii_case r (inferred_class_name k) then Ok tt else Err ClassDisagrees
  end.

Definition curve_name (c : Curve) : bytes :=
  match c with P256 => ascii_bytes "P-256" | P384 => ascii_bytes "P-384" end.
Definition display_summary (k : ParsedKey) : bytes :=
  let bits m := ascii_bytes (pretty (modulus_bit_len m)) ++ ascii_bytes " bits)" in
  match k with
  | RsaPrivate p => ascii_bytes "Type: RSA (private, " ++ bits (rp_modulus p)
  | RsaPublic p => ascii_bytes "Type: RSA (public, " ++ bits (ru_modulus p)
  | EcPrivate p => ascii_bytes "Type: EC (private, " ++ curve_name (ep_curve p) ++ ascii_bytes ")"
  | EcPublic p => ascii_bytes "Type: EC (public, " ++ curve_name (eu_curve p) ++ ascii_bytes ")"
  end.

(** ** Parsing *)

Definition validate_ec_point (curve : Curve) (point : bytes) : Result ParseError unit :=
  match point with
  | [] => Err EmptyPoint
  | b :: _ =>
    if negb (b =? 4) then Err PointNotUncompressed
    else if negb (length point =? uncompressed_point_len curve)%nat then Err PointLength
    else Ok tt
  end.

(** [skip_while] on blanks, then ten bytes. *)
Fixpoint skip_blanks (data : bytes) : bytes :=
  match data with
  | b :: rest => if bool_decide (b ∈ [32; 9; 13; 10]) then skip_blanks rest else data
  | [] => []
  end.
Definition looks_like_pem (data : bytes) : bool :=
  bool_decide (take 10 (skip_blanks data) = ascii_bytes "-----BEGIN").

Section Parsing.
Context {G : KeyFileCrates}.

(** The [expect] of [ec_params_der] is a panic. *)
Definition ec_params_der (c : Curve) : MayPanic bytes :=
  match oid_to_der (match c with P256 => OID_P256 | P384 => OID_P384 end) with
  | Some der => Returns der
  | None => Panicked
  end.

(** The primes of a validated key exceed one, so the subtraction does not
    underflow and the remainder is defined. *)
Definition compute_d_mod_pm1 (key : RsaKey) (prime_idx : nat) : Result ParseError bytes :=
  let? p := ok_or (rk_primes key !! prime_idx) MissingPrime in
  Ok (to_bytes_be (rk_d key mod (p - 1))).

Definition parsed_rsa_private_from_pkcs1 (pk1 : Pkcs1RsaPrivateKey) : Result ParseError ParsedKey :=
  let? der := ok_or (Pkcs1RsaPrivateKey_to_der pk1) RsaReserialize in
  let? key := ok_or (RsaPrivateKey_from_pkcs1_der der) RsaValidation in
  if negb (RsaPrivateKey_validate key) then Err RsaInconsistent
  else
    match rk_primes key with
    | p :: q :: _ =>
      let? dp := (match rk_dp key with
                  | Some v => Ok (to_bytes_be v)
                  | None => compute_d_mod_pm1 key 0
                  end) in
      let? dq := (match rk_dq key with
                  | Some v => Ok (to_bytes_be v)
                  | None => compute_d_mod_pm1 key 1
                  end) in
      let? qinv := ok_or (rk_coefficient key) NoCrtCoefficient in
      Ok (RsaPrivate
        {| rp_modulus := to_bytes_be (rk_n key); rp_public_exponent := to_bytes_be (rk_e key);
           rp_private_exponent := to_bytes_be (rk_d key); rp_prime_1 := to_bytes_be p;
           rp_prime_2 := to_bytes_be q; rp_exponent_1 := dp; rp_exponent_2 := dq;
           rp_coefficient := to_bytes_be qinv |})
    | _ => Err TooFewPrimes
    end.

Definition parsed_rsa_public_from_pkcs1 (pk1 : Pkcs1RsaPublicKey) : Result ParseError ParsedKey :=
  let? der := ok_or (Pkcs1RsaPublicKey_to_der pk1) RsaReserialize in
  let? key := ok_or (RsaPublicKey_from_pkcs1_der der) RsaValidation in
  Ok (RsaPublic {| ru_modulus := to_bytes_be key.1; ru_public_exponent := to_bytes_be key.2 |}).

Definition sec1_curve (pk : EcPrivateKey) (known_curve : option Curve) : Result ParseError Curve :=
  match known_curve with
  | Some c => Ok c
  | None =>
    let? parameters := ok_or (ek_parameters pk) MissingNamedCurve in
    let? oid := ok_or parameters NotNamedCurve in
    ok_or (Curve_from_oid oid) UnsupportedCurve
  end.

Definition parse_sec1_ec_private (der : bytes) (known_curve : option Curve) :
    Result ParseError ParsedKey :=
  let? pk := ok_or (EcPrivateKey_from_der der) Sec1Decode in
  let? curve := sec1_curve pk known_curve in
  let scalar_len := (uncompressed_point_len curve / 2)%nat in
  if (scalar_len <? length (ek_private_key pk))%nat then Err ScalarTooLong
  else
    let padded := replicate (scalar_len - length (ek_private_key pk)) 0 ++ ek_private_key pk in
    let? public_point :=
      (match ek_public_key pk with
       | Some p => let? _ := validate_ec_point curve p in Ok (Some p)
       | None => Ok None
       end) in
    Ok (EcPrivate
      {| ep_curve := curve; ep_private_scalar := padded; ep_public_point := public_point |}).

Definition pkcs8_ec_curve (alg : AlgorithmIdentifier) : Result ParseError Curve :=
  let? params := ok_or (ai_parameters alg) MissingCurve in
  let? oid := ok_or (any_decode_as_oid params) CurveNotOid in
  ok_or (Curve_from_oid oid) UnsupportedCurve.

Definition dispatch_private_key_info (info : PrivateKeyInfo) : Result ParseError ParsedKey :=
  let alg_oid := ai_oid (pki_algorithm info) in
  if bool_decide (alg_oid = OID_RSA_ENCRYPTION) then
    let? pk1 := ok_or (Pkcs1RsaPrivateKey_from_der (pki_private_key info)) InnerRsaDecode in
    parsed_rsa_private_from_pkcs1 pk1
  else if bool_decide (alg_oid = OID_EC_PUBLIC_KEY) then
    let? curve := pkcs8_ec_curve (pki_algorithm info) in
    parse_sec1_ec_private (pki_private_key info) (Some curve)
  else Err UnsupportedAlgorithm.

Definition parse_pkcs8_private (der : bytes) : Result ParseError ParsedKey :=
  let? info := ok_or (PrivateKeyInfo_try_from der) Pkcs8Decode in dispatch_private_key_info info.

Definition parse_spki_public (der : bytes) : Result ParseError ParsedKey :=
  let? spki := ok_or (SubjectPublicKeyInfo_try_from der) SpkiDecode in
  let alg_oid := ai_oid (spki_algorithm spki) in
  let? key_bytes := ok_or (spki_key spki) UnalignedBitString in
  if bool_decide (alg_oid = OID_RSA_ENCRYPTION) then
    let? pk1 := ok_or (Pkcs1RsaPublicKey_from_der key_bytes) InnerRsaDecode in
    parsed_rsa_public_from_pkcs1 pk1
  else if bool_decide (alg_oid = OID_EC_PUBLIC_KEY) then
    let? curve := pkcs8_ec_curve (spki_algorithm spki) in
    let? _ := validate_ec_point curve key_bytes in
    Ok (EcPublic {| eu_curve := curve; eu_public_point := key_bytes |})
  else Err UnsupportedAlgorithm.

Definition parse_pkcs1_rsa_private (der : bytes) : Result ParseError ParsedKey :=
  let? pk1 := ok_or (Pkcs1RsaPrivateKey_from_der der) Pkcs1Decode in
  parsed_rsa_private_from_pkcs1 pk1.
Definition parse_pkcs1_rsa_public (der : bytes) : Result ParseError ParsedKey :=
  let? pk1 := ok_or (Pkcs1RsaPublicKey_from_der der) Pkcs1Decode in
  parsed_rsa_public_from_pkcs1 pk1.

Definition parse_pem (data : bytes) : Result ParseError ParsedKey :=
  let? pem := ok_or (pem_decode_vec data) MalformedPem in
  let '(label, der) := pem in
  let named s := bool_decide (label = ascii_bytes s) in
  if named "PRIVATE KEY" then parse_pkcs8_private der
  else if named "PUBLIC KEY" then parse_spki_public der
  else if named "RSA PRIVATE KEY" then parse_pkcs1_rsa_private der
  else if named "RSA PUBLIC KEY" then parse_pkcs1_rsa_public der
  else if named "EC PRIVATE KEY" then parse_sec1_ec_private der None
  else Err UnsupportedPemLabel.

Definition parse_der (data : bytes) : Result ParseError ParsedKey :=
  match parse_pkcs8_private data with
  | Ok out => Ok out
  | Err _ =>
    match parse_spki_public data with
    | Ok out => Ok out
    | Err _ =>
      match parse_pkcs1_rsa_private data with
      | Ok out => Ok out
      | Err _ =>
        match parse_pkcs1_rsa_public data with Ok out => Ok out | Err _ => Err UnknownDer end
      end
    end
  end.

Definition ParsedKey_from_bytes (data : bytes) : Result ParseError ParsedKey :=
  if looks_like_pem data then parse_pem data else parse_der data.

(** ** The template *)

Definition into_template (k : ParsedKey) (label : bytes) : MayPanic Template :=
  match k with
  | RsaPrivate p =>
    Returns
      [(CKA_CLASS, ck_ulong_bytes CKO_PRIVATE_KEY); (CKA_KEY_TYPE, ck_ulong_bytes CKK_RSA);
       (CKA_LABEL, label); (CKA_TOKEN, [1]); (CKA_PRIVATE, [1]); (CKA_SENSITIVE, [1]);
       (CKA_EXTRACTABLE, [0]); (CKA_MODULUS, rp_modulus p);
       (CKA_PUBLIC_EXPONENT, rp_public_exponent p);
       (CKA_PRIVATE_EXPONENT, rp_private_exponent p); (CKA_PRIME_1, rp_prime_1 p);
       (CKA_PRIME_2, rp_prime_2 p); (CKA_EXPONENT_1, rp_exponent_1 p);
       (CKA_EXPONENT_2, rp_exponent_2 p); (CKA_COEFFICIENT, rp_coefficient p)]
  | RsaPublic p =>
    Returns
      [(CKA_CLASS, ck_ulong_bytes CKO_PUBLIC_KEY); (CKA_KEY_TYPE, ck_ulong_bytes CKK_RSA);
       (CKA_LABEL, label); (CKA_TOKEN, [1]); (CKA_PRIVATE, [0]); (CKA_SENSITIVE, [0]);
       (CKA_MODULUS, ru_modulus p); (CKA_PUBLIC_EXPONENT, ru_public_exponent p)]
  | EcPrivate p =>
    match ec_params_der (ep_curve p) with
    | Panicked => Panicked
    | Returns params =>
      Returns
        ([(CKA_CLASS, ck_ulong_bytes CKO_PRIVATE_KEY); (CKA_KEY_TYPE, ck_ulong_bytes CKK_EC);
          (CKA_LABEL, label); (CKA_TOKEN, [1]); (CKA_PRIVATE, [1]); (CKA_SENSITIVE, [1]);
          (CKA_EXTRACTABLE, [0]); (CKA_EC_PARAMS, params); (CKA_VALUE, ep_private_scalar p)] ++
         match ep_public_point p with
         | Some point => [(CKA_EC_POINT, wrap_octet_string point)]
         | None => []
         end)
    end
  | EcPublic p =>
    match ec_params_der (eu_curve p) with
    | Panicked => Panicked
    | Returns params =>
      Returns
        [(CKA_CLASS, ck_ulong_bytes CKO_PUBLIC_KEY); (CKA_KEY_TYPE, ck_ulong_bytes CKK_EC);
         (CKA_LABEL, label); (CKA_TOKEN, [1]); (CKA_PRIVATE, [0]); (CKA_SENSITIVE, [0]);
         (CKA_EC_PARAMS, params); (CKA_EC_POINT, wrap_octet_string (eu_public_point p))]
    end
  end.
End Parsing.
