(* ===== verification/ImportProofs.v ===== *)
(** * Key files: theorems

    What the parser accepts, and what becomes of the template it builds when
    the object store creates an object from it. *)

From S2P Require Import Prelude Pkcs11 Handles PinCrypto TokenFiles TokenDemo Objects ObjectProofs ObjectStore ObjectStoreProofs Config Operations KeyManagement ImportParse.

(** ** The parser *)

Definition valid_point (c : Curve) (point : bytes) : Prop :=
  head point = Some 4 ∧ length point = uncompressed_point_len c.
Definition field_len (c : Curve) : nat := match c with P256 => 32 | P384 => 48 end.

Lemma validate_ec_point_ok c point : validate_ec_point c point = Ok tt ↔ valid_point c point.
Proof.
  unfold validate_ec_point, valid_point. destruct point as [|b point]; [by split; [|intros []]|].
  cbn [head]. destruct (Z.eqb_spec b 4) as [->|Hb]; cbn [negb].
  - destruct (Nat.eqb_spec (length (4 :: point)) (uncompressed_point_len c)) as [E|E]; cbn [negb].
    + done.
    + split; [done|]. by intros [_ E'].
  - split; [done|]. by intros [[= E] _].
Qed.

Section Parser.
Context {G : KeyFileCrates}.

(** The components of an RSA private key come from one key that passed the
    consistency check; CRT exponents the crate does not give are computed. *)
Definition rsa_components (key : RsaKey) (p : ParsedRsaPrivate) : Prop :=
  ∃ p1 p2 rest qinv,
    RsaPrivateKey_validate key = true ∧ rk_primes key = p1 :: p2 :: rest ∧
    rk_coefficient key = Some qinv ∧
    p = {| rp_modulus := to_bytes_be (rk_n key); rp_public_exponent := to_bytes_be (rk_e key);
           rp_private_exponent := to_bytes_be (rk_d key);
           rp_prime_1 := to_bytes_be p1; rp_prime_2 := to_bytes_be p2;
           rp_exponent_1 := to_bytes_be (default (rk_d key mod (p1 - 1)) (rk_dp key));
           rp_exponent_2 := to_bytes_be (default (rk_d key mod (p2 - 1)) (rk_dq key));
           rp_coefficient := to_bytes_be qinv |}.

Definition well_formed_key (k : ParsedKey) : Prop :=
  match k with
  | RsaPrivate p => ∃ key, rsa_components key p
  | RsaPublic p => ∃ n e, p = {| ru_modulus := to_bytes_be n; ru_public_exponent := to_bytes_be e |}
  | EcPrivate p =>
    length (ep_private_scalar p) = field_len (ep_curve p) ∧
    (∀ point, ep_public_point p = Some point → valid_point (ep_curve p) point)
  | EcPublic p => valid_point (eu_curve p) (eu_public_point p)
  end.

Lemma rsa_private_well_formed pk1 k :
  parsed_rsa_private_from_pkcs1 pk1 = Ok k → well_formed_key k.
Proof.
  unfold parsed_rsa_private_from_pkcs1.
  destruct (Pkcs1RsaPrivateKey_to_der pk1) as [der|]; [|done]. simpl.
  destruct (RsaPrivateKey_from_pkcs1_der der) as [key|]; [|done]. simpl.
  destruct (RsaPrivateKey_validate key) eqn:Hv; [|done]. simpl.
  destruct (rk_primes key) as [|p1 [|p2 rest]] eqn:Hp; [done|done|].
  unfold compute_d_mod_pm1. rewrite Hp. simpl.
  destruct (rk_coefficient key) as [qinv|] eqn:Hq.
  - destruct (rk_dp key) eqn:E1, (rk_dq key) eqn:E2; simpl; intros [= <-];
      exists key, p1, p2, rest, qinv; rewrite E1, E2; done.
  - destruct (rk_dp key), (rk_dq key); done.
Qed.

Lemma rsa_public_well_formed pk1 k :
  parsed_rsa_public_from_pkcs1 pk1 = Ok k → well_formed_key k.
Proof.
  unfold parsed_rsa_public_from_pkcs1.
  destruct (Pkcs1RsaPublicKey_to_der pk1) as [der|]; [|done]. simpl.
  destruct (RsaPublicKey_from_pkcs1_der der) as [[n e]|]; [|done]. simpl.
  intros [= <-]. by exists n, e.
Qed.

Lemma sec1_well_formed der known k :
  parse_sec1_ec_private der known = Ok k → well_formed_key k.
Proof.
  unfold parse_sec1_ec_private. destruct (EcPrivateKey_from_der der) as [pk|]; [|done].
  cbn [ok_or].
  destruct (sec1_curve pk known) as [curve|]; [|done].
  destruct (Nat.ltb_spec (uncompressed_point_len curve / 2) (length (ek_private_key pk)))
    as [|Hlen]; [done|].
  destruct (match ek_public_key pk with Some _ => _ | None => _ end) as [pt|] eqn:Ept; [|done].
  intros [= <-]. simpl. split.
  - rewrite length_app, length_replicate. destruct curve; simpl in *; lia.
  - intros point ->. destruct (ek_public_key pk) as [p|]; [|done].
    destruct (validate_ec_point curve p) as [[]|] eqn:E; [|done].
    injection Ept as <-. by apply validate_ec_point_ok.
Qed.

Lemma pkcs8_well_formed der k : parse_pkcs8_private der = Ok k → well_formed_key k.
Proof.
  unfold parse_pkcs8_private, dispatch_private_key_info.
  destruct (PrivateKeyInfo_try_from der) as [info|]; [|done]. simpl. case_bool_decide.
  - destruct (Pkcs1RsaPrivateKey_from_der _); [|done]. apply rsa_private_well_formed.
  - case_bool_decide; [|done]. destruct (pkcs8_ec_curve _); [|done]. apply sec1_well_formed.
Qed.

Lemma spki_well_formed der k : parse_spki_public der = Ok k → well_formed_key k.
Proof.
  unfold parse_spki_public. destruct (SubjectPublicKeyInfo_try_from der) as [spki|]; [|done]. simpl.
  destruct (spki_key spki) as [key|]; [|done]. simpl. case_bool_decide.
  - destruct (Pkcs1RsaPublicKey_from_der key); [|done]. apply rsa_public_well_formed.
  - case_bool_decide; [|done]. destruct (pkcs8_ec_curve _) as [curve|]; [|done].
    destruct (validate_ec_point curve key) as [[]|] eqn:E; [|done].
    intros [= <-]. simpl. by apply validate_ec_point_ok.
Qed.

Lemma pkcs1_well_formed der k :
  parse_pkcs1_rsa_private der = Ok k ∨ parse_pkcs1_rsa_public der = Ok k → well_formed_key k.
Proof.
  unfold parse_pkcs1_rsa_private, parse_pkcs1_rsa_public. intros [H|H].
  - destruct (Pkcs1RsaPrivateKey_from_der der); [|done]. exact (rsa_private_well_formed _ _ H).
  - destruct (Pkcs1RsaPublicKey_from_der der); [|done]. exact (rsa_public_well_formed _ _ H).
Qed.

Lemma from_bytes_well_formed data k : ParsedKey_from_bytes data = Ok k → well_formed_key k.
Proof.
  unfold ParsedKey_from_bytes. destruct (looks_like_pem data).
  - unfold parse_pem. destruct (pem_decode_vec data) as [[label der]|]; [|done]. simpl.
    repeat case_bool_decide; [eapply pkcs8_well_formed|eapply spki_well_formed| | |
      eapply sec1_well_formed|done]; intros E; apply (pkcs1_well_formed der); auto.
  - unfold parse_der. repeat case_match; simplify_eq; intros [= <-];
      [eapply pkcs8_well_formed; eauto|eapply spki_well_formed; eauto| |];
      eapply pkcs1_well_formed; eauto.
Qed.
End Parser.

(** ** The octet string around a point *)

(** A reader for one definite-length OCTET STRING (X.690, 8.1.3 and 8.7). *)
Definition read_octet_string (b : bytes) : option bytes :=
  match b with
  | 4 :: l :: rest =>
    let n := Z.to_nat (l - 128) in
    let '(len, inner) :=
      if l <? 128 then (l, rest) else (from_le_bytes (reverse (take n rest)), drop n rest) in
    if Z.of_nat (length inner) =? len then Some inner else None
  | _ => None
  end.

Lemma length_digits_value fuel l :
  0 <= l < 256 ^ Z.of_nat fuel → from_le_bytes (length_digits fuel l) = l.
Proof.
  revert l. induction fuel as [|fuel IH]; intros l Hl; [simpl in *; lia|].
  rewrite Nat2Z.inj_succ, Z.pow_succ_r in Hl by lia. cbn [length_digits].
  destruct (Z.ltb_spec 0 l); [|simpl; lia]. cbn [from_le_bytes].
  change 255 with (Z.ones 8). rewrite Z.land_ones, Z.shiftr_div_pow2 by lia.
  change (2 ^ 8) with 256. pose proof (Z.div_mod l 256).
  pose proof (Z.div_pos l 256). pose proof (Z.div_lt_upper_bound l 256 (256 ^ Z.of_nat fuel)).
  rewrite IH by lia. lia.
Qed.

Lemma length_digits_length fuel l : (length (length_digits fuel l) <= fuel)%nat.
Proof.
  revert l. induction fuel as [|fuel IH]; intros l; simpl; [lia|].
  destruct (0 <? l); simpl; [|lia]. specialize (IH (Z.shiftr l 8)). lia.
Qed.

Lemma lor_128 n : 0 <= n < 128 → Z.lor 128 n = 128 + n.
Proof.
  intros Hn. rewrite <- Z.add_lor_land. assert (Z.land 128 n = 0) as ->; [|lia].
  apply Z.bits_inj'. intros i Hi. rewrite Z.land_spec, Z.bits_0.
  change 128 with (2 ^ 7). rewrite Z.pow2_bits_eqb by lia.
  destruct (Z.eqb_spec 7 i) as [<-|]; [|done]. rewrite andb_true_l. apply Z.bits_above_log2; [lia|].
  destruct (Z.eq_dec n 0) as [->|]; [done|]. apply Z.log2_lt_pow2; lia.
Qed.

Lemma read_wrapped inner :
  Z.of_nat (length inner) < 2 ^ 64 → read_octet_string (wrap_octet_string inner) = Some inner.
Proof.
  intros Hlen. unfold wrap_octet_string, encode_der_length.
  destruct (Z.ltb_spec (Z.of_nat (length inner)) 128) as [H|H].
  - cbn [app read_octet_string]. rewrite (proj2 (Z.ltb_lt _ _)) by lia. by rewrite Z.eqb_refl.
  - pose proof (length_digits_length 8 (Z.of_nat (length inner))) as H8.
    set (tmp := reverse (length_digits 8 (Z.of_nat (length inner)))).
    assert (length tmp = length (length_digits 8 (Z.of_nat (length inner)))) as Ht
      by apply length_reverse.
    cbn [app read_octet_string]. rewrite lor_128 by lia.
    rewrite (proj2 (Z.ltb_ge _ _)) by lia.
    replace (Z.to_nat (128 + Z.of_nat (length tmp) - 128)) with (length tmp) by lia.
    rewrite take_app_length, drop_app_length. unfold tmp. rewrite reverse_involutive.
    rewrite length_digits_value by (change (256 ^ Z.of_nat 8) with (2 ^ 64); lia).
    by rewrite Z.eqb_refl.
Qed.

(** ** What the store makes of the template *)

Definition add_extras (m : gmap Z bytes) (l : Template) : gmap Z bytes :=
  foldl (λ m p, <[p.1 := p.2]> m) m l.

Lemma apply_extras l : ∀ o,
  Forall (λ p, attr_of p.1 = A_OTHER p.1 ∧ Z.of_nat (length p.2) <= MAX_EXTRA_VALUE_LEN) l →
  Z.of_nat (size (o_extra_attributes o) + length l) <= MAX_EXTRA_ATTRIBUTES →
  apply_template o l = Ok (o <| o_extra_attributes := add_extras (o_extra_attributes o) l |>).
Proof.
  induction l as [|[t v] l IH]; intros o Hl Hsize; [by destruct o|].
  apply Forall_cons in Hl as [[Ht Hv] Hl]. simpl in Ht, Hv, Hsize. cbn [apply_template].
  unfold apply_attribute. rewrite Ht, (proj2 (Z.ltb_ge _ _)) by lia.
  rewrite (proj2 (Z.leb_gt _ _)) by lia. cbn [andb]. rewrite IH; [by destruct o|done|].
  change (o_extra_attributes (o <| o_extra_attributes := <[t:=v]> (o_extra_attributes o) |>))
    with (<[t:=v]> (o_extra_attributes o)).
  rewrite map_size_insert. destruct (o_extra_attributes o !! t); simpl; lia.
Qed.

Section Outcomes.
Context {G : KeyFileCrates} {GL : KeyFileCratesLaws G}.
Context {P : PinPrimitives} {X : HexCodec} {C : ObjectCodec} {D : StoreOrder}.
Context {A : Type} {OH : ObjectHandles A}.
Implicit Types s : ObjectStore A.

(** The attributes of every imported private key. *)
Definition private_import (h now kt : Z) (label : bytes) : StoredObject :=
  StoredObject_new h CKO_PRIVATE_KEY now
    <| o_key_type := Some kt |> <| o_label := label |> <| o_token_object := true |>.

Definition ec_import (h now : Z) (label params : bytes) (p : ParsedEcPrivate) : StoredObject :=
  private_import h now CKK_EC label
    <| o_ec_params := Some params |> <| o_key_material := Some (ep_private_scalar p) |>
    <| o_ec_point := wrap_octet_string <$> ep_public_point p |>.

Definition rsa_secrets (p : ParsedRsaPrivate) : Template :=
  [(CKA_PRIVATE_EXPONENT, rp_private_exponent p); (CKA_PRIME_1, rp_prime_1 p);
   (CKA_PRIME_2, rp_prime_2 p); (CKA_EXPONENT_1, rp_exponent_1 p);
   (CKA_EXPONENT_2, rp_exponent_2 p); (CKA_COEFFICIENT, rp_coefficient p)].
Definition rsa_import (h now : Z) (label : bytes) (p : ParsedRsaPrivate) : StoredObject :=
  private_import h now CKK_RSA label
    <| o_modulus := Some (rp_modulus p) |>
    <| o_public_exponent := Some (rp_public_exponent p) |>
    <| o_extra_attributes := add_extras ∅ (rsa_secrets p) |>.

Lemma ec_params_der_eq c : ∃ params, ec_params_der c = Returns params ∧ params ≠ [].
Proof using GL.
  destruct c; unfold ec_params_der;
    [rewrite oid_to_der_p256|rewrite oid_to_der_p384]; by eexists.
Qed.

Lemma apply_ec_template h now label p params tpl :
  ec_params_der (ep_curve p) = Returns params →
  Z.of_nat (length (ep_private_scalar p)) <= MAX_KEY_MATERIAL_LEN →
  into_template (EcPrivate p) label = Returns tpl →
  template_class tpl = Some CKO_PRIVATE_KEY ∧
  apply_template (StoredObject_new h CKO_PRIVATE_KEY now) tpl = Ok (ec_import h now label params p).
Proof.
  unfold into_template. intros -> Hlen [= <-]. split; [done|].
  assert (E : (MAX_KEY_MATERIAL_LEN <? Z.of_nat (length (ep_private_scalar p))) = false)
    by (apply Z.ltb_ge; lia).
  unfold ec_import. destruct (ep_public_point p) as [pt|]; cbn;
    unfold apply_attribute; cbn; rewrite E; reflexivity.
Qed.

Lemma apply_rsa_template h now label p tpl :
  Forall (λ q, Z.of_nat (length q.2) <= MAX_EXTRA_VALUE_LEN) (rsa_secrets p) →
  into_template (RsaPrivate p) label = Returns tpl →
  template_class tpl = Some CKO_PRIVATE_KEY ∧
  apply_template (StoredObject_new h CKO_PRIVATE_KEY now) tpl = Ok (rsa_import h now label p).
Proof.
  intros Hlen. unfold into_template. intros [= <-]. split; [done|].
  transitivity (apply_template (private_import h now CKK_RSA label
    <| o_modulus := Some (rp_modulus p) |>
    <| o_public_exponent := Some (rp_public_exponent p) |>) (rsa_secrets p)); [reflexivity|].
  rewrite apply_extras; [reflexivity| |vm_compute; discriminate].
  apply Forall_and. split; [|exact Hlen]. repeat (apply Forall_cons; split; [done|]). by apply Forall_nil.
Qed.

Lemma public_template_rejected k label tpl h now :
  match k with RsaPublic _ | EcPublic _ => True | _ => False end →
  into_template k label = Returns tpl →
  template_class tpl = Some CKO_PUBLIC_KEY ∧
  apply_template (StoredObject_new h CKO_PUBLIC_KEY now) tpl = Err AttributeReadOnly.
Proof.
  destruct k as [|p| |p]; try done; intros _; unfold into_template.
  - intros [= <-]. done.
  - destruct (ec_params_der (eu_curve p)); [|done]. intros [= <-]. done.
Qed.

(** No usage attribute is set. *)
Definition no_usage (o : StoredObject) : Prop :=
  o_can_encrypt o = false ∧ o_can_decrypt o = false ∧ o_can_sign o = false ∧
  o_can_verify o = false ∧ o_can_wrap o = false ∧ o_can_unwrap o = false ∧
  o_can_derive o = false.

(** A private, sensitive, not extractable token object. *)
Definition protected_import (o : StoredObject) : Prop :=
  o_class o = CKO_PRIVATE_KEY ∧ o_token_object o = true ∧ o_private o = true ∧
  o_sensitive o = true ∧ o_extractable o = false ∧ no_usage o.

(** The RSA secrets fit the limit on attribute values. *)
Definition secrets_fit (k : ParsedKey) : Prop :=
  match k with
  | RsaPrivate p => Forall (λ q, Z.of_nat (length q.2) <= MAX_EXTRA_VALUE_LEN) (rsa_secrets p)
  | _ => True
  end.

Lemma create_object_eq e now tpl s class h a :
  objects_len s < MAX_OBJECTS → oh_next (os_alloc s) = (Ok h, a) →
  template_class tpl = Some class →
  create_object e now tpl s =
    match apply_template (StoredObject_new h class now) tpl with
    | Err x => (Err x, s <| os_alloc := a |>)
    | Ok obj =>
      let s := persist_object e obj (s <| os_alloc := a |>) in
      (Ok h, s <| os_objects := <[h := obj]> (os_objects s) |>)
    end.
Proof.
  intros Hlen Ha Hc. unfold create_object. rewrite (proj2 (Z.leb_gt _ _)) by done.
  by rewrite Hc, Ha.
Qed.

(** What importing a key file gives, for every file the parser accepts.  An
    EC private key becomes a protected object that holds the scalar of the
    file, padded to the field size, its curve and its public point; its value
    cannot be read back.  An RSA private key becomes an object without key
    material, whose private exponent and primes any logged-in reader gets
    although the object is sensitive and not extractable.  No imported key has
    a usage attribute.  A public key is always refused, and the store is
    unchanged but for the handle. *)
Theorem import_outcomes e now data k label tpl s h a
    (Hparse : ParsedKey_from_bytes data = Ok k)
    (Htpl : into_template k label = Returns tpl) (Hfit : secrets_fit k)
    (Hroom : objects_len s < MAX_OBJECTS) (Halloc : oh_next (os_alloc s) = (Ok h, a)) :
  match k with
  | EcPrivate p =>
    ∃ o s', create_object e now tpl s = (Ok h, s') ∧ os_objects s' !! h = Some o ∧
      protected_import o ∧ o_key_material o = Some (ep_private_scalar p) ∧
      length (ep_private_scalar p) = field_len (ep_curve p) ∧
      (o_ec_point o ≫= read_octet_string) = ep_public_point p ∧
      ∀ logged_in v, read_attribute o CKA_VALUE logged_in ≠ Ok v
  | RsaPrivate p =>
    ∃ o s', create_object e now tpl s = (Ok h, s') ∧ os_objects s' !! h = Some o ∧
      protected_import o ∧ o_key_material o = None ∧
      ∀ t v, (t, v) ∈ rsa_secrets p → read_attribute o t true = Ok (Some v)
  | RsaPublic _ | EcPublic _ =>
    create_object e now tpl s = (Err AttributeReadOnly, s <| os_alloc := a |>)
  end.
Proof using GL.
  pose proof (from_bytes_well_formed _ _ Hparse) as Hwf.
  destruct k as [p|p|p|p].
  - destruct (apply_rsa_template h now label p tpl Hfit Htpl) as [Hc Ho].
    rewrite (create_object_eq _ _ _ _ _ _ _ Hroom Halloc Hc), Ho.
    exists (rsa_import h now label p). eexists. split; [reflexivity|].
    split; [apply lookup_insert_eq|]. split; [done|]. split; [done|].
    intros t v Ht. repeat (apply elem_of_cons in Ht as [[= -> ->]|Ht]; [reflexivity|]).
    by apply elem_of_nil in Ht.
  - destruct (public_template_rejected (RsaPublic p) label tpl h now I Htpl) as [Hc Ho].
    by rewrite (create_object_eq _ _ _ _ _ _ _ Hroom Halloc Hc), Ho.
  - destruct Hwf as [Hl Hpt]. destruct (ec_params_der_eq (ep_curve p)) as (params & Hp & _).
    destruct (apply_ec_template h now label p params tpl Hp) as [Hc Ho]; [|done|].
    { rewrite Hl. by destruct (ep_curve p). }
    rewrite (create_object_eq _ _ _ _ _ _ _ Hroom Halloc Hc), Ho.
    exists (ec_import h now label params p). eexists. split; [reflexivity|].
    split; [apply lookup_insert_eq|]. split; [done|]. split; [done|]. split; [done|].
    split; [|by intros [] v].
    change (o_ec_point (ec_import h now label params p))
      with (wrap_octet_string <$> ep_public_point p).
    destruct (ep_public_point p) as [pt|]; [|done]. simpl. apply read_wrapped.
    destruct (Hpt pt eq_refl) as [_ ->]. by destruct (ep_curve p).
  - destruct (public_template_rejected (EcPublic p) label tpl h now I Htpl) as [Hc Ho].
    by rewrite (create_object_eq _ _ _ _ _ _ _ Hroom Halloc Hc), Ho.
Qed.
End Outcomes.

(** ** A textbook key *)

Definition toy_rsa_key : RsaKey :=
  {| rk_n := 3233; rk_e := 17; rk_d := 2753; rk_primes := [61; 53]; rk_dp := Some 53;
     rk_dq := None; rk_coefficient := Some 38 |}.

(** Decoders that know one PKCS#8 file and the two curves. *)
Definition toy_crates : KeyFileCrates := {|
  pem_decode_vec _ := None;
  PrivateKeyInfo_try_from b :=
    if bool_decide (b = [48; 1]) then
      Some {| pki_algorithm := {| ai_oid := OID_RSA_ENCRYPTION; ai_parameters := None |};
              pki_private_key := [48; 2] |}
    else None;
  SubjectPublicKeyInfo_try_from _ := None;
  any_decode_as_oid _ := None;
  Pkcs1RsaPrivateKey := bytes;
  Pkcs1RsaPrivateKey_from_der b := Some b;
  Pkcs1RsaPrivateKey_to_der b := Some b;
  Pkcs1RsaPublicKey := bytes;
  Pkcs1RsaPublicKey_from_der _ := None;
  Pkcs1RsaPublicKey_to_der b := Some b;
  RsaPrivateKey_from_pkcs1_der b := if bool_decide (b = [48; 2]) then Some toy_rsa_key else None;
  RsaPrivateKey_validate key := foldr Z.mul 1 (rk_primes key) =? rk_n key;
  RsaPublicKey_from_pkcs1_der _ := None;
  EcPrivateKey_from_der _ := None;
  to_bytes_be z := [z / 256; z mod 256];
  oid_to_der oid :=
    match Curve_from_oid oid with
    | Some P256 => Some [6; 8; 42; 134; 72; 206; 61; 3; 1; 7]
    | Some P384 => Some [6; 5; 43; 129; 4; 0; 34]
    | None => None
    end;
|}.
#[export] Instance toy_crates_laws : KeyFileCratesLaws toy_crates.
Proof. split; reflexivity. Defined.

Definition toy_parsed : ParsedRsaPrivate :=
  {| rp_modulus := [12; 161]; rp_public_exponent := [0; 17]; rp_private_exponent := [10; 193];
     rp_prime_1 := [0; 61]; rp_prime_2 := [0; 53]; rp_exponent_1 := [0; 53];
     rp_exponent_2 := [0; 49]; rp_coefficient := [0; 38] |}.
Definition toy_template : Template :=
  match @into_template toy_crates (RsaPrivate toy_parsed) [107] with
  | Returns tpl => tpl
  | Panicked => []
  end.
Definition import_store : ObjectStore ObjectHandleAllocator := ObjectStore_new demo_object_alloc.
Definition import_next : HsmResult Z * ObjectHandleAllocator := oh_next (os_alloc import_store).
Definition import_handle : Z := match import_next.1 with Ok h => h | Err _ => 0 end.

Lemma import_outcomes_witness :
  ∃ o s', @create_object toy_primitives toy_hex toy_codec _ _ demo_persist_env 0 toy_template
      import_store = (Ok import_handle, s') ∧
    os_objects s' !! import_handle = Some o ∧ protected_import o ∧ o_key_material o = None ∧
    ∀ t v, (t, v) ∈ rsa_secrets toy_parsed → read_attribute o t true = Ok (Some v).
Proof.
  refine (@import_outcomes toy_crates _ toy_primitives toy_hex toy_codec _ _ demo_persist_env 0
    [48; 1] (RsaPrivate toy_parsed) [107] toy_template import_store import_handle import_next.2
    _ _ _ _ _).
  - vm_compute. reflexivity.
  - reflexivity.
  - repeat (apply Forall_cons; split; [vm_compute; discriminate|]). by apply Forall_nil.
  - vm_compute. reflexivity.
  - vm_compute. reflexivity.
Defined.
