(* ===== verification/Admin.v ===== *)
(** * The administration tool (tools/craton-hsm-admin)

    The commands of src/commands/{mod,token,pin,key,backup}.rs.  Every command
    runs in a process of its own: it loads the configuration, builds a core on
    the storage directory, and works on slot 0.  What the operator types are
    two lists, one of hidden answers (PINs and passphrases, a missing one being
    a failed prompt) and one of lines of standard input (a missing one being
    empty).  An error message is a constructor of [CliError].  Delays between
    attempts and printing are not modelled; what a command prints is its
    result. *)

From S2P Require Import Prelude StateError Pkcs11 Handles Hash PinCrypto TokenFiles Token Session SessionManager Dates Objects ObjectStore AuditChain Encrypt Abi Mechanisms Config Operations KeyManagement Backup ImportParse.

Definition ADMIN_SLOT_ID : Z := 0.
Definition MAX_SO_AUTH_ATTEMPTS : nat := 3.
Definition MIN_PASSPHRASE_LENGTH : nat := 12.

Inductive PinWeakness := RepeatedByte | SequentialPattern | FewDistinctBytes.

Inductive CliError :=
| ConfigRejected (x : LoadError)
| CorePanic
| NoToken
| NotInitialised
| PromptFailed
| AuthenticationFailed
| InvalidUserType
| PinsDiffer
| PinLengthRejected
| PinWeak (w : PinWeakness)
| PinChangeFailed
| PinResetFailed
| InitFailed
| EmptyPassphrase
| ShortPassphrase
| PassphrasesDiffer
| BackupFailed (x : HsmError)
| BackupFileExists
| BackupWriteFailed
| BackupNotFound
| RestoreFailed (x : HsmError)
| GuardFailed (x : HsmError)
| DuplicateHandle (handle : Z)
| InsertFailed (handle : Z) (restored : nat) (x : HsmError)
| KeyFileUnreadable
| UnsupportedKeyType
| AesClass
| AesLength
| KeyFileRejected (x : ParseError)
| KeyTypeDiffers
| ImportCancelled
| ImportFailed (x : HsmError)
| ObjectNotFound
| ObjectChanged
| DestroyFailed (x : HsmError).

(** ** PINs (commands/pin.rs) *)

Fixpoint windows_all (f : Z → Z → bool) (pin : bytes) : bool :=
  match pin with
  | a :: (b :: _) as rest => f a b && windows_all f rest
  | _ => true
  end.

Definition validate_pin_complexity (pin : bytes) : Result PinWeakness unit :=
  let repeated := match pin with b :: _ => forallb (Z.eqb b) pin | [] => false end in
  if (1 <? length pin)%nat && repeated then Err RepeatedByte
  else
    let ascending := windows_all (λ a b, b =? wrap 8 (a + 1)) pin in
    let descending := windows_all (λ a b, a =? wrap 8 (b + 1)) pin in
    if (4 <=? length pin)%nat && (ascending || descending) then Err SequentialPattern
    else if (size (list_to_set pin : gset Z) <? 2)%nat then Err FewDistinctBytes
    else Ok tt.

(** [str::to_uppercase], as far as the words compared with go: ASCII letters,
    and the one other character whose upper case is [S]. *)
Fixpoint upper_word (s : bytes) : bytes :=
  match s with
  | [] => []
  | a :: s' =>
    match s' with
    | b :: s2 => if (a =? 197) && (b =? 191) then 83 :: upper_word s2
                 else (if in_range 97 a 122 then a - 32 else a) :: upper_word s'
    | [] => [if in_range 97 a 122 then a - 32 else a]
    end
  end.

(** ** Processes *)

(** The running process. *)
Record World (A B : Type) := {
  w_core : HsmCore A B;
  w_hidden : list bytes;
  w_lines : list bytes;
  w_guard : File bytes;
}.
Arguments w_core {A B} w.
Arguments w_hidden {A B} w.
Arguments w_lines {A B} w.
Arguments w_guard {A B} w.
Arguments Build_World {A B}.
#[export] Instance World_expand {A B} : FieldExpansion (World A B) := λ w,
  Build_World (w_core w) (w_hidden w) (w_lines w) (w_guard w).

Section Admin.
Context {P : PinPrimitives} {X : HexCodec} {HP : HashPrimitives}.
Context {C : ObjectCodec} {SO : StoreOrder} {AC : AuditCodec}.
Context {BK : BackupCodec} {G : KeyFileCrates}.
Context {A B : Type} {HS : HandleSource A} {OH : ObjectHandles B}.

(** What a process finds when it starts: the configuration, the outcomes the
    construction of the core depends on, and the disk. *)
Record Process := {
  pr_load : LoadEnv;
  pr_config_path : bytes;
  pr_debug : bool;
  pr_drbg : HsmResult unit;
  pr_alloc_s : A;
  pr_alloc_o : B;
  pr_store : HsmResult EncryptedStore;
  pr_log_path : HsmResult unit;
  pr_log_open : AuditChain.OpenOutcome;
  pr_log_read : nat → bool;
  pr_log_files : AuditFiles;
  pr_disk : Disk;
}.

(** What its calls observe: the environment of each token operation, by its
    number; of the store, by handle; the clock in seconds; and the backup. *)
Record AdminEnv := {
  ae_token : nat → Env;
  ae_persist : Z → PersistEnv;
  ae_wall : Z;
  ae_guard_io : GuardIO;
  ae_backup : BackupEnv;
  ae_write_ok : bool;
}.

(** A command's steps. *)
Definition Admin (T : Type) : Type := Run (World A B) CliError T.
Definition on_core {T} (f : HsmCore A B → T * HsmCore A B) : Admin T :=
  rcall (λ w, let '(v, c) := f (w_core w) in (v, w <| w_core := c |>)).

(** [rpassword::prompt_password] and [read_line]. *)
Definition prompt_password : Admin bytes := λ w,
  match w_hidden w with
  | [] => (Err PromptFailed, w)
  | pin :: rest => (Ok pin, w <| w_hidden := rest |>)
  end.
Definition read_line : Admin bytes := λ w,
  match w_lines w with
  | [] => (Ok [], w)
  | line :: rest => (Ok line, w <| w_lines := rest |>)
  end.

(** [load_config], then [HsmCore::new]. *)
Definition load_config (p : Process) : Result CliError HsmConfig :=
  match load_from_path (pr_load p) (pr_config_path p) with
  | Err x => Err (ConfigRejected x)
  | Ok config =>
    match validate (le_fs (pr_load p)) config with
    | Err errs => Err (ConfigRejected (Invalid errs))
    | Ok _ => Ok config
    end
  end.

Definition core_config (config : HsmConfig) : CoreConfig :=
  {| cc_token := token_settings config; cc_slot_count := tc_slot_count (c_token config);
     cc_audit_enabled := au_enabled (c_audit config) |}.

Definition HsmCore_new (p : Process) (config : HsmConfig) : Result CliError (HsmCore A B) :=
  match try_new (pr_debug p) (core_config config) (pr_drbg p) (pr_alloc_s p) (pr_alloc_o p)
          (pr_store p) (pr_log_path p) (pr_log_open p) (pr_log_read p) (pr_log_files p)
          CipherState_empty (pr_disk p) with
  | Ok core => Ok core
  | Err _ => Err CorePanic
  end.

(** A command body on a new core. *)
Definition with_hsm {T} (p : Process) (hidden lines : list bytes) (guard : File bytes)
    (body : HsmConfig → Admin T) : Result CliError T * option (World A B) :=
  match load_config p with
  | Err x => (Err x, None)
  | Ok config =>
    match HsmCore_new p config with
    | Err x => (Err x, None)
    | Ok core =>
      let '(r, w) := body config
        {| w_core := core; w_hidden := hidden; w_lines := lines; w_guard := guard |} in
      (r, Some w)
    end
  end.

(** [get_token(0)], and an operation on that token. *)
Definition the_token : Admin Token := λ w,
  (match slot_manager (w_core w) !! ADMIN_SLOT_ID with Some t => Ok t | None => Err NoToken end, w).
Definition on_token (op : TokenWorld → HsmResult unit * TokenWorld) : Admin (HsmResult unit) := λ w,
  match slot_manager (w_core w) !! ADMIN_SLOT_ID with
  | None => (Err NoToken, w)
  | Some t =>
    let '(r, tw) := op (t, core_disk (w_core w)) in
    (Ok r, w <| w_core := put_world ADMIN_SLOT_ID tw (w_core w) |>)
  end.

(** ** Authentication (commands/mod.rs) *)

(** The attempts to log in: the PIN that was accepted.  [attempt] counts from
    0, and [n] attempts are left. *)
Fixpoint login_attempts (e : AdminEnv) (ck_user : Z) (attempt n : nat) : Admin bytes :=
  match n with
  | O => rfail AuthenticationFailed
  | S n =>
    do! pin := prompt_password in
    do! r := on_token (login ck_user pin (ae_token e attempt)) in
    match r with
    | Ok _ => rret pin
    | Err _ => login_attempts e ck_user (S attempt) n
    end
  end.

Definition authenticate_so (e : AdminEnv) : Admin unit :=
  do! token := the_token in
  if negb (is_initialized token) then rfail NotInitialised
  else do! _ := login_attempts e CKU_SO 0 MAX_SO_AUTH_ATTEMPTS in rret tt.

(** [logout], swallowing errors; it is the last token operation. *)
Definition admin_logout (e : AdminEnv) : Admin unit := λ w,
  let '(_, w) := on_token (logout (ae_token e 4)) w in (Ok tt, w).

(** [authenticate_user] of commands/key.rs. *)
Definition authenticate_user (e : AdminEnv) : Admin unit :=
  do! token := the_token in
  if negb (is_initialized token) then rfail NotInitialised
  else
    do! role_input := read_line in
    let word := upper_word (trim role_input) in
    let ck_user :=
      if bool_decide (word ∈ [ascii_bytes "S"; ascii_bytes "SO"]) then CKU_SO else CKU_USER in
    do! _ := login_attempts e ck_user 0 3 in rret tt.

(** ** PIN commands (commands/pin.rs) *)

(** The new PIN, typed twice and checked; every refusal logs out. *)
Definition new_pin (e : AdminEnv) (config : HsmConfig) : Admin bytes :=
  do! new_pin := prompt_password in
  do! confirm := prompt_password in
  let refuse x := do! _ := admin_logout e in rfail x in
  if negb (bool_decide (new_pin = confirm)) then refuse PinsDiffer
  else if (length new_pin <? sc_pin_min_length (c_security config))%nat
       || (sc_pin_max_length (c_security config) <? length new_pin)%nat
  then refuse PinLengthRejected
  else
    match validate_pin_complexity new_pin with
    | Err reason => refuse (PinWeak reason)
    | Ok _ => rret new_pin
    end.

Definition pin_change (e : AdminEnv) (user_type : bytes) (config : HsmConfig) : Admin unit :=
  do! token := the_token in
  if negb (is_initialized token) then rfail NotInitialised
  else
    let word := upper_word user_type in
    do! ck_user :=
      (if bool_decide (word = ascii_bytes "USER") then rret CKU_USER
       else if bool_decide (word = ascii_bytes "SO") then rret CKU_SO
       else rfail InvalidUserType) in
    do! old_pin := login_attempts e ck_user 0 3 in
    do! pin := new_pin e config in
    do! r := on_token (set_pin old_pin pin (ae_token e 3)) in
    do! _ := admin_logout e in
    match r with Ok _ => rret tt | Err _ => rfail PinChangeFailed end.

Definition pin_reset (e : AdminEnv) (config : HsmConfig) : Admin unit :=
  do! token := the_token in
  if negb (is_initialized token) then rfail NotInitialised
  else
    do! _ := login_attempts e CKU_SO 0 3 in
    do! pin := new_pin e config in
    do! r := on_token (init_pin pin (ae_token e 3)) in
    do! _ := admin_logout e in
    match r with Ok _ => rret tt | Err _ => rfail PinResetFailed end.

(** ** Token commands (commands/token.rs) *)

Definition token_init (e : AdminEnv) (label : bytes) (config : HsmConfig) : Admin unit :=
  do! _ := the_token in
  do! so_pin := prompt_password in
  do! confirm := prompt_password in
  if negb (bool_decide (so_pin = confirm)) then rfail PinsDiffer
  else if (length so_pin <? sc_pin_min_length (c_security config))%nat
       || (sc_pin_max_length (c_security config) <? length so_pin)%nat
  then rfail PinLengthRejected
  else
    match validate_pin_complexity so_pin with
    | Err reason => rfail (PinWeak reason)
    | Ok _ =>
      let copied := take 32 label in
      let label_bytes := copied ++ replicate (32 - length copied) 32 in
      do! r := on_token (init_token so_pin label_bytes (ae_token e 0)) in
      match r with Ok _ => rret tt | Err _ => rfail InitFailed end
    end.

(** What [token info] and [status] print. *)
Record TokenReport := {
  tr_initialized : bool;
  tr_user_pin_initialized : bool;
  tr_login_state : LoginState;
  tr_sessions : Z * Z;
  tr_rw_sessions : Z * Z;
  tr_pin_len : nat * nat;
  tr_flags : Z;
}.
Definition token_info : Admin TokenReport :=
  do! t := the_token in
  rret {| tr_initialized := is_initialized t;
          tr_user_pin_initialized := is_user_pin_initialized t;
          tr_login_state := login_state t;
          tr_sessions := (t_session_count t, t_max_sessions t);
          tr_rw_sessions := (t_rw_session_count t, t_max_rw_sessions t);
          tr_pin_len := (t_pin_min_len t, t_pin_max_len t);
          tr_flags := flags t |}.

Definition objects_visible : Admin (list Z) := λ w,
  (Ok (find_objects [] true (object_store (w_core w))), w).

Record StatusReport := {
  sr_initialized : bool;
  sr_objects : nat;
  sr_audit_entries : nat;
  sr_max_sessions : Z;
  sr_pqc : bool;
}.
Definition status (config : HsmConfig) : Admin StatusReport :=
  do! t := the_token in
  do! handles := objects_visible in
  λ w, (Ok {| sr_initialized := is_initialized t; sr_objects := length handles;
              sr_audit_entries := length (al_entries (audit_log (w_core w)));
              sr_max_sessions := tc_max_sessions (c_token config);
              sr_pqc := enable_pqc (al_policy (c_algorithms config)) |}, w).

(** ** Key commands (commands/key.rs) *)

(** The objects [key list] prints. *)
Definition key_list (e : AdminEnv) : Admin (list StoredObject) :=
  do! _ := authenticate_user e in
  do! handles := objects_visible in
  do! objects := (λ w, (Ok (omap (λ h, os_objects (object_store (w_core w)) !! h) handles), w)) in
  do! _ := admin_logout e in
  rret objects.

(** The template of an AES key file. *)
Definition aes_template (label key_data : bytes) : Template :=
  [(CKA_CLASS, ck_ulong_bytes CKO_SECRET_KEY); (CKA_KEY_TYPE, ck_ulong_bytes CKK_AES);
   (CKA_LABEL, label); (CKA_TOKEN, [1]); (CKA_PRIVATE, [1]); (CKA_SENSITIVE, [1]);
   (CKA_VALUE_LEN, ck_ulong_bytes (Z.of_nat (length key_data))); (CKA_VALUE, key_data)].

(** The template for a key file, before any prompt. *)
Definition import_template (key_data label key_type : bytes) (class : option bytes) :
    Result CliError Template :=
  let upper_type := upper_word key_type in
  if bool_decide (upper_type = ascii_bytes "AES") then
    if match class with
       | Some c => negb (eq_ignore_ascii_case c (ascii_bytes "secret"))
       | None => false
       end
    then Err AesClass
    else if negb (bool_decide (length key_data ∈ [16; 24; 32]%nat)) then Err AesLength
    else Ok (aes_template label key_data)
  else if bool_decide (upper_type ∈ [ascii_bytes "RSA"; ascii_bytes "EC"]) then
    match ParsedKey_from_bytes key_data with
    | Err x => Err (KeyFileRejected x)
    | Ok parsed =>
      if negb (bool_decide (key_type_name parsed = upper_type)) then Err KeyTypeDiffers
      else
        match confirm_class parsed class with
        | Err x => Err (KeyFileRejected x)
        | Ok _ =>
          match into_template parsed label with
          | Returns template => Ok template
          | Panicked => Err CorePanic
          end
        end
    end
  else Err UnsupportedKeyType.

Definition create_key (e : AdminEnv) (template : Template) : Admin (HsmResult Z) :=
  on_core (λ c,
    let '(r, s) := create_object (ae_persist e 0) (ae_wall e) template (object_store c) in
    (r, c <| object_store := s |>)).

(** The part of [import] after the core is built. *)
Definition import_on_core (e : AdminEnv) (template : Template) : Admin Z :=
  do! _ := authenticate_user e in
  do! r := create_key e template in
  match r with
  | Err x => rfail (ImportFailed x)
  | Ok handle => do! _ := admin_logout e in rret handle
  end.

Definition key_import (p : Process) (e : AdminEnv) (file : option bytes)
    (label key_type : bytes) (class : option bytes) (yes : bool)
    (hidden lines : list bytes) (guard : File bytes) : Result CliError Z * option (World A B) :=
  match file with
  | None => (Err KeyFileUnreadable, None)
  | Some key_data =>
    match import_template key_data label key_type class with
    | Err x => (Err x, None)
    | Ok template =>
      let answer := default [] (head lines) in
      if negb yes && negb (eq_ignore_ascii_case (trim answer) (ascii_bytes "y"))
      then (Err ImportCancelled, None)
      else
        let lines := if yes then lines else tail lines in
        with_hsm p hidden lines guard (λ _, import_on_core e template)
    end
  end.

(** The identity [delete] shows and checks again. *)
Definition identity (o : StoredObject) : bytes * Z * option Z * bool :=
  (o_label o, o_class o, o_key_type o, o_sensitive o).

Definition find_object (handle : Z) : Admin StoredObject := λ w,
  (match get_object handle (object_store (w_core w)) with
   | Ok o => Ok o
   | Err _ => Err ObjectNotFound
   end, w).

(** [delete]: [true] when the object was destroyed. *)
Definition key_delete (e : AdminEnv) (handle : Z) (force : bool) : Admin bool :=
  do! _ := authenticate_user e in
  do! before := find_object handle in
  do! proceed :=
    (if force then rret true
     else do! answer := read_line in
          rret (eq_ignore_ascii_case (trim answer) (ascii_bytes "y"))) in
  if negb proceed then do! _ := admin_logout e in rret false
  else
    do! now := find_object handle in
    if negb (bool_decide (identity now = identity before))
    then do! _ := admin_logout e in rfail ObjectChanged
    else
      do! r := on_core (λ c,
        let '(r, s) := destroy_object (ae_persist e handle) handle (object_store c) in
        (r, c <| object_store := s |>)) in
      match r with
      | Err x => rfail (DestroyFailed x)
      | Ok _ => do! _ := admin_logout e in rret true
      end.

(** ** Backup commands (commands/backup.rs) *)

Definition prompt_passphrase (confirm : bool) (hidden : list bytes) :
    Result CliError bytes * list bytes :=
  match hidden with
  | [] => (Err PromptFailed, [])
  | passphrase :: hidden =>
    if bool_decide (passphrase = []) then (Err EmptyPassphrase, hidden)
    else if confirm && (length passphrase <? MIN_PASSPHRASE_LENGTH)%nat
    then (Err ShortPassphrase, hidden)
    else if negb confirm then (Ok passphrase, hidden)
    else
      match hidden with
      | [] => (Err PromptFailed, [])
      | again :: hidden =>
        (if bool_decide (passphrase = again) then Ok passphrase else Err PassphrasesDiffer, hidden)
      end
  end.

(** [create_backup]: the bytes written to a new file.  [exists_already] is
    whether the output path exists. *)
Definition backup_create (e : AdminEnv) (exists_already : bool) (config : HsmConfig) :
    Admin bytes := λ w,
  match prompt_passphrase true (w_hidden w) with
  | (Err x, hidden) => (Err x, w <| w_hidden := hidden |>)
  | (Ok passphrase, hidden) =>
    let w := w <| w_hidden := hidden |> in
    let objects := export_all_objects (object_store (w_core w)) in
    match create_backup objects passphrase (tc_serial_number (c_token config))
            (Some (sc_pbkdf2_iterations (c_security config))) (ae_backup e) with
    | Err x => (Err (BackupFailed x), w)
    | Ok backup_data =>
      if exists_already then (Err BackupFileExists, w)
      else if negb (ae_write_ok e) then (Err BackupWriteFailed, w)
      else (Ok backup_data, w)
    end
  end.

(** The staging pass of [stage_and_commit_objects]: the objects to insert and
    the number skipped. *)
Fixpoint stage_objects (s : ObjectStore B) (objects : list StoredObject)
    (staged_handles : gset Z) : Result CliError (list StoredObject * nat) :=
  match objects with
  | [] => Ok ([], O)
  | obj :: objects =>
    if is_ok (get_object (o_handle obj) s) then
      let? rest := stage_objects s objects staged_handles in Ok (rest.1, S rest.2)
    else if bool_decide (o_handle obj ∈ staged_handles) then Err (DuplicateHandle (o_handle obj))
    else
      let? rest := stage_objects s objects ({[o_handle obj]} ∪ staged_handles) in
      Ok (obj :: rest.1, rest.2)
  end.

Fixpoint commit_objects (e : AdminEnv) (staged : list StoredObject) (restored : nat)
    (s : ObjectStore B) : Result CliError nat * ObjectStore B :=
  match staged with
  | [] => (Ok restored, s)
  | obj :: staged =>
    match insert_object (ae_persist e (o_handle obj)) obj s with
    | (Ok _, s) => commit_objects e staged (S restored) s
    | (Err x, s) => (Err (InsertFailed (o_handle obj) restored x), s)
    end
  end.

(** The objects restored and skipped. *)
Definition stage_and_commit_objects (e : AdminEnv) (objects : list StoredObject) :
    Admin (nat * nat) := λ w,
  let s := object_store (w_core w) in
  match stage_objects s objects ∅ with
  | Err x => (Err x, w)
  | Ok (staged, skipped) =>
    let '(r, s) := commit_objects e staged 0 s in
    (let? restored := r in Ok (restored, skipped),
     w <| w_core := w_core w <| object_store := s |> |>)
  end.

(** Recording the identifiers the restore added; at most one is new. *)
Fixpoint record_ids (io : GuardIO) (ids : list bytes) (g : PersistentReplayGuard) (f : File bytes) :
    Result CliError unit * File bytes :=
  match ids with
  | [] => (Ok tt, f)
  | id :: ids =>
    if is_consumed id g then record_ids io ids g f
    else
      match guard_record io id g f with
      | (Err x, _, f) => (Err (GuardFailed x), f)
      | (Ok _, g, f) => record_ids io ids g f
      end
  end.

Definition restore_backup_authenticated (e : AdminEnv) (backup_data passphrase serial : bytes)
    (iterations : Z) (g : PersistentReplayGuard) : Admin (nat * nat) := λ w,
  match restore_backup backup_data passphrase serial None (Some iterations) (ae_wall e)
          (Some (rg_ids g)) with
  | (Err x, _) => (Err (RestoreFailed x), w)
  | (Ok objects, consumed) =>
    match record_ids (ae_guard_io e) (elements (default ∅ consumed)) g (w_guard w) with
    | (Err x, f) => (Err x, w <| w_guard := f |>)
    | (Ok _, f) => stage_and_commit_objects e objects (w <| w_guard := f |>)
    end
  end.

(** [restore_backup_core]; the guard is read once the SO is authenticated. *)
Definition restore_backup_core (e : AdminEnv) (backup_data passphrase : bytes)
    (config : HsmConfig) : Admin (nat * nat) :=
  do! _ := authenticate_so e in
  λ w,
    let '(result, w) :=
      restore_backup_authenticated e backup_data passphrase (tc_serial_number (c_token config))
        (sc_pbkdf2_iterations (c_security config)) (guard_new (w_guard w)) w in
    (result, (admin_logout e w).2).

Definition backup_restore (p : Process) (e : AdminEnv) (input : option bytes)
    (hidden lines : list bytes) (guard : File bytes) :
    Result CliError (nat * nat) * option (World A B) :=
  match input with
  | None => (Err BackupNotFound, None)
  | Some backup_data =>
    match prompt_passphrase false hidden with
    | (Err x, _) => (Err x, None)
    | (Ok passphrase, hidden) =>
      with_hsm p hidden lines guard (restore_backup_core e backup_data passphrase)
    end
  end.

(** ** One process, one command *)

Inductive Command :=
| TokenInit (label : bytes)
| TokenInfo
| Status
| PinChange (user_type : bytes)
| PinReset
| KeyList
| KeyImport (file : option bytes) (label key_type : bytes) (class : option bytes) (yes : bool)
| KeyDelete (handle : Z) (force : bool)
| BackupCreate (exists_already : bool)
| BackupRestore (input : option bytes).

(** The world a command leaves, when it got as far as building the core. *)
Definition run_command (p : Process) (e : AdminEnv) (c : Command) (hidden lines : list bytes)
    (guard : File bytes) : option (World A B) :=
  let run {T} (body : HsmConfig → Admin T) := (with_hsm p hidden lines guard body).2 in
  match c with
  | TokenInit label => run (token_init e label)
  | TokenInfo => run (λ _, token_info)
  | Status => run status
  | PinChange user_type => run (pin_change e user_type)
  | PinReset => run (pin_reset e)
  | KeyList => run (λ _, key_list e)
  | KeyImport file label key_type class yes =>
    (key_import p e file label key_type class yes hidden lines guard).2
  | KeyDelete handle force => run (λ _, key_delete e handle force)
  | BackupCreate exists_already => run (backup_create e exists_already)
  | BackupRestore input => (backup_restore p e input hidden lines guard).2
  end.
End Admin.
