(* ===== verification/AdminProofs.v ===== *)
(** * The administration tool: theorems

    Restoring a backup needs the SO PIN and works once; no command of the tool
    sees or changes the token objects the library keeps. *)

From S2P Require Import Prelude StateError Pkcs11 Handles Hash PinCrypto TokenFiles Token TokenDemo Session SessionManager SessionProofs Dates Objects ObjectStore ObjectStoreProofs AuditChain AuditProofs Encrypt Abi Mechanisms Config Operations KeyManagement Backup ImportParse ImportProofs Admin.

Section Admin.
Context {P : PinPrimitives} {X : HexCodec} {HP : HashPrimitives}.
Context {C : ObjectCodec} {SO : StoreOrder} {AC : AuditCodec}.
Context {BK : BackupCodec} {G : KeyFileCrates}.
Context {A B : Type} {HS : HandleSource A} {OH : ObjectHandles B}.
Implicit Types (w : World A B) (e : AdminEnv) (p : Process (A:=A) (B:=B)).

(** ** Steps that leave a part of the world alone *)

Definition Step (T : Type) : Type := Admin (A:=A) (B:=B) T.

Lemma keeps_the_token {V} (view : World A B → V) : keeps view the_token.
Proof. by intros w. Qed.
Lemma keeps_objects_visible {V} (view : World A B → V) : keeps view objects_visible.
Proof. by intros w. Qed.
Lemma keeps_find_object {V} (view : World A B → V) h : keeps view (find_object h).
Proof. by intros w. Qed.

(** The object store. *)
Definition store_of w : ObjectStore B := object_store (w_core w).

Lemma keeps_prompt : keeps store_of prompt_password.
Proof. intros w. unfold prompt_password. by destruct (w_hidden w). Qed.
Lemma keeps_line : keeps store_of read_line.
Proof. intros w. unfold read_line. by destruct (w_lines w). Qed.
Lemma keeps_on_token op : keeps store_of (on_token op).
Proof.
  intros w. unfold on_token. destruct (_ !! _) as [t|]; [|done].
  by destruct (op (t, core_disk (w_core w))) as [r tw].
Qed.
Lemma keeps_logout e : keeps store_of (admin_logout e).
Proof.
  intros w. pose proof (keeps_on_token (logout (ae_token e 4)) w) as H.
  unfold admin_logout. by destruct (on_token _ w).
Qed.

Hint Resolve keeps_the_token keeps_objects_visible keeps_find_object keeps_prompt keeps_line
  keeps_on_token keeps_logout : run.

Lemma keeps_attempts e user n : ∀ attempt, keeps store_of (login_attempts e user attempt n).
Proof.
  induction n as [|n IH]; intros attempt; cbn [login_attempts]; [auto with run|].
  run_step.
Qed.
Hint Resolve keeps_attempts : run.
Lemma keeps_auth_so e : keeps store_of (authenticate_so e).
Proof. unfold authenticate_so. run_step. Qed.
Lemma keeps_auth_user e : keeps store_of (authenticate_user e).
Proof. unfold authenticate_user. run_step. Qed.
Hint Resolve keeps_auth_so keeps_auth_user : run.
Lemma keeps_new_pin e config : keeps store_of (new_pin e config).
Proof. unfold new_pin. run_step. Qed.
Hint Resolve keeps_new_pin : run.
Lemma keeps_pin_change e user config : keeps store_of (pin_change e user config).
Proof. unfold pin_change. run_step. Qed.
Lemma keeps_pin_reset e config : keeps store_of (pin_reset e config).
Proof. unfold pin_reset. run_step. Qed.
Lemma keeps_token_init e label config : keeps store_of (token_init e label config).
Proof. unfold token_init. run_step. Qed.
Lemma keeps_token_info : keeps store_of token_info.
Proof. unfold token_info. run_step. Qed.
Lemma keeps_status config : keeps store_of (status config).
Proof. unfold status. run_step. by intros w. Qed.
Lemma keeps_key_list e : keeps store_of (key_list e).
Proof. unfold key_list. run_step. by intros w. Qed.
Lemma keeps_backup_create e ex config : keeps store_of (backup_create e ex config).
Proof.
  intros w. unfold backup_create. destruct (prompt_passphrase _ _) as [[pass|x] hidden]; [|done].
  destruct (create_backup _ _ _ _ _) as [data|x]; [|done]. by destruct ex, (ae_write_ok e).
Qed.

(** ** The store of a new process *)

(** No key to encrypt objects with, on the database [db]. *)
Definition keyless (db : option EncryptedStore) (s : ObjectStore B) : Prop :=
  os_persist_key s = None ∧ os_persist_store s = db.

Lemma persist_keyless pe o (s : ObjectStore B) :
  os_persist_key s = None → persist_object pe o s = s.
Proof.
  intros Hk. unfold persist_object. rewrite Hk. destruct (o_token_object o); [|done]. simpl.
  by destruct (os_persist_store s).
Qed.

Lemma create_keyless pe now tpl db (s : ObjectStore B) :
  keyless db s → keyless db (create_object pe now tpl s).2.
Proof.
  intros [Hk Hdb]. unfold create_object. case_match; [done|]. case_match; [|done].
  destruct (oh_next (os_alloc s)) as [[h|x] a]; [|done]. simpl.
  destruct (apply_template _ tpl) as [o|x]; [|done].
  by rewrite persist_keyless by done.
Qed.

Lemma insert_keyless pe o db (s : ObjectStore B) :
  keyless db s → keyless db (insert_object pe o s).2.
Proof.
  intros [Hk Hdb]. unfold insert_object. case_match; [done|].
  by rewrite persist_keyless by done.
Qed.

Lemma commit_keyless e db staged : ∀ n (s : ObjectStore B),
  keyless db s → keyless db (commit_objects e staged n s).2.
Proof.
  induction staged as [|o staged IH]; intros n s Hs; [done|]. cbn [commit_objects].
  pose proof (insert_keyless (ae_persist e (o_handle o)) o db s Hs) as Hi.
  destruct (insert_object _ o s) as [[h|x] s']; simpl in *; [by apply IH|done].
Qed.

Lemma stage_keyless e objects db w :
  keyless db (store_of w) → keyless db (store_of (stage_and_commit_objects e objects w).2).
Proof.
  intros Hw. unfold stage_and_commit_objects.
  destruct (stage_objects _ objects ∅) as [[staged skipped]|x]; [|done].
  pose proof (commit_keyless e db staged 0 _ Hw) as Hc. unfold store_of in *.
  by destruct (commit_objects e staged 0 _) as [[n|x] s].
Qed.

Lemma restore_core_keyless e data pass config db w :
  keyless db (store_of w) → keyless db (store_of (restore_backup_core e data pass config w).2).
Proof.
  intros Hw. unfold restore_backup_core, rbind. pose proof (keeps_auth_so e w) as Ha.
  destruct (authenticate_so e w) as [[v|x] w1]; simpl in *; [|by rewrite Ha].
  destruct (restore_backup_authenticated _ _ _ _ _ _ w1) as [r w2] eqn:E. simpl.
  rewrite keeps_logout. rewrite <- Ha in Hw. revert E. unfold restore_backup_authenticated.
  destruct (restore_backup _ _ _ _ _ _ _) as [[objects|x] consumed]; [|by intros [= <- <-]].
  destruct (record_ids _ _ _ _) as [[[]|x] f]; [|by intros [= <- <-]].
  intros E. pose proof (stage_keyless e objects db (w1 <| w_guard := f |>)) as Hs.
  rewrite E in Hs. by apply Hs.
Qed.

Lemma kept_keyless {T} (m : Step T) db :
  keeps store_of m → preserves (λ w, keyless db (store_of w)) m.
Proof. intros Hm w Hw. by rewrite Hm. Qed.
Hint Resolve kept_keyless : run.

Lemma import_keyless e tpl db :
  preserves (λ w, keyless db (store_of w)) (import_on_core e tpl).
Proof.
  unfold import_on_core. run_step. unfold create_key, on_core. apply preserves_call. intros w Hw.
  pose proof (create_keyless (ae_persist e 0) (ae_wall e) tpl db _ Hw) as Hc. unfold store_of in *.
  by destruct (create_object _ _ tpl _).
Qed.

(** Without objects there is nothing to delete. *)
Lemma delete_nothing e h force w :
  os_objects (store_of w) = ∅ → store_of (key_delete e h force w).2 = store_of w.
Proof.
  intros Hw. unfold key_delete, rbind. pose proof (keeps_auth_user e w) as Ha.
  destruct (authenticate_user e w) as [[v|x] w1]; simpl in *; [|done].
  unfold find_object, get_object. unfold store_of in *. rewrite Ha, Hw, lookup_empty. done.
Qed.

Lemma new_core_store p config core :
  HsmCore_new p config = Ok core →
  os_objects (object_store core) = ∅ ∧
  ∃ db, keyless db (object_store core) ∧ (db = None ∨ ∃ st, pr_store p = Ok st ∧ db = Some st).
Proof.
  unfold HsmCore_new. destruct (try_new _ _ _ _ _ _ _ _ _ _ _ _) as [c|x] eqn:E; [|done].
  intros [= <-]. revert E. unfold try_new. destruct (pr_drbg p); [|done].
  unfold build_object_store. destruct (cfg_persist_objects _); simpl.
  - destruct (pr_store p) as [st|x]; [|done]. case_match; [|done]. intros [= <-]. simpl.
    split; [done|]. exists (Some st). split; [done|]. right. by exists st.
  - case_match; [|done]. intros [= <-]. simpl. split; [done|]. exists None. split; [done|by left].
Qed.

Lemma export_nothing (s : ObjectStore B) : os_objects s = ∅ → export_all_objects s = [].
Proof.
  intros Hs. unfold export_all_objects. rewrite Hs.
  induction (object_keys ∅) as [|h l IH]; [done|]. simpl. by rewrite lookup_empty.
Qed.

Lemma with_hsm_cases {T} p hidden lines guard (body : HsmConfig → Step T) r ow :
  with_hsm p hidden lines guard body = (r, ow) →
  (ow = None ∧ ∃ x, r = Err x) ∨
  ∃ config core, load_config p = Ok config ∧ HsmCore_new p config = Ok core ∧
    ∃ w', ow = Some w' ∧
    body config {| w_core := core; w_hidden := hidden; w_lines := lines; w_guard := guard |} = (r, w').
Proof.
  unfold with_hsm. destruct (load_config p) as [config|x].
  2: { intros [= <- <-]. left. eauto. }
  destruct (HsmCore_new p config) as [core|x] eqn:E.
  2: { intros [= <- <-]. left. eauto. }
  destruct (body config _) as [r' w'] eqn:Eb. intros [= <- <-]. right.
  exists config, core. split_and!; [done|done|]. by exists w'.
Qed.

Lemma prompt_passphrase_head hidden pass hidden' :
  prompt_passphrase true hidden = (Ok pass, hidden') → head hidden = Some pass.
Proof.
  destruct hidden as [|a hidden]; [done|]. simpl. case_bool_decide; [done|].
  case_match; [done|]. destruct hidden; [done|]. case_bool_decide; by intros [= <- _].
Qed.

(** The database a process leaves behind is the one it found. *)
Definition untouched p w : Prop :=
  ∃ db, keyless db (store_of w) ∧ (db = None ∨ ∃ st, pr_store p = Ok st ∧ db = Some st).

Lemma with_hsm_untouched {T} p hidden lines guard (body : HsmConfig → Step T) w' :
  (∀ config db w, keyless db (store_of w) → os_objects (store_of w) = ∅ →
     keyless db (store_of (body config w).2)) →
  (with_hsm p hidden lines guard body).2 = Some w' → untouched p w'.
Proof.
  intros Hb. destruct (with_hsm p hidden lines guard body) as [r ow] eqn:E. simpl. intros ->.
  apply with_hsm_cases in E as [[? _]|(config & core & _ & Hcore & w0 & [= <-] & E)]; [done|].
  apply new_core_store in Hcore as (Ho & db & Hk & Hdb).
  exists db. split; [|done].
  specialize (Hb config db {| w_core := core; w_hidden := hidden; w_lines := lines;
                              w_guard := guard |} Hk Ho). by rewrite E in Hb.
Qed.

Lemma command_untouched p e c hidden lines guard w' :
  run_command p e c hidden lines guard = Some w' → untouched p w'.
Proof.
  unfold run_command. destruct c as [label| | |user| | |file label kt class yes|h force|ex|input].
  all: try (apply with_hsm_untouched; intros config db w Hk Ho; apply kept_keyless; [|done];
    auto using keeps_token_init, keeps_token_info, keeps_status, keeps_pin_change,
      keeps_pin_reset, keeps_key_list, keeps_backup_create; fail).
  - unfold key_import. destruct file as [data|]; [|done].
    destruct (import_template data label kt class) as [tpl|x]; [|done].
    case_match; [done|]. apply with_hsm_untouched. intros config db w Hk _. by apply import_keyless.
  - apply with_hsm_untouched. intros config db w Hk Ho. by rewrite delete_nothing.
  - unfold backup_restore. destruct input as [data|]; [|done].
    destruct (prompt_passphrase false hidden) as [[pass|x] hidden']; [|done].
    apply with_hsm_untouched. intros config db w Hk _. by apply restore_core_keyless.
Qed.

(** ** Restoring needs the SO PIN *)

(** What accepts the SO PIN: its hash and the iteration count. *)
Definition so_accepts (t : Token) (pin : bytes) : Prop :=
  ∃ stored, t_so_pin_hash t = Some stored ∧ verify_pin t stored pin = true.

Definition same_so (t t' : Token) : Prop :=
  t_so_pin_hash t' = t_so_pin_hash t ∧ t_pbkdf2_iterations t' = t_pbkdf2_iterations t.

Lemma so_accepts_same t t' pin : same_so t t' → so_accepts t' pin → so_accepts t pin.
Proof.
  intros [Eh Ei] (stored & Hs & Hv). exists stored. split; [by rewrite <- Eh|].
  unfold verify_pin in *. by rewrite Ei in Hv.
Qed.

Lemma login_so_cases pin te t d r t' d' :
  login CKU_SO pin te (t, d) = (r, (t', d')) →
  same_so t t' ∧
  match r with
  | Ok _ => so_accepts t pin ∧ login_state t' = SoLoggedIn
  | Err _ => login_state t' = login_state t
  end.
Proof.
  unfold login. simpl. destruct (a_initialized _); [|by intros [= <- <- <-]]. simpl.
  unfold login_so. do 2 (case_bool_decide; [by intros [= <- <- <-]|]).
  destruct (check_rate_limit _ _); [|by intros [= <- <- <-]].
  destruct (t_so_pin_hash t) as [stored|] eqn:Hs; [|by intros [= <- <- <-]].
  destruct (a_so_pin_locked _); [by intros [= <- <- <-]|].
  destruct (verify_pin t stored pin) eqn:Hv; simpl.
  - intros [= <- <- <-]. split; [done|]. split; [|done]. by exists stored.
  - case_match; by intros [= <- <- <-].
Qed.

(** The attempts: one of the PINs typed is accepted, or the token keeps its
    PIN and its login state. *)
Lemma attempts_cases e n : ∀ attempt w r w' t,
  slot_manager (w_core w) !! ADMIN_SLOT_ID = Some t →
  login_attempts e CKU_SO attempt n w = (r, w') →
  ∃ t', slot_manager (w_core w') !! ADMIN_SLOT_ID = Some t' ∧ same_so t t' ∧
  match r with
  | Ok pin => pin ∈ take n (w_hidden w) ∧ so_accepts t pin
  | Err _ => login_state t' = login_state t
  end.
Proof.
  induction n as [|n IH]; intros attempt w r w' t Ht; cbn [login_attempts].
  { intros [= <- <-]. by exists t. }
  unfold rbind, prompt_password. destruct (w_hidden w) as [|pin hidden] eqn:Eh.
  { intros [= <- <-]. by exists t. }
  unfold on_token. cbn [w_core set_field]. rewrite Ht.
  destruct (login CKU_SO pin (ae_token e attempt) (t, core_disk (w_core w))) as [r1 [t1 d1]] eqn:El.
  apply login_so_cases in El as [Hso Hr].
  destruct r1 as [u|x]; simpl.
  - intros [= <- <-]. exists t1. split; [apply lookup_insert_eq|]. split; [done|].
    split; [set_solver|]. apply Hr.
  - intros E. eapply IH in E as (t' & Ht' & Hso' & Hr'); [|apply lookup_insert_eq].
    exists t'. split; [done|]. simpl in Hso', Hr'.
    pose proof Hso as [E1 E2]. destruct Hso' as [E3 E4].
    split; [split; congruence|]. destruct r as [pin'|x']; [|congruence].
    destruct Hr' as [Hin Hacc]. split; [set_solver|]. by apply (so_accepts_same t t1).
Qed.

Lemma guard_prompt : keeps w_guard (prompt_password (A:=A) (B:=B)).
Proof. intros w. unfold prompt_password. by destruct (w_hidden w). Qed.
Lemma guard_on_token op : keeps w_guard (on_token (A:=A) (B:=B) op).
Proof.
  intros w. unfold on_token. destruct (_ !! _) as [t|]; [|done].
  by destruct (op (t, core_disk (w_core w))) as [r tw].
Qed.
Hint Resolve guard_prompt guard_on_token : run.
Lemma guard_attempts e user n : ∀ attempt, keeps w_guard (login_attempts e user attempt n : Step bytes).
Proof.
  induction n as [|n IH]; intros attempt; cbn [login_attempts]; [auto with run|]. run_step.
Qed.
Hint Resolve guard_attempts : run.
Lemma guard_auth_so e : keeps w_guard (authenticate_so e : Step unit).
Proof. unfold authenticate_so. run_step. Qed.
Lemma guard_logout e : keeps w_guard (admin_logout e : Step unit).
Proof.
  intros w. pose proof (guard_on_token (logout (ae_token e 4)) w) as H.
  unfold admin_logout. by destruct (on_token _ w).
Qed.

Definition tokens_of w : gmap Z Token := slot_manager (w_core w).
Lemma tokens_restore e data pass serial iters g :
  keeps tokens_of (restore_backup_authenticated e data pass serial iters g : Step _).
Proof.
  intros w. unfold restore_backup_authenticated.
  destruct (restore_backup _ _ _ _ _ _ _) as [[objects|x] consumed]; [|done].
  destruct (record_ids _ _ _ _) as [[[]|x] f]; [|done]. unfold stage_and_commit_objects.
  destruct (stage_objects _ objects ∅) as [[staged skipped]|x]; [|done].
  by destruct (commit_objects e staged 0 _) as [r s].
Qed.

Lemma admin_logout_public e w t' :
  tokens_of (admin_logout e w).2 !! ADMIN_SLOT_ID = Some t' → login_state t' = Public.
Proof.
  unfold admin_logout, on_token, tokens_of.
  destruct (slot_manager (w_core w) !! ADMIN_SLOT_ID) as [t|] eqn:Ht; simpl; [|congruence].
  case_bool_decide as Hp; simpl; rewrite lookup_insert_eq; by intros [= <-].
Qed.

(** C18: Restoring a backup with the administration tool needs the SO PIN: if a
    restore changes the object store or the guard file at all, one of the first
    three PINs typed is the one the token accepts for the SO.  However it ends,
    nobody is left logged in. *)
Theorem restore_needs_so_pin e data passphrase config w r w' t
    (Ht : slot_manager (w_core w) !! ADMIN_SLOT_ID = Some t)
    (Hpublic : login_state t = Public)
    (Hrun : restore_backup_core e data passphrase config w = (r, w')) :
  ((object_store (w_core w') = object_store (w_core w) ∧ w_guard w' = w_guard w) ∨
   ∃ pin, pin ∈ take 3 (w_hidden w) ∧ so_accepts t pin) ∧
  ∀ t', slot_manager (w_core w') !! ADMIN_SLOT_ID = Some t' → login_state t' = Public.
Proof.
  revert Hrun. unfold restore_backup_core, rbind.
  pose proof (keeps_auth_so e w) as Hs. pose proof (guard_auth_so e w) as Hg.
  destruct (authenticate_so e w) as [[v|x] w1] eqn:Ea; simpl in Hs, Hg.
  - destruct (restore_backup_authenticated _ _ _ _ _ _ w1) as [r2 w2] eqn:Er. intros [= <- <-].
    split; [|intros t'; apply (admin_logout_public e w2)]. right.
    revert Ea. unfold authenticate_so, rbind, the_token. rewrite Ht.
    destruct (is_initialized t); [|done]. cbn [negb].
    change MAX_SO_AUTH_ATTEMPTS with 3%nat.
    destruct (login_attempts e CKU_SO 0 3 w) as [[pin|x] w3] eqn:El; [|done]. intros _.
    apply (attempts_cases e 3 0 w (Ok pin) w3 t Ht) in El as (t' & _ & _ & Hin & Hacc).
    by exists pin.
  - intros [= <- <-]. split; [left; by split|]. intros t' Ht'.
    revert Ea. unfold authenticate_so, rbind, the_token, rret. rewrite Ht.
    destruct (is_initialized t); cbn [negb]; [|by intros [= _ <-]; congruence].
    change MAX_SO_AUTH_ATTEMPTS with 3%nat.
    destruct (login_attempts e CKU_SO 0 3 w) as [[pin|x'] w3] eqn:El; [done|].
    intros [= _ <-]. apply (attempts_cases e 3 0 w _ _ t Ht) in El as (t2 & Ht2 & _ & Hst).
    congruence.
Qed.

Context {PL : PinPrimitivesLaws P} {BL : BackupCodecLaws BK}.

(** Recording the identifiers of a restore. *)
Lemma record_ids_known io l g f :
  (∀ i, i ∈ l → i ∈ rg_ids g) → record_ids io l g f = (Ok tt, f).
Proof.
  induction l as [|i l IH]; intros Hl; [done|]. cbn [record_ids]. unfold is_consumed.
  rewrite bool_decide_eq_true_2 by set_solver. apply IH. set_solver.
Qed.

Lemma record_ids_new io l id ids g f f' :
  guard_file ids f → rg_path g = true → id ∈ l → id ∉ rg_ids g →
  (∀ i, i ∈ l → i = id ∨ i ∈ rg_ids g) →
  record_ids io l g f = (Ok tt, f') → guard_file (ids ++ [id]) f'.
Proof.
  intros Hf Hp Hid Hnew Hl. induction l as [|i l IH]; [by apply elem_of_nil in Hid|].
  cbn [record_ids]. unfold is_consumed. case_bool_decide as Hi.
  - apply IH; [|set_solver]. apply elem_of_cons in Hid as [->|]; [done|done].
  - destruct (Hl i (list_elem_of_here _ _)) as [->|]; [|done].
    destruct (guard_record io id g f) as [[[[]|x] g'] f1] eqn:Er; [|done].
    apply (guard_record_file io ids) in Er as (Hf1 & _ & Hids); [|done|done].
    rewrite record_ids_known; [by intros [= <-]|].
    intros j Hj. rewrite Hids. specialize (Hl j). set_solver.
Qed.

(** The administration tool neither sees nor changes the objects of the
    token.  Whatever the command, the database of token objects is left as it
    was found: an imported key and a restored backup are gone when the command
    ends.  A listing is empty, and a backup the tool writes holds no object,
    whatever the database holds. *)
Theorem admin_misses_token_objects p e hidden lines guard
    (Hsalt : length (be_salt (ae_backup e)) = SALT_LEN)
    (Hnonce : length (be_nonce (ae_backup e)) = NONCE_LEN) :
  (∀ c w, run_command p e c hidden lines guard = Some w → untouched p w) ∧
  (∀ objects ow, with_hsm p hidden lines guard (λ _, key_list e) = (Ok objects, ow) →
     objects = []) ∧
  (∀ ex data ow, with_hsm p hidden lines guard (backup_create e ex) = (Ok data, ow) →
     ∃ passphrase iterations payload,
       head hidden = Some passphrase ∧
       open_backup data passphrase (Some iterations) = Ok payload ∧ bp_objects payload = []).
Proof using PL BL.
  split_and!.
  - intros c w. apply command_untouched.
  - intros objects ow E.
    apply with_hsm_cases in E as [[_ [? ?]]|(config & core & _ & Hcore & w' & _ & E)]; [done|].
    apply new_core_store in Hcore as [Ho _]. revert E. unfold key_list, rbind.
    destruct (authenticate_user e _) as [[v|x] w1] eqn:Ea; [|done].
    pose proof (keeps_auth_user e {| w_core := core; w_hidden := hidden; w_lines := lines;
                                     w_guard := guard |}) as Ha.
    rewrite Ea in Ha. unfold store_of in Ha. simpl in Ha. unfold objects_visible. simpl.
    rewrite Ha, Ho. destruct (admin_logout e w1) as [[u|x] w2]; [|done].
    intros [= <- _]. induction (find_objects [] true _) as [|h l IH]; [done|]. simpl.
    by rewrite lookup_empty.
  - intros ex data ow E.
    apply with_hsm_cases in E as [[_ [? ?]]|(config & core & _ & Hcore & w' & _ & E)]; [done|].
    apply new_core_store in Hcore as [Ho _]. revert E. unfold backup_create. cbn [w_hidden].
    destruct (prompt_passphrase true hidden) as [[pass|x] hidden'] eqn:Ep; [|done].
    destruct (create_backup _ _ _ _ _) as [d|x] eqn:Ed; [|done].
    destruct ex; [done|]. destruct (ae_write_ok e); [|done]. intros [= <- _].
    do 3 eexists. split; [exact (prompt_passphrase_head _ _ _ Ep)|]. split; [exact (open_created _ _ _ _ _ _ Hsalt Hnonce Ed)|].
    simpl. by apply export_nothing.
Qed.

(** A restore that succeeds leaves its identifier in the guard file; one whose
    identifier is there changes nothing. *)
Lemma restore_records objects pass serial iters be data ids e serial' g w n w' :
  length (be_salt be) = SALT_LEN → length (be_nonce be) = NONCE_LEN →
  create_backup objects pass serial (Some iters) be = Ok data →
  guard_file ids (w_guard w) → Forall guard_id ids → g = guard_new (w_guard w) →
  restore_backup_authenticated e data pass serial' iters g w = (Ok n, w') →
  guard_file (ids ++ [ascii_bytes (hex_encode (be_uuid be))]) (w_guard w').
Proof using PL BL.
  intros Hs Hn Hmade Hf Hids Hg. unfold restore_backup_authenticated, restore_backup.
  rewrite (open_created _ _ _ _ _ _ Hs Hn Hmade). simpl. rewrite Z.eqb_refl. simpl.
  case_bool_decide; [|done]. simpl. case_bool_decide as Hin; [done|].
  destruct (backup_age_ok None _ _); [|done]. simpl.
  set (id := ascii_bytes _) in *.
  destruct (record_ids _ _ g (w_guard w)) as [[[]|x] f] eqn:Er; [|done].
  apply (record_ids_new (ae_guard_io e) _ id ids) in Er; [|done|by subst|set_solver|done|set_solver].
  unfold stage_and_commit_objects. destruct (stage_objects _ objects ∅) as [[st sk]|x]; [|done].
  destruct (commit_objects e st 0 _) as [r s]. by intros [= _ <-].
Qed.

Lemma restore_refused objects pass serial iters be data e serial' g w :
  length (be_salt be) = SALT_LEN → length (be_nonce be) = NONCE_LEN →
  create_backup objects pass serial (Some iters) be = Ok data →
  ascii_bytes (hex_encode (be_uuid be)) ∈ rg_ids g →
  restore_backup_authenticated e data pass serial' iters g w = (Err (RestoreFailed DataInvalid), w).
Proof using PL BL.
  intros Hs Hn Hmade Hin. unfold restore_backup_authenticated, restore_backup.
  rewrite (open_created _ _ _ _ _ _ Hs Hn Hmade). simpl. rewrite Z.eqb_refl. simpl.
  case_bool_decide; [|done]. simpl. by rewrite bool_decide_eq_true_2.
Qed.

Context {XD : HexDigits X}.

Lemma backup_id_guard uuid :
  Forall is_byte uuid → uuid ≠ [] → guard_id (ascii_bytes (hex_encode uuid)).
Proof using XD.
  intros Hb Hne. split; [by apply hex_encode_digits|]. intros E.
  pose proof (hex_encode_length uuid Hb) as Hl. rewrite E in Hl. destruct uuid; [done|]. simpl in Hl. lia.
Qed.

End Admin.
