(* ===== verification/AdminDemo.v ===== *)
(** * A concrete run of the administration tool

    A slot with an initialised token, and a backup restored twice.  The
    witnesses of the tool's theorems evaluate them. *)

From S2P Require Import Prelude Pkcs11 Handles Hash PinCrypto TokenFiles Token TokenDemo Session SessionManager SessionProofs Dates Objects ObjectStore ObjectStoreProofs AuditChain AuditProofs Encrypt Abi AbiDemo Mechanisms Config Operations KeyManagement Backup ImportParse ImportProofs Admin AdminProofs.

#[local] Existing Instance toy_primitives.
#[local] Existing Instance text_hex.
#[local] Existing Instance toy_hash.
#[local] Existing Instance toy_codec.
#[local] Existing Instance toy_store_order.
#[local] Existing Instance toy_audit_codec.
#[local] Existing Instance toy_backup_codec.
#[local] Existing Instance toy_crates.

Definition DemoWorld : Type := World SessionHandleAllocator ObjectHandleAllocator.

Definition admin_core : DemoCore :=
  demo_core <| slot_manager := {[0 := demo_ready.1]} |> <| core_disk := demo_ready.2 |>.
Definition admin_env : AdminEnv :=
  {| ae_token := λ n, demo_env (Z.of_nat n * 10000000000); ae_persist := λ _, demo_persist_env;
     ae_wall := 1700000600; ae_guard_io := guard_io_ok; ae_backup := demo_backup_env;
     ae_write_ok := true |}.
(** The first PIN typed is wrong, the second is the SO's. *)
Definition admin_world (guard : File bytes) : DemoWorld :=
  {| w_core := admin_core; w_hidden := [demo_wrong_pin; demo_so_pin]; w_lines := [];
     w_guard := guard |}.

Definition admin_backup : HsmResult bytes :=
  create_backup [] demo_passphrase demo_serial (Some 200000) demo_backup_env.
Definition admin_data : bytes := match admin_backup with Ok d => d | Err _ => [] end.
Definition admin_restore (w : DemoWorld) : Result CliError (nat * nat) * DemoWorld :=
  restore_backup_core admin_env admin_data demo_passphrase demo_config w.
Definition restored_world : DemoWorld := (admin_restore (admin_world Missing)).2.
Definition second_world : DemoWorld := admin_world (w_guard restored_world).

Lemma admin_restore_eq (w : DemoWorld) :
  restore_backup_core admin_env admin_data demo_passphrase demo_config w
  = ((admin_restore w).1, (admin_restore w).2).
Proof. unfold admin_restore. by destruct (restore_backup_core _ _ _ _ w). Qed.
Lemma admin_world_guard g : w_guard (admin_world g) = g.
Proof. reflexivity. Qed.
Lemma second_guard : w_guard second_world = w_guard restored_world.
Proof. unfold second_world. rewrite admin_world_guard. reflexivity. Qed.
Lemma admin_made : admin_backup = Ok admin_data.
Proof. vm_compute. reflexivity. Qed.
Lemma admin_ready_public : login_state demo_ready.1 = Public.
Proof. vm_compute. reflexivity. Qed.
Lemma admin_restored : (admin_restore (admin_world Missing)).1 = Ok (0%nat, 0%nat).
Proof. vm_compute. reflexivity. Qed.
Lemma admin_token g : slot_manager (w_core (admin_world g)) !! ADMIN_SLOT_ID = Some demo_ready.1.
Proof. apply lookup_singleton_eq. Qed.
Lemma admin_first :
  restore_backup_core admin_env admin_data demo_passphrase demo_config (admin_world Missing)
  = (Ok (0%nat, 0%nat), restored_world).
Proof. rewrite admin_restore_eq, admin_restored. reflexivity. Qed.

Lemma restore_needs_so_pin_witness :
  (admin_restore (admin_world Missing)).1 = Ok (0%nat, 0%nat) ∧
  ∀ t', slot_manager (w_core restored_world) !! ADMIN_SLOT_ID = Some t' → login_state t' = Public.
Proof.
  split; [exact admin_restored|].
  exact (proj2 (restore_needs_so_pin admin_env admin_data demo_passphrase demo_config
    (admin_world Missing) (Ok (0%nat, 0%nat)) restored_world demo_ready.1
    (admin_token Missing) admin_ready_public admin_first)).
Defined.

Lemma admin_uuid : Forall is_byte (be_uuid demo_backup_env) ∧ be_uuid demo_backup_env ≠ [].
Proof. split; [|discriminate]. apply Forall_replicate. unfold is_byte. lia. Qed.


(** A process on a database with one entry. *)
Definition admin_process : Process :=
  {| pr_load := demo_load; pr_config_path := []; pr_debug := false; pr_drbg := Ok tt;
     pr_alloc_s := demo_alloc; pr_alloc_o := demo_object_alloc;
     pr_store := Ok {| es_db := Some {["obj_1"%string := [1; 2; 3]]} |}; pr_log_path := Ok tt;
     pr_log_open := AuditChain.Opened; pr_log_read := λ _, true;
     pr_log_files := {| af_current := None; af_rotated := ∅ |}; pr_disk := demo_ready.2 |}.

(** What [backup create] writes there. *)
Definition admin_run : Result CliError bytes * option DemoWorld :=
  with_hsm admin_process [demo_passphrase; demo_passphrase] [] Missing
    (backup_create admin_env false).
Definition admin_written : bytes := match admin_run.1 with Ok d => d | Err _ => [] end.
Lemma admin_run_ok : admin_run.1 = Ok admin_written.
Proof. vm_compute. reflexivity. Qed.
Lemma admin_run_eq :
  with_hsm admin_process [demo_passphrase; demo_passphrase] [] Missing
    (backup_create admin_env false) = (Ok admin_written, admin_run.2).
Proof. rewrite <- admin_run_ok. unfold admin_run. by destruct (with_hsm _ _ _ _ _). Qed.

Lemma admin_misses_token_objects_witness :
  pr_store admin_process = Ok {| es_db := Some {["obj_1"%string := [1; 2; 3]]} |} ∧
  ∃ passphrase iterations payload,
    head [demo_passphrase; demo_passphrase] = Some passphrase ∧
    open_backup admin_written passphrase (Some iterations) = Ok payload ∧ bp_objects payload = [].
Proof.
  split; [reflexivity|].
  exact (proj2 (proj2 (admin_misses_token_objects admin_process admin_env
    [demo_passphrase; demo_passphrase] [] Missing eq_refl eq_refl)) false admin_written
    admin_run.2 admin_run_eq).
Defined.
