(* ===== verification/Throttle.v ===== *)
(** * Login throttling in the daemon (craton-hsm-daemon/src/server.rs)

    The identity of a client, and the two maps that count failed logins and
    failed token initialisations per slot and client.  Instants and the
    cooldown are nanoseconds.  The order in which [HashMap] lists its entries
    is a parameter. *)

From S2P Require Import Prelude Pkcs11 Hash PinCrypto TokenFiles TokenDemo Config Backup.

(** ** Clients *)

Definition ClientId : Type := bytes.
Definition CERT_HEX_PREFIX_LEN : nat := 16.

(** The extensions of a request: the certificates and the address of a TLS
    connection, the address of a plain one. *)
Record ConnectInfo := {
  ci_tls : option (option (list bytes) * option bytes);
  ci_tcp : option (option bytes);
}.

(** [{:02x}]. *)
Definition hex_byte (b : Z) : bytes :=
  let digit n := if n <? 10 then 48 + n else 87 + n in [digit (b / 16); digit (b mod 16)].

Section Clients.
Context {H : HashPrimitives}.

Definition from_cert_der (der : bytes) : ClientId :=
  ascii_bytes "cert:" ++ concat (hex_byte <$> take (CERT_HEX_PREFIX_LEN / 2) (sha256 der)).
Definition from_peer_ip (ip : bytes) : ClientId := ascii_bytes "ip:" ++ ip.
Definition unknown_client : ClientId := ascii_bytes "unknown".

Definition client_id_from_request (r : ConnectInfo) : ClientId :=
  match ci_tls r with
  | Some (certs, remote) =>
    match certs with
    | Some (leaf :: _) => from_cert_der leaf
    | _ => match remote with Some ip => from_peer_ip ip | None => unknown_client end
    end
  | None =>
    match ci_tcp r with
    | Some (Some ip) => from_peer_ip ip
    | _ => unknown_client
    end
  end.
End Clients.

(** ** The maps *)

Definition MAX_THROTTLE_ENTRIES : nat := 1024.
Definition ThrottleKey : Type := Z * ClientId.
Record LoginThrottle := { lt_failed_attempts : Z; lt_lockout_until : option Z }.
Abbreviation ThrottleMap := (gmap ThrottleKey LoginThrottle).

(** The entries of a [HashMap], in the order of its iterator. *)
Class ThrottleOrder := throttle_iter : ThrottleMap → list (ThrottleKey * LoginThrottle).
Class ThrottleOrderLaws (TO : ThrottleOrder) :=
  throttle_iter_perm m : throttle_iter m ≡ₚ map_to_list m.

Record ThrottleConfig := { tc_max_login_attempts : Z; tc_login_cooldown : Z }.

Section Throttle.
Context {TO : ThrottleOrder} (cfg : ThrottleConfig).
Implicit Types m : ThrottleMap.

(** [check_login_throttle] and [check_init_token_throttle]: whether the key is
    locked out. *)
Definition throttle_check (now : Z) (key : ThrottleKey) m : bool * ThrottleMap :=
  if tc_max_login_attempts cfg =? 0 then (false, m)
  else
    match m !! key with
    | Some {| lt_lockout_until := Some until |} =>
      if now <? until then (true, m)
      else (false, <[key := {| lt_failed_attempts := 0; lt_lockout_until := None |}]> m)
    | _ => (false, m)
    end.

(** [min_by_key] on the attempts: the first of the smallest. *)
Fixpoint min_entry (l : list (ThrottleKey * LoginThrottle)) : option (ThrottleKey * LoginThrottle) :=
  match l with
  | [] => None
  | p :: l =>
    match min_entry l with
    | Some q => if lt_failed_attempts q.2 <? lt_failed_attempts p.2 then Some q else Some p
    | None => Some p
    end
  end.

(** The [while] loop; the size of the map is enough fuel. *)
Fixpoint evict_smallest (fuel : nat) m : ThrottleMap :=
  match fuel with
  | O => m
  | S fuel =>
    if (MAX_THROTTLE_ENTRIES <? size m)%nat then
      match min_entry (throttle_iter m) with
      | Some (key, _) => evict_smallest fuel (delete key m)
      | None => m
      end
    else m
  end.

Definition expired (now : Z) (t : LoginThrottle) : bool :=
  match lt_lockout_until t with Some until => until <=? now | None => false end.

Definition evict_expired_throttle_entries (now : Z) m : ThrottleMap :=
  let m := filter (λ p, expired now p.2 = false) m in evict_smallest (size m) m.

(** [record_login_failure] and [record_init_token_failure]; the clock is read
    by the eviction and when the lockout starts. *)
Definition throttle_failure (now_evict now : Z) (key : ThrottleKey) m : ThrottleMap :=
  if tc_max_login_attempts cfg =? 0 then m
  else
    let m := evict_expired_throttle_entries now_evict m in
    let old := default {| lt_failed_attempts := 0; lt_lockout_until := None |} (m !! key) in
    let failed := saturating_add u32_max (lt_failed_attempts old) 1 in
    let until := if tc_max_login_attempts cfg <=? failed
                 then Some (now + tc_login_cooldown cfg) else lt_lockout_until old in
    <[key := {| lt_failed_attempts := failed; lt_lockout_until := until |}]> m.

(** [clear_login_attempts] and [clear_init_token_attempts]. *)
Definition throttle_clear (key : ThrottleKey) m : ThrottleMap :=
  if tc_max_login_attempts cfg =? 0 then m else delete key m.

(** ** One guarded attempt *)

(** The sequence of [login] and [init_token]: refused while locked out,
    otherwise tried; [ok] is whether the token accepts.  The result is whether
    the token was asked. *)
Record Attempt := {
  at_key : ThrottleKey;
  at_check : Z;
  at_evict : Z;
  at_fail : Z;
  at_ok : bool;
}.
Definition attempt (a : Attempt) m : bool * ThrottleMap :=
  match throttle_check (at_check a) (at_key a) m with
  | (true, m) => (false, m)
  | (false, m) =>
    (true, if at_ok a then throttle_clear (at_key a) m
           else throttle_failure (at_evict a) (at_fail a) (at_key a) m)
  end.

Fixpoint attempts (l : list Attempt) m : list bool * ThrottleMap :=
  match l with
  | [] => ([], m)
  | a :: l => let '(b, m) := attempt a m in let '(bs, m) := attempts l m in (b :: bs, m)
  end.
End Throttle.

(** ** How many guesses a client gets *)

Section ThrottleProofs.
Context {TO : ThrottleOrder} (cfg : ThrottleConfig).
Implicit Types m : ThrottleMap.

(** The wrong PINs of [k] that reached the token. *)
Fixpoint wrong_tries (k : ThrottleKey) (l : list Attempt) (bs : list bool) : Z :=
  match l, bs with
  | a :: l, b :: bs =>
    (if bool_decide (at_key a = k) && b && negb (at_ok a) then 1 else 0) + wrong_tries k l bs
  | _, _ => 0
  end.

(** The entry of [k] after [n] wrong tries: the count, and a lockout that
    outlasts [limit] once the count is at the maximum. *)
Definition tried (limit : Z) (k : ThrottleKey) (n : Z) m : Prop :=
  lt_failed_attempts (default {| lt_failed_attempts := 0; lt_lockout_until := None |} (m !! k)) = n ∧
  (∀ t, m !! k = Some t →
    (lt_failed_attempts t < tc_max_login_attempts cfg → lt_lockout_until t = None) ∧
    (tc_max_login_attempts cfg <= lt_failed_attempts t →
     ∃ until, lt_lockout_until t = Some until ∧ limit <= until)).

(** The entries are those of at most [MAX_THROTTLE_ENTRIES] clients. *)
Definition few (ks : gset ThrottleKey) m : Prop :=
  dom m ⊆ ks ∧ (size ks <= MAX_THROTTLE_ENTRIES)%nat.

Lemma few_size ks m : few ks m → (size m <= MAX_THROTTLE_ENTRIES)%nat.
Proof.
  intros [Hd Hs]. rewrite <- (size_dom (D:=gset ThrottleKey) m). etrans; [by apply subseteq_size|done].
Qed.

Lemma evict_few ks now m :
  few ks m → evict_expired_throttle_entries now m = filter (λ p, expired now p.2 = false) m.
Proof.
  intros Hf. unfold evict_expired_throttle_entries. set (m' := filter _ m).
  assert (size m' <= MAX_THROTTLE_ENTRIES)%nat as Hs.
  { apply (few_size ks). destruct Hf as [Hd Hk]. split; [|done]. etrans; [apply dom_filter_subseteq|done]. }
  destruct (size m') eqn:E; [done|]. cbn [evict_smallest]. rewrite E.
  by rewrite (proj2 (Nat.ltb_ge _ _)).
Qed.

(** Within the time [limit] allows, an entry with fewer than the maximum has no
    lockout, and one with a lockout has not expired. *)
Lemma tried_kept limit k n now m :
  now < limit → tried limit k n m →
  (filter (λ p, expired now p.2 = false) m : ThrottleMap) !! k = m !! k.
Proof.
  intros Hnow [_ Ht]. destruct (m !! k) as [t|] eqn:E.
  - apply map_lookup_filter_Some. split; [done|]. unfold expired. simpl.
    destruct (Ht t eq_refl) as [H1 H2].
    destruct (Z.lt_ge_cases (lt_failed_attempts t) (tc_max_login_attempts cfg)) as [Hlt|Hge].
    + by rewrite (H1 Hlt).
    + destruct (H2 Hge) as (until & -> & Hu). apply Z.leb_gt. lia.
  - apply map_lookup_filter_None. by left.
Qed.

Lemma few_insert ks k t m : few ks m → k ∈ ks → few ks (<[k := t]> m).
Proof. intros [Hd Hs] Hk. split; [|done]. rewrite dom_insert_L. set_solver. Qed.
Lemma few_filter ks now m : few ks m → few ks (filter (λ p, expired now p.2 = false) m).
Proof. intros [Hd Hs]. split; [|done]. etrans; [apply dom_filter_subseteq|done]. Qed.

Lemma tried_same limit k n m m' : m' !! k = m !! k → tried limit k n m → tried limit k n m'.
Proof. unfold tried. by intros ->. Qed.

(** One attempt by [k]: it reaches the token only below the maximum, and then a
    wrong PIN counts. *)
Lemma attempt_own limit ks k n a m b m' :
  0 < tc_max_login_attempts cfg <= u32_max → few ks m → k ∈ ks → at_key a = k → at_ok a = false →
  at_check a < limit → at_evict a < limit → limit <= at_fail a + tc_login_cooldown cfg →
  0 <= n <= tc_max_login_attempts cfg → tried limit k n m → attempt cfg a m = (b, m') →
  few ks m' ∧ tried limit k (if b then n + 1 else n) m' ∧ (b = true → n < tc_max_login_attempts cfg).
Proof.
  intros Hmax Hfew Hk Hkey Hok Hc He Hl Hn Ht. unfold attempt, throttle_check, throttle_failure.
  rewrite (proj2 (Z.eqb_neq _ _)), Hkey, Hok by lia. pose proof Ht as [Hcount Hentry].
  assert (Hgo : ∀ m1, few ks m1 → tried limit k n m1 → n < tc_max_login_attempts cfg →
    (true, let m := evict_expired_throttle_entries (at_evict a) m1 in
       let old := default {| lt_failed_attempts := 0; lt_lockout_until := None |} (m !! k) in
       let failed := saturating_add u32_max (lt_failed_attempts old) 1 in
       <[k := {| lt_failed_attempts := failed;
                 lt_lockout_until := if tc_max_login_attempts cfg <=? failed
                   then Some (at_fail a + tc_login_cooldown cfg) else lt_lockout_until old |}]> m)
    = (b, m') → few ks m' ∧ tried limit k (if b then n + 1 else n) m' ∧
      (b = true → n < tc_max_login_attempts cfg)).
  { intros m1 Hf1 Ht1 Hlt. rewrite (evict_few ks) by done. cbv zeta.
    rewrite (tried_kept limit k n) by done. intros [= <- <-].
    split; [by apply few_insert, Hk; apply few_filter|]. split; [|done].
    destruct Ht1 as [Hc1 He1]. rewrite Hc1. unfold saturating_add. rewrite Z.min_l by lia.
    unfold tried. rewrite lookup_insert_eq. simpl. split; [done|].
    intros t [= <-]. simpl. split; intros Hx.
    - rewrite (proj2 (Z.leb_gt _ _)) by lia. destruct (m1 !! k) as [t1|] eqn:E1; [|done]. simpl in *.
      apply (He1 t1 eq_refl). lia.
    - rewrite (proj2 (Z.leb_le _ _)) by lia. eauto. }
  destruct (m !! k) as [[c [until|]]|] eqn:E.
  - simpl in Hcount. subst c. destruct (Hentry _ eq_refl) as [H1 H2]. simpl in H1, H2.
    destruct (Z.lt_ge_cases n (tc_max_login_attempts cfg)) as [Hlt|Hge]; [by specialize (H1 Hlt)|].
    destruct (H2 Hge) as (u & [= <-] & Hu). rewrite (proj2 (Z.ltb_lt _ _)) by lia.
    intros [= <- <-]. by split_and!.
  - apply Hgo; [done|done|]. simpl in Hcount. subst c. destruct (Hentry _ eq_refl) as [_ H2].
    destruct (Z.lt_ge_cases n (tc_max_login_attempts cfg)) as [Hlt|Hge]; [done|].
    by destruct (H2 Hge) as (u & ? & _).
  - apply Hgo; [done|done|]. simpl in Hcount. lia.
Qed.

(** An attempt of another client leaves the entry of [k] alone. *)
Lemma attempt_other limit ks k n a m b m' :
  few ks m → at_key a ∈ ks → at_key a ≠ k → at_evict a < limit → tried limit k n m →
  attempt cfg a m = (b, m') → few ks m' ∧ tried limit k n m'.
Proof.
  intros Hfew Hin Hne He Ht. unfold attempt.
  destruct (throttle_check cfg (at_check a) (at_key a) m) as [[] m1] eqn:Ec.
  - intros [= <- <-]. unfold throttle_check in Ec.
    case_match; [done|]. destruct (m !! at_key a) as [[c [u|]]|]; try done. by case_match; simplify_eq.
  - assert (few ks m1 ∧ tried limit k n m1) as [Hf1 Ht1].
    { unfold throttle_check in Ec. case_match; [by injection Ec as <-|].
      destruct (m !! at_key a) as [[c [u|]]|]; try by injection Ec as <-.
      case_match; [done|]. injection Ec as <-. split; [by apply few_insert|].
      apply (tried_same limit k n m); [by rewrite lookup_insert_ne|done]. }
    intros [= _ <-]. destruct (at_ok a).
    + unfold throttle_clear. case_match; [done|]. split.
      * destruct Hf1 as [Hd Hs]. split; [|done]. rewrite dom_delete_L. set_solver.
      * apply (tried_same limit k n m1); [by rewrite lookup_delete_ne|done].
    + unfold throttle_failure. case_match; [done|]. rewrite (evict_few ks) by done. split.
      * apply few_insert; [by apply few_filter|done].
      * apply (tried_same limit k n m1); [|done]. rewrite lookup_insert_ne by done.
        by apply (tried_kept limit k n).
Qed.

(** The clocks of a series of attempts lie within one cooldown from [start]. *)
Definition within (start : Z) (a : Attempt) : Prop :=
  at_check a < start + tc_login_cooldown cfg ∧ at_evict a < start + tc_login_cooldown cfg ∧
  start <= at_fail a.

Lemma attempts_bound start ks k l : ∀ n m bs m',
  0 < tc_max_login_attempts cfg <= u32_max → few ks m → k ∈ ks →
  (∀ a, a ∈ l → at_key a ∈ ks ∧ within start a ∧ (at_key a = k → at_ok a = false)) →
  0 <= n <= tc_max_login_attempts cfg → tried (start + tc_login_cooldown cfg) k n m →
  attempts cfg l m = (bs, m') → n + wrong_tries k l bs <= tc_max_login_attempts cfg.
Proof.
  induction l as [|a l IH]; intros n m bs m' Hmax Hfew Hk Hl Hn Ht; cbn [attempts].
  { intros [= <- <-]. simpl. lia. }
  destruct (attempt cfg a m) as [b m1] eqn:Ea. destruct (attempts cfg l m1) as [bs1 m2] eqn:El.
  intros [= <- <-]. cbn [wrong_tries].
  destruct (Hl a (list_elem_of_here _ _)) as (Hin & (Hc & He & Hf) & Hok).
  assert (Hl' : ∀ a, a ∈ l → at_key a ∈ ks ∧ within start a ∧ (at_key a = k → at_ok a = false))
    by (intros; apply Hl; by apply list_elem_of_further).
  case_bool_decide as Hkey.
  - destruct (attempt_own (start + tc_login_cooldown cfg) ks k n a m b m1)
      as (Hf1 & Ht1 & Hb); [done|done|done|done|by apply Hok|done|done|lia|done|done|done|].
    rewrite (Hok Hkey). destruct b; simpl.
    + specialize (Hb eq_refl). specialize (IH (n + 1) m1 bs1 m2 Hmax Hf1 Hk Hl').
      enough (n + 1 + wrong_tries k l bs1 <= tc_max_login_attempts cfg) by lia.
      apply IH; [lia|done|done].
    + specialize (IH n m1 bs1 m2 Hmax Hf1 Hk Hl' Hn Ht1 El). lia.
  - destruct (attempt_other (start + tc_login_cooldown cfg) ks k n a m b m1) as (Hf1 & Ht1); [done..|].
    specialize (IH n m1 bs1 m2 Hmax Hf1 Hk Hl' Hn Ht1 El). simpl. lia.
Qed.

End ThrottleProofs.

(** Three wrong tries of one client with a limit of two. *)
Definition toy_throttle_order : ThrottleOrder := map_to_list.
#[export] Instance toy_throttle_order_laws : ThrottleOrderLaws toy_throttle_order.
Proof. by intros m. Defined.
Definition demo_throttle : ThrottleConfig :=
  {| tc_max_login_attempts := 2; tc_login_cooldown := 1000 |}.
Definition demo_client : ThrottleKey := (0, [105; 112]).
Definition demo_try (t : Z) : Attempt :=
  {| at_key := demo_client; at_check := t; at_evict := t; at_fail := t; at_ok := false |}.

