(* ===== verification/Daemon.v ===== *)
(** * The gRPC daemon (craton-hsm-daemon/src/server.rs)

    The handlers of [HsmServiceImpl], one definition each, on the library's
    state together with the daemon's: the two throttle maps and the random
    generator.  A request's message is the arguments of its handler; the text
    of a [Status] is not modelled, only its code.  Handlers run one after the
    other.  What a handler reads from its surroundings is a [SvcEnv]. *)

From stdpp Require Import pretty.
From S2P Require Import Prelude StateError Pkcs11 Handles Hash PinCrypto TokenFiles Token Session SessionManager Dates Objects ObjectStore AuditChain Encrypt Abi Mechanisms Sign Operations EntropyHealth Drbg KeyCrypto KeyManagement Config Throttle.

Definition CKU_CONTEXT_SPECIFIC : Z := 2.
Definition CKK_GENERIC_SECRET : Z := 0x10.

(** The codes of [tonic::Status] the handlers use, and a handler that panics. *)
Inductive Status :=
| Unauthenticated
| InvalidArgument
| ResourceExhausted
| PermissionDenied
| AlreadyExists
| FailedPrecondition
| NotFound
| Internal
| Unimplemented
| Aborted
| HandlerPanics.

Definition hsm_err_to_status (e : HsmError) : Status :=
  match e with
  | PinIncorrect | PinLocked => Unauthenticated
  | PinInvalid => InvalidArgument
  | PinLenRange => InvalidArgument
  | PinRateLimited => ResourceExhausted
  | UserNotLoggedIn => PermissionDenied
  | UserAlreadyLoggedIn => AlreadyExists
  | UserAnotherAlreadyLoggedIn => FailedPrecondition
  | UserTypeInvalid => InvalidArgument
  | UserPinNotInitialized => FailedPrecondition
  | SessionHandleInvalid => NotFound
  | SessionCount => ResourceExhausted
  | SessionReadOnly => PermissionDenied
  | SessionParallelNotSupported => InvalidArgument
  | SessionExists => AlreadyExists
  | SessionReadOnlyExists => FailedPrecondition
  | SessionReadWriteSoExists => FailedPrecondition
  | SlotIdInvalid => NotFound
  | TokenNotPresent => NotFound
  | TokenNotInitialized => FailedPrecondition
  | TokenWriteProtected => PermissionDenied
  | ObjectHandleInvalid => NotFound
  | AttributeTypeInvalid => InvalidArgument
  | AttributeValueInvalid => InvalidArgument
  | AttributeReadOnly => PermissionDenied
  | AttributeSensitive => PermissionDenied
  | TemplateIncomplete => InvalidArgument
  | TemplateInconsistent => InvalidArgument
  | MechanismInvalid => InvalidArgument
  | MechanismParamInvalid => InvalidArgument
  | KeyHandleInvalid => NotFound
  | KeyTypeInconsistent => InvalidArgument
  | KeySizeRange => InvalidArgument
  | KeyFunctionNotPermitted => PermissionDenied
  | OperationActive => FailedPrecondition
  | OperationNotInitialized => FailedPrecondition
  | ArgumentsBad => InvalidArgument
  | DataInvalid => InvalidArgument
  | DataLenRange => InvalidArgument
  | EncryptedDataInvalid => InvalidArgument
  | EncryptedDataLenRange => InvalidArgument
  | SignatureInvalid => InvalidArgument
  | SignatureLenRange => InvalidArgument
  | BufferTooSmall => Internal
  | FunctionNotSupported => Unimplemented
  | RandomSeedNotSupported => Unimplemented
  | NotInitialized => FailedPrecondition
  | AlreadyInitialized => AlreadyExists
  | GeneralError | HostMemory | DeviceMemory | ConfigError _ | AuditChainBroken _ => Internal
  | SessionClosed => Aborted
  end.

Record ServiceConfig := {
  sv_max_random_length : Z;
  sv_max_digest_length : Z;
  sv_throttle : ThrottleConfig;
}.

(** The clocks of the throttle (check, eviction, lockout), the token's
    environment, the clock of sessions, the random buffers and generators, the
    database, and what the entropy source gives the daemon's generator. *)
Record SvcEnv := {
  se_check : Z;
  se_evict : Z;
  se_fail : Z;
  se_token : Env;
  se_session : Z;
  se_key : KeyEnv;
  se_op : OpEnv;
  se_startup : bytes;
  se_src1 : bytes;
  se_src2 : bytes;
}.

(** A mechanism: its type and its parameter. *)
Record ProtoMechanism := { pm_type : Z; pm_parameter : bytes }.

Record TokenInfoReply := {
  ti_initialized : bool;
  ti_user_pin_initialized : bool;
  ti_login_state : option LoginState;
  ti_session_count : Z;
  ti_max_sessions : Z;
  ti_rw_session_count : Z;
  ti_max_rw_sessions : Z;
}.

Inductive Request :=
| ROpenSession (slot_id : Z) (read_write : bool)
| RCloseSession (session : Z)
| RLogin (session user_type : Z) (pin : bytes)
| RLogout (session : Z)
| RGetTokenInfo (slot_id session : Z)
| RInitToken (slot_id : Z) (so_pin label : bytes)
| RGenerateKey (session : Z) (mechanism : option ProtoMechanism) (template : Template)
| RGenerateKeyPair (session : Z) (mechanism : option ProtoMechanism)
    (public_template private_template : Template)
| RDestroyObject (session object : Z)
| RFindObjects (session : Z) (template : Template) (max_count : Z)
| RGetAttributeValue (session object : Z) (attribute_types : list Z)
| RSign (session : Z) (mechanism : option ProtoMechanism) (key : Z) (data : bytes)
| RVerify (session : Z) (mechanism : option ProtoMechanism) (key : Z) (data signature : bytes)
| REncrypt (session : Z) (mechanism : option ProtoMechanism) (key : Z) (data : bytes)
| RDecrypt (session : Z) (mechanism : option ProtoMechanism) (key : Z) (data : bytes)
| RDigest (session : Z) (mechanism : option ProtoMechanism) (data : bytes)
| RGenerateRandom (session length : Z)
| RWrapKey (session : Z) (mechanism : option ProtoMechanism) (wrapping_key key : Z)
| RUnwrapKey (session : Z) (mechanism : option ProtoMechanism) (unwrapping_key : Z)
    (wrapped_key : bytes) (template : Template)
| RDeriveKey (session : Z) (mechanism : option ProtoMechanism) (base_key : Z) (template : Template)
| RCopyObject (session object : Z) (template : Template)
| RInitPin (session : Z) (pin : bytes)
| RSetPin (session : Z) (old_pin new_pin : bytes)
| RHealthCheck.

Inductive Reply :=
| Done
| Handle (h : Z)
| HandlePair (public private : Z)
| Handles (hs : list Z)
| Attributes (attrs : list (Z * bytes))
| Data (b : bytes)
| Valid (v : bool)
| TokenInfo (i : TokenInfoReply)
| Healthy.

Section Daemon.
Context {P : PinPrimitives} {X : HexCodec} {H : HashPrimitives} {CP : CipherPrimitives}.
Context {SP : SignPrimitives} {KP : KeyPrimitives SP}.
Context {C : ObjectCodec} {SO : StoreOrder} {D : DashOrder} {AC : AuditCodec} {TO : ThrottleOrder}.
Context {A B : Type} {HS : HandleSource A} {OH : ObjectHandles B}.
Context (cfg : ServiceConfig).

Record Daemon := {
  d_lib : CryptoCore A B;
  d_drbg : HmacDrbg;
  d_entropy : GlobalEntropy;
  d_login_attempts : ThrottleMap;
  d_init_token_attempts : ThrottleMap;
}.
#[export] Instance Daemon_expand : FieldExpansion Daemon := λ d,
  Build_Daemon (d_lib d) (d_drbg d) (d_entropy d) (d_login_attempts d) (d_init_token_attempts d).

Definition Svc (T : Type) : Type := Run Daemon Status T.

(** ** Access to the library *)

Definition hsm (d : Daemon) : HsmCore A B := cc_core (d_lib d).
Definition put_hsm (c : HsmCore A B) (d : Daemon) : Daemon :=
  d <| d_lib := d_lib d <| cc_core := c |> |>.
Definition put_store (s : ObjectStore B) (d : Daemon) : Daemon :=
  put_hsm (hsm d <| object_store := s |>) d.
Definition store (d : Daemon) : ObjectStore B := object_store (hsm d).

Definition hsm_result {T} (r : HsmResult T) : Svc T := rlift hsm_err_to_status r.

(** A result that depends on the state but does not change it. *)
Definition ask {T} (f : Daemon → HsmResult T) : Svc T := do! r := rget f in hsm_result r.
(** A call that changes the state. *)
Definition call {T} (f : Daemon → HsmResult T * Daemon) : Svc T := do! r := rcall f in hsm_result r.

(** An operation on the token of a slot. *)
Definition on_slot_token (slot_id : Z) (op : TokenWorld → HsmResult unit * TokenWorld) :
    Svc (HsmResult unit) :=
  do! t := ask (λ d, get_token slot_id (hsm d)) in
  rcall (λ d, let '(r, tw) := op (t, core_disk (hsm d)) in (r, put_hsm (put_world slot_id tw (hsm d)) d)).

Definition to_ck_ulong (v : Z) : Svc Z :=
  if (0 <=? v) && (v <=? u64_max) then rret v else rfail InvalidArgument.

(** [audit]: the client goes into the key identifier; a refusal of the log is an
    internal error. *)
Definition audit_text (key_id : option bytes) (client : ClientId) : bytes :=
  match key_id with
  | Some existing => ascii_bytes "client=" ++ client ++ ascii_bytes "; " ++ existing
  | None => ascii_bytes "client=" ++ client
  end.
Definition svc_audit (session : Z) (op : AuditOperation) (result : AuditResult)
    (key_id : option bytes) (client : ClientId) : Svc unit :=
  do! r := rcall (λ d,
    let '(r, log) := record session op result (Some (audit_text key_id client))
                       (audit_log (hsm d)) in
    (r, put_hsm (hsm d <| audit_log := log |>) d)) in
  match r with Ok _ => rret tt | Err _ => rfail Internal end.
Definition num (z : Z) : bytes := ascii_bytes (pretty z).

(** ** Access control *)

Definition require_session (session : Z) : Svc Z :=
  do! handle := to_ck_ulong session in
  do! s := ask (λ d, find_session handle (hsm d)) in rret (s_slot_id s.2).

Definition require_logged_in (slot_id : Z) : Svc unit :=
  do! t := ask (λ d, get_token slot_id (hsm d)) in
  match require_login t UserLoggedIn with
  | Ok _ => rret tt
  | Err UserAnotherAlreadyLoggedIn => rret tt
  | Err _ => rfail PermissionDenied
  end.

Definition require_authenticated_session (session : Z) : Svc Z :=
  do! slot_id := require_session session in
  do! _ := require_logged_in slot_id in rret slot_id.

(** An object of the session's slot. *)
Definition slot_object (slot_id handle : Z) : Svc StoredObject :=
  do! h := to_ck_ulong handle in
  do! o := ask (λ d, get_object h (store d)) in
  if negb (o_slot_id o =? slot_id) then rfail NotFound else rret o.

(** A mechanism that is present, of the right kind, and allowed. *)
Definition use_mechanism (kind : Z → bool) (signing : bool) (m : option ProtoMechanism) :
    Svc ProtoMechanism :=
  match m with
  | None => rfail InvalidArgument
  | Some m =>
    do! mech_type := to_ck_ulong (pm_type m) in
    if negb (kind mech_type) then rfail InvalidArgument
    else
      do! config := rget (λ d, algorithm_config (d_lib d)) in
      match validate_mechanism_for_policy mech_type config signing with
      | Err _ => rfail PermissionDenied
      | Ok _ => rret m
      end
  end.
Definition fips_mode : Svc bool := rget (λ d, fips_approved_only (algorithm_config (d_lib d))).

Fixpoint proto_attrs_to_template (attrs : Template) : Svc Template :=
  match attrs with
  | [] => rret []
  | (t, v) :: attrs =>
    do! t := to_ck_ulong t in
    do! rest := proto_attrs_to_template attrs in rret ((t, v) :: rest)
  end.

Definition template_ulong (template : Template) (attr : Z) : option Z :=
  read_ulong_attr template attr.
Definition without (skipped : list Z) (template : Template) : Template :=
  List.filter (λ p, negb (bool_decide (p.1 ∈ skipped))) template.

Definition material (o : StoredObject) : Svc bytes :=
  match o_key_material o with Some k => rret k | None => rfail Internal end.
Definition part (p : option bytes) : Svc bytes :=
  match p with Some v => rret v | None => rfail Internal end.

Definition svc_next_handle : Svc Z :=
  call (λ d, let '(r, s) := next_handle (store d) in (r, put_store s d)).
Definition svc_insert (pe : PersistEnv) (o : StoredObject) : Svc Z :=
  call (λ d, let '(r, s) := insert_object pe o (store d) in (r, put_store s d)).

(** ** Sessions and logins *)

Implicit Types (e : SvcEnv) (client : ClientId).

Definition svc_open_session e client (slot_id : Z) (read_write : bool) : Svc Z :=
  do! slot_id := to_ck_ulong slot_id in
  let flags := if read_write then Z.lor CKF_SERIAL_SESSION CKF_RW_SESSION else CKF_SERIAL_SESSION in
  do! t := ask (λ d, get_token slot_id (hsm d)) in
  do! handle := call (λ d,
    let '(r, m, t) := open_session slot_id flags (se_session e) (session_manager (hsm d)) t in
    (r, put_hsm (put_token slot_id t (hsm d <| session_manager := m |>)) d)) in
  do! _ := svc_audit handle (AOpenSession slot_id) Success None client in
  rret handle.

Definition svc_close_session client (session : Z) : Svc unit :=
  do! handle := to_ck_ulong session in
  do! slot_id := require_session session in
  do! t := ask (λ d, get_token slot_id (hsm d)) in
  do! _ := call (λ d,
    let '(r, m, t, cache) := close_session handle (session_manager (hsm d)) t (core_cache (hsm d)) in
    (r, put_hsm (put_token slot_id t (hsm d <| session_manager := m |> <| core_cache := cache |>)) d)) in
  svc_audit session ACloseSession Success None client.

(** Whether the throttle refuses; an expired lockout is reset. *)
Definition check_login_throttle e (key : ThrottleKey) : Svc unit :=
  do! locked := rcall (λ d,
    let '(b, m) := throttle_check (sv_throttle cfg) (se_check e) key (d_login_attempts d) in
    (b, d <| d_login_attempts := m |>)) in
  if locked then rfail ResourceExhausted else rret tt.
Definition record_login_failure e (key : ThrottleKey) : Svc unit :=
  rmod (λ d, d <| d_login_attempts :=
    throttle_failure (sv_throttle cfg) (se_evict e) (se_fail e) key (d_login_attempts d) |>).
Definition clear_login_attempts (key : ThrottleKey) : Svc unit :=
  rmod (λ d, d <| d_login_attempts := throttle_clear (sv_throttle cfg) key (d_login_attempts d) |>).
Definition check_init_token_throttle e (key : ThrottleKey) : Svc unit :=
  do! locked := rcall (λ d,
    let '(b, m) := throttle_check (sv_throttle cfg) (se_check e) key (d_init_token_attempts d) in
    (b, d <| d_init_token_attempts := m |>)) in
  if locked then rfail ResourceExhausted else rret tt.
Definition record_init_token_failure e (key : ThrottleKey) : Svc unit :=
  rmod (λ d, d <| d_init_token_attempts :=
    throttle_failure (sv_throttle cfg) (se_evict e) (se_fail e) key (d_init_token_attempts d) |>).
Definition clear_init_token_attempts (key : ThrottleKey) : Svc unit :=
  rmod (λ d, d <| d_init_token_attempts :=
    throttle_clear (sv_throttle cfg) key (d_init_token_attempts d) |>).

(** The audit of a failure is best effort. *)
Definition try_audit (session : Z) (op : AuditOperation) (client : ClientId) : Svc unit := λ d,
  (Ok tt, (svc_audit session op (Failure 0) None client d).2).

Definition svc_login e client (session user_type : Z) (pin : bytes) : Svc unit :=
  do! user_type := to_ck_ulong user_type in
  if negb (bool_decide (user_type ∈ [CKU_USER; CKU_SO; CKU_CONTEXT_SPECIFIC]))
  then rfail InvalidArgument
  else
    do! slot_id := require_session session in
    let key := (slot_id, client) in
    do! _ := check_login_throttle e key in
    do! result := on_slot_token slot_id (login user_type pin (se_token e)) in
    match result with
    | Ok _ =>
      do! _ := clear_login_attempts key in
      svc_audit session (ALogin user_type) Success None client
    | Err x =>
      do! _ := record_login_failure e key in
      do! _ := try_audit session (ALogin user_type) client in
      rfail (hsm_err_to_status x)
    end.

Definition svc_logout e client (session : Z) : Svc unit :=
  do! slot_id := require_session session in
  do! result := on_slot_token slot_id (logout (se_token e)) in
  do! _ := hsm_result result in
  svc_audit session ALogout Success None client.

Definition svc_get_token_info (slot_id session : Z) : Svc TokenInfoReply :=
  do! slot_id := to_ck_ulong slot_id in
  if session =? 0 then rfail InvalidArgument
  else
    do! session_slot := require_session session in
    if negb (session_slot =? slot_id) then rfail PermissionDenied
    else
      do! t := ask (λ d, get_token slot_id (hsm d)) in
      let logged_in := negb (bool_decide (login_state t = Public)) in
      rret {| ti_initialized := is_initialized t;
              ti_user_pin_initialized := is_user_pin_initialized t;
              ti_login_state := if logged_in then Some (login_state t) else None;
              ti_session_count := if logged_in then t_session_count t else 0;
              ti_max_sessions := t_max_sessions t;
              ti_rw_session_count := if logged_in then t_rw_session_count t else 0;
              ti_max_rw_sessions := t_max_rw_sessions t |}.

Definition svc_init_token e client (slot_id : Z) (so_pin label : bytes) : Svc unit :=
  do! slot_id := to_ck_ulong slot_id in
  let key := (slot_id, client) in
  do! _ := check_init_token_throttle e key in
  let copied := take 32 label in
  let label_bytes := copied ++ replicate (32 - length copied) 32 in
  do! result := on_slot_token slot_id (init_token so_pin label_bytes (se_token e)) in
  match result with
  | Ok _ =>
    do! _ := clear_init_token_attempts key in
    svc_audit 0 (AInitToken slot_id) Success None client
  | Err x =>
    do! _ := record_init_token_failure e key in
    do! _ := try_audit 0 (AInitToken slot_id) client in
    rfail (hsm_err_to_status x)
  end.

Definition svc_init_pin e client (session : Z) (pin : bytes) : Svc unit :=
  do! slot_id := require_authenticated_session session in
  do! s := ask (λ d, find_session session (hsm d)) in
  if negb (is_so (s_state s.2)) then rfail PermissionDenied
  else
    do! result := on_slot_token slot_id (init_pin pin (se_token e)) in
    do! _ := hsm_result result in
    svc_audit session (AInitPIN slot_id) Success None client.

Definition svc_set_pin e client (session : Z) (old_pin new_pin : bytes) : Svc unit :=
  do! slot_id := require_authenticated_session session in
  do! result := on_slot_token slot_id (set_pin old_pin new_pin (se_token e)) in
  do! _ := hsm_result result in
  svc_audit session ASetPIN Success (Some (ascii_bytes "set_pin")) client.

(** ** Objects *)

Definition svc_destroy_object e client (session object : Z) : Svc unit :=
  do! slot_id := require_authenticated_session session in
  do! _ := slot_object slot_id object in
  do! _ := call (λ d,
    let '(r, s) := destroy_object (ke_persist (se_key e)) object (store d) in (r, put_store s d)) in
  svc_audit session ADestroyObject Success (Some (ascii_bytes "handle=" ++ num object)) client.

Definition svc_find_objects client (session : Z) (template : Template) (max_count : Z) :
    Svc (list Z) :=
  do! slot_id := require_authenticated_session session in
  do! template := proto_attrs_to_template template in
  do! t := ask (λ d, get_token slot_id (hsm d)) in
  let logged_in := negb (bool_decide (login_state t = Public)) in
  do! handles := rget (λ d, find_objects_for_slot template logged_in (Some slot_id) (store d)) in
  let max := if 0 <? max_count then Z.to_nat max_count else length handles in
  let result_handles := take max handles in
  do! _ := svc_audit session (AFindObjects (wrap 32 (Z.of_nat (length result_handles)))) Success
             None client in
  rret result_handles.

(** The reply's attributes: an unreadable one is empty. *)
Definition read_reply (o : StoredObject) (t : Z) : Z * bytes :=
  (t, match read_attribute o t true with Ok (Some v) => v | _ => [] end).

Definition svc_get_attribute_value client (session object : Z) (attribute_types : list Z) :
    Svc (list (Z * bytes)) :=
  do! slot_id := require_session session in
  do! o := slot_object slot_id object in
  let is_private :=
    match read_attribute o CKA_PRIVATE true with
    | Ok (Some (b :: _)) => negb (b =? 0)
    | _ => false
    end in
  do! _ := (if is_private then require_logged_in slot_id else rret tt) in
  do! types := proto_attrs_to_template ((λ t, (t, [])) <$> attribute_types) in
  let attrs := (λ p, read_reply o p.1) <$> types in
  do! _ := svc_audit session AGetAttributeValue Success
             (Some (ascii_bytes "handle=" ++ num object)) client in
  rret attrs.

(** The copied fields. *)
Definition copied_object (e : SvcEnv) (slot_id handle : Z) (src : StoredObject) : StoredObject :=
  StoredObject_new handle (o_class src) (ke_wall (se_key e))
    <| o_slot_id := slot_id |> <| o_key_type := o_key_type src |>
    <| o_value_len := o_value_len src |> <| o_key_material := o_key_material src |>
    <| o_modulus := o_modulus src |> <| o_modulus_bits := o_modulus_bits src |>
    <| o_public_exponent := o_public_exponent src |> <| o_ec_params := o_ec_params src |>
    <| o_ec_point := o_ec_point src |> <| o_can_encrypt := o_can_encrypt src |>
    <| o_can_decrypt := o_can_decrypt src |> <| o_can_sign := o_can_sign src |>
    <| o_can_verify := o_can_verify src |> <| o_can_wrap := o_can_wrap src |>
    <| o_can_unwrap := o_can_unwrap src |> <| o_can_derive := o_can_derive src |>
    <| o_sensitive := o_sensitive src |> <| o_extractable := o_extractable src |>
    <| o_private := o_private src |> <| o_label := o_label src |>
    <| o_token_object := o_token_object src |> <| o_id := o_id src |>.

Definition svc_copy_object e client (session object : Z) (template : Template) : Svc Z :=
  do! slot_id := require_authenticated_session session in
  do! src := slot_object slot_id object in
  do! handle := svc_next_handle in
  if negb (o_copyable src) then rfail PermissionDenied
  else
    do! template := proto_attrs_to_template template in
    do! new_obj := hsm_result (apply_template (copied_object e slot_id handle src) template) in
    if o_sensitive src && negb (o_sensitive new_obj) then rfail PermissionDenied
    else if negb (o_extractable src) && o_extractable new_obj then rfail PermissionDenied
    else
      do! inserted := svc_insert (ke_persist (se_key e)) new_obj in
      do! _ := svc_audit session ACreateObject Success
                 (Some (ascii_bytes "copied from=" ++ num object ++ ascii_bytes ", new=" ++
                        num inserted)) client in
      rret inserted.

(** ** Keys *)

(** The secret key a handler makes of [key_material]. *)
Definition new_secret (now slot_id handle key_type : Z) (key_material : bytes) (value_len : Z) :
    StoredObject :=
  StoredObject_new handle CKO_SECRET_KEY now <| o_slot_id := slot_id |>
    <| o_key_type := Some key_type |> <| o_value_len := Some value_len |>
    <| o_key_material := Some key_material |> <| o_sensitive := true |>
    <| o_extractable := false |>.

Definition svc_generate_key e client (session : Z) (mechanism : option ProtoMechanism)
    (template : Template) : Svc Z :=
  do! slot_id := require_authenticated_session session in
  do! m := use_mechanism is_keygen_mechanism false mechanism in
  do! fips_mode := fips_mode in
  do! template := proto_attrs_to_template template in
  do! key_len := match template_ulong template CKA_VALUE_LEN with
                 | Some n => rret n
                 | None => rfail InvalidArgument
                 end in
  do! key_material :=
    (if pm_type m =? CKM_AES_KEY_GEN
     then hsm_result (generate_aes_key (ke_random (se_key e)) key_len fips_mode)
     else rfail InvalidArgument) in
  do! handle := svc_next_handle in
  let obj := new_secret (ke_wall (se_key e)) slot_id handle CKK_AES key_material key_len
               <| o_can_encrypt := true |> <| o_can_decrypt := true |> in
  do! obj := hsm_result (apply_template obj (without [CKA_VALUE_LEN] template)) in
  do! key_handle := svc_insert (ke_persist (se_key e)) obj in
  do! _ := svc_audit session
             (AGenerateKey (pm_type m) (wrap 32 key_len) (is_fips_approved (pm_type m))) Success
             (Some (ascii_bytes "handle=" ++ num key_handle)) client in
  rret key_handle.

(** The two objects of a pair before the fields of its kind. *)
Definition pair_public e (slot_id key_type handle : Z) : StoredObject :=
  StoredObject_new handle CKO_PUBLIC_KEY (ke_wall (se_key e)) <| o_slot_id := slot_id |>
    <| o_key_type := Some key_type |> <| o_can_verify := true |>.
Definition pair_private e (slot_id key_type handle : Z) (key : bytes) : StoredObject :=
  StoredObject_new handle CKO_PRIVATE_KEY (ke_wall2 (se_key e)) <| o_slot_id := slot_id |>
    <| o_key_type := Some key_type |> <| o_key_material := Some key |> <| o_can_sign := true |>
    <| o_sensitive := true |> <| o_extractable := false |> <| o_private := true |>.

(** The key pair of a mechanism: public object, private object, key length. *)
Definition rsa_pair e (slot_id pub_handle priv_handle : Z) (fips_mode : bool)
    (pub_template : Template) : Svc (StoredObject * StoredObject * Z) :=
  match template_ulong pub_template CKA_MODULUS_BITS with
  | None => rfail InvalidArgument
  | Some bits =>
    let modulus_bits := wrap 32 bits in
    do! k := hsm_result (generate_rsa_key_pair (ke_rng (se_key e)) modulus_bits fips_mode) in
    let '(private_key_der, modulus, pub_exponent) := k in
    rret (pair_public e slot_id CKK_RSA pub_handle <| o_modulus := Some modulus |>
            <| o_modulus_bits := Some modulus_bits |> <| o_public_exponent := Some pub_exponent |>
            <| o_can_encrypt := true |>,
          pair_private e slot_id CKK_RSA priv_handle private_key_der <| o_modulus := Some modulus |>
            <| o_modulus_bits := Some modulus_bits |> <| o_public_exponent := Some pub_exponent |>
            <| o_can_decrypt := true |>,
          modulus_bits)
  end.
Definition ec_pair e (slot_id pub_handle priv_handle : Z) (pub_template : Template) :
    Svc (StoredObject * StoredObject * Z) :=
  match find_attr pub_template CKA_EC_PARAMS with
  | None => rfail InvalidArgument
  | Some ec_params =>
    let cv := if is_p384_params ec_params then P384 else P256 in
    do! k := hsm_result (generate_ec_key_pair cv (ke_rng (se_key e))) in
    rret (pair_public e slot_id CKK_EC pub_handle <| o_ec_params := Some ec_params |>
            <| o_ec_point := Some k.2 |>,
          pair_private e slot_id CKK_EC priv_handle k.1 <| o_ec_params := Some ec_params |>
            <| o_ec_point := Some k.2 |>,
          match cv with P384 => 384 | P256 => 256 end)
  end.
Definition ed25519_pair e (slot_id pub_handle priv_handle : Z) :
    Svc (StoredObject * StoredObject * Z) :=
  do! k := hsm_result (generate_ed25519_key_pair (ke_rng (se_key e))) in
  rret (pair_public e slot_id CKK_EC_EDWARDS pub_handle <| o_ec_point := Some k.2 |>,
        pair_private e slot_id CKK_EC_EDWARDS priv_handle k.1 <| o_ec_point := Some k.2 |>,
        255).

Definition svc_generate_key_pair e client (session : Z) (mechanism : option ProtoMechanism)
    (public_template private_template : Template) : Svc (Z * Z) :=
  do! slot_id := require_authenticated_session session in
  do! m := use_mechanism is_keypair_gen_mechanism false mechanism in
  do! fips_mode := fips_mode in
  do! pub_template := proto_attrs_to_template public_template in
  do! priv_template := proto_attrs_to_template private_template in
  do! pub_handle := svc_next_handle in
  do! priv_handle := svc_next_handle in
  do! k :=
    (if pm_type m =? CKM_RSA_PKCS_KEY_PAIR_GEN
     then rsa_pair e slot_id pub_handle priv_handle fips_mode pub_template
     else if pm_type m =? CKM_EC_KEY_PAIR_GEN
     then ec_pair e slot_id pub_handle priv_handle pub_template
     else if pm_type m =? CKM_EDDSA then ed25519_pair e slot_id pub_handle priv_handle
     else rfail InvalidArgument) in
  do! pub_obj := hsm_result (apply_template k.1.1
                   (without [CKA_MODULUS_BITS; CKA_EC_PARAMS] pub_template)) in
  do! priv_obj := hsm_result (apply_template k.1.2 priv_template) in
  do! pub_h := svc_insert (ke_persist (se_key e)) pub_obj in
  do! priv_h := svc_insert (ke_persist2 (se_key e)) priv_obj in
  do! _ := svc_audit session
             (AGenerateKeyPair (pm_type m) k.2 (is_fips_approved (pm_type m))) Success
             (Some (ascii_bytes "pub=" ++ num pub_h ++ ascii_bytes ", priv=" ++ num priv_h)) client in
  rret (pub_h, priv_h).

(** ** Cryptographic operations *)

(** Calls that use the caches of parsed RSA keys, or the nonce counters. *)
Definition on_rsa {T} (f : RsaCaches → HsmResult T * RsaCaches) : Svc T :=
  call (λ d, let '(r, rsa) := f (cc_rsa (d_lib d)) in
             (r, d <| d_lib := d_lib d <| cc_rsa := rsa |> |>)).
Definition on_cipher {T} (f : CipherState → HsmResult T * CipherState) : Svc T :=
  call (λ d, let '(r, s) := f (core_cipher (hsm d)) in
             (r, d <| d_lib := put_cipher s (d_lib d) |>)).

Definition key_text (key : Z) : bytes := ascii_bytes "key=" ++ num key.
Definition key_curve (o : StoredObject) : Curve :=
  if is_p384_params (default [] (o_ec_params o)) then P384 else P256.
(** A key of the session's slot that is allowed the operation. *)
Definition usable_key (slot_id handle : Z) (allowed : StoredObject → bool) : Svc StoredObject :=
  do! o := slot_object slot_id handle in
  if negb (allowed o) then rfail PermissionDenied else rret o.

Definition svc_sign e client (session : Z) (mechanism : option ProtoMechanism) (key : Z)
    (data : bytes) : Svc bytes :=
  do! slot_id := require_authenticated_session session in
  do! m := use_mechanism is_sign_mechanism true mechanism in
  do! o := usable_key slot_id key o_can_sign in
  do! key_bytes := material o in
  do! signature :=
    (if bool_decide (o_key_type o = Some CKK_RSA) then
       if is_pss_mechanism (pm_type m) then
         do! hash_alg := hsm_result (pss_mechanism_to_hash (pm_type m)) in
         on_rsa (rsa_pss_sign (oe_rng (se_op e)) key_bytes data hash_alg)
       else on_rsa (rsa_pkcs1v15_sign key_bytes data (mechanism_to_hash (pm_type m)))
     else if bool_decide (o_key_type o = Some CKK_EC) then
       hsm_result (ecdsa_sign (key_curve o) (oe_rng (se_op e)) key_bytes data)
     else if bool_decide (o_key_type o = Some CKK_EC_EDWARDS) then
       hsm_result (ed25519_sign key_bytes data)
     else rfail InvalidArgument) in
  do! _ := svc_audit session (ASign (pm_type m) (is_fips_approved (pm_type m))) Success
             (Some (key_text key)) client in
  rret signature.

Definition svc_verify client (session : Z) (mechanism : option ProtoMechanism) (key : Z)
    (data signature : bytes) : Svc bool :=
  do! slot_id := require_authenticated_session session in
  do! m := use_mechanism is_sign_mechanism true mechanism in
  do! o := usable_key slot_id key o_can_verify in
  do! valid :=
    (if bool_decide (o_key_type o = Some CKK_RSA) then
       do! modulus := part (o_modulus o) in
       do! pub_exp := part (o_public_exponent o) in
       if is_pss_mechanism (pm_type m) then
         do! hash_alg := hsm_result (pss_mechanism_to_hash (pm_type m)) in
         hsm_result (rsa_pss_verify modulus pub_exp data signature hash_alg)
       else
         hsm_result (rsa_pkcs1v15_verify modulus pub_exp data signature
                       (mechanism_to_hash (pm_type m)))
     else if bool_decide (o_key_type o = Some CKK_EC) then
       do! ec_point := part (o_ec_point o) in
       hsm_result (ecdsa_verify (key_curve o) ec_point data signature)
     else if bool_decide (o_key_type o = Some CKK_EC_EDWARDS) then
       do! pub_key := part (o_ec_point o) in
       hsm_result (ed25519_verify pub_key data signature)
     else rfail InvalidArgument) in
  do! _ := svc_audit session (AVerify (pm_type m) (is_fips_approved (pm_type m))) Success
             (Some (key_text key)) client in
  rret valid.

(** The initialisation vector in the mechanism's parameter. *)
Definition iv_parameter (m : ProtoMechanism) : Svc bytes :=
  if negb (length (pm_parameter m) =? 16)%nat then rfail InvalidArgument
  else rret (pm_parameter m).

Definition svc_encrypt e client (session : Z) (mechanism : option ProtoMechanism) (key : Z)
    (data : bytes) : Svc bytes :=
  do! slot_id := require_authenticated_session session in
  do! m := use_mechanism is_encrypt_mechanism false mechanism in
  do! o := usable_key slot_id key o_can_encrypt in
  do! encrypted_data :=
    (if pm_type m =? CKM_AES_GCM then
       do! key_bytes := material o in
       on_cipher (aes_256_gcm_encrypt (oe_prefix (se_op e)) key_bytes data)
     else if mech_in [CKM_AES_CBC; CKM_AES_CBC_PAD] (pm_type m) then
       do! iv := iv_parameter m in
       do! key_bytes := material o in
       on_cipher (aes_cbc_encrypt key_bytes iv data)
     else if pm_type m =? CKM_AES_CTR then
       do! iv := iv_parameter m in
       do! key_bytes := material o in
       on_cipher (aes_ctr_encrypt key_bytes iv data)
     else if pm_type m =? CKM_RSA_PKCS_OAEP then
       do! modulus := part (o_modulus o) in
       do! pub_exp := part (o_public_exponent o) in
       hsm_result (rsa_oaep_encrypt (oe_rng (se_op e)) modulus pub_exp data OaepSha256)
     else rfail InvalidArgument) in
  do! _ := svc_audit session (AEncrypt (pm_type m) (is_fips_approved (pm_type m))) Success
             (Some (key_text key)) client in
  rret encrypted_data.

Definition svc_decrypt client (session : Z) (mechanism : option ProtoMechanism) (key : Z)
    (encrypted_data : bytes) : Svc bytes :=
  do! slot_id := require_authenticated_session session in
  do! m := use_mechanism is_encrypt_mechanism false mechanism in
  do! o := usable_key slot_id key o_can_decrypt in
  do! data :=
    (if pm_type m =? CKM_AES_GCM then
       do! key_bytes := material o in
       hsm_result (aes_256_gcm_decrypt key_bytes encrypted_data)
     else if mech_in [CKM_AES_CBC; CKM_AES_CBC_PAD] (pm_type m) then
       do! iv := iv_parameter m in
       do! key_bytes := material o in
       hsm_result (aes_cbc_decrypt key_bytes iv encrypted_data)
     else if pm_type m =? CKM_AES_CTR then
       do! iv := iv_parameter m in
       do! key_bytes := material o in
       hsm_result (aes_ctr_decrypt key_bytes iv encrypted_data)
     else if pm_type m =? CKM_RSA_PKCS_OAEP then
       do! key_bytes := material o in
       on_rsa (rsa_oaep_decrypt key_bytes encrypted_data OaepSha256)
     else rfail InvalidArgument) in
  do! _ := svc_audit session (ADecrypt (pm_type m) (is_fips_approved (pm_type m))) Success
             (Some (key_text key)) client in
  rret data.

Definition svc_digest (session : Z) (mechanism : option ProtoMechanism) (data : bytes) : Svc bytes :=
  do! _ := require_authenticated_session session in
  if sv_max_digest_length cfg <? blen data then rfail InvalidArgument
  else
    match mechanism with
    | None => rfail InvalidArgument
    | Some m =>
      do! mech_type := to_ck_ulong (pm_type m) in hsm_result (compute_digest mech_type data)
    end.

(** The daemon's generator; an abort or panic of the entropy source ends the
    handler. *)
Definition svc_generate_random e client (session length : Z) : Svc bytes :=
  do! _ := require_authenticated_session session in
  if negb ((0 <=? length) && (length <=? u32_max)) then rfail InvalidArgument
  else if sv_max_random_length cfg <? length then rfail InvalidArgument
  else
    do! r := rcall (λ d,
      match Drbg.generate (se_startup e) (se_src1 e) (se_src2 e) (replicate (Z.to_nat length) 0)
              (d_drbg d) (d_entropy d) with
      | Some (Filled (r, out, g, entropy)) =>
        (match r with Ok _ => Ok out | Err _ => Err Internal end,
         d <| d_drbg := g |> <| d_entropy := entropy |>)
      | _ => (Err HandlerPanics, d)
      end) in
    do! buf := rlift id r in
    do! _ := svc_audit session (AGenerateRandom length) Success None client in
    rret buf.

(** ** Wrapping and derivation *)

Definition key_wrap_mechanism (mech_type : Z) : bool :=
  mech_in [CKM_AES_KEY_WRAP; CKM_AES_KEY_WRAP_KWP] mech_type.

Definition svc_wrap_key client (session : Z) (mechanism : option ProtoMechanism)
    (wrapping_key key : Z) : Svc bytes :=
  do! slot_id := require_authenticated_session session in
  do! m := use_mechanism is_wrap_mechanism false mechanism in
  do! fips_mode := fips_mode in
  do! wrap_key := usable_key slot_id wrapping_key o_can_wrap in
  do! target_key := usable_key slot_id key o_extractable in
  do! wrapping_material := material wrap_key in
  do! key_material := material target_key in
  do! wrapped :=
    (if key_wrap_mechanism (pm_type m)
     then hsm_result (aes_key_wrap wrapping_material key_material fips_mode)
     else rfail InvalidArgument) in
  do! _ := svc_audit session (AWrapKey (pm_type m) (is_fips_approved (pm_type m))) Success
             (Some (ascii_bytes "wrapping_key=" ++ num wrapping_key ++
                    ascii_bytes ", wrapped_key=" ++ num key)) client in
  rret wrapped.

Definition svc_unwrap_key e client (session : Z) (mechanism : option ProtoMechanism)
    (unwrapping_key : Z) (wrapped : bytes) (template : Template) : Svc Z :=
  do! slot_id := require_authenticated_session session in
  do! m := use_mechanism is_wrap_mechanism false mechanism in
  do! fips_mode := fips_mode in
  do! unwrap_key := usable_key slot_id unwrapping_key o_can_unwrap in
  do! unwrapping_material := material unwrap_key in
  do! key_material :=
    (if key_wrap_mechanism (pm_type m)
     then hsm_result (aes_key_unwrap unwrapping_material wrapped fips_mode)
     else rfail InvalidArgument) in
  do! template := proto_attrs_to_template template in
  do! handle := svc_next_handle in
  let key_type := default CKK_GENERIC_SECRET (template_ulong template CKA_KEY_TYPE) in
  let obj := new_secret (ke_wall (se_key e)) slot_id handle key_type key_material
               (blen key_material) in
  do! obj := hsm_result (apply_template obj template) in
  do! new_handle := svc_insert (ke_persist (se_key e)) obj in
  do! _ := svc_audit session (AUnwrapKey (pm_type m) (is_fips_approved (pm_type m))) Success
             (Some (ascii_bytes "unwrapping_key=" ++ num unwrapping_key ++
                    ascii_bytes ", new_key=" ++ num new_handle)) client in
  rret new_handle.

(** OID 1.2.840.10045.3.1.7. *)
Definition P256_OID : bytes := [6; 8; 42; 134; 72; 206; 61; 3; 1; 7].
Definition is_p256_ec_params (ec_params : bytes) : bool :=
  bool_decide (ec_params = P256_OID) || occurs P256_OID ec_params.

Definition derived_secret (mech_type : Z) (ec_params base_material peer : bytes)
    (derived_len : option Z) : Svc bytes :=
  if mech_in [CKM_ECDH1_DERIVE; CKM_ECDH1_COFACTOR_DERIVE] mech_type then
    if is_p384_params ec_params then hsm_result (ecdh P384 base_material peer derived_len)
    else if is_p256_ec_params ec_params then hsm_result (ecdh P256 base_material peer derived_len)
    else rfail InvalidArgument
  else rfail InvalidArgument.

Definition svc_derive_key e client (session : Z) (mechanism : option ProtoMechanism) (base_key : Z)
    (template : Template) : Svc Z :=
  do! slot_id := require_authenticated_session session in
  do! m := use_mechanism is_derive_mechanism false mechanism in
  do! base := usable_key slot_id base_key o_can_derive in
  do! base_material := material base in
  if bool_decide (pm_parameter m = []) then rfail InvalidArgument
  else
    do! template := proto_attrs_to_template template in
    do! derived := derived_secret (pm_type m) (default [] (o_ec_params base)) base_material
                     (pm_parameter m) (template_ulong template CKA_VALUE_LEN) in
    do! handle := svc_next_handle in
    let obj := new_secret (ke_wall (se_key e)) slot_id handle CKK_GENERIC_SECRET derived
                 (blen derived) in
    do! obj := hsm_result (apply_template obj (without [CKA_VALUE_LEN] template)) in
    do! new_handle := svc_insert (ke_persist (se_key e)) obj in
    do! _ := svc_audit session (ADeriveKey (pm_type m) (is_fips_approved (pm_type m))) Success
               (Some (ascii_bytes "base_key=" ++ num base_key ++
                      ascii_bytes ", derived_key=" ++ num new_handle)) client in
    rret new_handle.

(** [health_check] reads neither the request nor the sessions. *)
Definition svc_health_check : Svc unit := rret tt.

(** ** The service *)

Definition reply {T} (f : T → Reply) (m : Svc T) : Svc Reply := do! x := m in rret (f x).

(** The handler of a request, called by a client. *)
Definition serve e client (r : Request) : Svc Reply :=
  match r with
  | ROpenSession slot_id rw => reply Handle (svc_open_session e client slot_id rw)
  | RCloseSession s => reply (λ _, Done) (svc_close_session client s)
  | RLogin s user_type pin => reply (λ _, Done) (svc_login e client s user_type pin)
  | RLogout s => reply (λ _, Done) (svc_logout e client s)
  | RGetTokenInfo slot_id s => reply TokenInfo (svc_get_token_info slot_id s)
  | RInitToken slot_id pin label => reply (λ _, Done) (svc_init_token e client slot_id pin label)
  | RGenerateKey s m t => reply Handle (svc_generate_key e client s m t)
  | RGenerateKeyPair s m pub priv =>
    reply (λ p, HandlePair p.1 p.2) (svc_generate_key_pair e client s m pub priv)
  | RDestroyObject s h => reply (λ _, Done) (svc_destroy_object e client s h)
  | RFindObjects s t n => reply Handles (svc_find_objects client s t n)
  | RGetAttributeValue s h ts => reply Attributes (svc_get_attribute_value client s h ts)
  | RSign s m k data => reply Data (svc_sign e client s m k data)
  | RVerify s m k data sig => reply Valid (svc_verify client s m k data sig)
  | REncrypt s m k data => reply Data (svc_encrypt e client s m k data)
  | RDecrypt s m k data => reply Data (svc_decrypt client s m k data)
  | RDigest s m data => reply Data (svc_digest s m data)
  | RGenerateRandom s n => reply Data (svc_generate_random e client s n)
  | RWrapKey s m w k => reply Data (svc_wrap_key client s m w k)
  | RUnwrapKey s m u w t => reply Handle (svc_unwrap_key e client s m u w t)
  | RDeriveKey s m b t => reply Handle (svc_derive_key e client s m b t)
  | RCopyObject s h t => reply Handle (svc_copy_object e client s h t)
  | RInitPin s pin => reply (λ _, Done) (svc_init_pin e client s pin)
  | RSetPin s old new => reply (λ _, Done) (svc_set_pin e client s old new)
  | RHealthCheck => reply (λ _, Healthy) svc_health_check
  end.

(** One request after the other. *)
Fixpoint serve_all (rs : list (SvcEnv * ClientId * Request)) (d : Daemon) :
    list (Result Status Reply) * Daemon :=
  match rs with
  | [] => ([], d)
  | (e, client, r) :: rs =>
    let '(res, d) := serve e client r d in
    let '(out, d) := serve_all rs d in (res :: out, d)
  end.
End Daemon.
