(* ===== verification/DaemonProofs.v ===== *)
(** * What the daemon keeps apart

    A request works on one session, and the session belongs to a slot.  The
    invariant [J] says what such a request may do to the object store, and
    [yields] proves it of every handler along its structure.  The three theorems
    are about whole requests: nothing but an open session's questions before a
    login, nothing across slots, and no key material out of the daemon. *)

From S2P Require Import Prelude StateError Pkcs11 Handles Hash PinCrypto TokenFiles Token Session SessionManager Dates Objects ObjectProofs ObjectStore ObjectStoreProofs AuditChain Encrypt Abi AbiProofs Mechanisms Sign Operations EntropyHealth Drbg KeyCrypto KeyManagement Config Throttle Daemon.

(** ** Steps with a precondition *)

Section Yields.
Context {S E : Type}.

(** From a state in [Pre], a successful step ends in [Post] with a value in
    [φ], and a failing one ends in [Bad]. *)
Definition yields {T} (Pre Post Bad : S → Prop) (φ : T → Prop) (m : Run S E T) : Prop :=
  ∀ s, Pre s → match m s with (Ok v, s') => Post s' ∧ φ v | (Err _, s') => Bad s' end.

Lemma yields_bind {T U} (Pre Mid Post Bad : S → Prop) (φ : T → Prop) (ψ : U → Prop)
    (m : Run S E T) (k : T → Run S E U) :
  yields Pre Mid Bad φ m → (∀ v, φ v → yields Mid Post Bad ψ (k v)) →
  yields Pre Post Bad ψ (rbind m k).
Proof.
  intros Hm Hk s Hs. unfold rbind. specialize (Hm s Hs).
  destruct (m s) as [[v|x] s']; [|done]. destruct Hm as [H1 H2]. by apply Hk.
Qed.
Lemma yields_keeps {V T} (view : S → V) (J B : V → Prop) (m : Run S E T) :
  keeps view m → (∀ v, J v → B v) →
  yields (λ s, J (view s)) (λ s, J (view s)) (λ s, B (view s)) (λ _, True) m.
Proof.
  intros Hm HB s Hs. specialize (Hm s). destruct (m s) as [[v|x] s']; simpl in Hm; rewrite Hm; auto.
Qed.
Lemma yields_post {T} (Pre Post Post' Bad : S → Prop) (φ ψ : T → Prop) (m : Run S E T) :
  yields Pre Post Bad φ m → (∀ s, Post s → Post' s) → (∀ v, φ v → ψ v) →
  yields Pre Post' Bad ψ m.
Proof.
  intros Hm HP Hφ s Hs. specialize (Hm s Hs). destruct (m s) as [[v|x] s']; [|done]. naive_solver.
Qed.
End Yields.

Section Service.
Context {P : PinPrimitives} {X : HexCodec} {H : HashPrimitives} {CP : CipherPrimitives}.
Context {SP : SignPrimitives} {KP : KeyPrimitives SP}.
Context {C : ObjectCodec} {SO : StoreOrder} {D : DashOrder} {AC : AuditCodec} {TO : ThrottleOrder}.
Context {A B : Type} {HS : HandleSource A} {OH : ObjectHandles B}.
Context (cfg : ServiceConfig).
Abbreviation Daemon := (Daemon (A:=A) (B:=B)).
Implicit Types (e : SvcEnv) (client : ClientId) (d : Daemon).

(** ** Before a login *)

(** The session of a request that needs a login. *)
Definition login_session (r : Request) : option Z :=
  match r with
  | RGenerateKey s _ _ | RGenerateKeyPair s _ _ _ | RDestroyObject s _ | RFindObjects s _ _
  | RSign s _ _ _ | RVerify s _ _ _ _ | REncrypt s _ _ _ | RDecrypt s _ _ _ | RDigest s _ _
  | RGenerateRandom s _ | RWrapKey s _ _ _ | RUnwrapKey s _ _ _ _ | RDeriveKey s _ _ _
  | RCopyObject s _ _ | RInitPin s _ | RSetPin s _ _ => Some s
  | _ => None
  end.

Lemma rbind_err {S E T U} (m : Run S E T) (k : T → Run S E U) s s' x :
  m s = (Err x, s') → rbind m k s = (Err x, s').
Proof using Type. unfold rbind. by intros ->. Qed.
Lemma rbind_step {S E T U} (m : Run S E T) (k : T → Run S E U) s s' v :
  m s = (Ok v, s') → rbind m k s = k v s'.
Proof using Type. unfold rbind. by intros ->. Qed.

Lemma to_ck_ulong_ok v d : 0 ≤ v ≤ u64_max → to_ck_ulong v d = (Ok v, d).
Proof using Type.
  intros Hv. unfold to_ck_ulong. by rewrite (proj2 (andb_true_iff _ _)) by (split; apply Z.leb_le; lia).
Qed.
Lemma require_session_ok session d l s : 0 ≤ session ≤ u64_max →
  find_session session (hsm d) = Ok (l, s) → require_session session d = (Ok (s_slot_id s), d).
Proof using Type.
  intros Hr Hs. unfold require_session. rewrite (rbind_step _ _ _ d session) by (by apply to_ck_ulong_ok).
  unfold ask, rget, hsm_result, rlift, rbind, rret. cbn. by rewrite Hs.
Qed.
Lemma slot_object_ok slot h d o : 0 ≤ h ≤ u64_max → get_object h (store d) = Ok o →
  o_slot_id o = slot → slot_object slot h d = (Ok o, d).
Proof using Type.
  intros Hr Hg <-. unfold slot_object. rewrite (rbind_step _ _ _ d h) by (by apply to_ck_ulong_ok).
  unfold ask, rget, hsm_result, rlift, rbind, rret. cbn. rewrite Hg. by rewrite Z.eqb_refl.
Qed.
Lemma require_logged_in_refused slot d t : get_token slot (hsm d) = Ok t → login_state t = Public →
  require_logged_in slot d = (Err PermissionDenied, d).
Proof using Type.
  intros Ht Hp. unfold require_logged_in, ask, rget, hsm_result, rlift, rbind, rret. cbn.
  rewrite Ht. cbn. unfold login_state in Hp. unfold require_login. by rewrite Hp.
Qed.

Lemma require_authenticated_refused session d l s t :
  0 ≤ session ≤ u64_max →
  find_session session (hsm d) = Ok (l, s) → get_token (s_slot_id s) (hsm d) = Ok t →
  login_state t = Public →
  require_authenticated_session session d = (Err PermissionDenied, d).
Proof using Type.
  intros Hr Hs Ht Hp. unfold require_authenticated_session.
  erewrite rbind_step by (by eapply require_session_ok).
  apply rbind_err. by eapply require_logged_in_refused.
Qed.

(** C16: nobody works before a login.  While the token of a session's slot has
    no user and no officer logged in, every request that generates, copies,
    destroys, finds or uses a key, asks for random bytes or a digest, or changes
    a PIN through that session is refused with a permission error, as is the
    question for the attributes of a private object of the slot, and the whole
    state of the daemon, its store, sessions, throttles, generator and audit log
    included, is what it was. *)
Theorem daemon_needs_login e client r d session l s t
    (Hr : 0 ≤ session ≤ u64_max)
    (Hs : find_session session (hsm d) = Ok (l, s))
    (Ht : get_token (s_slot_id s) (hsm d) = Ok t) (Hp : login_state t = Public) :
  (login_session r = Some session → serve cfg e client r d = (Err PermissionDenied, d)) ∧
  (∀ h o types, r = RGetAttributeValue session h types → 0 ≤ h ≤ u64_max →
     get_object h (store d) = Ok o → o_slot_id o = s_slot_id s → o_private o = true →
     serve cfg e client r d = (Err PermissionDenied, d)).
Proof using Type.
  pose proof (require_authenticated_refused session d l s t Hr Hs Ht Hp) as Hrefused.
  split.
  - intros Hn. destruct r; cbn in Hn; simplify_eq; cbn [serve]; unfold reply; apply rbind_err;
      by apply rbind_err.
  - intros h o types -> Hh Hg Hslot Hpriv. cbn [serve]. unfold reply. apply rbind_err.
    unfold svc_get_attribute_value. erewrite rbind_step by (by eapply require_session_ok).
    erewrite rbind_step by (by eapply slot_object_ok).
    unfold read_attribute. rewrite andb_false_r. cbn -[rbind]. rewrite Hpriv. cbn -[rbind].
    apply rbind_err. by eapply require_logged_in_refused.
Qed.

(** ** What a request may do to the store *)

Definition view d : gmap Z StoredObject * B * SessionManager A :=
  (os_objects (store d), os_alloc (store d), session_manager (hsm d)).

Lemma keeps_audit session op r id client : keeps view (svc_audit session op r id client).
Proof using Type.
  apply keeps_bind; [|intros []; auto with run]. apply keeps_call. intros d.
  by destruct (record _ _ _ _ _).
Qed.
Lemma keeps_try_audit session op client : keeps view (try_audit session op client).
Proof using Type.
  intros d. unfold try_audit. exact (keeps_audit session op (Failure 0) None client d).
Qed.
Lemma keeps_ask {T} (f : Daemon → HsmResult T) : keeps view (ask f).
Proof using Type. unfold ask, hsm_result. run_step. Qed.
Lemma keeps_hsm_result {T} (r : HsmResult T) : keeps view (hsm_result r).
Proof using Type. apply keeps_lift. Qed.
Lemma keeps_on_slot_token slot op : keeps view (on_slot_token slot op).
Proof using Type.
  apply keeps_bind; [apply keeps_ask|intros t]. apply keeps_call. intros d. by destruct (op _).
Qed.
Lemma keeps_ck_ulong v : keeps view (to_ck_ulong v).
Proof using Type. unfold to_ck_ulong. run_step. Qed.
Lemma keeps_proto_attrs l : keeps view (proto_attrs_to_template l).
Proof using Type.
  induction l as [|[t v] l IH]; cbn [proto_attrs_to_template]; [auto with run|].
  apply keeps_bind; [apply keeps_ck_ulong|intros ?]. run_step.
Qed.
Lemma keeps_mechanism kind signing m : keeps view (use_mechanism kind signing m).
Proof using Type.
  unfold use_mechanism. destruct m; [|auto with run].
  apply keeps_bind; [apply keeps_ck_ulong|intros ?]. run_step.
Qed.
Lemma keeps_material o : keeps view (material o).
Proof using Type. unfold material. run_step. Qed.
Lemma keeps_part o : keeps view (part o).
Proof using Type. unfold part. run_step. Qed.
Lemma keeps_on_rsa {T} (f : RsaCaches → HsmResult T * RsaCaches) : keeps view (on_rsa f).
Proof using Type.
  apply keeps_bind; [|intros ?; apply keeps_hsm_result]. apply keeps_call. intros d. by destruct (f _).
Qed.
Lemma keeps_on_cipher {T} (f : CipherState → HsmResult T * CipherState) : keeps view (on_cipher f).
Proof using Type.
  apply keeps_bind; [|intros ?; apply keeps_hsm_result]. apply keeps_call. intros d. by destruct (f _).
Qed.
Lemma keeps_logged_in slot : keeps view (require_logged_in slot).
Proof using Type. apply keeps_bind; [apply keeps_ask|intros ?]. run_step. Qed.
Lemma keeps_iv m : keeps view (iv_parameter m).
Proof using Type. unfold iv_parameter. run_step. Qed.
Lemma keeps_mod (f : Daemon → Daemon) : (∀ d, view (f d) = view d) → keeps view (E:=Status) (rmod f).
Proof using Type. intros Hf d. apply Hf. Qed.
Lemma keeps_check_login e key : keeps view (check_login_throttle cfg e key).
Proof using Type.
  apply keeps_bind; [|intros []; auto with run]. apply keeps_call. intros d.
  by destruct (throttle_check _ _ _ _).
Qed.
Lemma keeps_check_init e key : keeps view (check_init_token_throttle cfg e key).
Proof using Type.
  apply keeps_bind; [|intros []; auto with run]. apply keeps_call. intros d.
  by destruct (throttle_check _ _ _ _).
Qed.
Lemma keeps_login_failure e key : keeps view (record_login_failure cfg e key).
Proof using Type. by apply keeps_mod. Qed.
Lemma keeps_login_clear key : keeps view (clear_login_attempts cfg key).
Proof using Type. by apply keeps_mod. Qed.
Lemma keeps_init_failure e key : keeps view (record_init_token_failure cfg e key).
Proof using Type. by apply keeps_mod. Qed.
Lemma keeps_init_clear key : keeps view (clear_init_token_attempts cfg key).
Proof using Type. by apply keeps_mod. Qed.
Lemma keeps_fips_mode : keeps view fips_mode.
Proof using Type. apply keeps_get. Qed.
Lemma keeps_derived m ps k peer n : keeps view (derived_secret m ps k peer n).
Proof using Type. unfold derived_secret. run_step; apply keeps_hsm_result. Qed.
Lemma keeps_require_session session : keeps view (require_session session).
Proof using Type.
  apply keeps_bind; [apply keeps_ck_ulong|intros ?]. apply keeps_bind; [apply keeps_ask|]. auto with run.
Qed.
Lemma keeps_authenticated session : keeps view (require_authenticated_session session).
Proof using Type.
  apply keeps_bind; [apply keeps_require_session|intros ?].
  apply keeps_bind; [apply keeps_logged_in|]. auto with run.
Qed.
End Service.

#[export] Hint Resolve keeps_audit keeps_try_audit keeps_ask keeps_hsm_result keeps_on_slot_token
  keeps_ck_ulong keeps_proto_attrs keeps_mechanism keeps_material keeps_part keeps_on_rsa
  keeps_on_cipher keeps_logged_in keeps_iv keeps_check_login keeps_check_init keeps_fips_mode
  keeps_derived keeps_require_session keeps_authenticated keeps_login_failure keeps_login_clear
  keeps_init_failure keeps_init_clear : run.

(** An object whose value cannot be read and which cannot be wrapped. *)
Definition sealed (o : StoredObject) : Prop := o_sensitive o = true ∧ o_extractable o = false.
Definition tightens (o o' : StoredObject) : Prop :=
  (o_sensitive o = true → o_sensitive o' = true) ∧
  (o_extractable o = false → o_extractable o' = false).

Lemma protects_tightens o o' : protects o o' → tightens o o'.
Proof. unfold protects, tightens. naive_solver. Qed.

Section Confined.
Context {P : PinPrimitives} {X : HexCodec} {H : HashPrimitives} {CP : CipherPrimitives}.
Context {SP : SignPrimitives} {KP : KeyPrimitives SP}.
Context {C : ObjectCodec} {SO : StoreOrder} {D : DashOrder} {AC : AuditCodec} {TO : ThrottleOrder}.
Context {A B : Type} {HS : HandleSource A} {OH : ObjectHandles B}.
Abbreviation Daemon := (Daemon (A:=A) (B:=B)).
Implicit Types (e : SvcEnv) (client : ClientId) (d : Daemon).

(** The next [n] handles are not in [F]. *)
Fixpoint avoids (F : gset Z) (n : nat) (a : B) : Prop :=
  match n with
  | O => True
  | S n => (∀ h, (oh_next a).1 = Ok h → h ∉ F) ∧ avoids F n (oh_next a).2
  end.

(** The handles [F] of other slots, the objects before the request, the
    request's session and its slot, and what is known of every object. *)
Context (F : gset Z) (objs0 : gmap Z StoredObject) (slot session : Z).
Context (good : StoredObject → Prop).
Context (F_foreign : ∀ h o, h ∈ F → objs0 !! h = Some o → o_slot_id o ≠ slot).
Context (good_sealed : ∀ o, sealed o → good o).
Context (good_tight : ∀ o o', good o → tightens o o' → good o').

Record J (n : nat) (v : gmap Z StoredObject * B * SessionManager A) : Prop := {
  j_good : map_Forall (λ _, good) v.1.1;
  j_foreign : ∀ h, h ∈ F → v.1.1 !! h = objs0 !! h;
  j_mine : ∀ h o, v.1.1 !! h = Some o → objs0 !! h = Some o ∨ o_slot_id o = slot;
  j_session : ∀ l s, lookup_session v.2 session = Some (l, s) → s_slot_id s = slot;
  j_avoids : avoids F n v.1.2;
}.

Lemma J_end n v : J n v → J 0 v.
Proof using Type. by intros []. Qed.

Definition conf {T} (n n' : nat) (φ : T → Prop) (m : Svc (A:=A) (B:=B) T) : Prop :=
  yields (λ d, J n (view d)) (λ d, J n' (view d)) (λ d, J 0 (view d)) φ m.

(** An object the request may touch. *)
Definition mine (h : Z) (o : StoredObject) : Prop := h ∉ F ∧ o_slot_id o = slot ∧ good o.

Lemma conf_bind {T U} n n' n'' (φ : T → Prop) (ψ : U → Prop) m (k : T → Svc U) :
  conf n n' φ m → (∀ v, φ v → conf n' n'' ψ (k v)) → conf n n'' ψ (rbind m k).
Proof using Type. apply yields_bind. Qed.
Lemma conf_keeps {T} n (m : Svc T) : keeps view m → conf n n (λ _, True) m.
Proof using Type. intros Hm. apply yields_keeps; [done|apply J_end]. Qed.
Lemma conf_ret {T} n (φ : T → Prop) v : φ v → conf n 0 φ (rret v).
Proof using Type. intros Hv d Hd. split; [by eapply J_end|done]. Qed.
Lemma conf_fail {T} n n' (φ : T → Prop) x : conf n n' φ (rfail x).
Proof using Type. intros d Hd. by eapply J_end. Qed.
Lemma conf_lift {T} n (r : HsmResult T) : conf n n (λ v, r = Ok v) (hsm_result r).
Proof using Type. intros d Hd. destruct r; [done|by eapply J_end]. Qed.
Lemma conf_end {T} n (φ : T → Prop) m : conf n n φ m → conf n 0 φ m.
Proof using Type. intros Hm. eapply yields_post; [done|intros ?; apply J_end|done]. Qed.
Lemma conf_value {T} n n' (φ ψ : T → Prop) m : conf n n' φ m → (∀ v, φ v → ψ v) → conf n n' ψ m.
Proof using Type. intros Hm Hφ. by eapply yields_post. Qed.

Lemma conf_ck n v : conf n n (λ x, x = v) (to_ck_ulong v).
Proof using Type. unfold to_ck_ulong. destruct (_ && _); [|apply conf_fail]. by intros d Hd. Qed.
Lemma conf_ask {T} n (f : Daemon → HsmResult T) (φ : T → Prop) :
  (∀ d v, J n (view d) → f d = Ok v → φ v) → conf n n φ (ask f).
Proof using Type.
  intros Hf d Hd. unfold ask, rbind, rget, hsm_result, rlift.
  specialize (Hf d). destruct (f d); [auto|by eapply J_end].
Qed.
Lemma conf_session n : conf n n (λ s, s = slot) (require_session session).
Proof using Type.
  eapply conf_bind; [apply conf_ck|intros handle ->]. cbn beta.
  eapply conf_bind; [apply (conf_ask _ _ (λ p, s_slot_id p.2 = slot))|].
  - intros d [l s] Hd Hs. apply find_session_Ok in Hs. by eapply j_session.
  - intros p Hp d Hd. by split.
Qed.
Lemma conf_auth n : conf n n (λ s, s = slot) (require_authenticated_session session).
Proof using Type.
  eapply conf_bind; [apply conf_session|intros ? ->]. cbn beta.
  eapply conf_bind; [apply conf_keeps; auto with run|intros ? _]. by intros d Hd.
Qed.
Lemma conf_slot_object n h : conf n n (mine h) (slot_object slot h).
Proof using F_foreign.
  eapply conf_bind; [apply conf_ck|intros ? ->]. cbn beta.
  eapply conf_bind; [apply (conf_ask _ _ (λ o, good o ∧ (o_slot_id o = slot → h ∉ F)))|].
  - intros d o Hd Ho. unfold get_object in Ho.
    destruct (os_objects (store d) !! h) eqn:E; simplify_eq/=.
    split; [exact (j_good _ _ Hd h o E)|]. intros Hslot HF.
    pose proof (j_foreign _ _ Hd h HF) as E0. cbn in E0. rewrite E in E0.
    by apply (F_foreign h o HF).
  - intros o [Hg Hs]. destruct (o_slot_id o =? slot) eqn:E; [|apply conf_fail].
    apply Z.eqb_eq in E. intros d Hd. split; [done|]. split_and!; auto.
Qed.
Lemma conf_usable n h f : conf n n (λ o, mine h o ∧ f o = true) (usable_key slot h f).
Proof using F_foreign.
  eapply conf_bind; [apply conf_slot_object|intros o Ho]. cbn beta.
  destruct (f o) eqn:E; [|apply conf_fail]. by intros d Hd.
Qed.

Lemma conf_next n : conf (S n) n (λ h, h ∉ F) svc_next_handle.
Proof using Type.
  intros d Hd. unfold svc_next_handle, call, rbind, rcall, hsm_result, rlift, next_handle.
  destruct Hd as [H1 H2 H3 H4 [H5 H6]]. cbn in *.
  destruct (oh_next (os_alloc (store d))) as [[h|x] a] eqn:E; cbn.
  - split; [by constructor|]. by apply H5.
  - by constructor.
Qed.
Lemma conf_insert n pe o : o_handle o ∉ F → o_slot_id o = slot → good o →
  conf n n (λ h, h = o_handle o) (svc_insert pe o).
Proof using Type.
  intros HF Hs Hg d Hd. unfold svc_insert, call, rbind, rcall, hsm_result, rlift, insert_object.
  destruct (MAX_OBJECTS <=? _); [by eapply J_end|].
  split; [|done]. destruct Hd as [H1 H2 H3 H4 H5]. cbn in *.
  constructor; cbn; rewrite ?persist_object_objects, ?persist_object_alloc.
  - by apply map_Forall_insert_2.
  - intros h Hh. rewrite lookup_insert_ne by (by intros <-). by apply H2.
  - intros h o' [[<- <-]|[? ?]]%lookup_insert_Some; [by right|by apply H3].
  - done.
  - done.
Qed.
Lemma conf_destroy n pe h : h ∉ F →
  conf n n (λ _, True) (call (λ d : Daemon,
    let '(r, s) := destroy_object pe h (store d) in (r, put_store s d))).
Proof using Type.
  intros HF d Hd. unfold call, rbind, rcall, hsm_result, rlift, destroy_object.
  destruct (os_objects (store d) !! h) as [o|]; [|by eapply J_end].
  destruct (o_destroyable o); [|by eapply J_end].
  split; [|done]. destruct Hd as [H1 H2 H3 H4 H5]. cbn in *.
  constructor; cbn; rewrite ?unpersist_object_objects; cbn.
  - by apply map_Forall_delete.
  - intros h' Hh. rewrite lookup_delete_ne by (by intros <-). by apply H2.
  - intros h' o' [? ?]%lookup_delete_Some. by apply H3.
  - done.
  - by rewrite unpersist_object_alloc.
Qed.

(** ** The handlers *)

(** An object made for the request. *)
Definition made (h : Z) (o : StoredObject) : Prop :=
  o_handle o = h ∧ o_slot_id o = slot ∧ sealed o.
Lemma made_applied h o template o' : made h o → apply_template o template = Ok o' → made h o'.
Proof using Type.
  intros (H1 & H2 & H3 & H4) (E1 & E2 & E3 & E4 & _)%apply_template_protects.
  repeat split; [congruence|congruence|auto|auto].
Qed.
Lemma conf_made n pe h o : h ∉ F → made h o → conf n n (λ h', h' = h) (svc_insert pe o).
Proof using good_sealed. intros HF (<- & Hs & Ho). apply conf_insert; auto. Qed.

Ltac conf_bind_with lem := eapply conf_bind; [by apply lem|].
Ltac conf_step :=
  match goal with
  | |- conf _ _ _ (rbind (require_authenticated_session _) _) =>
    conf_bind_with conf_auth; intros ? ->; cbn beta
  | |- conf _ _ _ (rbind (require_session _) _) => conf_bind_with conf_session; intros ? ->; cbn beta
  | |- conf _ _ _ (rbind (slot_object _ _) _) => conf_bind_with conf_slot_object; intros ? ?; cbn beta in *
  | |- conf _ _ _ (rbind (usable_key _ _ _) _) => conf_bind_with conf_usable; intros ? [? ?]; cbn beta in *
  | |- conf _ _ _ (rbind svc_next_handle _) => conf_bind_with conf_next; intros ? ?; cbn beta in *
  | |- conf _ _ _ (rbind (hsm_result _) _) => conf_bind_with @conf_lift; intros ? ?; cbn beta in *
  | |- conf _ _ _ (rbind _ _) =>
    eapply conf_bind; [apply conf_keeps; solve [run_step]|intros ? _]; cbn beta
  | |- conf _ _ _ (if ?b then _ else _) => destruct b eqn:?
  | |- conf _ _ _ (rfail _) => apply conf_fail
  | |- conf _ _ _ (rret _) => apply conf_ret
  | |- conf _ _ _ (match ?r with _ => _ end) => destruct r eqn:?
  end.
Ltac conf_steps := repeat conf_step.

Lemma conf_generate_key e client m template :
  conf 2 0 (λ _, True) (svc_generate_key e client session m template).
Proof using good_sealed.
  unfold svc_generate_key. conf_steps.
  eapply conf_bind; [eapply conf_made; [done|]|]; [|intros ? ->; conf_steps; done].
  eapply made_applied; [|done]. by repeat split.
Qed.
Lemma conf_unwrap_key e client m k w template :
  conf 2 0 (λ _, ∃ o, mine k o) (svc_unwrap_key e client session m k w template).
Proof using good_sealed F_foreign.
  unfold svc_unwrap_key. conf_steps.
  eapply conf_bind; [eapply conf_made; [done|]|]; [|intros ? ->; conf_steps; eauto].
  eapply made_applied; [|done]. by repeat split.
Qed.
Lemma conf_derive_key e client m k template :
  conf 2 0 (λ _, ∃ o, mine k o) (svc_derive_key e client session m k template).
Proof using good_sealed F_foreign.
  unfold svc_derive_key. conf_steps.
  eapply conf_bind; [eapply conf_made; [done|]|]; [|intros ? ->; conf_steps; eauto].
  eapply made_applied; [|done]. by repeat split.
Qed.
Lemma conf_pair n e mech pub_h priv_h fips pt :
  conf n n (λ k, made pub_h k.1.1 ∧ made priv_h k.1.2)
    (if mech =? CKM_RSA_PKCS_KEY_PAIR_GEN then rsa_pair e slot pub_h priv_h fips pt
     else if mech =? CKM_EC_KEY_PAIR_GEN then ec_pair e slot pub_h priv_h pt
     else if mech =? CKM_EDDSA then ed25519_pair e slot pub_h priv_h
     else rfail InvalidArgument).
Proof using Type.
  repeat case_match; [| | |apply conf_fail]; unfold rsa_pair, ec_pair, ed25519_pair;
    try (case_match; [|apply conf_fail]);
    (eapply conf_bind; [apply conf_lift|intros k _]); [destruct k as [[? ?] ?]|..];
    intros d Hd; (split; [exact Hd|]); by repeat split.
Qed.
Lemma conf_generate_key_pair e client m pt vt :
  conf 2 0 (λ _, True) (svc_generate_key_pair e client session m pt vt).
Proof using good_sealed.
  unfold svc_generate_key_pair. do 7 conf_step.
  eapply conf_bind; [apply conf_pair|intros k [Hpub Hpriv]]. conf_step. conf_step.
  eapply conf_bind; [eapply conf_made; [|eapply made_applied; [exact Hpub|]]; done|intros ? ->].
  eapply conf_bind; [eapply conf_made; [|eapply made_applied; [exact Hpriv|]]; done|intros ? ->].
  conf_steps. done.
Qed.

Lemma conf_copy_object e client h template :
  conf 2 0 (λ _, ∃ o, mine h o) (svc_copy_object e client session h template).
Proof using good_tight F_foreign.
  unfold svc_copy_object. conf_steps.
  match goal with Hm : mine h ?o, Ha : apply_template _ _ = Ok ?n |- _ =>
    rename o into src, n into new, Hm into Hsrc, Ha into Happ end.
  pose proof (apply_template_protects _ _ _ Happ) as Hp.
  destruct Hsrc as (HF & Hs & Hg).
  eapply conf_bind; [apply conf_insert|intros ? _; conf_steps; by exists src].
  - destruct Hp as (_ & _ & -> & _). done.
  - by destruct Hp as (_ & _ & _ & -> & _).
  - eapply good_tight; [exact Hg|]. apply protects_tightens in Hp as [T1 T2].
    split; [intros E; apply T1, E|intros E; apply T2, E].
Qed.

Lemma conf_destroy_object e client h :
  conf 2 0 (λ _, ∃ o, mine h o) (svc_destroy_object e client session h).
Proof using F_foreign.
  unfold svc_destroy_object. do 2 conf_step.
  match goal with Hm : mine h ?o |- _ => rename o into src, Hm into Hsrc end.
  eapply conf_bind; [apply conf_destroy, Hsrc|intros ? _]. eapply conf_end, conf_value;
    [apply conf_keeps; auto with run|]. by exists src.
Qed.

(** What a successful request tells of the objects it names. *)
Definition answer (r : Request) (a : Reply) : Prop :=
  match r with
  | RDestroyObject _ h | RCopyObject _ h _ | RSign _ _ h _ | RVerify _ _ h _ _ | REncrypt _ _ h _
  | RDecrypt _ _ h _ | RUnwrapKey _ _ h _ _ | RDeriveKey _ _ h _ => ∃ o, mine h o
  | RWrapKey _ _ w h => (∃ o, mine w o) ∧ ∃ o, mine h o ∧ o_extractable o = true
  | RGetAttributeValue _ h types =>
    ∃ o, mine h o ∧ ∃ ts, a = Attributes ((λ t, read_reply o t) <$> ts)
  | RFindObjects _ _ _ => ∀ hs, a = Handles hs → ∀ h, h ∈ hs → h ∉ F
  | _ => True
  end.

Lemma conf_reply {T} (f : T → Reply) (φ : T → Prop) (ψ : Reply → Prop) m :
  conf 2 0 φ m → (∀ v, φ v → ψ (f v)) → conf 2 0 ψ (reply f m).
Proof using Type.
  intros Hm Hφ. eapply conf_bind; [exact Hm|intros v Hv]. by apply conf_ret, Hφ.
Qed.

Lemma conf_sign e client m k data :
  conf 2 0 (λ _, ∃ o, mine k o) (svc_sign e client session m k data).
Proof using F_foreign. unfold svc_sign. conf_steps. eauto. Qed.
Lemma conf_verify client m k data signature :
  conf 2 0 (λ _, ∃ o, mine k o) (svc_verify client session m k data signature).
Proof using F_foreign. unfold svc_verify. conf_steps. eauto. Qed.
Lemma conf_encrypt e client m k data :
  conf 2 0 (λ _, ∃ o, mine k o) (svc_encrypt e client session m k data).
Proof using F_foreign. unfold svc_encrypt. conf_steps. eauto. Qed.
Lemma conf_decrypt client m k data :
  conf 2 0 (λ _, ∃ o, mine k o) (svc_decrypt client session m k data).
Proof using F_foreign. unfold svc_decrypt. conf_steps. eauto. Qed.
Lemma conf_wrap client m w k :
  conf 2 0 (λ _, (∃ o, mine w o) ∧ ∃ o, mine k o ∧ o_extractable o = true)
    (svc_wrap_key client session m w k).
Proof using F_foreign. unfold svc_wrap_key. conf_steps. eauto. Qed.
Lemma conf_get_attributes client h types :
  conf 2 0 (λ attrs, ∃ o, mine h o ∧ ∃ ts, attrs = (λ t, read_reply o t) <$> ts)
    (svc_get_attribute_value client session h types).
Proof using F_foreign.
  unfold svc_get_attribute_value. do 2 conf_step.
  eapply conf_bind; [apply conf_keeps; repeat case_match; auto with run|intros ? _]. conf_steps.
  eexists. split; [done|]. eexists (_.*1). by rewrite <- list_fmap_compose.
Qed.

Lemma find_objects_slot template logged sid (s : ObjectStore B) h :
  h ∈ find_objects_for_slot template logged (Some sid) s →
  ∃ o, os_objects s !! h = Some o ∧ o_slot_id o = sid.
Proof using Type.
  unfold find_objects_for_slot.
  rewrite (foldl_filter (λ k, match os_objects s !! k with
    | None => false
    | Some o => matches_template o template && (negb (o_private o) || logged) && (o_slot_id o =? sid)
    end)); [|by intros acc k; destruct (os_objects s !! k)].
  simpl. intros [_ Hf]%list_elem_of_In%filter_In.
  destruct (os_objects s !! h) as [o|]; [|done]. exists o. split; [done|].
  by apply andb_true_iff in Hf as [_ ?%Z.eqb_eq].
Qed.
Lemma conf_find client template n :
  conf 2 0 (λ hs, ∀ h, h ∈ hs → h ∉ F) (svc_find_objects client session template n).
Proof using F_foreign.
  unfold svc_find_objects. do 3 conf_step.
  eapply (conf_bind _ _ _ (λ hs, ∀ h, h ∈ hs → h ∉ F)).
  - intros d Hd. split; [exact Hd|]. intros h (o & E & Hs)%find_objects_slot HF.
    pose proof (j_foreign _ _ Hd h HF) as E0. cbn in E0. rewrite E in E0.
    by apply (F_foreign h o HF).
  - intros hs Hhs. conf_steps. intros h Hh. apply Hhs. by eapply subseteq_take.
Qed.

(** The requests that leave objects and sessions alone. *)
Ltac quiet :=
  repeat first
    [ solve [auto with run]
    | apply keeps_bind; [|intros ?]
    | progress case_match ].
Lemma keeps_login (cfg : ServiceConfig) e client s ty pin :
  keeps view (svc_login (A:=A) (B:=B) cfg e client s ty pin).
Proof using Type. unfold svc_login. quiet. Qed.
Lemma keeps_init_token (cfg : ServiceConfig) e client sl pin label :
  keeps view (svc_init_token (A:=A) (B:=B) cfg e client sl pin label).
Proof using Type. unfold svc_init_token. quiet. Qed.
Lemma keeps_pins e client s old new :
  keeps view (svc_logout (A:=A) (B:=B) e client s) ∧
  keeps view (svc_init_pin (A:=A) (B:=B) e client s new) ∧
  keeps view (svc_set_pin (A:=A) (B:=B) e client s old new).
Proof using Type. unfold svc_logout, svc_init_pin, svc_set_pin. split_and!; quiet. Qed.
Lemma keeps_svc_token_info sl s : keeps view (svc_get_token_info (A:=A) (B:=B) sl s).
Proof using Type. unfold svc_get_token_info. quiet. Qed.
Lemma keeps_digest (cfg : ServiceConfig) s m data :
  keeps view (svc_digest (A:=A) (B:=B) cfg s m data).
Proof using Type. unfold svc_digest. quiet. Qed.
Lemma keeps_random (cfg : ServiceConfig) e client s n :
  keeps view (svc_generate_random (A:=A) (B:=B) cfg e client s n).
Proof using Type.
  unfold svc_generate_random. quiet. apply keeps_call. intros d. by repeat case_match.
Qed.

(** A request on the session, or on none. *)
Definition works_on (r : Request) : Prop :=
  match r with
  | ROpenSession _ _ | RCloseSession _ => False
  | RInitToken _ _ _ | RHealthCheck => True
  | RLogin s _ _ | RLogout s | RGetTokenInfo _ s | RGenerateKey s _ _ | RGenerateKeyPair s _ _ _
  | RDestroyObject s _ | RFindObjects s _ _ | RGetAttributeValue s _ _ | RSign s _ _ _
  | RVerify s _ _ _ _ | REncrypt s _ _ _ | RDecrypt s _ _ _ | RDigest s _ _ | RGenerateRandom s _
  | RWrapKey s _ _ _ | RUnwrapKey s _ _ _ _ | RDeriveKey s _ _ _ | RCopyObject s _ _ | RInitPin s _
  | RSetPin s _ _ => s = session
  end.

Ltac serve_quiet lem := eapply conf_reply; [apply conf_end, conf_keeps, lem|done].
Ltac serve_conf lem := eapply conf_reply; [apply lem|done].
Lemma conf_serve cfg e client r : works_on r → conf 2 0 (answer r) (serve cfg e client r).
Proof using F_foreign good_sealed good_tight.
  destruct r; cbn [works_on serve]; intros Hs; try done; try subst.
  - serve_quiet keeps_login.
  - serve_quiet (keeps_pins e client session [] []).
  - serve_quiet keeps_svc_token_info.
  - serve_quiet keeps_init_token.
  - serve_conf conf_generate_key.
  - serve_conf conf_generate_key_pair.
  - serve_conf conf_destroy_object.
  - eapply conf_reply; [apply conf_find|]. by intros hs Hhs ? [= <-].
  - eapply conf_reply; [apply conf_get_attributes|]. intros attrs (o & Ho & ts & ->).
    exists o. split; [done|by exists ts].
  - serve_conf conf_sign.
  - serve_conf conf_verify.
  - serve_conf conf_encrypt.
  - serve_conf conf_decrypt.
  - serve_quiet keeps_digest.
  - serve_quiet keeps_random.
  - serve_conf conf_wrap.
  - serve_conf conf_unwrap_key.
  - serve_conf conf_derive_key.
  - serve_conf conf_copy_object.
  - serve_quiet (keeps_pins e client session []).
  - serve_quiet keeps_pins.
  - serve_quiet @keeps_ret.
Qed.
End Confined.

Section Promises.
Context {P : PinPrimitives} {X : HexCodec} {H : HashPrimitives} {CP : CipherPrimitives}.
Context {SP : SignPrimitives} {KP : KeyPrimitives SP}.
Context {C : ObjectCodec} {SO : StoreOrder} {D : DashOrder} {AC : AuditCodec} {TO : ThrottleOrder}.
Context {A B : Type} {HS : HandleSource A} {OH : ObjectHandles B}.
Context (cfg : ServiceConfig).
Abbreviation Daemon := (Daemon (A:=A) (B:=B)).
Implicit Types (e : SvcEnv) (client : ClientId) (d : Daemon).

Definition objects d : gmap Z StoredObject := os_objects (store d).

(** The handles a request names or its answer lists. *)
Definition handles_of (r : Request) (a : Reply) : list Z :=
  match r with
  | RDestroyObject _ h | RCopyObject _ h _ | RSign _ _ h _ | RVerify _ _ h _ _ | REncrypt _ _ h _
  | RDecrypt _ _ h _ | RUnwrapKey _ _ h _ _ | RDeriveKey _ _ h _ | RGetAttributeValue _ h _ => [h]
  | RWrapKey _ _ w h => [w; h]
  | RFindObjects _ _ _ => match a with Handles hs => hs | _ => [] end
  | _ => []
  end.
Lemma answer_handles F slot good r a h :
  answer F slot good r a → h ∈ handles_of r a → h ∉ F.
Proof using Type.
  destruct r; cbn; unfold mine; try (by intros _ []%list_elem_of_In).
  all: try (intros (? & ? & _) Hh; apply list_elem_of_In in Hh as [<-|[]]; done).
  - destruct a; try (by intros _ []%list_elem_of_In). intros Ha. by apply Ha.
  - intros (? & (? & _) & _) Hh. apply list_elem_of_In in Hh as [<-|[]]; done.
  - intros [(? & ? & _) (? & (? & _) & _)] Hh.
    apply list_elem_of_In in Hh as [<-|[<-|[]]]; done.
Qed.

(** The handles of the objects of other slots. *)
Definition foreign (slot : Z) (objs : gmap Z StoredObject) : gset Z :=
  dom (filter (λ p, o_slot_id p.2 ≠ slot) objs).
Lemma foreign_spec slot objs h o : objs !! h = Some o → h ∈ foreign slot objs ↔ o_slot_id o ≠ slot.
Proof using Type.
  intros E. unfold foreign. rewrite elem_of_dom. split.
  - intros [o' [? ?]%map_lookup_filter_Some]. by simplify_eq.
  - intros Hs. exists o. by apply map_lookup_filter_Some.
Qed.

Lemma foreign_used slot objs h : h ∈ foreign slot objs → is_Some (objs !! h).
Proof using Type.
  unfold foreign. rewrite elem_of_dom. intros [o [? ?]%map_lookup_filter_Some]. by exists o.
Qed.

Definition room_for_two d : Prop :=
  oh_room (os_alloc (store d)) ∧ oh_room (oh_next (os_alloc (store d))).2.
Lemma avoids_two {OHL : ObjectHandlesLaws B} (F : gset Z) d :
  room_for_two d → (∀ h, h ∈ F → oh_used (os_alloc (store d)) h) → avoids F 2 (os_alloc (store d)).
Proof using Type.
  intros [R1 R2] HF. destruct (oh_next_fresh _ R1) as (h1 & a1 & E1 & N1 & _ & _ & M1).
  rewrite E1 in R2. destruct (oh_next_fresh _ R2) as (h2 & a2 & E2 & N2 & _ & _ & _).
  cbn. rewrite E1. cbn in *. rewrite E2. cbn. split_and!; [..|done].
  - intros h [= <-] ?. by apply N1, HF.
  - intros h [= <-] ?. by apply N2, M1, HF.
Qed.

(** C9: the daemon keeps slots apart.  Whatever a client asks through a session
    of a slot, and whatever comes of it, the objects of the other slots are
    exactly what they were, an object that is new or changed belongs to the
    session's slot, and a request only succeeds, or lists a handle, for objects
    of that slot; this for every request but the opening and closing of
    sessions, in a store whose objects are filed under handles the allocator
    knows and with two handles left to issue. *)
Theorem daemon_slots_isolated {OHL : ObjectHandlesLaws B} e client r d session l s res d'
    (Hw : works_on session r) (Hs : find_session session (hsm d) = Ok (l, s))
    (Hok : handles_ok (store d)) (Hroom : room_for_two d)
    (E : serve cfg e client r d = (res, d')) :
  (∀ h o, objects d !! h = Some o → o_slot_id o ≠ s_slot_id s → objects d' !! h = Some o) ∧
  (∀ h o, objects d' !! h = Some o → objects d !! h = Some o ∨ o_slot_id o = s_slot_id s) ∧
  (∀ a h o, res = Ok a → h ∈ handles_of r a → objects d !! h = Some o → o_slot_id o = s_slot_id s).
Proof using Type.
  set (slot := s_slot_id s). set (F := foreign slot (objects d)).
  assert (HF : ∀ h o, h ∈ F → objects d !! h = Some o → o_slot_id o ≠ slot)
    by (intros h o Hh Ho; exact (proj1 (foreign_spec slot _ h o Ho) Hh)).
  pose proof (conf_serve F (objects d) slot session (λ _, True) HF (λ _ _, I) (λ _ _ _ _, I)
    cfg e client r Hw d) as Hc. rewrite E in Hc.
  assert (HJ : J F (objects d) slot session (λ _, True) 0 (view d') ∧
            ∀ a, res = Ok a → answer F slot (λ _, True) r a).
  { assert (H0 : J F (objects d) slot session (λ _, True) 2 (view d)).
    { apply find_session_Ok in Hs. constructor; cbn; [by intros ? ?|done|auto| |].
      - intros l' s' Hs'. by simplify_eq.
      - apply avoids_two; [done|]. intros h Hh. apply foreign_used in Hh as [o Ho].
        by eapply Hok. }
    specialize (Hc H0). destruct res as [a|x]; [|done]. destruct Hc. split; [done|by intros ? [= <-]]. }
  destruct HJ as [[_ J2 J3 _ _] Ha]. cbn in J2, J3. split_and!.
  - intros h o Ho Hne. rewrite <- Ho. apply J2. by apply (foreign_spec slot (objects d) h o).
  - exact J3.
  - intros a h o -> Hh Ho. destruct (decide (o_slot_id o = slot)) as [|Hne]; [done|].
    exfalso. apply (answer_handles F slot (λ _, True) r a h); [by apply Ha|done|].
    by apply (foreign_spec slot (objects d) h o).
Qed.

(** Opening and closing a session leaves the objects alone. *)
Lemma keeps_objects {T} (m : Svc T) : keeps view m → keeps objects m.
Proof using Type. intros Hm d. specialize (Hm d). by simplify_eq/=. Qed.
Ltac quiet_objects :=
  repeat first [apply keeps_objects; solve [auto with run] | apply keeps_bind; [|intros ?]].
Lemma keeps_open e client slot rw : keeps objects (svc_open_session e client slot rw).
Proof using Type.
  unfold svc_open_session. quiet_objects. apply keeps_call. intros d.
  by destruct (open_session _ _ _ _ _) as [[? ?] ?].
Qed.
Lemma keeps_close client session : keeps objects (svc_close_session client session).
Proof using Type.
  unfold svc_close_session. quiet_objects. apply keeps_call. intros d.
  by destruct (close_session _ _ _ _) as [[[? ?] ?] ?].
Qed.

(** What no answer holds while every object is sealed. *)
Definition discreet (r : Request) (a : Reply) : Prop :=
  (∀ session m w k, r ≠ RWrapKey session m w k) ∧
  (∀ attrs v, a = Attributes attrs → (CKA_VALUE, v) ∈ attrs → v = []).

Lemma sealed_value o v : sealed o → read_reply o CKA_VALUE = (CKA_VALUE, v) → v = [].
Proof using Type.
  intros [H1 H2]. unfold read_reply, read_attribute. cbn. rewrite H1, H2, andb_false_r. cbn. congruence.
Qed.
Lemma answer_discreet F slot r a :
  answer F slot sealed r a → (∀ attrs, a = Attributes attrs → ∃ s h ts, r = RGetAttributeValue s h ts) →
  discreet r a.
Proof using Type.
  intros Ha Hattr. split.
  - intros session m w k ->. destruct Ha as [_ (o & (_ & _ & [_ Hx]) & Hy)]. congruence.
  - intros attrs v -> Hin. destruct (Hattr attrs eq_refl) as (s & h & ts & ->).
    destruct Ha as (o & (_ & _ & Ho) & ts' & [= ->]).
    apply list_elem_of_fmap in Hin as (t & Ht & _).
    assert (t = CKA_VALUE) as -> by (unfold read_reply in Ht; congruence).
    by apply (sealed_value o).
Qed.
Lemma serve_attributes e client r d attrs d' :
  serve cfg e client r d = (Ok (Attributes attrs), d') → ∃ s h ts, r = RGetAttributeValue s h ts.
Proof using Type.
  destruct r; cbn [serve]; unfold reply; intros (? & ? & _ & E)%rbind_ok; unfold rret in E;
    simplify_eq. eauto.
Qed.

Definition session_of (r : Request) : Z :=
  match r with
  | ROpenSession _ _ | RInitToken _ _ _ | RHealthCheck => 0
  | RCloseSession s
  | RLogin s _ _ | RLogout s | RGetTokenInfo _ s | RGenerateKey s _ _ | RGenerateKeyPair s _ _ _
  | RDestroyObject s _ | RFindObjects s _ _ | RGetAttributeValue s _ _ | RSign s _ _ _
  | RVerify s _ _ _ _ | REncrypt s _ _ _ | RDecrypt s _ _ _ | RDigest s _ _ | RGenerateRandom s _
  | RWrapKey s _ _ _ | RUnwrapKey s _ _ _ _ | RDeriveKey s _ _ _ | RCopyObject s _ _ | RInitPin s _
  | RSetPin s _ _ => s
  end.
Lemma works_on_session r :
  works_on (session_of r) r ∨ (∃ slot rw, r = ROpenSession slot rw) ∨ ∃ s, r = RCloseSession s.
Proof using Type. destruct r; cbn; eauto. Qed.

Definition all_sealed d : Prop := map_Forall (λ _, sealed) (objects d).

Lemma serve_sealed e client r d res d' :
  all_sealed d → serve cfg e client r d = (res, d') →
  all_sealed d' ∧ ∀ a, res = Ok a → discreet r a.
Proof using Type.
  intros Hd E.
  assert (Hattr : ∀ a attrs, res = Ok a → a = Attributes attrs → ∃ s h ts, r = RGetAttributeValue s h ts).
  { intros a attrs -> ->. by eapply serve_attributes. }
  assert (Hk : keeps objects (serve cfg e client r) → (∀ session m w k, r ≠ RWrapKey session m w k) →
               (∀ s h ts, r ≠ RGetAttributeValue s h ts) →
               all_sealed d' ∧ ∀ a, res = Ok a → discreet r a).
  { intros Hk Hw Hg. specialize (Hk d). rewrite E in Hk. cbn in Hk. split; [unfold all_sealed; by rewrite Hk|].
    intros a Ha. split; [done|]. intros attrs v Hv.
    destruct (Hattr a attrs Ha Hv) as (s & h & ts & Hr). by apply Hg in Hr. }
  destruct (works_on_session r) as [Hw|[(slot & rw & ->)|(s & ->)]].
  - set (slot := match lookup_session (session_manager (hsm d)) (session_of r) with
                 | Some (_, s) => s_slot_id s | None => 0 end).
    pose proof (conf_serve ∅ (objects d) slot (session_of r) sealed ltac:(set_solver)
      (λ _ Ho, Ho) (λ o o' Ho Ht, conj (proj1 Ht (proj1 Ho)) (proj2 Ht (proj2 Ho)))
      cfg e client r Hw d) as Hc. rewrite E in Hc.
    assert (H0 : J ∅ (objects d) slot (session_of r) sealed 2 (view d)).
    { constructor; cbn; [done|done|auto| |].
      - intros l s Hs. unfold slot. by rewrite Hs.
      - repeat split; set_solver. }
    specialize (Hc H0). destruct res as [a|x]; [|by destruct Hc].
    destruct Hc as [[Hs _ _ _ _] Ha]. split; [exact Hs|]. intros ? [= <-].
    eapply answer_discreet; [exact Ha|]. intros attrs. by apply Hattr.
  - apply Hk; [|done|done]. cbn [serve]. apply keeps_bind; [apply keeps_open|intros ?; apply keeps_ret].
  - apply Hk; [|done|done]. cbn [serve]. apply keeps_bind; [apply keeps_close|intros ?; apply keeps_ret].
Qed.

(** C6: no key leaves the daemon.  From a daemon all of whose objects are
    sensitive and not extractable, such as one whose store is empty, whatever
    clients ask and in whatever order, every object, generated, unwrapped,
    derived or copied ones included and whatever their templates say, is
    sensitive and not extractable after it; no request to wrap a key
    succeeds; and no answer gives the value of a key. *)
Theorem daemon_keys_never_leave rs d outs d'
    (Hd : all_sealed d) (E : serve_all cfg rs d = (outs, d')) :
  all_sealed d' ∧
  ∀ i e client r a, rs !! i = Some (e, client, r) → outs !! i = Some (Ok a) → discreet r a.
Proof using Type.
  revert d outs Hd E. induction rs as [|[[e client] r] rs IH]; intros d outs Hd E; cbn in E.
  { simplify_eq. split; [done|]. by intros [] ? ? ? ?. }
  destruct (serve cfg e client r d) as [res d1] eqn:E1.
  destruct (serve_all cfg rs d1) as [out d2] eqn:E2. simplify_eq.
  apply serve_sealed in E1 as [Hd1 Ha]; [|done].
  destruct (IH d1 out Hd1 E2) as [Hd2 Hrest]. split; [done|].
  intros [|i] e' client' r' a; cbn; [intros [= <- <- <-] [= ->]; by apply Ha|by apply Hrest].
Qed.
End Promises.
