(* ===== verification/DaemonDemo.v ===== *)
(** * A concrete run of the daemon

    A daemon over the toy primitives with one session on slot 0; the witnesses of
    DaemonProofs.v evaluate its requests. *)

From S2P Require Import Prelude StateError Pkcs11 Handles Hash PinCrypto TokenFiles Token TokenDemo TokenProofs Session SessionManager SessionProofs Dates Objects ObjectProofs ObjectStore ObjectStoreProofs ObjectPersist AuditChain AuditProofs Encrypt EncryptProofs Abi AbiProofs AbiDemo Mechanisms Sign SignProofs Operations OperationProofs OperationDemo EntropyHealth Drbg KeyCrypto KeyCryptoProofs KeyManagement KeyProofs KeyDemo Throttle Daemon DaemonProofs.

Section DaemonDemo.
#[local] Existing Instance toy_primitives.
#[local] Existing Instance toy_hex.
#[local] Existing Instance toy_hash.
#[local] Existing Instance toy_codec.
#[local] Existing Instance toy_store_order.
#[local] Existing Instance toy_order.
#[local] Existing Instance toy_audit_codec.
#[local] Existing Instance toy_ciphers.
#[local] Existing Instance toy_sign.
#[local] Existing Instance toy_throttle_order.

Definition demo_service : ServiceConfig :=
  {| sv_max_random_length := 64; sv_max_digest_length := 64; sv_throttle := demo_throttle |}.
Definition demo_svc_env : SvcEnv :=
  {| se_check := 1; se_evict := 1; se_fail := 1; se_token := demo_env 0; se_session := 1;
     se_key := demo_key_env 3; se_op := demo_op_env; se_startup := []; se_src1 := []; se_src2 := [] |}.
Definition DemoDaemon : Type := @Daemon toy_sign SessionHandleAllocator ObjectHandleAllocator.
Definition demo_daemon (c : DemoCrypto) : DemoDaemon :=
  {| d_lib := c;
     d_drbg := {| dr_key := []; dr_value := []; reseed_counter := 1; last_output := [];
                  has_output := false |};
     d_entropy := GlobalEntropy_new; d_login_attempts := ∅; d_init_token_attempts := ∅ |}.
Definition demo_peer : ClientId := [105; 112].

(** Before a login. *)
Definition demo_closed : DemoDaemon := demo_daemon demo_public.
Definition demo_closed_token : Token :=
  match get_token 0 (hsm demo_closed) with Ok t => t | Err _ => demo_out_token end.
Definition demo_random : Request := RGenerateRandom demo_handle 8.
Lemma demo_closed_session :
  find_session demo_handle (hsm demo_closed) = Ok (demo_public_session.1, demo_public_session.2).
Proof. vm_compute. reflexivity. Qed.
Lemma demo_closed_slot :
  get_token (s_slot_id demo_public_session.2) (hsm demo_closed) = Ok demo_closed_token.
Proof. vm_compute. reflexivity. Qed.
Lemma demo_closed_public : login_state demo_closed_token = Public.
Proof. vm_compute. reflexivity. Qed.
Lemma demo_handle_width : 0 ≤ demo_handle ≤ u64_max.
Proof. vm_compute. split; congruence. Qed.

Lemma daemon_needs_login_witness :
  serve demo_service demo_svc_env demo_peer demo_random demo_closed =
    (Err PermissionDenied, demo_closed).
Proof.
  exact (proj1 (daemon_needs_login demo_service demo_svc_env demo_peer demo_random demo_closed
    demo_handle demo_public_session.1 demo_public_session.2 demo_closed_token
    demo_handle_width demo_closed_session demo_closed_slot demo_closed_public) eq_refl).
Defined.

(** A user logged in on slot 0, and one object of slot 7. *)
Definition demo_foreign_handle : Z :=
  match (oh_next demo_object_alloc).1 with Ok h => h | Err _ => 0 end.
Definition demo_foreign : StoredObject :=
  StoredObject_new demo_foreign_handle CKO_SECRET_KEY 0 <| o_slot_id := 7 |>.
Definition demo_two_slots : DemoDaemon :=
  let d := demo_daemon demo_memory in
  put_store (store d <| os_alloc := (oh_next demo_object_alloc).2 |>
                     <| os_objects := {[demo_foreign_handle := demo_foreign]} |>) d.
Definition demo_two_session : Z * Session :=
  match find_session demo_handle (hsm demo_two_slots) with
  | Ok ls => ls | Err _ => (0, Session_new 0 0 0 0) end.
Definition demo_destroy : Request := RDestroyObject demo_handle demo_foreign_handle.
Definition demo_destroyed : Result Status Reply * DemoDaemon :=
  serve demo_service demo_svc_env demo_peer demo_destroy demo_two_slots.
Lemma demo_two_session_found :
  find_session demo_handle (hsm demo_two_slots) = Ok (demo_two_session.1, demo_two_session.2).
Proof. vm_compute. reflexivity. Qed.
Lemma demo_two_handles : handles_ok (store demo_two_slots).
Proof.
  apply (handles_ok_singleton _ demo_foreign_handle demo_foreign).
  - vm_compute. reflexivity.
  - reflexivity.
  - right. exists 1. split; [vm_compute; split; congruence|vm_compute; reflexivity].
Qed.
Lemma demo_two_room : room_for_two demo_two_slots.
Proof. vm_compute. repeat split; congruence. Qed.
Lemma demo_two_objects : objects demo_two_slots !! demo_foreign_handle = Some demo_foreign.
Proof. apply lookup_singleton_eq. Qed.
Lemma demo_two_foreign : o_slot_id demo_foreign ≠ s_slot_id demo_two_session.2.
Proof. vm_compute. discriminate. Qed.
Lemma demo_destroyed_pair :
  serve demo_service demo_svc_env demo_peer demo_destroy demo_two_slots =
    (demo_destroyed.1, demo_destroyed.2).
Proof. unfold demo_destroyed. by destruct (serve _ _ _ _ _). Qed.
Lemma demo_destroy_works : works_on demo_handle demo_destroy.
Proof. done. Qed.

Lemma daemon_slots_isolated_witness :
  demo_destroyed.1 = Err NotFound ∧ objects demo_destroyed.2 !! demo_foreign_handle = Some demo_foreign.
Proof.
  split; [vm_compute; reflexivity|].
  destruct (daemon_slots_isolated demo_service demo_svc_env demo_peer demo_destroy demo_two_slots
    demo_handle demo_two_session.1 demo_two_session.2 demo_destroyed.1 demo_destroyed.2
    demo_destroy_works demo_two_session_found demo_two_handles demo_two_room demo_destroyed_pair) as [Hk _].
  exact (Hk demo_foreign_handle demo_foreign demo_two_objects demo_two_foreign).
Defined.

(** A wrapping key that the client asks to wrap under itself. *)
Definition demo_mech (t : Z) : option ProtoMechanism := Some {| pm_type := t; pm_parameter := [] |}.
Definition demo_requests : list (SvcEnv * ClientId * Request) :=
  (λ r, (demo_svc_env, demo_peer, r)) <$>
  [RGenerateKey demo_handle (demo_mech CKM_AES_KEY_GEN)
     [(CKA_VALUE_LEN, [32; 0; 0; 0; 0; 0; 0; 0]); (CKA_WRAP, [1])];
   RWrapKey demo_handle (demo_mech CKM_AES_KEY_WRAP) demo_foreign_handle demo_foreign_handle;
   RGetAttributeValue demo_handle demo_foreign_handle [CKA_VALUE; CKA_WRAP]].
Definition demo_empty : DemoDaemon := demo_daemon demo_memory.
Definition demo_served : list (Result Status Reply) * DemoDaemon :=
  serve_all demo_service demo_requests demo_empty.
Lemma demo_empty_sealed : all_sealed demo_empty.
Proof. apply map_Forall_empty. Qed.
Lemma demo_served_pair :
  serve_all demo_service demo_requests demo_empty = (demo_served.1, demo_served.2).
Proof. unfold demo_served. by destruct (serve_all _ _ _). Qed.

Lemma daemon_keys_never_leave_witness :
  demo_served.1 = [Ok (Handle demo_foreign_handle); Err PermissionDenied;
                   Ok (Attributes [(CKA_VALUE, []); (CKA_WRAP, [1])])] ∧
  all_sealed demo_served.2.
Proof.
  split; [vm_compute; reflexivity|].
  exact (proj1 (daemon_keys_never_leave demo_service demo_requests demo_empty demo_served.1
    demo_served.2 demo_empty_sealed demo_served_pair)).
Defined.
End DaemonDemo.
