(* ===== verification/Backend.v ===== *)
(** * The crypto backend interface (src/crypto/backend.rs,
    src/crypto/rustcrypto_backend.rs)

    The trait [CryptoBackend] as a record of operations, and its default
    implementation, which forwards to the functions of the other modules.  An
    operation takes what it draws at random ([Draws]) and runs on the state the
    process keeps for its ciphers and its parsed RSA keys; the methods for the two
    curves are one field each, with the curve as argument. *)

From S2P Require Import Prelude Pkcs11 Hash Mechanisms Encrypt Sign KeyCrypto.

(** The module's generator in an operation, the nonce prefix of a new AES-GCM key, the
    outcomes of filling one or a second buffer, and what a library's own system
    generator yields. *)
Record Draws := {
  dw_rng : HsmResult bytes;
  dw_prefix : HsmResult bytes;
  dw_fill : nat → HsmResult bytes;
  dw_fill2 : nat → HsmResult bytes;
  dw_system : bytes;
}.

Section Backend.
Context {H : HashPrimitives} {CP : CipherPrimitives} {SP : SignPrimitives} {KP : KeyPrimitives SP}.

Record BackendState := { bs_cipher : CipherState; bs_rsa : RsaCaches }.

Definition Op (T : Type) : Type := Draws → BackendState → HsmResult T * BackendState.
Definition stateless {T} (f : Draws → HsmResult T) : Op T := λ w s, (f w, s).
Definition with_ciphers {T} (f : Draws → CipherState → HsmResult T * CipherState) : Op T :=
  λ w s, let '(r, c) := f w (bs_cipher s) in (r, {| bs_cipher := c; bs_rsa := bs_rsa s |}).
Definition with_rsa_keys {T} (f : Draws → RsaCaches → HsmResult T * RsaCaches) : Op T :=
  λ w s, let '(r, c) := f w (bs_rsa s) in (r, {| bs_cipher := bs_cipher s; bs_rsa := c |}).

(** A method with a handle hint, when a backend does not override it, is the method
    without. *)
Definition ignore_handle {T} (f : T) : Z → Z → T := λ _ _, f.

(** ** The trait *)

(** Signatures: the key, then the data. *)
Record SigningOps := {
  cb_rsa_pkcs1v15_sign : bytes → bytes → option HashAlg → Op bytes;
  cb_rsa_pkcs1v15_sign_with_handle : Z → Z → bytes → bytes → option HashAlg → Op bytes;
  cb_rsa_pkcs1v15_verify : bytes → bytes → bytes → bytes → option HashAlg → Op bool;
  cb_rsa_pkcs1v15_verify_with_handle :
    Z → Z → bytes → bytes → bytes → bytes → option HashAlg → Op bool;
  cb_rsa_pss_sign : bytes → bytes → HashAlg → Op bytes;
  cb_rsa_pss_sign_with_handle : Z → Z → bytes → bytes → HashAlg → Op bytes;
  cb_rsa_pss_verify : bytes → bytes → bytes → bytes → HashAlg → Op bool;
  cb_rsa_pss_verify_with_handle : Z → Z → bytes → bytes → bytes → bytes → HashAlg → Op bool;
  cb_ecdsa_sign : Curve → bytes → bytes → Op bytes;
  cb_ecdsa_verify : Curve → bytes → bytes → bytes → Op bool;
  cb_ed25519_sign : bytes → bytes → Op bytes;
  cb_ed25519_verify : bytes → bytes → bytes → Op bool;
}.

(** Signatures of a digest computed beforehand. *)
Record PrehashedOps := {
  cb_rsa_pkcs1v15_sign_prehashed : bytes → bytes → HashAlg → Op bytes;
  cb_rsa_pkcs1v15_sign_prehashed_with_handle : Z → Z → bytes → bytes → HashAlg → Op bytes;
  cb_rsa_pkcs1v15_verify_prehashed : bytes → bytes → bytes → bytes → HashAlg → Op bool;
  cb_rsa_pkcs1v15_verify_prehashed_with_handle :
    Z → Z → bytes → bytes → bytes → bytes → HashAlg → Op bool;
  cb_rsa_pss_sign_prehashed : bytes → bytes → HashAlg → Op bytes;
  cb_rsa_pss_sign_prehashed_with_handle : Z → Z → bytes → bytes → HashAlg → Op bytes;
  cb_rsa_pss_verify_prehashed : bytes → bytes → bytes → bytes → HashAlg → Op bool;
  cb_rsa_pss_verify_prehashed_with_handle :
    Z → Z → bytes → bytes → bytes → bytes → HashAlg → Op bool;
  cb_ecdsa_sign_prehashed : Curve → bytes → bytes → Op bytes;
  cb_ecdsa_verify_prehashed : Curve → bytes → bytes → bytes → Op bool;
}.

(** Encryption: the key, the IV where the mode has one, the data. *)
Record EncryptionOps := {
  cb_aes_256_gcm_encrypt : bytes → bytes → Op bytes;
  cb_aes_256_gcm_decrypt : bytes → bytes → Op bytes;
  cb_aes_cbc_encrypt : bytes → bytes → bytes → Op bytes;
  cb_aes_cbc_decrypt : bytes → bytes → bytes → Op bytes;
  cb_aes_ctr_encrypt : bytes → bytes → bytes → Op bytes;
  cb_aes_ctr_decrypt : bytes → bytes → bytes → Op bytes;
  cb_rsa_oaep_encrypt : bytes → bytes → bytes → OaepHash → Op bytes;
  cb_rsa_oaep_encrypt_with_handle : Z → Z → bytes → bytes → bytes → OaepHash → Op bytes;
  cb_rsa_oaep_decrypt : bytes → bytes → OaepHash → Op bytes;
  cb_rsa_oaep_decrypt_with_handle : Z → Z → bytes → bytes → OaepHash → Op bytes;
}.

(** Key generation. *)
Record KeyGenOps := {
  cb_generate_aes_key : Z → bool → Op bytes;
  cb_generate_rsa_key_pair : Z → bool → Op (bytes * bytes * bytes);
  cb_generate_ec_key_pair : Curve → Op (bytes * bytes);
  cb_generate_ed25519_key_pair : Op (bytes * bytes);
}.

(** Digests; a hasher is what it was fed. *)
Record DigestOps := {
  cb_compute_digest : Z → bytes → Op bytes;
  cb_digest_output_len : Z → Op nat;
  cb_create_hasher : Z → Op bytes;
}.

(** Key wrap and key agreement. *)
Record WrapOps := {
  cb_aes_key_wrap : bytes → bytes → bool → Op bytes;
  cb_aes_key_unwrap : bytes → bytes → bool → Op bytes;
  cb_ecdh : Curve → bytes → bytes → option Z → Op bytes;
}.

(** Post-quantum operations, which the trait implements for every backend. *)
Record PqcOps := {
  cb_ml_kem_keygen : MlKemVariant → Op (bytes * bytes);
  cb_ml_kem_encapsulate : bytes → MlKemVariant → Op (bytes * bytes);
  cb_ml_kem_decapsulate : bytes → bytes → MlKemVariant → Op bytes;
  cb_ml_dsa_keygen : MlDsaVariant → Op (bytes * bytes);
  cb_ml_dsa_sign : bytes → bytes → MlDsaVariant → Op bytes;
  cb_ml_dsa_verify : bytes → bytes → bytes → MlDsaVariant → Op bool;
  cb_slh_dsa_keygen : SlhDsaVariant → Op (bytes * bytes);
  cb_slh_dsa_sign : bytes → bytes → SlhDsaVariant → Op bytes;
  cb_slh_dsa_verify : bytes → bytes → bytes → SlhDsaVariant → Op bool;
  cb_hybrid_sign : bytes → bytes → bytes → Op bytes;
  cb_hybrid_verify : bytes → bytes → bytes → bytes → Op bool;
  cb_hybrid_kem_keygen : HybridKemVariant → Op (bytes * bytes);
  cb_hybrid_kem_encapsulate : bytes → HybridKemVariant → Op (bytes * bytes);
  cb_hybrid_kem_decapsulate : bytes → bytes → HybridKemVariant → Op bytes;
}.

Record CryptoBackend := {
  cb_signing :> SigningOps;
  cb_prehashed :> PrehashedOps;
  cb_encryption :> EncryptionOps;
  cb_keygen :> KeyGenOps;
  cb_digest :> DigestOps;
  cb_wrap :> WrapOps;
  cb_pqc :> PqcOps;
}.

(** The methods the trait implements itself: the post-quantum ones. *)
Definition d_ml_kem_keygen v : Op (bytes * bytes) := stateless (λ w, ml_kem_keygen (dw_fill w) v).
Definition d_ml_kem_encapsulate ek v : Op (bytes * bytes) :=
  stateless (λ w, ml_kem_encapsulate (dw_rng w) ek v).
Definition d_ml_kem_decapsulate dk ct v : Op bytes := stateless (λ _, ml_kem_decapsulate dk ct v).
Definition d_ml_dsa_keygen v : Op (bytes * bytes) := stateless (λ w, ml_dsa_keygen (dw_rng w) v).
Definition d_ml_dsa_sign sk data v : Op bytes := stateless (λ _, ml_dsa_sign sk data v).
Definition d_ml_dsa_verify vk data sig v : Op bool := stateless (λ _, ml_dsa_verify vk data sig v).
Definition d_slh_dsa_keygen v : Op (bytes * bytes) := stateless (λ w, slh_dsa_keygen (dw_rng w) v).
Definition d_slh_dsa_sign sk data v : Op bytes := stateless (λ _, slh_dsa_sign sk data v).
Definition d_slh_dsa_verify vk data sig v : Op bool := stateless (λ _, slh_dsa_verify vk data sig v).
Definition d_hybrid_sign ml ec data : Op bytes := stateless (λ w, hybrid_sign (dw_rng w) ml ec data).
Definition d_hybrid_verify ml ec data sig : Op bool := stateless (λ _, hybrid_verify ml ec data sig).
Definition d_hybrid_kem_keygen v : Op (bytes * bytes) :=
  stateless (λ w, hybrid_kem_keygen (dw_fill w) (dw_fill2 w) v).
Definition d_hybrid_kem_encapsulate ek v : Op (bytes * bytes) :=
  stateless (λ w, hybrid_kem_encapsulate (dw_fill w) (dw_rng w) ek v).
Definition d_hybrid_kem_decapsulate dk ct v : Op bytes :=
  stateless (λ _, hybrid_kem_decapsulate dk ct v).

Definition default_pqc : PqcOps := {|
  cb_ml_kem_keygen := d_ml_kem_keygen;
  cb_ml_kem_encapsulate := d_ml_kem_encapsulate;
  cb_ml_kem_decapsulate := d_ml_kem_decapsulate;
  cb_ml_dsa_keygen := d_ml_dsa_keygen;
  cb_ml_dsa_sign := d_ml_dsa_sign;
  cb_ml_dsa_verify := d_ml_dsa_verify;
  cb_slh_dsa_keygen := d_slh_dsa_keygen;
  cb_slh_dsa_sign := d_slh_dsa_sign;
  cb_slh_dsa_verify := d_slh_dsa_verify;
  cb_hybrid_sign := d_hybrid_sign;
  cb_hybrid_verify := d_hybrid_verify;
  cb_hybrid_kem_keygen := d_hybrid_kem_keygen;
  cb_hybrid_kem_encapsulate := d_hybrid_kem_encapsulate;
  cb_hybrid_kem_decapsulate := d_hybrid_kem_decapsulate;
|}.

(** ** RustCrypto *)

Definition rustcrypto_signing : SigningOps := {|
  cb_rsa_pkcs1v15_sign der data h := with_rsa_keys (λ _, rsa_pkcs1v15_sign der data h);
  cb_rsa_pkcs1v15_sign_with_handle sl hd der data h :=
    with_rsa_keys (λ _, rsa_pkcs1v15_sign_cached sl hd der data h);
  cb_rsa_pkcs1v15_verify n e data sig h := stateless (λ _, rsa_pkcs1v15_verify n e data sig h);
  cb_rsa_pkcs1v15_verify_with_handle sl hd n e data sig h :=
    with_rsa_keys (λ _, rsa_pkcs1v15_verify_cached sl hd n e data sig h);
  cb_rsa_pss_sign der data h := with_rsa_keys (λ w, rsa_pss_sign (dw_rng w) der data h);
  cb_rsa_pss_sign_with_handle sl hd der data h :=
    with_rsa_keys (λ w, rsa_pss_sign_cached (dw_rng w) sl hd der data h);
  cb_rsa_pss_verify n e data sig h := stateless (λ _, rsa_pss_verify n e data sig h);
  cb_rsa_pss_verify_with_handle sl hd n e data sig h :=
    with_rsa_keys (λ _, rsa_pss_verify_cached sl hd n e data sig h);
  cb_ecdsa_sign cv key data := stateless (λ w, ecdsa_sign cv (dw_rng w) key data);
  cb_ecdsa_verify cv key data sig := stateless (λ _, ecdsa_verify cv key data sig);
  cb_ed25519_sign key data := stateless (λ _, ed25519_sign key data);
  cb_ed25519_verify key data sig := stateless (λ _, ed25519_verify key data sig);
|}.
Definition rustcrypto_prehashed : PrehashedOps := {|
  cb_rsa_pkcs1v15_sign_prehashed der dg h :=
    with_rsa_keys (λ _, rsa_pkcs1v15_sign_prehashed der dg h);
  cb_rsa_pkcs1v15_sign_prehashed_with_handle sl hd der dg h :=
    with_rsa_keys (λ _, rsa_pkcs1v15_sign_prehashed_cached sl hd der dg h);
  cb_rsa_pkcs1v15_verify_prehashed n e dg sig h :=
    stateless (λ _, rsa_pkcs1v15_verify_prehashed n e dg sig h);
  cb_rsa_pkcs1v15_verify_prehashed_with_handle sl hd n e dg sig h :=
    with_rsa_keys (λ _, rsa_pkcs1v15_verify_prehashed_cached sl hd n e dg sig h);
  cb_rsa_pss_sign_prehashed der dg h :=
    with_rsa_keys (λ w, rsa_pss_sign_prehashed (dw_rng w) der dg h);
  cb_rsa_pss_sign_prehashed_with_handle sl hd der dg h :=
    with_rsa_keys (λ w, rsa_pss_sign_prehashed_cached (dw_rng w) sl hd der dg h);
  cb_rsa_pss_verify_prehashed n e dg sig h :=
    stateless (λ _, rsa_pss_verify_prehashed n e dg sig h);
  cb_rsa_pss_verify_prehashed_with_handle sl hd n e dg sig h :=
    with_rsa_keys (λ _, rsa_pss_verify_prehashed_cached sl hd n e dg sig h);
  cb_ecdsa_sign_prehashed cv key dg := stateless (λ w, ecdsa_sign_prehashed cv (dw_rng w) key dg);
  cb_ecdsa_verify_prehashed cv key dg sig := stateless (λ _, ecdsa_verify_prehashed cv key dg sig);
|}.
Definition rustcrypto_encryption : EncryptionOps := {|
  cb_aes_256_gcm_encrypt key data :=
    with_ciphers (λ w, aes_256_gcm_encrypt (dw_prefix w) key data);
  cb_aes_256_gcm_decrypt key data := stateless (λ _, aes_256_gcm_decrypt key data);
  cb_aes_cbc_encrypt key iv data := with_ciphers (λ _, aes_cbc_encrypt key iv data);
  cb_aes_cbc_decrypt key iv data := stateless (λ _, aes_cbc_decrypt key iv data);
  cb_aes_ctr_encrypt key iv data := with_ciphers (λ _, aes_ctr_encrypt key iv data);
  cb_aes_ctr_decrypt key iv data := stateless (λ _, aes_ctr_decrypt key iv data);
  cb_rsa_oaep_encrypt n e data h := stateless (λ w, rsa_oaep_encrypt (dw_rng w) n e data h);
  cb_rsa_oaep_encrypt_with_handle sl hd n e data h :=
    with_rsa_keys (λ w, rsa_oaep_encrypt_cached (dw_rng w) sl hd n e data h);
  cb_rsa_oaep_decrypt der data h := with_rsa_keys (λ _, rsa_oaep_decrypt der data h);
  cb_rsa_oaep_decrypt_with_handle sl hd der data h :=
    with_rsa_keys (λ _, rsa_oaep_decrypt_cached sl hd der data h);
|}.
Definition rustcrypto_keygen : KeyGenOps := {|
  cb_generate_aes_key len fips := stateless (λ w, generate_aes_key (dw_fill w) len fips);
  cb_generate_rsa_key_pair bits fips := stateless (λ w, generate_rsa_key_pair (dw_rng w) bits fips);
  cb_generate_ec_key_pair cv := stateless (λ w, generate_ec_key_pair cv (dw_rng w));
  cb_generate_ed25519_key_pair := stateless (λ w, generate_ed25519_key_pair (dw_rng w));
|}.
Definition rustcrypto_digest : DigestOps := {|
  cb_compute_digest m data := stateless (λ _, compute_digest m data);
  cb_digest_output_len m := stateless (λ _, digest_output_len m);
  cb_create_hasher m := stateless (λ _, create_hasher m);
|}.
Definition rustcrypto_wrap : WrapOps := {|
  cb_aes_key_wrap kek key fips := stateless (λ _, aes_key_wrap kek key fips);
  cb_aes_key_unwrap kek key fips := stateless (λ _, aes_key_unwrap kek key fips);
  cb_ecdh cv key peer len := stateless (λ _, ecdh cv key peer len);
|}.

Definition RustCryptoBackend : CryptoBackend := {|
  cb_signing := rustcrypto_signing;
  cb_prehashed := rustcrypto_prehashed;
  cb_encryption := rustcrypto_encryption;
  cb_keygen := rustcrypto_keygen;
  cb_digest := rustcrypto_digest;
  cb_wrap := rustcrypto_wrap;
  cb_pqc := default_pqc;
|}.
End Backend.
