(* ===== verification/AwsLc.v ===== *)
(** * The AWS-LC backend (src/crypto/awslc_backend.rs)

    The second implementation of the backend interface, over the [aws-lc-rs] crate:
    what each method checks before it calls the crate and which error it makes of a
    refusal, the DER reader that takes the public key out of a generated RSA key,
    and the choice of a backend from the configuration.  The crate itself is a class
    of primitives; a method has the name of the trait's with [lc_] before it. *)

From S2P Require Import Prelude StateError Pkcs11 Hash Mechanisms Encrypt Sign KeyCrypto Backend.

(** ** The crate *)

Inductive RsaPadding := Pkcs1 | Pss.
#[export] Instance RsaPadding_eq_dec : EqDecision RsaPadding. Proof. solve_decision. Defined.

(** [aws_lc_rs]: a function that draws from the crate's own generator takes what it
    draws, one that may refuse returns an option.  [ec_sign_digest_det] is the
    deterministic [sign_prehash] of [p256] and [p384], which only this backend calls. *)
Class AwsLcPrimitives (SP : SignPrimitives) := {
  aws_RsaKeyPair : Type;
  aws_rsa_from_pkcs8 : bytes → option aws_RsaKeyPair;
  aws_rsa_sign : RsaPadding → HashAlg → aws_RsaKeyPair → bytes → bytes → option bytes;
  aws_rsa_verify : RsaPadding → HashAlg → bytes → bytes → bytes → bytes → bool;
  aws_rsa_generate : Z → bytes → option aws_RsaKeyPair;
  aws_rsa_as_der : aws_RsaKeyPair → option bytes;
  aws_rsa_public_der : aws_RsaKeyPair → bytes;
  aws_RsaEncryptingKey : Type;
  aws_rsa_encrypting_key : bytes → bytes → option aws_RsaEncryptingKey;
  aws_oaep_encrypt : OaepHash → aws_RsaEncryptingKey → bytes → bytes → option bytes;
  aws_RsaDecryptingKey : Type;
  aws_rsa_decrypting_key : bytes → option aws_RsaDecryptingKey;
  aws_oaep_decrypt : OaepHash → aws_RsaDecryptingKey → bytes → option bytes;
  aws_EcPrivate : Type;
  aws_ec_from_private_key : Curve → bytes → option aws_EcPrivate;
  aws_ec_generate : Curve → bytes → option aws_EcPrivate;
  aws_ec_public : aws_EcPrivate → option bytes;
  aws_ec_be_bytes : aws_EcPrivate → option bytes;
  aws_ec_agree : aws_EcPrivate → Curve → bytes → option bytes;
  aws_EcdsaKeyPair : Type;
  aws_ecdsa_key_pair : Curve → bytes → bytes → option aws_EcdsaKeyPair;
  aws_ecdsa_sign : aws_EcdsaKeyPair → bytes → bytes → option bytes;
  aws_ecdsa_verify : Curve → bytes → bytes → bytes → bool;
  aws_Ed25519KeyPair : Type;
  aws_ed_from_seed : bytes → option aws_Ed25519KeyPair;
  aws_ed_sign : aws_Ed25519KeyPair → bytes → bytes;
  aws_ed_public : aws_Ed25519KeyPair → bytes;
  aws_ed_verify : bytes → bytes → bytes → bool;
  aws_gcm_seal : bytes → bytes → bytes → option bytes;
  aws_gcm_open : bytes → bytes → bytes → option bytes;
  aws_cbc_encrypt : bytes → bytes → bytes → option bytes;
  aws_cbc_decrypt : bytes → bytes → bytes → option bytes;
  aws_ctr_encrypt : bytes → bytes → bytes → option bytes;
  aws_kw_wrap : bytes → bytes → option bytes;
  aws_kw_unwrap : bytes → bytes → option bytes;
  aws_digest : DigestAlg → bytes → bytes;
  aws_output_len : DigestAlg → nat;
  ec_sign_digest_det : Curve → bytes → bytes → option bytes;
}.

(** ** The DER reader *)

Record DerReader := { dr_data : bytes; dr_pos : nat }.

Definition DerReader_new (data : bytes) : DerReader := {| dr_data := data; dr_pos := 0 |}.
Abbreviation Der := (Run DerReader HsmError).

Definition seek (r : DerReader) (pos : nat) : DerReader := {| dr_data := dr_data r; dr_pos := pos |}.

Definition read_tag : Der Z := λ r,
  match dr_data r !! dr_pos r with
  | None => (Err GeneralError, r)
  | Some tag => (Ok tag, seek r (dr_pos r + 1))
  end.

(** The [num_bytes] bytes of a long length, the reader known to hold them. *)
Definition length_octets (len : Z) (octets : bytes) : Z :=
  foldl (λ len b, Z.lor (Z.shiftl len 8) b) len octets.

Definition read_length : Der Z := λ r,
  match dr_data r !! dr_pos r with
  | None => (Err GeneralError, r)
  | Some first =>
    let pos := (dr_pos r + 1)%nat in
    if first <? 0x80 then (Ok first, seek r pos)
    else
      let num_bytes := Z.to_nat (Z.land first 0x7F) in
      if (4 <? num_bytes)%nat || (length (dr_data r) <? pos + num_bytes)%nat
      then (Err GeneralError, seek r pos)
      else (Ok (length_octets 0 (take num_bytes (drop pos (dr_data r)))), seek r (pos + num_bytes))
  end.

Definition enter_sequence : Der Z :=
  do! tag := read_tag in
  if negb (tag =? 0x30) then rfail GeneralError else read_length.

Definition read_bytes (len : Z) : Der bytes := λ r,
  let len := Z.to_nat len in
  if (length (dr_data r) <? dr_pos r + len)%nat then (Err GeneralError, r)
  else (Ok (take len (drop (dr_pos r) (dr_data r))), seek r (dr_pos r + len)).

(** The sign byte goes where more than one byte is left ([strip_integer]), and in
    [parse_rsa_spki]'s first branch where any is ([strip_modulus]). *)
Definition strip_integer (bs : bytes) : bytes :=
  match bs with 0 :: (_ :: _) as rest => rest | _ => bs end.
Definition strip_modulus (bs : bytes) : bytes :=
  match bs with 0 :: rest => rest | _ => bs end.

Definition read_integer : Der bytes :=
  do! tag := read_tag in
  if negb (tag =? 0x02) then rfail GeneralError
  else
    do! len := read_length in
    do! bs := read_bytes len in
    rret (strip_integer bs).

Definition skip (len : Z) : Der unit := λ r, (Ok tt, seek r (dr_pos r + Z.to_nat len)).

Definition parse_rsa_spki_from : Der (bytes * bytes) :=
  do! _ := enter_sequence in
  do! tag := read_tag in
  if tag =? 0x02 then
    do! modulus_len := read_length in
    do! modulus := read_bytes modulus_len in
    do! exponent := read_integer in
    rret (strip_modulus modulus, exponent)
  else if tag =? 0x30 then
    do! alg_len := read_length in
    do! _ := skip alg_len in
    do! bit_tag := read_tag in
    if negb (bit_tag =? 0x03) then rfail GeneralError
    else
      do! _ := read_length in
      do! _ := skip 1 in
      do! _ := enter_sequence in
      do! modulus := read_integer in
      do! exponent := read_integer in
      rret (modulus, exponent)
  else rfail GeneralError.

Definition parse_rsa_spki (der : bytes) : HsmResult (bytes * bytes) :=
  (parse_rsa_spki_from (DerReader_new der)).1.

(** ** The methods *)

Section AwsLc.
Context {H : HashPrimitives} {CP : CipherPrimitives} {SP : SignPrimitives} {KP : KeyPrimitives SP}.
Context {AP : AwsLcPrimitives SP}.

(** [awslc_rand::fill] *)
Definition lc_fill (w : Draws) (n : nat) : HsmResult bytes :=
  match dw_fill w n with Ok bs => Ok bs | Err _ => Err GeneralError end.

Definition lc_rsa_sign (p : RsaPadding) (der data : bytes) (h : option HashAlg) : Op bytes :=
  stateless (λ w,
    let? key_pair := ok_or (aws_rsa_from_pkcs8 der) KeyHandleInvalid in
    let? h := ok_or h MechanismInvalid in
    ok_or (aws_rsa_sign p h key_pair (dw_system w) data) GeneralError).
Definition lc_rsa_pkcs1v15_sign (der data : bytes) (h : option HashAlg) : Op bytes :=
  lc_rsa_sign Pkcs1 der data h.
Definition lc_rsa_pkcs1v15_verify (modulus e data signature : bytes) (h : option HashAlg) : Op bool :=
  stateless (λ _,
    let? h := ok_or h MechanismInvalid in Ok (aws_rsa_verify Pkcs1 h modulus e data signature)).
Definition lc_rsa_pss_sign (der data : bytes) (h : HashAlg) : Op bytes :=
  lc_rsa_sign Pss der data (Some h).
Definition lc_rsa_pss_verify (modulus e data signature : bytes) (h : HashAlg) : Op bool :=
  stateless (λ _, Ok (aws_rsa_verify Pss h modulus e data signature)).

Definition derive_ec_public_key (private_key_bytes : bytes) (cv : Curve) : HsmResult bytes :=
  let? private_key := ok_or (aws_ec_from_private_key cv private_key_bytes) KeyHandleInvalid in
  ok_or (aws_ec_public private_key) GeneralError.
Definition lc_ecdsa_sign (cv : Curve) (private_key_bytes data : bytes) : Op bytes :=
  stateless (λ w,
    let? pub_key := derive_ec_public_key private_key_bytes cv in
    let? key_pair := ok_or (aws_ecdsa_key_pair cv private_key_bytes pub_key) KeyHandleInvalid in
    ok_or (aws_ecdsa_sign key_pair (dw_system w) data) GeneralError).
Definition lc_ecdsa_verify (cv : Curve) (public_key_sec1 data signature_der : bytes) : Op bool :=
  stateless (λ _, Ok (aws_ecdsa_verify cv public_key_sec1 data signature_der)).

Definition lc_ed25519_sign (private_key_bytes data : bytes) : Op bytes :=
  stateless (λ _,
    if negb (length private_key_bytes =? 32)%nat then Err KeyHandleInvalid
    else
      let? key_pair := ok_or (aws_ed_from_seed private_key_bytes) KeyHandleInvalid in
      Ok (aws_ed_sign key_pair data)).
Definition lc_ed25519_verify (public_key_bytes data signature_bytes : bytes) : Op bool :=
  stateless (λ _,
    if negb (length public_key_bytes =? 32)%nat then Err KeyHandleInvalid
    else if negb (length signature_bytes =? 64)%nat then Err SignatureInvalid
    else Ok (aws_ed_verify public_key_bytes data signature_bytes)).

(** A digest computed beforehand goes to the RustCrypto crates, parsed afresh and
    without the size and length checks of the signing module. *)
Definition lc_rsa_pkcs1v15_sign_prehashed (der dg : bytes) (h : HashAlg) : Op bytes :=
  stateless (λ _,
    let? private_key := ok_or (from_pkcs8_der der) KeyHandleInvalid in
    ok_or (pkcs1_sign_digest h private_key dg) GeneralError).
Definition lc_public_key (modulus e : bytes) : HsmResult RsaPublicKey :=
  ok_or (public_key_new (from_be_bytes modulus) (from_be_bytes e)) KeyHandleInvalid.
Definition lc_rsa_pkcs1v15_verify_prehashed (modulus e dg signature : bytes) (h : HashAlg) : Op bool :=
  stateless (λ _,
    let? public_key := lc_public_key modulus e in Ok (pkcs1_verify_digest h public_key dg signature)).
Definition lc_rsa_pss_sign_prehashed (der dg : bytes) (h : HashAlg) : Op bytes :=
  stateless (λ w,
    let? private_key := ok_or (from_pkcs8_der der) KeyHandleInvalid in
    ok_or (pss_sign_digest h private_key (dw_system w) dg) GeneralError).
Definition lc_rsa_pss_verify_prehashed (modulus e dg signature : bytes) (h : HashAlg) : Op bool :=
  stateless (λ _,
    let? public_key := lc_public_key modulus e in
    if negb (pss_signature_parses signature) then Err SignatureInvalid
    else Ok (pss_verify_digest h public_key dg signature)).
Definition lc_ecdsa_sign_prehashed (cv : Curve) (private_key_bytes dg : bytes) : Op bytes :=
  stateless (λ _,
    if negb (ec_signing_key_parses cv private_key_bytes) then Err KeyHandleInvalid
    else ok_or (ec_sign_digest_det cv private_key_bytes dg) GeneralError).
Definition lc_ecdsa_verify_prehashed (cv : Curve) (public_key_sec1 dg signature_der : bytes) : Op bool :=
  stateless (λ _,
    if negb (ec_verifying_key_parses cv public_key_sec1) then Err KeyHandleInvalid
    else if negb (ec_signature_parses cv signature_der) then Err SignatureInvalid
    else Ok (ec_verify_digest cv public_key_sec1 dg signature_der)).

(** Encryption: no counter, no record of IVs, no bound on the data. *)
Definition lc_aes_256_gcm_encrypt (key plaintext : bytes) : Op bytes :=
  stateless (λ w,
    if negb (length key =? 32)%nat then Err KeySizeRange
    else
      let? nonce := lc_fill w 12 in
      let? in_out := ok_or (aws_gcm_seal key nonce plaintext) GeneralError in
      Ok (nonce ++ in_out)).
Definition lc_aes_256_gcm_decrypt (key data : bytes) : Op bytes :=
  stateless (λ _,
    if negb (length key =? 32)%nat then Err KeySizeRange
    else if (length data <? 12)%nat then Err EncryptedDataInvalid
    else ok_or (aws_gcm_open key (take 12 data) (drop 12 data)) EncryptedDataInvalid).
Definition lc_aes_cbc_encrypt (key iv plaintext : bytes) : Op bytes :=
  stateless (λ _,
    if negb (length iv =? 16)%nat then Err MechanismParamInvalid
    else if negb (aes_key_len_ok key) then Err KeySizeRange
    else ok_or (aws_cbc_encrypt key iv plaintext) GeneralError).
Definition lc_aes_cbc_decrypt (key iv ciphertext : bytes) : Op bytes :=
  stateless (λ _,
    if negb (length iv =? 16)%nat then Err MechanismParamInvalid
    else if negb (aes_key_len_ok key) then Err KeySizeRange
    else ok_or (aws_cbc_decrypt key iv ciphertext) EncryptedDataInvalid).
Definition aes_ctr_crypt_inner (key iv data : bytes) : HsmResult bytes :=
  if negb (length iv =? 16)%nat then Err MechanismParamInvalid
  else if negb (aes_key_len_ok key) then Err KeySizeRange
  else ok_or (aws_ctr_encrypt key iv data) GeneralError.
Definition lc_aes_ctr_encrypt (key iv plaintext : bytes) : Op bytes :=
  stateless (λ _, aes_ctr_crypt_inner key iv plaintext).
Definition lc_aes_ctr_decrypt (key iv ciphertext : bytes) : Op bytes :=
  stateless (λ _, aes_ctr_crypt_inner key iv ciphertext).
Definition lc_rsa_oaep_encrypt (modulus e plaintext : bytes) (h : OaepHash) : Op bytes :=
  stateless (λ w,
    let? oaep_key := ok_or (aws_rsa_encrypting_key modulus e) KeyHandleInvalid in
    ok_or (aws_oaep_encrypt h oaep_key (dw_system w) plaintext) GeneralError).
Definition lc_rsa_oaep_decrypt (der ciphertext : bytes) (h : OaepHash) : Op bytes :=
  stateless (λ _,
    let? oaep_key := ok_or (aws_rsa_decrypting_key der) KeyHandleInvalid in
    ok_or (aws_oaep_decrypt h oaep_key ciphertext) EncryptedDataInvalid).

(** Key generation: the FIPS flag is not looked at. *)
Definition lc_generate_aes_key (key_len_bytes : Z) (_fips_mode : bool) : Op bytes :=
  stateless (λ w,
    if bool_decide (key_len_bytes ∈ [16; 24; 32]) then lc_fill w (Z.to_nat key_len_bytes)
    else Err KeySizeRange).
Definition lc_generate_rsa_key_pair (modulus_bits : Z) (_fips_mode : bool) : Op (bytes * bytes * bytes) :=
  stateless (λ w,
    if negb (bool_decide (modulus_bits ∈ [2048; 3072; 4096])) then Err KeySizeRange
    else
      let? key_pair := ok_or (aws_rsa_generate modulus_bits (dw_system w)) GeneralError in
      let? der_bytes := ok_or (aws_rsa_as_der key_pair) GeneralError in
      let? public := parse_rsa_spki (aws_rsa_public_der key_pair) in
      Ok (der_bytes, public.1, public.2)).
Definition lc_generate_ec_key_pair (cv : Curve) : Op (bytes * bytes) :=
  stateless (λ w,
    let? private_key := ok_or (aws_ec_generate cv (dw_system w)) GeneralError in
    let? public_key := ok_or (aws_ec_public private_key) GeneralError in
    let? priv_bytes := ok_or (aws_ec_be_bytes private_key) GeneralError in
    Ok (priv_bytes, public_key)).
Definition lc_generate_ed25519_key_pair : Op (bytes * bytes) :=
  stateless (λ w,
    let? seed := lc_fill w 32 in
    let? key_pair := ok_or (aws_ed_from_seed seed) GeneralError in
    Ok (seed, aws_ed_public key_pair)).

(** Digests *)
Definition mechanism_to_digest_alg (mechanism : Z) : HsmResult DigestAlg :=
  if mechanism =? CKM_SHA_1 then Ok DSha1
  else if mechanism =? CKM_SHA256 then Ok DSha256
  else if mechanism =? CKM_SHA384 then Ok DSha384
  else if mechanism =? CKM_SHA512 then Ok DSha512
  else if mechanism =? CKM_SHA3_256 then Ok DSha3_256
  else if mechanism =? CKM_SHA3_384 then Ok DSha3_384
  else if mechanism =? CKM_SHA3_512 then Ok DSha3_512
  else Err MechanismInvalid.
Definition lc_compute_digest (mechanism : Z) (data : bytes) : Op bytes :=
  stateless (λ _, let? alg := mechanism_to_digest_alg mechanism in Ok (aws_digest alg data)).
Definition lc_digest_output_len (mechanism : Z) : Op nat :=
  stateless (λ _, let? alg := mechanism_to_digest_alg mechanism in Ok (aws_output_len alg)).
Definition lc_create_hasher (mechanism : Z) : Op bytes :=
  stateless (λ _, let? _ := mechanism_to_digest_alg mechanism in Ok []).

(** Key wrap and agreement *)
Definition lc_kek_ok (wrapping_key : bytes) : bool :=
  bool_decide (length wrapping_key ∈ [16; 32]%nat).
Definition lc_aes_key_wrap (wrapping_key key_to_wrap : bytes) (_fips_mode : bool) : Op bytes :=
  stateless (λ _,
    if negb (length key_to_wrap mod 8 =? 0)%nat || (length key_to_wrap <? 16)%nat
    then Err DataLenRange
    else if negb (lc_kek_ok wrapping_key) then Err KeySizeRange
    else ok_or (aws_kw_wrap wrapping_key key_to_wrap) GeneralError).
Definition lc_aes_key_unwrap (wrapping_key wrapped_key : bytes) (_fips_mode : bool) : Op bytes :=
  stateless (λ _,
    if negb (length wrapped_key mod 8 =? 0)%nat || (length wrapped_key <? 24)%nat
    then Err DataLenRange
    else if negb (lc_kek_ok wrapping_key) then Err KeySizeRange
    else ok_or (aws_kw_unwrap wrapping_key wrapped_key) EncryptedDataInvalid).

(** The shared secret itself, cut to the length asked for. *)
Definition lc_ecdh (cv : Curve) (private_key_bytes peer_public_key_sec1 : bytes)
    (okm_len : option Z) : Op bytes :=
  stateless (λ _,
    let? my_private := ok_or (aws_ec_from_private_key cv private_key_bytes) KeyHandleInvalid in
    let? shared := ok_or (aws_ec_agree my_private cv peer_public_key_sec1) GeneralError in
    match okm_len with
    | None => Ok shared
    | Some len =>
      if Z.of_nat (length shared) <? len then Err KeySizeRange
      else Ok (take (Z.to_nat len) shared)
    end).

Definition awslc_signing : SigningOps := {|
  cb_rsa_pkcs1v15_sign := lc_rsa_pkcs1v15_sign;
  cb_rsa_pkcs1v15_sign_with_handle := ignore_handle lc_rsa_pkcs1v15_sign;
  cb_rsa_pkcs1v15_verify := lc_rsa_pkcs1v15_verify;
  cb_rsa_pkcs1v15_verify_with_handle := ignore_handle lc_rsa_pkcs1v15_verify;
  cb_rsa_pss_sign := lc_rsa_pss_sign;
  cb_rsa_pss_sign_with_handle := ignore_handle lc_rsa_pss_sign;
  cb_rsa_pss_verify := lc_rsa_pss_verify;
  cb_rsa_pss_verify_with_handle := ignore_handle lc_rsa_pss_verify;
  cb_ecdsa_sign := lc_ecdsa_sign;
  cb_ecdsa_verify := lc_ecdsa_verify;
  cb_ed25519_sign := lc_ed25519_sign;
  cb_ed25519_verify := lc_ed25519_verify;
|}.
Definition awslc_prehashed : PrehashedOps := {|
  cb_rsa_pkcs1v15_sign_prehashed := lc_rsa_pkcs1v15_sign_prehashed;
  cb_rsa_pkcs1v15_sign_prehashed_with_handle := ignore_handle lc_rsa_pkcs1v15_sign_prehashed;
  cb_rsa_pkcs1v15_verify_prehashed := lc_rsa_pkcs1v15_verify_prehashed;
  cb_rsa_pkcs1v15_verify_prehashed_with_handle := ignore_handle lc_rsa_pkcs1v15_verify_prehashed;
  cb_rsa_pss_sign_prehashed := lc_rsa_pss_sign_prehashed;
  cb_rsa_pss_sign_prehashed_with_handle := ignore_handle lc_rsa_pss_sign_prehashed;
  cb_rsa_pss_verify_prehashed := lc_rsa_pss_verify_prehashed;
  cb_rsa_pss_verify_prehashed_with_handle := ignore_handle lc_rsa_pss_verify_prehashed;
  cb_ecdsa_sign_prehashed := lc_ecdsa_sign_prehashed;
  cb_ecdsa_verify_prehashed := lc_ecdsa_verify_prehashed;
|}.
Definition awslc_encryption : EncryptionOps := {|
  cb_aes_256_gcm_encrypt := lc_aes_256_gcm_encrypt;
  cb_aes_256_gcm_decrypt := lc_aes_256_gcm_decrypt;
  cb_aes_cbc_encrypt := lc_aes_cbc_encrypt;
  cb_aes_cbc_decrypt := lc_aes_cbc_decrypt;
  cb_aes_ctr_encrypt := lc_aes_ctr_encrypt;
  cb_aes_ctr_decrypt := lc_aes_ctr_decrypt;
  cb_rsa_oaep_encrypt := lc_rsa_oaep_encrypt;
  cb_rsa_oaep_encrypt_with_handle := ignore_handle lc_rsa_oaep_encrypt;
  cb_rsa_oaep_decrypt := lc_rsa_oaep_decrypt;
  cb_rsa_oaep_decrypt_with_handle := ignore_handle lc_rsa_oaep_decrypt;
|}.
Definition awslc_keygen : KeyGenOps := {|
  cb_generate_aes_key := lc_generate_aes_key;
  cb_generate_rsa_key_pair := lc_generate_rsa_key_pair;
  cb_generate_ec_key_pair := lc_generate_ec_key_pair;
  cb_generate_ed25519_key_pair := lc_generate_ed25519_key_pair;
|}.
Definition awslc_digest : DigestOps := {|
  cb_compute_digest := lc_compute_digest;
  cb_digest_output_len := lc_digest_output_len;
  cb_create_hasher := lc_create_hasher;
|}.
Definition awslc_wrap : WrapOps := {|
  cb_aes_key_wrap := lc_aes_key_wrap;
  cb_aes_key_unwrap := lc_aes_key_unwrap;
  cb_ecdh := lc_ecdh;
|}.
Definition AwsLcBackend : CryptoBackend := {|
  cb_signing := awslc_signing;
  cb_prehashed := awslc_prehashed;
  cb_encryption := awslc_encryption;
  cb_keygen := awslc_keygen;
  cb_digest := awslc_digest;
  cb_wrap := awslc_wrap;
  cb_pqc := default_pqc;
|}.

(** The backend of a build with the features [awslc] and [rustcrypto], one of which
    it has, for the name in the configuration. *)
Definition select_crypto_backend (awslc rustcrypto : bool) (requested : string) : CryptoBackend :=
  if awslc && bool_decide (requested = "awslc"%string) then AwsLcBackend
  else if rustcrypto && bool_decide (requested = "rustcrypto"%string) then RustCryptoBackend
  else if awslc then AwsLcBackend
  else RustCryptoBackend.
End AwsLc.
