(* ===== verification/AwsLcProofs.v ===== *)
(** * The two backends

    The AWS-LC backend under the standards its crate implements ([AwsLcStandards]).
    The DER reader inverts the encoding of an RSA public key, in both of its forms.
    [StandardCiphers] states what a backend promises about AES: what it encrypts or
    wraps is what the standard says, and it decrypts what the standard says, apart
    from the inputs it refuses ([Accepts]); both backends are instances, so that
    each reads what the other wrote. *)

From S2P Require Import Prelude StateError Pkcs11 Hash Mechanisms Encrypt EncryptProofs Sign SignProofs KeyCrypto KeyCryptoProofs ImportParse ImportProofs Backend AwsLc.

(** ** DER *)

Definition der_tlv (tag : Z) (content : bytes) : bytes :=
  tag :: encode_der_length (Z.of_nat (length content)) ++ content.
Lemma der_tlv_app tag content rest :
  der_tlv tag content ++ rest = tag :: encode_der_length (Z.of_nat (length content)) ++ content ++ rest.
Proof. unfold der_tlv. cbn [app]. by rewrite <- app_assoc. Qed.

(** A positive integer, given by its digits, with the sign byte it needs. *)
Definition uint_content (digits : bytes) : bytes :=
  match digits with d :: _ => if 128 <=? d then 0 :: digits else digits | [] => [] end.
Definition rsa_public_key_der (n e : bytes) : bytes :=
  der_tlv 0x30 (der_tlv 0x02 (uint_content n) ++ der_tlv 0x02 (uint_content e)).
Definition spki_der (algorithm n e : bytes) : bytes :=
  der_tlv 0x30 (der_tlv 0x30 algorithm ++ der_tlv 0x03 (0 :: rsa_public_key_der n e)).

(** Digits of a positive integer: bytes, the first of them not zero. *)
Definition digits_ok (bs : bytes) : Prop := ∃ d rest, bs = d :: rest ∧ 0 < d.

Definition rest_of (r : DerReader) : bytes := drop (dr_pos r) (dr_data r).

(** [reads m r v rest]: from [r] the step returns [v] and leaves [rest] to read. *)
Definition reads {T} (m : Der T) (input : bytes) (v : T) (rest : bytes) : Prop :=
  ∀ r, rest_of r = input → ∃ r', m r = (Ok v, r') ∧ rest_of r' = rest.

Lemma reads_ret {T} (v : T) rest : reads (rret v) rest v rest.
Proof. intros r <-. by exists r. Qed.
Lemma reads_bind {T U} (m : Der T) (k : T → Der U) input v mid u rest :
  reads m input v mid → reads (k v) mid u rest → reads (rbind m k) input u rest.
Proof.
  intros Hm Hk r Hr. destruct (Hm r Hr) as (r1 & E1 & H1). destruct (Hk r1 H1) as (r2 & E2 & H2).
  exists r2. unfold rbind. by rewrite E1.
Qed.

Lemma rest_lookup r x rest : rest_of r = x :: rest → dr_data r !! dr_pos r = Some x.
Proof.
  intros Hr. rewrite <- (Nat.add_0_r (dr_pos r)), <- lookup_drop.
  change (rest_of r !! 0%nat = Some x). by rewrite Hr.
Qed.
Lemma rest_seek r n rest a :
  rest_of r = a ++ rest → length a = n → rest_of (seek r (dr_pos r + n)) = rest.
Proof.
  intros Hr <-. unfold rest_of, seek in *. simpl. rewrite <- drop_drop, Hr. apply drop_app_length.
Qed.
Lemma rest_length r : (rest_of r ≠ [] → dr_pos r + length (rest_of r) = length (dr_data r))%nat.
Proof.
  unfold rest_of. intros Hne. rewrite length_drop.
  destruct (decide (dr_pos r < length (dr_data r))%nat); [lia|].
  rewrite drop_ge in Hne by lia. done.
Qed.

Lemma reads_tag tag rest : reads read_tag (tag :: rest) tag rest.
Proof.
  intros r Hr. unfold read_tag. rewrite (rest_lookup _ _ _ Hr).
  eexists. split; [done|]. by apply (rest_seek r 1 rest [tag]).
Qed.

Lemma shift_lor x d : 0 <= x → is_byte d → Z.lor (Z.shiftl x 8) d = d + 256 * x.
Proof.
  intros Hx Hd. unfold is_byte in Hd.
  assert (Z.land (Z.shiftl x 8) d = 0) as Hl.
  { apply Z.bits_inj'. intros i Hi. rewrite Z.land_spec, Z.bits_0.
    destruct (decide (i < 8)); [by rewrite Z.shiftl_spec_low|]. apply andb_false_iff. right.
    destruct (Z.eq_dec d 0) as [->|]; [apply Z.bits_0|].
    apply Z.bits_above_log2; [lia|]. apply Z.log2_lt_pow2; [lia|].
    apply (Z.lt_le_trans _ (2 ^ 8)); [lia|]. apply Z.pow_le_mono_r; lia. }
  pose proof (Z.add_lor_land (Z.shiftl x 8) d) as Ha.
  rewrite Hl, Z.shiftl_mul_pow2 in * by lia. change (2 ^ 8) with 256 in *. lia.
Qed.

Lemma length_octets_value ds :
  Forall is_byte ds → length_octets 0 (reverse ds) = from_le_bytes ds.
Proof.
  unfold length_octets. induction 1 as [|d ds Hd Hds IH]; [done|].
  rewrite reverse_cons, foldl_app. cbn [foldl from_le_bytes]. rewrite IH.
  apply shift_lor; [|done]. by apply from_le_bytes_bound.
Qed.

Lemma length_digits_bytes fuel l : Forall is_byte (length_digits fuel l).
Proof.
  revert l. induction fuel as [|fuel IH]; intros l; cbn [length_digits]; [constructor|].
  destruct (0 <? l); constructor; [|apply IH].
  change 255 with (Z.ones 8). rewrite Z.land_ones by lia. apply Z.mod_pos_bound. lia.
Qed.
Lemma length_digits_few fuel l k : 0 <= l < 256 ^ Z.of_nat k → (length (length_digits fuel l) <= k)%nat.
Proof.
  revert l k. induction fuel as [|fuel IH]; intros l k Hl; cbn [length_digits length]; [lia|].
  destruct (Z.ltb_spec 0 l); [|simpl; lia]. destruct k as [|k]; [simpl in Hl; lia|].
  cbn [length]. apply le_n_S, IH. rewrite Nat2Z.inj_succ, Z.pow_succ_r in Hl by lia.
  rewrite Z.shiftr_div_pow2 by lia. change (2 ^ 8) with 256.
  split; [apply Z.div_pos; lia|]. apply Z.div_lt_upper_bound; lia.
Qed.

Lemma reads_length l rest : 0 <= l < 2 ^ 32 → reads read_length (encode_der_length l ++ rest) l rest.
Proof.
  intros Hl r Hr. unfold read_length, encode_der_length in *.
  destruct (Z.ltb_spec l 128) as [Hs|Hs].
  - rewrite (rest_lookup _ _ _ Hr), (proj2 (Z.ltb_lt _ _)) by lia.
    eexists. split; [done|]. by apply (rest_seek r 1 rest [l]).
  - set (tmp := reverse (length_digits 8 l)) in *.
    assert (length tmp <= 4)%nat as H4.
    { unfold tmp. rewrite length_reverse. apply length_digits_few. change (256 ^ Z.of_nat 4) with (2 ^ 32). lia. }
    cbn [app] in Hr. rewrite (rest_lookup _ _ _ Hr), lor_128, (proj2 (Z.ltb_ge _ _)) by lia.
    change 0x7F with (Z.ones 7). rewrite Z.land_ones by lia. change (2 ^ 7) with 128.
    rewrite <- Z.add_mod_idemp_l, Z.mod_same, Z.add_0_l, Z.mod_small, Nat2Z.id by lia.
    pose proof (rest_length r) as Hlen. rewrite Hr in Hlen. cbn [length] in Hlen.
    rewrite length_app in Hlen. specialize (Hlen ltac:(done)).
    rewrite (proj2 (Nat.ltb_ge 4 _)), (proj2 (Nat.ltb_ge (length (dr_data r)) _)) by lia.
    assert (drop (dr_pos r + 1) (dr_data r) = tmp ++ rest) as Hd.
    { by apply (rest_seek r 1 (tmp ++ rest) [Z.lor 128 (Z.of_nat (length tmp))]). }
    cbn [orb]. rewrite Hd, take_app_length. eexists. split; [f_equal; f_equal|].
    + unfold tmp. rewrite length_octets_value by apply length_digits_bytes.
      apply length_digits_value. change (256 ^ Z.of_nat 8) with (2 ^ 64). lia.
    + change (drop (dr_pos r + 1 + length tmp) (dr_data r) = rest).
      by rewrite <- drop_drop, Hd, drop_app_length.
Qed.

Lemma reads_bytes bs rest :
  bs ≠ [] → reads (read_bytes (Z.of_nat (length bs))) (bs ++ rest) bs rest.
Proof.
  intros Hne r Hr. unfold read_bytes. rewrite Nat2Z.id.
  pose proof (rest_length r) as Hlen. rewrite Hr, length_app in Hlen.
  specialize (Hlen ltac:(by destruct bs)). rewrite (proj2 (Nat.ltb_ge _ _)) by lia.
  eexists. split; [|by eapply (rest_seek r (length bs) rest bs)]. f_equal; f_equal.
  change (take (length bs) (rest_of r) = bs). by rewrite Hr, take_app_length.
Qed.
Lemma reads_skip bs rest : reads (skip (Z.of_nat (length bs))) (bs ++ rest) tt rest.
Proof.
  intros r Hr. unfold skip. rewrite Nat2Z.id. eexists. split; [done|]. by apply (rest_seek r _ rest bs).
Qed.

Definition small (bs : bytes) : Prop := Z.of_nat (length bs) < 2 ^ 32.

Lemma reads_sequence content rest :
  small content → reads enter_sequence (der_tlv 0x30 content ++ rest) (Z.of_nat (length content)) (content ++ rest).
Proof.
  intros Hs. rewrite der_tlv_app.
  eapply reads_bind; [apply reads_tag|]. apply reads_length. unfold small in Hs. lia.
Qed.

Lemma uint_content_nonempty n : digits_ok n → uint_content n ≠ [].
Proof. intros (d & rest & -> & Hd). cbn. by destruct (128 <=? d). Qed.
Lemma strip_uint n : digits_ok n →
  strip_integer (uint_content n) = n ∧ strip_modulus (uint_content n) = n.
Proof.
  intros (d & rest & -> & Hd). cbn [uint_content]. destruct (128 <=? d); [done|].
  destruct d; [lia|done|lia].
Qed.
Lemma reads_integer n rest : digits_ok n → small (uint_content n) →
  reads read_integer (der_tlv 0x02 (uint_content n) ++ rest) n rest.
Proof.
  intros Hn Hs. rewrite der_tlv_app.
  eapply reads_bind; [apply reads_tag|]. cbn [negb Z.eqb Pos.eqb].
  eapply reads_bind; [apply reads_length; unfold small in Hs; lia|].
  eapply reads_bind; [by apply reads_bytes, uint_content_nonempty|].
  rewrite (proj1 (strip_uint n Hn)). apply reads_ret.
Qed.

Lemma small_app_l a b : small (a ++ b) → small a.
Proof. unfold small. rewrite length_app. lia. Qed.
Lemma small_app_r a b : small (a ++ b) → small b.
Proof. unfold small. rewrite length_app. lia. Qed.
Lemma small_tlv tag c : small (der_tlv tag c) → small c.
Proof. intros Hs. apply (small_app_r (tag :: encode_der_length (Z.of_nat (length c)))), Hs. Qed.

Lemma parse_reads der v rest : reads parse_rsa_spki_from der v rest → parse_rsa_spki der = Ok v.
Proof.
  intros Hr. destruct (Hr (DerReader_new der) eq_refl) as (r' & E & _).
  unfold parse_rsa_spki. by rewrite E.
Qed.
Lemma reads_sequence_end content : small content →
  reads enter_sequence (der_tlv 0x30 content) (Z.of_nat (length content)) content.
Proof.
  intros Hs. pose proof (reads_sequence content [] Hs) as Hr. by rewrite !app_nil_r in Hr.
Qed.
Lemma reads_integer_end n : digits_ok n → small (uint_content n) →
  reads read_integer (der_tlv 0x02 (uint_content n)) n [].
Proof.
  intros Hn Hs. pose proof (reads_integer n [] Hn Hs) as Hr. by rewrite app_nil_r in Hr.
Qed.
Lemma small_rsa_public_key n e : small (rsa_public_key_der n e) →
  small (der_tlv 2 (uint_content n) ++ der_tlv 2 (uint_content e)) ∧
  small (uint_content n) ∧ small (uint_content e).
Proof.
  intros Hs. pose proof (small_tlv _ _ Hs) as Hc.
  pose proof (small_tlv _ _ (small_app_l _ _ Hc)). pose proof (small_tlv _ _ (small_app_r _ _ Hc)).
  done.
Qed.

(** The reader of a generated key's public part inverts its encoding, as a bare
    [RSAPublicKey] and as a [SubjectPublicKeyInfo] with any algorithm. *)
Lemma parse_rsa_public_key n e :
  digits_ok n → digits_ok e → small (rsa_public_key_der n e) →
  parse_rsa_spki (rsa_public_key_der n e) = Ok (n, e).
Proof.
  intros Hn He (Hc & Hsn & Hse)%small_rsa_public_key. apply (parse_reads _ _ []).
  eapply reads_bind; [by apply reads_sequence_end|]. rewrite der_tlv_app.
  eapply reads_bind; [apply reads_tag|].
  eapply reads_bind; [apply reads_length; unfold small in Hsn; lia|].
  eapply reads_bind; [by apply reads_bytes, uint_content_nonempty|].
  eapply reads_bind; [by apply reads_integer_end|].
  rewrite (proj2 (strip_uint n Hn)). apply reads_ret.
Qed.

Lemma parse_spki algorithm n e :
  digits_ok n → digits_ok e → small (spki_der algorithm n e) →
  parse_rsa_spki (spki_der algorithm n e) = Ok (n, e).
Proof.
  intros Hn He Hs. pose proof (small_tlv _ _ Hs) as Hc.
  pose proof (small_tlv _ _ (small_app_l _ _ Hc)) as Ha.
  pose proof (small_tlv _ _ (small_app_r _ _ Hc)) as Hb.
  destruct (small_rsa_public_key n e) as (Hi & Hsn & Hse); [by apply (small_app_r [0])|].
  apply (parse_reads _ _ []).
  eapply reads_bind; [by apply reads_sequence_end|]. rewrite der_tlv_app.
  eapply reads_bind; [apply reads_tag|].
  eapply reads_bind; [apply reads_length; unfold small in Ha; lia|].
  eapply reads_bind; [apply reads_skip|].
  eapply reads_bind; [apply reads_tag|].
  eapply reads_bind; [apply reads_length; unfold small in Hb; lia|].
  eapply reads_bind; [apply (reads_skip [0])|].
  eapply reads_bind; [by apply reads_sequence_end|].
  eapply reads_bind; [by apply reads_integer|].
  eapply reads_bind; [by apply reads_integer_end|]. apply reads_ret.
Qed.

(** ** The standards *)

(** What the documentation of [aws-lc-rs] promises: the algorithms are those of the
    RustCrypto crates, within the sizes both support. *)
Class AwsLcStandards (CP : CipherPrimitives) (SP : SignPrimitives) (KP : KeyPrimitives SP)
    (AP : AwsLcPrimitives SP) := {
  aws_gcm_seal_std key nonce plain : length key = 32%nat → length nonce = 12%nat →
    Z.of_nat (length plain) <= AES_GCM_MAX_PLAINTEXT →
    aws_gcm_seal key nonce plain = gcm_seal key nonce [] plain;
  aws_gcm_seal_bound key nonce plain cipher :
    aws_gcm_seal key nonce plain = Some cipher → Z.of_nat (length plain) <= AES_GCM_MAX_PLAINTEXT;
  aws_gcm_open_std key nonce cipher : length key = 32%nat → length nonce = 12%nat →
    Z.of_nat (length cipher) <= AES_GCM_MAX_PLAINTEXT + 16 →
    aws_gcm_open key nonce cipher = gcm_open key nonce [] cipher;
  aws_cbc_encrypt_std key iv plain : aes_key_len_ok key = true → length iv = 16%nat →
    aws_cbc_encrypt key iv plain = Some (cbc_encrypt key iv plain);
  aws_cbc_decrypt_std key iv cipher : aes_key_len_ok key = true → length iv = 16%nat →
    aws_cbc_decrypt key iv cipher = cbc_decrypt key iv cipher;
  aws_ctr_std key iv data : aes_key_len_ok key = true → length iv = 16%nat →
    aws_ctr_encrypt key iv data = Some (ctr_keystream key iv data);
  aws_kw_wrap_std kek key : lc_kek_ok kek = true → (16 <= length key)%nat →
    (length key mod 8 = 0)%nat → aws_kw_wrap kek key = kw_wrap kek key;
  aws_kw_unwrap_std kek w : lc_kek_ok kek = true → (24 <= length w)%nat →
    (length w mod 8 = 0)%nat → aws_kw_unwrap kek w = kw_unwrap kek w;
  aws_digest_std d data : aws_digest d data = digest d data;
  aws_output_len_std d : aws_output_len d = digest_len d;
  (** A key pair it accepts has at least 2048 bits, and a PKCS#1 v1.5 signature is a
      function of key and data. *)
  aws_pkcs1_std der pair : aws_rsa_from_pkcs8 der = Some pair →
    ∃ key, from_pkcs8_der der = Some key ∧ 2048 <= private_modulus_bits key ∧
      ∀ h r data, aws_rsa_sign Pkcs1 h pair r data = Some (pkcs1_sign_message h key data);
  (** The public half of a key pair is an [RSAPublicKey] of its modulus and exponent. *)
  aws_generate_std bits r pair : aws_rsa_generate bits r = Some pair →
    ∃ n e, aws_rsa_public_der pair = rsa_public_key_der n e ∧
      digits_ok n ∧ digits_ok e ∧ small (rsa_public_key_der n e) ∧
      ∀ der, aws_rsa_as_der pair = Some der → aws_rsa_from_pkcs8 der = Some pair ∧
        ∀ p h r data sig, aws_rsa_sign p h pair r data = Some sig →
          aws_rsa_verify p h n e data sig = true;
  (** Agreement is symmetric. *)
  aws_agree_std cv a b ka kb pa pb :
    aws_ec_from_private_key cv a = Some ka → aws_ec_from_private_key cv b = Some kb →
    aws_ec_public ka = Some pa → aws_ec_public kb = Some pb →
    aws_ec_agree ka cv pb = aws_ec_agree kb cv pa;
}.

(** The inputs a backend decrypts: IV and data in counter mode, FIPS mode and key in
    key wrap. *)
Record Accepts := {
  ac_ctr : bytes → bytes → bool;
  ac_kek : bool → bytes → bool;
}.

(** The generators fill what they are asked to fill. *)
Definition draws_ok (w : Draws) : Prop :=
  (∀ n bs, dw_fill w n = Ok bs → length bs = n) ∧ (∀ p, dw_prefix w = Ok p → length p = 4%nat).

(** The nonce prefixes kept for the AES-GCM keys have four bytes each. *)
Definition prefixes_ok (c : CipherState) : Prop :=
  ∀ kid p, gcm_prefixes c !! kid = Some p → length p = 4%nat.

Section Standard.
Context {H : HashPrimitives} {CP : CipherPrimitives} {SP : SignPrimitives} {KP : KeyPrimitives SP}.

(** What a backend promises about AES and digests. *)
Class StandardCiphers (B : CryptoBackend) (A : Accepts) : Prop := {
  sc_gcm_encrypt w key plain s ct s' : draws_ok w → prefixes_ok (bs_cipher s) →
    cb_aes_256_gcm_encrypt B key plain w s = (Ok ct, s') →
    prefixes_ok (bs_cipher s') ∧
    length key = 32%nat ∧ Z.of_nat (length plain) <= AES_GCM_MAX_PLAINTEXT ∧
    ∃ nonce c, ct = nonce ++ c ∧ length nonce = 12%nat ∧ gcm_seal key nonce [] plain = Some c;
  sc_gcm_decrypt w key nonce c plain s : length key = 32%nat → length nonce = 12%nat →
    Z.of_nat (length plain) <= AES_GCM_MAX_PLAINTEXT → gcm_open key nonce [] c = Some plain →
    cb_aes_256_gcm_decrypt B key (nonce ++ c) w s = (Ok plain, s);
  sc_cbc_encrypt w key iv plain s ct s' : cb_aes_cbc_encrypt B key iv plain w s = (Ok ct, s') →
    aes_key_len_ok key = true ∧ length iv = 16%nat ∧ ct = cbc_encrypt key iv plain;
  sc_cbc_decrypt w key iv c s : aes_key_len_ok key = true → length iv = 16%nat →
    cb_aes_cbc_decrypt B key iv c w s = (ok_or (cbc_decrypt key iv c) EncryptedDataInvalid, s);
  sc_ctr_encrypt w key iv plain s ct s' : cb_aes_ctr_encrypt B key iv plain w s = (Ok ct, s') →
    aes_key_len_ok key = true ∧ length iv = 16%nat ∧ ct = ctr_keystream key iv plain;
  sc_ctr_decrypt w key iv c s : aes_key_len_ok key = true → length iv = 16%nat →
    ac_ctr A iv c = true → cb_aes_ctr_decrypt B key iv c w s = (Ok (ctr_keystream key iv c), s);
  sc_wrap w kek key fips s wk s' : cb_aes_key_wrap B kek key fips w s = (Ok wk, s') →
    (16 <= length key)%nat ∧ (length key mod 8 = 0)%nat ∧ kw_wrap kek key = Some wk;
  sc_unwrap w kek wk fips s : ac_kek A fips kek = true → (24 <= length wk)%nat →
    (length wk mod 8 = 0)%nat →
    cb_aes_key_unwrap B kek wk fips w s = (ok_or (kw_unwrap kek wk) EncryptedDataInvalid, s);
  sc_digest w m data s : cb_compute_digest B m data w s = (compute_digest m data, s);
}.
End Standard.

Definition rustcrypto_accepts : Accepts := {|
  ac_ctr iv data := negb (all_zero iv) && (Z.of_nat (length data) <=? AES_CBC_CTR_MAX_PLAINTEXT);
  ac_kek fips kek := aes_key_len_ok kek && negb (fips && (length kek =? 16)%nat);
|}.
Definition awslc_accepts : Accepts := {| ac_ctr _ _ := true; ac_kek _ kek := lc_kek_ok kek |}.

Lemma digest_algs_agree m : mechanism_to_digest_alg m = ok_or (digest_alg m) MechanismInvalid.
Proof. unfold mechanism_to_digest_alg, digest_alg. by repeat case_match. Qed.

Section Instances.
Context {H : HashPrimitives} {CP : CipherPrimitives} {SP : SignPrimitives} {KP : KeyPrimitives SP}.
Context {CL : CipherPrimitivesLaws CP}.

Lemma with_ciphers_ok {T} (f : Draws → CipherState → HsmResult T * CipherState) w s v s' :
  with_ciphers f w s = (Ok v, s') → (f w (bs_cipher s)).1 = Ok v.
Proof. unfold with_ciphers. destruct (f w (bs_cipher s)) as [r c]. by intros [= -> _]. Qed.

Lemma nonce_cipher_length nonce c key plain :
  length nonce = 12%nat → gcm_open key nonce [] c = Some plain → (28 <= length (nonce ++ c))%nat.
Proof using CL.
  intros Hn Ho%gcm_open_length. rewrite length_app, Hn, Ho. unfold TAG_LEN. lia.
Qed.

Lemma gcm_encrypt_bound drbg key plain aad c out c' :
  aes_256_gcm_encrypt_with_aad drbg key plain aad c = (Ok out, c') →
  Z.of_nat (length plain) <= AES_GCM_MAX_PLAINTEXT.
Proof.
  unfold aes_256_gcm_encrypt_with_aad. destruct (negb _); [done|].
  by destruct (Z.ltb_spec AES_GCM_MAX_PLAINTEXT (Z.of_nat (length plain))).
Qed.

Lemma rust_gcm_encrypt w key plain s ct s' : draws_ok w → prefixes_ok (bs_cipher s) →
  cb_aes_256_gcm_encrypt RustCryptoBackend key plain w s = (Ok ct, s') →
  prefixes_ok (bs_cipher s') ∧
  length key = 32%nat ∧ Z.of_nat (length plain) <= AES_GCM_MAX_PLAINTEXT ∧
  ∃ nonce c, ct = nonce ++ c ∧ length nonce = 12%nat ∧ gcm_seal key nonce [] plain = Some c.
Proof.
  intros [_ Hw] Hs. cbn. unfold with_ciphers, aes_256_gcm_encrypt.
  destruct (aes_256_gcm_encrypt_with_aad _ _ _ _ _) as [r c] eqn:E. intros [= -> <-]. cbn [bs_cipher].
  pose proof (gcm_encrypt_bound _ _ _ _ _ _ _ E) as Hb.
  destruct (gcm_encrypt_effect _ _ _ _ _ _ _ E) as (used & Heff & Hok).
  destruct (Hok ct eq_refl) as (Hk & n & cipher & -> & Hseal & ->).
  assert (prefixes_ok c ∧ length n = 12%nat) as [Hp Hn].
  { assert (∀ p k, length p = 4%nat → length (p ++ to_be_bytes_8 k) = 12%nat) as H12.
    { intros p k Hp. unfold to_be_bytes_8. by rewrite length_app, length_rev, length_to_le_bytes, Hp. }
    inversion Heff; subst; (split; [intros kid q; cbn|apply H12; eauto]); [apply Hs|].
    rewrite lookup_insert_Some. intros [[_ <-]|[_ Hq]]; [by apply Hw|by eapply Hs]. }
  split_and!; eauto.
Qed.

Lemma iv_length_ok (iv : bytes) : negb (length iv =? 16)%nat = false → length iv = 16%nat.
Proof. intros E%negb_false_iff. by apply Nat.eqb_eq. Qed.
Lemma ctr_validate_ok key iv data u :
  aes_ctr_validate key iv data = Ok u → aes_key_len_ok key = true ∧ length iv = 16%nat.
Proof.
  unfold aes_ctr_validate. intros E. split_tests_in E. split; [by apply negb_false_iff|].
  by apply iv_length_ok.
Qed.

Lemma kw_data_ok (key : bytes) :
  negb (length key mod 8 =? 0)%nat || (length key <? 16)%nat = false →
  (16 <= length key)%nat ∧ (length key mod 8 = 0)%nat.
Proof.
  intros [E8%negb_false_iff E16]%orb_false_iff.
  split; [by apply Nat.ltb_ge|by apply Nat.eqb_eq].
Qed.

#[export] Instance rustcrypto_standard : StandardCiphers RustCryptoBackend rustcrypto_accepts.
Proof using CL.
  split.
  - apply rust_gcm_encrypt.
  - intros w key nonce c plain s Hk Hn _ Ho. cbn. unfold stateless, aes_256_gcm_decrypt,
      aes_256_gcm_decrypt_with_aad. rewrite Hk. cbn [Nat.eqb negb].
    rewrite (proj2 (Nat.ltb_ge _ _)) by (by eapply nonce_cipher_length).
    by rewrite <- Hn, take_app_length, drop_app_length, Ho.
  - intros w key iv plain s ct s' E.
    apply (with_ciphers_ok (λ _, aes_cbc_encrypt key iv plain) w) in E. unfold aes_cbc_encrypt in E.
    split_tests_in E. bool_to_prop. destruct (length iv =? 16)%nat eqn:Ei; [|done].
    by apply Nat.eqb_eq in Ei.
  - intros w key iv c s Hk Hi. cbn. unfold stateless, aes_cbc_decrypt. by rewrite Hi, Hk.
  - intros w key iv plain s ct s' E.
    apply (with_ciphers_ok (λ _, aes_ctr_encrypt key iv plain) w) in E.
    unfold aes_ctr_encrypt, aes_ctr_apply in E.
    destruct (aes_ctr_validate key iv plain) eqn:Ev; [|done]. apply ctr_validate_ok in Ev as [Hk Hi].
    rewrite Hk in E. destruct (check_iv_reuse _ _ _) as [[]]; by simplify_eq/=.
  - intros w key iv c s Hk Hi Ha. cbn in *. unfold stateless, aes_ctr_decrypt, aes_ctr_validate,
      aes_ctr_apply. apply andb_true_iff in Ha as [Hz Hl]. rewrite Hi, Hk.
    apply Z.leb_le in Hl. rewrite (proj2 (Z.ltb_ge _ _)) by lia. by destruct (all_zero iv).
  - intros w kek key fips s wk s'. cbn. unfold stateless, aes_key_wrap. intros [= E <-].
    destruct (negb _ || _) eqn:Ed; [done|]. apply kw_data_ok in Ed as [H16 H8].
    destruct (kw_wrap kek key); split_tests_in E; done.
  - intros w kek wk fips s Ha Hl H8.
    change (cb_aes_key_unwrap RustCryptoBackend kek wk fips w s) with (aes_key_unwrap kek wk fips, s).
    unfold aes_key_unwrap.
    apply andb_true_iff in Ha as [Hk Hf%negb_true_iff]. rewrite H8, Hf.
    unfold aes_key_len_ok in Hk. by rewrite (proj2 (Nat.ltb_ge _ _)), Hk by lia.
  - done.
Qed.

Context {AP : AwsLcPrimitives SP} {AL : AwsLcStandards CP SP KP AP}.

Lemma lc_fill_ok w n bs : draws_ok w → lc_fill w n = Ok bs → length bs = n.
Proof. intros [Hw _]. unfold lc_fill. destruct (dw_fill w n) eqn:E; [|done]. intros [= <-]. auto. Qed.
Lemma lc_gcm_encrypt w key plain s ct s' : draws_ok w → prefixes_ok (bs_cipher s) →
  cb_aes_256_gcm_encrypt AwsLcBackend key plain w s = (Ok ct, s') →
  prefixes_ok (bs_cipher s') ∧
  length key = 32%nat ∧ Z.of_nat (length plain) <= AES_GCM_MAX_PLAINTEXT ∧
  ∃ nonce c, ct = nonce ++ c ∧ length nonce = 12%nat ∧ gcm_seal key nonce [] plain = Some c.
Proof using AL.
  intros Hw Hs. cbn. unfold lc_aes_256_gcm_encrypt, stateless. intros [= E <-].
  destruct (length key =? 32)%nat eqn:Hk; [|done]. apply Nat.eqb_eq in Hk. cbn [negb] in E.
  destruct (lc_fill w 12) as [nonce|] eqn:Hf; [|done]. apply lc_fill_ok in Hf; [|done].
  cbn in E. destruct (aws_gcm_seal key nonce plain) as [c|] eqn:Hseal; [|done].
  injection E as <-. pose proof (aws_gcm_seal_bound _ _ _ _ Hseal) as Hb.
  rewrite aws_gcm_seal_std in Hseal by done. split_and!; eauto.
Qed.

#[export] Instance awslc_standard : StandardCiphers AwsLcBackend awslc_accepts.
Proof using CL AL.
  split.
  - apply lc_gcm_encrypt.
  - intros w key nonce c plain s Hk Hn Hp Ho. cbn. unfold lc_aes_256_gcm_decrypt, stateless.
    pose proof (gcm_open_length _ _ _ _ _ Ho) as Hc. unfold TAG_LEN in Hc.
    rewrite Hk, length_app, (proj2 (Nat.ltb_ge _ _)) by lia. cbn [Nat.eqb negb].
    rewrite <- Hn, take_app_length, drop_app_length, aws_gcm_open_std by lia. by rewrite Ho.
  - intros w key iv plain s ct s'. cbn. unfold lc_aes_cbc_encrypt, stateless. intros [= E <-].
    destruct (length iv =? 16)%nat eqn:Ei, (aes_key_len_ok key) eqn:Ek; try done.
    apply Nat.eqb_eq in Ei. cbn in E. rewrite aws_cbc_encrypt_std in E by done. by simplify_eq/=.
  - intros w key iv c s Hk Hi. cbn. unfold lc_aes_cbc_decrypt, stateless.
    by rewrite Hk, Hi, aws_cbc_decrypt_std.
  - intros w key iv plain s ct s'. cbn. unfold lc_aes_ctr_encrypt, aes_ctr_crypt_inner, stateless.
    intros [= E <-]. destruct (length iv =? 16)%nat eqn:Ei, (aes_key_len_ok key) eqn:Ek; try done.
    apply Nat.eqb_eq in Ei. cbn in E. rewrite aws_ctr_std in E by done. by simplify_eq/=.
  - intros w key iv c s Hk Hi _. cbn. unfold lc_aes_ctr_decrypt, aes_ctr_crypt_inner, stateless.
    by rewrite Hk, Hi, aws_ctr_std.
  - intros w kek key fips s wk s'. cbn. unfold lc_aes_key_wrap, stateless. intros [= E <-].
    destruct (negb (_ =? 0)%nat || _) eqn:Ed; [done|]. apply kw_data_ok in Ed as [H16 H8].
    destruct (lc_kek_ok kek) eqn:Ek; [|done]. cbn in E. rewrite aws_kw_wrap_std in E by done.
    destruct (kw_wrap kek key); by simplify_eq/=.
  - intros w kek wk fips s Hk Hl H8. cbn [ac_kek awslc_accepts] in Hk.
    change (cb_aes_key_unwrap AwsLcBackend kek wk fips w s) with (lc_aes_key_unwrap kek wk fips w s).
    unfold lc_aes_key_unwrap, stateless.
    rewrite H8, (proj2 (Nat.ltb_ge _ _)), Hk by lia. by rewrite aws_kw_unwrap_std.
  - intros w m data s. cbn. unfold lc_compute_digest, stateless, compute_digest.
    rewrite digest_algs_agree. destruct (digest_alg m); [|done]. cbn. by rewrite aws_digest_std.
Qed.
End Instances.

(** ** Reading what the other wrote *)

Section Interoperate.
Context {H : HashPrimitives} {CP : CipherPrimitives} {SP : SignPrimitives} {KP : KeyPrimitives SP}.
Context {CL : CipherPrimitivesLaws CP} {KL : KeyPrimitivesLaws SP KP}.

(** [reads_back B1 B2 A2]: what [B1] encrypts or wraps, [B2] decrypts or unwraps, when
    it accepts the input at all. *)
Record reads_back (B1 B2 : CryptoBackend) (A2 : Accepts) (w w' : Draws) (s t : BackendState) :
    Prop := {
  rb_gcm key plain ct s' : cb_aes_256_gcm_encrypt B1 key plain w s = (Ok ct, s') →
    cb_aes_256_gcm_decrypt B2 key ct w' t = (Ok plain, t);
  rb_cbc key iv plain ct s' : cb_aes_cbc_encrypt B1 key iv plain w s = (Ok ct, s') →
    cb_aes_cbc_decrypt B2 key iv ct w' t = (Ok plain, t);
  rb_ctr key iv plain ct s' : cb_aes_ctr_encrypt B1 key iv plain w s = (Ok ct, s') →
    ac_ctr A2 iv ct = true → cb_aes_ctr_decrypt B2 key iv ct w' t = (Ok plain, t);
  rb_wrap kek key fips fips' wk s' : cb_aes_key_wrap B1 kek key fips w s = (Ok wk, s') →
    ac_kek A2 fips' kek = true → cb_aes_key_unwrap B2 kek wk fips' w' t = (Ok key, t);
}.

Lemma standards_read_back B1 B2 A1 A2 w w' s t :
  StandardCiphers B1 A1 → StandardCiphers B2 A2 → draws_ok w → prefixes_ok (bs_cipher s) →
  reads_back B1 B2 A2 w w' s t.
Proof using CL KL.
  intros S1 S2 Hw Hs. split.
  - intros key plain ct s' (_ & Hk & Hp & nonce & c & -> & Hn & Hc)%sc_gcm_encrypt; [|done..].
    apply sc_gcm_decrypt; [done..|]. by apply gcm_open_seal.
  - intros key iv plain ct s' (Hk & Hi & ->)%sc_cbc_encrypt.
    rewrite sc_cbc_decrypt by done. by rewrite cbc_decrypt_encrypt.
  - intros key iv plain ct s' (Hk & Hi & ->)%sc_ctr_encrypt Ha.
    rewrite sc_ctr_decrypt by done. by rewrite ctr_involutive.
  - intros kek key fips fips' wk s' (H16 & H8 & Hwk)%sc_wrap Ha.
    destruct (kw_wrap_ok kek key H16 H8) as (wk' & Hwk' & Hl). assert (wk' = wk) as -> by congruence.
    rewrite sc_unwrap; [by rewrite (kw_unwrap_wrap _ _ _ Hwk)|done|lia|].
    rewrite Hl, <- Nat.Div0.add_mod_idemp_l, H8. done.
Qed.

Context {AP : AwsLcPrimitives SP} {AL : AwsLcStandards CP SP KP AP}.

Definition backends : list (CryptoBackend * Accepts) :=
  [(RustCryptoBackend, rustcrypto_accepts); (AwsLcBackend, awslc_accepts)].

(** C22: Whichever of the two backends encrypted data with AES-GCM, AES-CBC or AES-CTR
    or wrapped a key, each of them decrypts or unwraps it to the original, in any
    state of its own — except for the inputs it refuses by policy: RustCrypto a
    counter-mode ciphertext with a zero IV or above 256 MB and, in FIPS mode, a 16-byte
    wrapping key; AWS-LC a 24-byte wrapping key. *)
Theorem backends_interoperate B1 A1 B2 A2 w w' s t :
  (B1, A1) ∈ backends → (B2, A2) ∈ backends → draws_ok w → prefixes_ok (bs_cipher s) →
  reads_back B1 B2 A2 w w' s t.
Proof using CL KL AL.
  intros H1 H2. assert (∀ B A, (B, A) ∈ backends → StandardCiphers B A) as Hstd.
  { intros B A HB. unfold backends in HB.
    repeat (apply elem_of_cons in HB as [HB|HB]; [simplify_eq; apply _|]). by apply elem_of_nil in HB. }
  apply (standards_read_back B1 B2 A1 A2); by apply Hstd.
Qed.

(** What AWS-LC signs in one part and, through RustCrypto, of a digest. *)
Lemma lc_pkcs1_sign_std der data h w s sig s' :
  cb_rsa_pkcs1v15_sign AwsLcBackend der data (Some h) w s = (Ok sig, s') →
  ∃ key, from_pkcs8_der der = Some key ∧ 2048 <= private_modulus_bits key ∧
    sig = pkcs1_sign_message h key data ∧ s' = s.
Proof using AL.
  cbn. unfold lc_rsa_pkcs1v15_sign, lc_rsa_sign, stateless. intros [= E <-].
  destruct (aws_rsa_from_pkcs8 der) as [pair|] eqn:Ep; [|done].
  destruct (aws_pkcs1_std _ _ Ep) as (key & Hk & Hb & Hsig). cbn in E. rewrite Hsig in E.
  cbn in E. simplify_eq. eauto.
Qed.

(** A key pair AWS-LC generates is one key: the modulus and exponent read out of
    the DER of its public half verify every signature made with its private half, in
    PKCS#1 v1.5 and in PSS; and the PKCS#1 signature of a digest, which RustCrypto
    makes for multi-part signing, is the signature AWS-LC makes of the data. *)
Theorem awslc_pair_verifies {SL : SignPrimitivesLaws SP} bits fips w s der n e s' :
  cb_generate_rsa_key_pair AwsLcBackend bits fips w s = (Ok (der, n, e), s') →
  (∀ data h w1 s1 sig s2, cb_rsa_pkcs1v15_sign AwsLcBackend der data (Some h) w1 s1 = (Ok sig, s2) →
    cb_rsa_pkcs1v15_verify AwsLcBackend n e data sig (Some h) w1 s2 = (Ok true, s2) ∧
    cb_rsa_pkcs1v15_sign_prehashed AwsLcBackend der (digest (hash_digest h) data) h w1 s1 =
      (Ok sig, s2)) ∧
  (∀ data h w1 s1 sig s2, cb_rsa_pss_sign AwsLcBackend der data h w1 s1 = (Ok sig, s2) →
    cb_rsa_pss_verify AwsLcBackend n e data sig h w1 s2 = (Ok true, s2)).
Proof using AL.
  cbn. unfold lc_generate_rsa_key_pair, stateless. intros [= E _].
  destruct (negb _); [done|]. destruct (aws_rsa_generate bits (dw_system w)) as [pair|] eqn:Eg; [|done].
  destruct (aws_generate_std _ _ _ Eg) as (n' & e' & Hpub & Hn & He & Hs & Hkey). cbn in E.
  destruct (aws_rsa_as_der pair) as [der'|] eqn:Ed; [|done]. cbn in E.
  rewrite Hpub, parse_rsa_public_key in E by done. cbn in E. injection E as -> -> ->.
  destruct (Hkey der eq_refl) as [Hfrom Hver]. split.
  - intros data h w1 s1 sig s2 E1. destruct (lc_pkcs1_sign_std der data h w1 s1 sig s2 E1)
      as (key & Hk & Hb & Hsig & ->). split.
    + unfold lc_rsa_pkcs1v15_sign, lc_rsa_sign, stateless in E1. rewrite Hfrom in E1. cbn in E1.
      unfold lc_rsa_pkcs1v15_verify, stateless. cbn. destruct (aws_rsa_sign _ _ _ _ _) eqn:Ev; [|done].
      injection E1 as ->. by rewrite (Hver _ _ _ _ _ Ev).
    + unfold lc_rsa_pkcs1v15_sign_prehashed, stateless. rewrite Hk. cbn.
      by rewrite pkcs1_sign_hashes, Hsig by done.
  - intros data h w1 s1 sig s2. unfold lc_rsa_pss_sign, lc_rsa_sign, stateless. rewrite Hfrom. cbn.
    destruct (aws_rsa_sign _ _ _ _ _) eqn:Ev; [|done]. intros [= -> <-].
    unfold lc_rsa_pss_verify, stateless. by rewrite (Hver _ _ _ _ _ Ev).
Qed.

(** A second use of an IV under RustCrypto, whatever the first one encrypted. *)
Lemma check_iv_twice key iv c u c' :
  check_iv_reuse key iv c = (Ok u, c') → (check_iv_reuse key iv c').1 = Err MechanismParamInvalid.
Proof.
  unfold check_iv_reuse. intros E. split_tests_in E. cbn [iv_tracker].
  rewrite lookup_insert_eq. cbn [from_option id]. rewrite (bool_decide_eq_false_2 (Some _ = None)) by done.
  cbn [andb]. by rewrite bool_decide_eq_true_2 by (by apply elem_of_union_l, elem_of_singleton).
Qed.
Lemma rust_ctr_twice key iv p q w s c s' : 
  cb_aes_ctr_encrypt RustCryptoBackend key iv p w s = (Ok c, s') →
  Z.of_nat (length q) <= AES_CBC_CTR_MAX_PLAINTEXT →
  (cb_aes_ctr_encrypt RustCryptoBackend key iv q w s').1 = Err MechanismParamInvalid.
Proof.
  cbn. unfold with_ciphers, aes_ctr_encrypt, aes_ctr_validate. intros E Hq. apply Z.ltb_ge in Hq.
  rewrite Hq. destruct (AES_CBC_CTR_MAX_PLAINTEXT <? Z.of_nat (length p)); [done|].
  destruct (negb (length iv =? 16)%nat), (all_zero iv), (negb (aes_key_len_ok key)); try done.
  destruct (check_iv_reuse key iv (bs_cipher s)) as [[u|] c1] eqn:E1; [|done].
  apply check_iv_twice in E1. injection E as _ <-. cbn [bs_cipher].
  destruct (check_iv_reuse key iv c1) as [[]]; by simplify_eq/=.
Qed.

(** The protections of the ciphers belong to one backend only.  AWS-LC encrypts
    any two messages under one key and one IV, the zero IV included, in CBC and in
    CTR, and its outcomes do not depend on the state that counts and records uses;
    it generates and wraps alike with and without FIPS mode.  RustCrypto refuses the
    second message, and in FIPS mode a 16-byte key. *)
Theorem awslc_skips_policies key iv p q w s :
  aes_key_len_ok key = true → length iv = 16%nat →
  (∃ c d, cb_aes_cbc_encrypt AwsLcBackend key iv p w s = (Ok c, s) ∧
    cb_aes_cbc_encrypt AwsLcBackend key iv q w s = (Ok d, s)) ∧
  (∃ c d, cb_aes_ctr_encrypt AwsLcBackend key iv p w s = (Ok c, s) ∧
    cb_aes_ctr_encrypt AwsLcBackend key iv q w s = (Ok d, s)) ∧
  (∀ k t, (cb_aes_256_gcm_encrypt AwsLcBackend k p w s).1 = (cb_aes_256_gcm_encrypt AwsLcBackend k p w t).1) ∧
  (∀ n, cb_generate_aes_key AwsLcBackend n true w s = cb_generate_aes_key AwsLcBackend n false w s) ∧
  (∀ kek k, cb_aes_key_wrap AwsLcBackend kek k true w s = cb_aes_key_wrap AwsLcBackend kek k false w s) ∧
  (∀ c s', cb_aes_ctr_encrypt RustCryptoBackend key iv p w s = (Ok c, s') →
    Z.of_nat (length q) <= AES_CBC_CTR_MAX_PLAINTEXT →
    (cb_aes_ctr_encrypt RustCryptoBackend key iv q w s').1 = Err MechanismParamInvalid) ∧
  (∀ kek k, length kek = 16%nat →
    (∃ e, cb_aes_key_wrap RustCryptoBackend kek k true w s = (Err e, s)) ∧
    ∃ e, cb_generate_aes_key RustCryptoBackend 16 true w s = (Err e, s)).
Proof using AL.
  intros Hk Hi. split_and!; try done.
  - exists (cbc_encrypt key iv p), (cbc_encrypt key iv q). cbn.
    unfold lc_aes_cbc_encrypt, stateless. by rewrite Hi, Hk, !aws_cbc_encrypt_std.
  - exists (ctr_keystream key iv p), (ctr_keystream key iv q). cbn.
    unfold lc_aes_ctr_encrypt, aes_ctr_crypt_inner, stateless. by rewrite Hi, Hk, !aws_ctr_std.
  - intros c s'. apply rust_ctr_twice.
  - intros kek k Hl.
    change (cb_aes_key_wrap RustCryptoBackend kek k true w s) with (aes_key_wrap kek k true, s).
    unfold aes_key_wrap. rewrite Hl. split; [by case_match; eexists|by eexists].
Qed.

(** With AWS-LC the two parties of a key agreement derive the same bytes, for any
    length asked for: it hands out the shared secret itself. *)
Theorem awslc_ecdh_agrees cv a b ka kb pa pb len w s :
  aws_ec_from_private_key cv a = Some ka → aws_ec_from_private_key cv b = Some kb →
  aws_ec_public ka = Some pa → aws_ec_public kb = Some pb →
  cb_ecdh AwsLcBackend cv a pb len w s = cb_ecdh AwsLcBackend cv b pa len w s.
Proof using AL.
  intros Ha Hb Hpa Hpb. cbn. unfold lc_ecdh, stateless. rewrite Ha, Hb. cbn.
  by rewrite (aws_agree_std cv a b ka kb pa pb).
Qed.
End Interoperate.

(** ** Witnesses *)

#[local] Existing Instance toy_hash.
#[local] Existing Instance toy_ciphers.
#[local] Existing Instance toy_sign.

#[export] Instance toy_awslc : AwsLcPrimitives toy_sign := {|
  aws_RsaKeyPair := bytes;
  aws_rsa_from_pkcs8 der := match der with [] => None | _ => Some der end;
  aws_rsa_sign p h pair r data :=
    Some match p with
         | Pkcs1 => pkcs1_sign_message h pair data
         | Pss => pss_sign_message h pair r data
         end;
  aws_rsa_verify _ _ _ _ _ _ := true;
  aws_rsa_generate bits r := Some (bits :: r);
  aws_rsa_as_der pair := match pair with [] => None | _ => Some pair end;
  aws_rsa_public_der _ := rsa_public_key_der [200; 7] [1; 0; 1];
  aws_RsaEncryptingKey := bytes * bytes;
  aws_rsa_encrypting_key n e := Some (n, e);
  aws_oaep_encrypt _ _ r data := Some (r ++ data);
  aws_RsaDecryptingKey := bytes;
  aws_rsa_decrypting_key der := Some der;
  aws_oaep_decrypt _ _ data := Some data;
  aws_EcPrivate := bytes;
  aws_ec_from_private_key _ k := Some k;
  aws_ec_generate _ r := Some r;
  aws_ec_public k := Some (4 :: k);
  aws_ec_be_bytes k := Some k;
  aws_ec_agree k cv peer := Some (ec_dh cv k peer);
  aws_EcdsaKeyPair := bytes;
  aws_ecdsa_key_pair _ k _ := Some k;
  aws_ecdsa_sign k r data := Some (k ++ r ++ data);
  aws_ecdsa_verify _ _ _ _ := true;
  aws_Ed25519KeyPair := bytes;
  aws_ed_from_seed k := Some k;
  aws_ed_sign k data := k ++ data;
  aws_ed_public k := k;
  aws_ed_verify _ _ _ := true;
  aws_gcm_seal key nonce plain :=
    if Z.of_nat (length plain) <=? AES_GCM_MAX_PLAINTEXT then gcm_seal key nonce [] plain else None;
  aws_gcm_open key nonce cipher := gcm_open key nonce [] cipher;
  aws_cbc_encrypt key iv plain := Some (cbc_encrypt key iv plain);
  aws_cbc_decrypt := cbc_decrypt;
  aws_ctr_encrypt key iv data := Some (ctr_keystream key iv data);
  aws_kw_wrap := kw_wrap;
  aws_kw_unwrap := kw_unwrap;
  aws_digest := digest;
  aws_output_len := digest_len;
  ec_sign_digest_det _ k dg := Some (k ++ dg);
|}.

#[export] Instance toy_awslc_standards : AwsLcStandards toy_ciphers toy_sign toy_keys toy_awslc.
Proof.
  split; try done.
  - intros key nonce plain _ _ Hp. unfold aws_gcm_seal, toy_awslc.
    by rewrite (proj2 (Z.leb_le _ _)) by done.
  - intros key nonce plain cipher. unfold aws_gcm_seal, toy_awslc.
    by destruct (Z.leb_spec (Z.of_nat (length plain)) AES_GCM_MAX_PLAINTEXT).
  - intros der pair E. exists pair. by destruct der; simplify_eq/=.
  - intros bits r pair [= <-]. exists [200; 7], [1; 0; 1]. split; [done|].
    split; [by exists 200, [7]|]. split; [by exists 1, [0; 1]|]. split; [done|].
    by intros der [= <-].
  - intros cv a b ka kb pa pb [= <-] [= <-] [= <-] [= <-]. cbn. f_equal. f_equal. lia.
Qed.

Definition toy_draws : Draws := {|
  dw_rng := Ok [5]; dw_prefix := Ok [1; 2; 3; 4]; dw_fill n := Ok (replicate n 7);
  dw_fill2 n := Ok (replicate n 8); dw_system := [9];
|}.
Definition toy_backend_state : BackendState :=
  {| bs_cipher := CipherState_empty; bs_rsa := RsaCaches_empty |}.
Lemma toy_draws_ok : draws_ok toy_draws.
Proof. split; [intros n bs [= <-]; apply length_replicate|by intros p [= <-]]. Qed.
Lemma toy_prefixes_ok : prefixes_ok (bs_cipher toy_backend_state).
Proof. intros kid p. cbn. by rewrite lookup_empty. Qed.

(** AWS-LC encrypts and RustCrypto decrypts, and the other way round. *)
Definition demo_ctr_key : bytes := replicate 32 3.
Definition demo_ctr_iv : bytes := replicate 16 1.
Lemma backends_interoperate_witness :
  reads_back AwsLcBackend RustCryptoBackend rustcrypto_accepts toy_draws toy_draws
    toy_backend_state toy_backend_state ∧
  ∃ ct s', cb_aes_256_gcm_encrypt AwsLcBackend demo_ctr_key [1; 2; 3] toy_draws toy_backend_state =
    (Ok ct, s').
Proof.
  split; [|by eexists _, _].
  apply (backends_interoperate AwsLcBackend awslc_accepts RustCryptoBackend rustcrypto_accepts).
  - right. left.
  - left.
  - exact toy_draws_ok.
  - exact toy_prefixes_ok.
Defined.

Lemma demo_pair_generated :
  cb_generate_rsa_key_pair AwsLcBackend 2048 true toy_draws toy_backend_state =
    (Ok ([2048; 9], [200; 7], [1; 0; 1]), toy_backend_state).
Proof. reflexivity. Qed.
Lemma awslc_pair_verifies_witness :
  ∃ sig, cb_rsa_pkcs1v15_sign AwsLcBackend [2048; 9] [1; 2] (Some HSha256) toy_draws
      toy_backend_state = (Ok sig, toy_backend_state) ∧
    cb_rsa_pkcs1v15_verify AwsLcBackend [200; 7] [1; 0; 1] [1; 2] sig (Some HSha256) toy_draws
      toy_backend_state = (Ok true, toy_backend_state).
Proof.
  eexists. split; [reflexivity|].
  apply (proj1 (awslc_pair_verifies 2048 true toy_draws toy_backend_state [2048; 9] [200; 7]
    [1; 0; 1] toy_backend_state demo_pair_generated) [1; 2] HSha256 toy_draws toy_backend_state).
  reflexivity.
Defined.

Lemma awslc_skips_policies_witness :
  ∃ c d, cb_aes_ctr_encrypt AwsLcBackend demo_ctr_key (replicate 16 0) [1; 2] toy_draws
      toy_backend_state = (Ok c, toy_backend_state) ∧
    cb_aes_ctr_encrypt AwsLcBackend demo_ctr_key (replicate 16 0) [3; 4] toy_draws
      toy_backend_state = (Ok d, toy_backend_state).
Proof.
  destruct (awslc_skips_policies demo_ctr_key (replicate 16 0) [1; 2] [3; 4] toy_draws
    toy_backend_state) as (_ & H & _); [reflexivity|reflexivity|]. exact H.
Defined.

Lemma awslc_ecdh_agrees_witness :
  cb_ecdh AwsLcBackend Sign.P256 [3] [4; 5] (Some 1) toy_draws toy_backend_state =
  cb_ecdh AwsLcBackend Sign.P256 [5] [4; 3] (Some 1) toy_draws toy_backend_state.
Proof. by apply (awslc_ecdh_agrees (AP:=toy_awslc) Sign.P256 [3] [5] ([3] : @aws_EcPrivate _ toy_awslc) ([5] : @aws_EcPrivate _ toy_awslc) [4; 3] [4; 5]). Defined.
