(* ===== verification/SelfTest.v ===== *)
(** * Self-tests (src/crypto/self_test.rs, src/crypto/integrity.rs,
    src/crypto/conditional_test.rs)

    The power-on self-tests that [C_Initialize] runs before anything else: the
    integrity of the module's file, the known answers of digests, MACs and ciphers,
    the round trips with new keys and the health of the generators; and the
    conditional tests of one algorithm family before its first use, with the record
    of those that passed.  A test runs on the state of the ciphers and of the entropy
    monitor and draws its randomness from a sequence of outcomes. *)

From S2P Require Import Prelude StateError Pkcs11 TokenFiles AuditChain Hash EntropyHealth Drbg Mechanisms Encrypt Sign KeyCrypto Config Backend PinCrypto Handles SessionManager ObjectStore Abi.

(** [hmac] over the three digests of a signature. *)
Class MacPrimitives := { hmac : HashAlg → bytes → bytes → bytes }.

(** ** Integrity of the module (src/crypto/integrity.rs) *)

(** [hex_nibble]: [None] is a build that fails. *)
Definition hex_nibble (b : Z) : option Z :=
  if (48 <=? b) && (b <=? 57) then Some (b - 48)
  else if (97 <=? b) && (b <=? 102) then Some (b - 97 + 10)
  else if (65 <=? b) && (b <=? 70) then Some (b - 65 + 10)
  else None.
Fixpoint hex_key (hex : bytes) : option bytes :=
  match hex with
  | a :: b :: rest =>
    match hex_nibble a, hex_nibble b, hex_key rest with
    | Some x, Some y, Some key => Some (Z.lor (Z.shiftl x 4) y :: key)
    | _, _, _ => None
    end
  | [] => Some []
  | [_] => None
  end.
(** [INTEGRITY_PUBLIC_KEY] for the environment variable of the build. *)
Definition INTEGRITY_PUBLIC_KEY (env : option bytes) : option bytes :=
  match env with
  | Some hex => if (length hex =? 64)%nat then hex_key hex else None
  | None => Some (replicate 32 0)
  end.

Definition is_placeholder_key (key : bytes) : bool := forallb (λ b, b =? 0) key.

Definition DEV_BYPASS_VALUE : bytes := ascii_bytes "unsafe-dev-only".

(** What the check finds: the key of the build, the bypass variable, whether the
    path of the module is known, the [.sig] file with its text where it can be
    read, and the module's bytes. *)
Record IntegrityEnv := {
  ie_public_key : bytes;
  ie_bypass : option bytes;
  ie_module_known : bool;
  ie_sig_exists : bool;
  ie_sig_text : option bytes;
  ie_module : option bytes;
}.

Definition dev_bypass_requested (e : IntegrityEnv) : bool :=
  bool_decide (ie_bypass e = Some DEV_BYPASS_VALUE).

(** [to_lowercase] on text whose other letters make no hexadecimal digit. *)
Definition lower_byte (b : Z) : Z := if (65 <=? b) && (b <=? 90) then b + 32 else b.
Fixpoint text_of (bs : bytes) : string :=
  match bs with
  | [] => EmptyString
  | b :: bs => String (Ascii.ascii_of_nat (Z.to_nat b)) (text_of bs)
  end.

Section SelfTest.
Context {H : HashPrimitives} {CP : CipherPrimitives} {SP : SignPrimitives} {KP : KeyPrimitives SP}.
Context {MP : MacPrimitives} {X : HexCodec}.

(** The messages of the errors are left out. *)
Definition check_integrity (e : IntegrityEnv) : Result unit unit :=
  if is_placeholder_key (ie_public_key e) then
    if dev_bypass_requested e then Ok tt else Err tt
  else if negb (ie_module_known e) then Ok tt
  else if negb (ie_sig_exists e) then Err tt
  else
    let? text := ok_or (ie_sig_text e) tt in
    let sig_hex := lower_byte <$> trim text in
    if negb (length sig_hex =? 128)%nat then Err tt
    else
      let? module_bytes := ok_or (ie_module e) tt in
      let? sig_bytes := ok_or (hex_decode (text_of sig_hex)) tt in
      if negb (ed_verifying_key_parses (ie_public_key e)) then Err tt
      else if negb (length sig_bytes =? 64)%nat then Err tt
      else if ed_verify (ie_public_key e) (digest DSha256 module_bytes) sig_bytes then Ok tt
      else Err tt.

(** ** The state of a test *)

Record Bench := {
  bn_state : BackendState;
  bn_entropy : GlobalEntropy;
  bn_startup : bytes;
  bn_draws : nat → Draws;
  bn_next : nat;
}.
(** How a test ends early: with an error, with a panic, with the process, or with
    the model out of fuel. *)
Inductive Stop := Failed (e : HsmError) | Panicked | Aborted | NoFuel.
Abbreviation Test := (Run Bench Stop).

Definition draw : Test Draws := λ b,
  (Ok (bn_draws b (bn_next b)),
   {| bn_state := bn_state b; bn_entropy := bn_entropy b; bn_startup := bn_startup b;
      bn_draws := bn_draws b; bn_next := S (bn_next b) |}).
Definition set_state (s : BackendState) (b : Bench) : Bench :=
  {| bn_state := s; bn_entropy := bn_entropy b; bn_startup := bn_startup b;
     bn_draws := bn_draws b; bn_next := bn_next b |}.
Definition set_entropy (g : GlobalEntropy) (b : Bench) : Bench :=
  {| bn_state := bn_state b; bn_entropy := g; bn_startup := bn_startup b;
     bn_draws := bn_draws b; bn_next := bn_next b |}.

(** One operation of a backend, with the next draw. *)
Definition call {T} (op : Op T) : Test T :=
  do! w := draw in
  λ b, let '(r, s) := op w (bn_state b) in
       (match r with Ok v => Ok v | Err e => Err (Failed e) end, set_state s b).
Definition expect (good : bool) : Test unit := rwhen (negb good) (Failed GeneralError).

Definition drbg_new : Test HmacDrbg :=
  do! w := draw in
  λ b, match HmacDrbg_new (bn_startup b) (dw_system w) (bn_entropy b) with
       | RngAborts => (Err Aborted, b)
       | RngPanics => (Err Panicked, b)
       | Filled (Ok d, g) => (Ok d, set_entropy g b)
       | Filled (Err e, g) => (Err (Failed e), set_entropy g b)
       end.
Definition drbg_generate (n : nat) (d : HmacDrbg) : Test (bytes * HmacDrbg) :=
  do! w1 := draw in
  do! w2 := draw in
  λ b, match generate (bn_startup b) (dw_system w1) (dw_system w2) (replicate n 0) d (bn_entropy b) with
       | None => (Err NoFuel, b)
       | Some RngAborts => (Err Aborted, b)
       | Some RngPanics => (Err Panicked, b)
       | Some (Filled (Ok _, out, d, g)) => (Ok (out, d), set_entropy g b)
       | Some (Filled (Err e, _, _, g)) => (Err (Failed e), set_entropy g b)
       end.

(** ** Power-on self-tests (src/crypto/self_test.rs) *)

Definition known (result expected : bytes) : Test unit := expect (bool_decide (result = expected)).

Definition abc : bytes := ascii_bytes "abc".
Definition SHA256_ABC : bytes :=
  [0xba; 0x78; 0x16; 0xbf; 0x8f; 0x01; 0xcf; 0xea; 0x41; 0x41; 0x40; 0xde; 0x5d; 0xae; 0x22;
   0x23; 0xb0; 0x03; 0x61; 0xa3; 0x96; 0x17; 0x7a; 0x9c; 0xb4; 0x10; 0xff; 0x61; 0xf2; 0x00;
   0x15; 0xad].
Definition SHA384_ABC : bytes :=
  [0xcb; 0x00; 0x75; 0x3f; 0x45; 0xa3; 0x5e; 0x8b; 0xb5; 0xa0; 0x3d; 0x69; 0x9a; 0xc6; 0x50;
   0x07; 0x27; 0x2c; 0x32; 0xab; 0x0e; 0xde; 0xd1; 0x63; 0x1a; 0x8b; 0x60; 0x5a; 0x43; 0xff;
   0x5b; 0xed; 0x80; 0x86; 0x07; 0x2b; 0xa1; 0xe7; 0xcc; 0x23; 0x58; 0xba; 0xec; 0xa1; 0x34;
   0xc8; 0x25; 0xa7].
Definition SHA512_ABC : bytes :=
  [0xdd; 0xaf; 0x35; 0xa1; 0x93; 0x61; 0x7a; 0xba; 0xcc; 0x41; 0x73; 0x49; 0xae; 0x20; 0x41;
   0x31; 0x12; 0xe6; 0xfa; 0x4e; 0x89; 0xa9; 0x7e; 0xa2; 0x0a; 0x9e; 0xee; 0xe6; 0x4b; 0x55;
   0xd3; 0x9a; 0x21; 0x92; 0x99; 0x2a; 0x27; 0x4f; 0xc1; 0xa8; 0x36; 0xba; 0x3c; 0x23; 0xa3;
   0xfe; 0xeb; 0xbd; 0x45; 0x4d; 0x44; 0x23; 0x64; 0x3c; 0xe8; 0x0e; 0x2a; 0x9a; 0xc9; 0x4f;
   0xa5; 0x4c; 0xa4; 0x9f].
Definition SHA3_256_ABC : bytes :=
  [0x3a; 0x98; 0x5d; 0xa7; 0x4f; 0xe2; 0x25; 0xb2; 0x04; 0x5c; 0x17; 0x2d; 0x6b; 0xd3; 0x90;
   0xbd; 0x85; 0x5f; 0x08; 0x6e; 0x3e; 0x9d; 0x52; 0x5b; 0x46; 0xbf; 0xe2; 0x45; 0x11; 0x43;
   0x15; 0x32].
Definition post_sha256_kat : Test unit := known (digest DSha256 abc) SHA256_ABC.
Definition post_sha384_kat : Test unit := known (digest DSha384 abc) SHA384_ABC.
Definition post_sha512_kat : Test unit := known (digest DSha512 abc) SHA512_ABC.
Definition post_sha3_256_kat : Test unit := known (digest DSha3_256 abc) SHA3_256_ABC.

Definition jefe : bytes := ascii_bytes "Jefe".
Definition nothing : bytes := ascii_bytes "what do ya want for nothing?".
Definition HMAC_SHA256_JEFE : bytes :=
  [0x5b; 0xdc; 0xc1; 0x46; 0xbf; 0x60; 0x75; 0x4e; 0x6a; 0x04; 0x24; 0x26; 0x08; 0x95; 0x75;
   0xc7; 0x5a; 0x00; 0x3f; 0x08; 0x9d; 0x27; 0x39; 0x83; 0x9d; 0xec; 0x58; 0xb9; 0x64; 0xec;
   0x38; 0x43].
Definition HMAC_SHA384_JEFE : bytes :=
  [0xaf; 0x45; 0xd2; 0xe3; 0x76; 0x48; 0x40; 0x31; 0x61; 0x7f; 0x78; 0xd2; 0xb5; 0x8a; 0x6b;
   0x1b; 0x9c; 0x7e; 0xf4; 0x64; 0xf5; 0xa0; 0x1b; 0x47; 0xe4; 0x2e; 0xc3; 0x73; 0x63; 0x22;
   0x44; 0x5e; 0x8e; 0x22; 0x40; 0xca; 0x5e; 0x69; 0xe2; 0xc7; 0x8b; 0x32; 0x39; 0xec; 0xfa;
   0xb2; 0x16; 0x49].
Definition HMAC_SHA512_JEFE : bytes :=
  [0x16; 0x4b; 0x7a; 0x7b; 0xfc; 0xf8; 0x19; 0xe2; 0xe3; 0x95; 0xfb; 0xe7; 0x3b; 0x56; 0xe0;
   0xa3; 0x87; 0xbd; 0x64; 0x22; 0x2e; 0x83; 0x1f; 0xd6; 0x10; 0x27; 0x0c; 0xd7; 0xea; 0x25;
   0x05; 0x54; 0x97; 0x58; 0xbf; 0x75; 0xc0; 0x5a; 0x99; 0x4a; 0x6d; 0x03; 0x4f; 0x65; 0xf8;
   0xf0; 0xe6; 0xfd; 0xca; 0xea; 0xb1; 0xa3; 0x4d; 0x4a; 0x6b; 0x4b; 0x63; 0x6e; 0x07; 0x0a;
   0x38; 0xbc; 0xe7; 0x37].
Definition post_hmac_sha256_kat : Test unit := known (hmac HSha256 jefe nothing) HMAC_SHA256_JEFE.
Definition post_hmac_sha384_kat : Test unit := known (hmac HSha384 jefe nothing) HMAC_SHA384_JEFE.
Definition post_hmac_sha512_kat : Test unit := known (hmac HSha512 jefe nothing) HMAC_SHA512_JEFE.

(** The functions of the cipher, key and signature modules, under the names of the
    backend that forwards to them. *)
Abbreviation rc := RustCryptoBackend.

(** Encrypting [plaintext] and decrypting it again. *)
Definition post_aes_gcm_kat : Test unit :=
  let key := replicate 32 0x42 in
  let plaintext := ascii_bytes "FIPS POST AES-GCM self-test data" in
  do! ciphertext := call (cb_aes_256_gcm_encrypt rc key plaintext) in
  do! decrypted := call (cb_aes_256_gcm_decrypt rc key ciphertext) in
  do! _ := known decrypted plaintext in
  let kat_key := replicate 32 0 in
  let nonce := replicate 12 0 in
  do! ct := rlift Failed (ok_or (gcm_seal kat_key nonce [] []) GeneralError) in
  do! _ := expect ((length ct =? 16)%nat && negb (forallb (λ b, b =? 0) ct)) in
  do! dt := rlift Failed (ok_or (gcm_open kat_key nonce [] ct) GeneralError) in
  known dt [].

Definition CBC_EXPECTED : bytes :=
  [0xb9; 0xf9; 0x93; 0x5b; 0xe0; 0x5d; 0x47; 0x0d; 0xe9; 0x8c; 0x11; 0x92; 0x18; 0xe5; 0xa9;
   0xc8; 0xf7; 0x31; 0x6a; 0xd6; 0x6d; 0xee; 0x0a; 0xd7; 0x1b; 0x1c; 0xb2; 0x1d; 0xa0; 0x32;
   0x2d; 0x30].
Definition cbc_plaintext : bytes := ascii_bytes "FIPS POST AES-CBC test data!!!!".
Definition post_aes_cbc_kat : Test unit :=
  let key := replicate 32 0x55 in
  let iv := replicate 16 0xAA in
  do! ciphertext := call (cb_aes_cbc_encrypt rc key iv cbc_plaintext) in
  do! _ := known ciphertext CBC_EXPECTED in
  do! decrypted := call (cb_aes_cbc_decrypt rc key iv ciphertext) in
  known decrypted cbc_plaintext.

Definition CTR_EXPECTED : bytes :=
  [0xf4; 0x1e; 0x8e; 0x60; 0x27; 0xfe; 0xb9; 0xb4; 0x1b; 0x89; 0x9f; 0x12; 0x84; 0xde; 0x34;
   0x03; 0x8b; 0x0d; 0x0d; 0xd6; 0xd1; 0x6d; 0x98; 0x23; 0xd8; 0x5b; 0x56].
Definition ctr_plaintext : bytes := ascii_bytes "FIPS POST AES-CTR self-test".
Definition post_aes_ctr_kat : Test unit :=
  let key := replicate 32 0x77 in
  let iv := replicate 16 0xBB in
  do! ciphertext := call (cb_aes_ctr_encrypt rc key iv ctr_plaintext) in
  do! _ := known ciphertext CTR_EXPECTED in
  do! decrypted := call (cb_aes_ctr_decrypt rc key iv ciphertext) in
  known decrypted ctr_plaintext.

(** A signature with a new key, in one of the schemes. *)
Definition rsa_round_trip (B : CryptoBackend) (data : bytes) : Test unit :=
  do! pair := call (cb_generate_rsa_key_pair B 2048 false) in
  let '(der, modulus, pub_exp) := pair in
  do! signature := call (cb_rsa_pkcs1v15_sign B der data (Some HSha256)) in
  do! valid := call (cb_rsa_pkcs1v15_verify B modulus pub_exp data signature (Some HSha256)) in
  expect valid.
Definition ecdsa_round_trip (B : CryptoBackend) (cv : Curve) (data : bytes) : Test unit :=
  do! pair := call (cb_generate_ec_key_pair B cv) in
  do! signature := call (cb_ecdsa_sign B cv pair.1 data) in
  do! valid := call (cb_ecdsa_verify B cv pair.2 data signature) in
  expect valid.
Definition ml_dsa_round_trip (B : CryptoBackend) (v : MlDsaVariant) (data : bytes) : Test unit :=
  do! pair := call (cb_ml_dsa_keygen B v) in
  do! signature := call (cb_ml_dsa_sign B pair.1 data v) in
  do! valid := call (cb_ml_dsa_verify B pair.2 data signature v) in
  expect valid.
Definition ml_kem_round_trip (B : CryptoBackend) (v : MlKemVariant) : Test unit :=
  do! pair := call (cb_ml_kem_keygen B v) in
  do! encapsulated := call (cb_ml_kem_encapsulate B pair.2 v) in
  do! ss_dec := call (cb_ml_kem_decapsulate B pair.1 encapsulated.1 v) in
  known ss_dec encapsulated.2.

Definition post_rsa_pkcs1v15_kat : Test unit :=
  rsa_round_trip rc (ascii_bytes "FIPS POST RSA PKCS#1 v1.5 self-test").
Definition post_ecdsa_p256_kat : Test unit :=
  ecdsa_round_trip rc P256 (ascii_bytes "FIPS POST ECDSA self-test").
Definition post_ml_dsa_kat : Test unit :=
  ml_dsa_round_trip rc MlDsa44 (ascii_bytes "FIPS POST ML-DSA self-test").
Definition post_ml_kem_kat : Test unit := ml_kem_round_trip rc MlKem768.

(** Two fills of 256 bytes from the operating system. *)
Definition post_rng_health : Test unit :=
  do! w1 := draw in
  let buf1 := dw_system w1 in
  do! _ := expect (negb (forallb (λ b, b =? 0) buf1)) in
  do! _ := expect (negb (forallb (λ b, b =? hd 0 buf1) buf1)) in
  do! w2 := draw in
  expect (negb (bool_decide (buf1 = dw_system w2))).

Definition post_drbg_health : Test unit :=
  do! drbg := drbg_new in
  do! r1 := drbg_generate 32 drbg in
  do! _ := expect (negb (forallb (λ b, b =? 0) r1.1)) in
  do! r2 := drbg_generate 32 r1.2 in
  expect (negb (bool_decide (r1.1 = r2.1))).

Definition reset_trackers : Test unit :=
  rmod (λ b, set_state {| bs_cipher := reset_iv_trackers (reset_gcm_counters (bs_cipher (bn_state b)));
                          bs_rsa := bs_rsa (bn_state b) |} b).

Fixpoint in_order (tests : list (Test unit)) : Test unit :=
  match tests with
  | [] => rret tt
  | t :: tests => do! _ := t in in_order tests
  end.

Definition run_post (e : IntegrityEnv) : Test unit :=
  do! _ := reset_trackers in
  do! _ := rlift (λ _, Failed GeneralError) (check_integrity e) in
  in_order
    [post_sha256_kat; post_sha384_kat; post_sha512_kat; post_sha3_256_kat;
     post_hmac_sha256_kat; post_hmac_sha384_kat; post_hmac_sha512_kat;
     post_aes_gcm_kat; post_aes_cbc_kat; post_aes_ctr_kat;
     post_rsa_pkcs1v15_kat; post_ecdsa_p256_kat;
     post_ml_dsa_kat; post_ml_kem_kat;
     post_rng_health; post_drbg_health].

(** ** Conditional self-tests (src/crypto/conditional_test.rs) *)

Inductive AlgorithmFamily :=
| FSha256 | FSha384 | FSha512 | FSha3_256 | FSha3_384 | FSha3_512 | FSha1
| FHmacSha256 | FHmacSha384 | FHmacSha512
| FAesGcm | FAesCbc | FAesCtr
| FRsaPkcs1 | FRsaPss | FEcdsaP256 | FEcdsaP384 | FEd25519
| FRsaOaep | FAesKeyWrap | FEcdhP256 | FEcdhP384
| FMlDsa44 | FMlDsa65 | FMlDsa87 | FMlKem512 | FMlKem768 | FMlKem1024
| FSlhDsaSha2_128s | FSlhDsaSha2_256s | FHybridMlDsaEcdsa | FDrbg.
#[export] Instance AlgorithmFamily_eq_dec : EqDecision AlgorithmFamily.
Proof. solve_decision. Defined.

Section Kats.
Context (B : CryptoBackend).

Definition kat_digest (mechanism : Z) : Test unit :=
  let test_data := ascii_bytes "FIPS 140-3 conditional self-test" in
  do! d := call (cb_compute_digest B mechanism test_data) in
  do! _ := expect (negb (bool_decide (d = []))) in
  do! d2 := call (cb_compute_digest B mechanism test_data) in
  known d d2.
Definition kat_aes_gcm : Test unit :=
  let key := replicate 32 0x42 in
  let plaintext := ascii_bytes "CST AES-GCM test data" in
  do! ciphertext := call (cb_aes_256_gcm_encrypt B key plaintext) in
  do! decrypted := call (cb_aes_256_gcm_decrypt B key ciphertext) in
  known decrypted plaintext.
Definition kat_aes_cbc : Test unit :=
  let key := replicate 32 0x42 in
  let iv := replicate 16 0x01 in
  let plaintext := ascii_bytes "CST AES-CBC data" in
  do! ciphertext := call (cb_aes_cbc_encrypt B key iv plaintext) in
  do! decrypted := call (cb_aes_cbc_decrypt B key iv ciphertext) in
  known decrypted plaintext.
Definition kat_aes_ctr : Test unit :=
  let key := replicate 32 0x42 in
  let iv := replicate 16 0x02 in
  let plaintext := ascii_bytes "CST AES-CTR data" in
  do! ciphertext := call (cb_aes_ctr_encrypt B key iv plaintext) in
  do! decrypted := call (cb_aes_ctr_decrypt B key iv ciphertext) in
  known decrypted plaintext.
Definition kat_rsa : Test unit :=
  rsa_round_trip B (ascii_bytes "FIPS 140-3 RSA conditional self-test").
Definition kat_ecdsa_p256 : Test unit :=
  ecdsa_round_trip B P256 (ascii_bytes "FIPS 140-3 ECDSA P-256 CST").
Definition kat_ecdsa_p384 : Test unit :=
  ecdsa_round_trip B P384 (ascii_bytes "FIPS 140-3 ECDSA P-384 CST").
Definition kat_ed25519 : Test unit :=
  let test_data := ascii_bytes "FIPS 140-3 Ed25519 CST" in
  do! pair := call (cb_generate_ed25519_key_pair B) in
  do! signature := call (cb_ed25519_sign B pair.1 test_data) in
  do! valid := call (cb_ed25519_verify B pair.2 test_data signature) in
  expect valid.
Definition kat_aes_key_wrap : Test unit :=
  let wrapping_key := replicate 32 0x42 in
  let key_to_wrap := replicate 32 0x55 in
  do! wrapped := call (cb_aes_key_wrap B wrapping_key key_to_wrap false) in
  do! unwrapped := call (cb_aes_key_unwrap B wrapping_key wrapped false) in
  known unwrapped key_to_wrap.
Definition kat_ecdh (is_p384 : bool) : Test unit :=
  let cv := if is_p384 then P384 else P256 in
  do! a := call (cb_generate_ec_key_pair B cv) in
  do! b := call (cb_generate_ec_key_pair B cv) in
  do! ss_a := call (cb_ecdh B cv a.1 b.2 None) in
  do! ss_b := call (cb_ecdh B cv b.1 a.2 None) in
  known ss_a ss_b.
Definition kat_ml_dsa (v : MlDsaVariant) : Test unit :=
  ml_dsa_round_trip B v (ascii_bytes "FIPS 140-3 ML-DSA CST").
Definition kat_ml_kem (v : MlKemVariant) : Test unit := ml_kem_round_trip B v.
Definition kat_slh_dsa (v : SlhDsaVariant) : Test unit :=
  let test_data := ascii_bytes "FIPS 140-3 SLH-DSA CST" in
  do! pair := call (cb_slh_dsa_keygen B v) in
  do! signature := call (cb_slh_dsa_sign B pair.1 test_data v) in
  do! valid := call (cb_slh_dsa_verify B pair.2 test_data signature v) in
  expect valid.
(** The tag is computed twice; the digest is run once more. *)
Definition hmac_of (digest_mechanism : Z) (key data : bytes) : Test bytes :=
  if digest_mechanism =? CKM_SHA256 then rret (hmac HSha256 key data)
  else if digest_mechanism =? CKM_SHA384 then rret (hmac HSha384 key data)
  else if digest_mechanism =? CKM_SHA512 then rret (hmac HSha512 key data)
  else rfail (Failed MechanismInvalid).
Definition kat_hmac (digest_mechanism : Z) : Test unit :=
  let key := replicate 32 0x42 in
  let data := ascii_bytes "FIPS 140-3 HMAC conditional self-test" in
  do! tag := hmac_of digest_mechanism key data in
  do! _ := expect (negb (bool_decide (tag = []))) in
  do! tag2 := hmac_of digest_mechanism key data in
  do! _ := known tag tag2 in
  do! _ := call (cb_compute_digest B digest_mechanism data) in
  rret tt.
Definition kat_drbg : Test unit :=
  do! drbg := drbg_new in
  do! a := drbg_generate 32 drbg in
  do! b := drbg_generate 32 a.2 in
  expect (negb (bool_decide (a.1 = b.1))).

Definition run_kat (family : AlgorithmFamily) : Test unit :=
  match family with
  | FSha256 => kat_digest CKM_SHA256
  | FSha384 => kat_digest CKM_SHA384
  | FSha512 => kat_digest CKM_SHA512
  | FSha1 => kat_digest CKM_SHA_1
  | FSha3_256 => kat_digest CKM_SHA3_256
  | FSha3_384 => kat_digest CKM_SHA3_384
  | FSha3_512 => kat_digest CKM_SHA3_512
  | FAesGcm => kat_aes_gcm
  | FAesCbc => kat_aes_cbc
  | FAesCtr => kat_aes_ctr
  | FRsaPkcs1 | FRsaPss | FRsaOaep => kat_rsa
  | FEcdsaP256 => kat_ecdsa_p256
  | FEcdsaP384 => kat_ecdsa_p384
  | FEd25519 => kat_ed25519
  | FAesKeyWrap => kat_aes_key_wrap
  | FEcdhP256 => kat_ecdh false
  | FEcdhP384 => kat_ecdh true
  | FMlDsa44 => kat_ml_dsa MlDsa44
  | FMlDsa65 => kat_ml_dsa MlDsa65
  | FMlDsa87 => kat_ml_dsa MlDsa87
  | FMlKem512 => kat_ml_kem MlKem512
  | FMlKem768 => kat_ml_kem MlKem768
  | FMlKem1024 => kat_ml_kem MlKem1024
  | FSlhDsaSha2_128s => kat_slh_dsa Sha2_128s
  | FSlhDsaSha2_256s => kat_slh_dsa Sha2_256s
  | FHybridMlDsaEcdsa => do! _ := kat_ml_dsa MlDsa65 in kat_ecdsa_p256
  | FHmacSha256 => kat_hmac CKM_SHA256
  | FHmacSha384 => kat_hmac CKM_SHA384
  | FHmacSha512 => kat_hmac CKM_SHA512
  | FDrbg => kat_drbg
  end.

(** The families that passed, and whether a test failed. *)
Record ConditionalSelfTest := { cst_passed : list AlgorithmFamily; cst_error : bool }.
Definition ConditionalSelfTest_new : ConditionalSelfTest := {| cst_passed := []; cst_error := false |}.

(** [ensure_tested] by one thread at a time: the second look at the map and at the
    flag then finds what the first did. *)
Definition ensure_tested (family : AlgorithmFamily) : Run (ConditionalSelfTest * Bench) Stop unit :=
  λ '(t, b),
    if cst_error t then (Err (Failed GeneralError), (t, b))
    else if bool_decide (family ∈ cst_passed t) then (Ok tt, (t, b))
    else
      match run_kat family b with
      | (Ok _, b) => (Ok tt, ({| cst_passed := family :: cst_passed t; cst_error := false |}, b))
      | (Err (Failed e), b) => (Err (Failed e), ({| cst_passed := cst_passed t; cst_error := true |}, b))
      | (Err stop, b) => (Err stop, (t, b))
      end.
End Kats.

Definition is_p384_params (ec_params : option bytes) : bool :=
  match ec_params with
  | None => false
  | Some params =>
    (7 <=? length params)%nat && bool_decide (0x22 ∈ params) && bool_decide (0x04 ∈ params)
    && bool_decide (0x81 ∈ params)
  end.

Definition mechanism_to_family (mechanism : Z) (ec_params : option bytes) : option AlgorithmFamily :=
  let one_of l := bool_decide (mechanism ∈ l) in
  if one_of [CKM_SHA256; CKM_SHA256_RSA_PKCS; CKM_SHA256_RSA_PKCS_PSS; CKM_ECDSA_SHA256]
  then Some FSha256
  else if one_of [CKM_SHA384; CKM_SHA384_RSA_PKCS; CKM_SHA384_RSA_PKCS_PSS; CKM_ECDSA_SHA384]
  then Some FSha384
  else if one_of [CKM_SHA512; CKM_SHA512_RSA_PKCS; CKM_SHA512_RSA_PKCS_PSS; CKM_ECDSA_SHA512]
  then Some FSha512
  else if one_of [CKM_SHA_1] then Some FSha1
  else if one_of [CKM_SHA3_256] then Some FSha3_256
  else if one_of [CKM_SHA3_384] then Some FSha3_384
  else if one_of [CKM_SHA3_512] then Some FSha3_512
  else if one_of [CKM_AES_GCM] then Some FAesGcm
  else if one_of [CKM_AES_CBC; CKM_AES_CBC_PAD] then Some FAesCbc
  else if one_of [CKM_AES_CTR] then Some FAesCtr
  else if one_of [CKM_RSA_PKCS] then Some FRsaPkcs1
  else if one_of [CKM_RSA_PKCS_PSS] then Some FRsaPss
  else if one_of [CKM_RSA_PKCS_OAEP] then Some FRsaOaep
  else if one_of [CKM_ECDSA] then Some (if is_p384_params ec_params then FEcdsaP384 else FEcdsaP256)
  else if one_of [CKM_EDDSA] then Some FEd25519
  else if one_of [CKM_AES_KEY_WRAP; CKM_AES_KEY_WRAP_KWP] then Some FAesKeyWrap
  else if one_of [CKM_ECDH1_DERIVE] then Some (if is_p384_params ec_params then FEcdhP384 else FEcdhP256)
  else if one_of [CKM_ML_DSA_44] then Some FMlDsa44
  else if one_of [CKM_ML_DSA_65] then Some FMlDsa65
  else if one_of [CKM_ML_DSA_87] then Some FMlDsa87
  else if one_of [CKM_ML_KEM_512] then Some FMlKem512
  else if one_of [CKM_ML_KEM_768] then Some FMlKem768
  else if one_of [CKM_ML_KEM_1024] then Some FMlKem1024
  else if one_of [CKM_SLH_DSA_SHA2_128S] then Some FSlhDsaSha2_128s
  else if one_of [CKM_SLH_DSA_SHA2_256S] then Some FSlhDsaSha2_256s
  else if one_of [CKM_HYBRID_ML_DSA_ECDSA] then Some FHybridMlDsaEcdsa
  else None.
End SelfTest.

(** ** [C_Initialize] with its self-tests *)

Section Initialize.
Context {P : PinPrimitives} {X : HexCodec} {H : HashPrimitives} {AC : AuditCodec}.
Context {CP : CipherPrimitives} {SP : SignPrimitives} {KP : KeyPrimitives SP} {MP : MacPrimitives}.
Context {A B : Type}.

(** The bench of a library whose process-wide cipher state is [ciphers]. *)
Definition bench_with (ciphers : CipherState) (b : Bench) : Bench :=
  set_state {| bs_cipher := ciphers; bs_rsa := bs_rsa (bn_state b) |} b.

(** A test that fails sets the error flag; one that panics is caught by the
    interface, with no core and the flag as [C_Initialize] reset it; one that aborts
    ends the process. *)
Definition initialize (pid : Z) (e : IntegrityEnv) (b : Bench) (core : option (HsmCore A B))
    (l : Library A B) : option (Z * Library A B) :=
  match lib_hsm l with
  | Some _ => Some (C_Initialize pid (λ c, (true, c)) core l)
  | None =>
    let '(r, b') := run_post e (bench_with (reset_gcm_counters (lib_cipher l)) b) in
    let ciphers := bs_cipher (bn_state b') in
    match r with
    | Ok _ => Some (C_Initialize pid (λ _, (true, ciphers)) core l)
    | Err (Failed _) => Some (C_Initialize pid (λ _, (false, ciphers)) core l)
    | Err Panicked => Some (C_Initialize pid (λ _, (true, ciphers)) None l)
    | Err Aborted | Err NoFuel => None
    end
  end.
End Initialize.
