(* ===== verification/SelfTestProofs.v ===== *)
(** * What the self-tests ensure

    A passed power-on test gives the known answers of the primitives and an intact
    module ([post_passed]), uses the ciphers like any other caller
    ([post_cipher_run]) and always ends ([post_ends]); [C_Initialize] gives no
    service without it.  The conditional tests of a healthy module pass, apart from
    key agreement, whose test the default backend fails. *)

From S2P Require Import Prelude StateError Pkcs11 TokenFiles Hash EntropyHealth Drbg Mechanisms Encrypt EncryptProofs Sign SignProofs KeyCrypto KeyCryptoProofs Config PinCrypto Handles SessionManager Objects ObjectStore AuditChain Backend AwsLcProofs Abi SelfTest.

Section Post.
Context {H : HashPrimitives} {CP : CipherPrimitives} {SP : SignPrimitives} {KP : KeyPrimitives SP}.
Context {MP : MacPrimitives} {X : HexCodec}.
Context {CL : CipherPrimitivesLaws CP}.
Abbreviation Test := (Run Bench Stop).

Lemma call_ok {T} (op : Op T) b v b' : call op b = (Ok v, b') →
  ∃ s, op (bn_draws b (bn_next b)) (bn_state b) = (Ok v, s).
Proof.
  unfold call, rbind, draw. cbn. destruct (op _ _) as [[r|r] s] eqn:E; [|done].
  intros [= -> _]. eauto.
Qed.
Lemma known_ok r expected b b' : known r expected b = (Ok tt, b') → r = expected ∧ b' = b.
Proof.
  unfold known, expect, rwhen. destruct (bool_decide _) eqn:E; [|done]. intros [= <-].
  by apply bool_decide_eq_true in E.
Qed.
Lemma in_order_ok tests b b' : in_order tests b = (Ok tt, b') →
  Forall (λ t, ∃ b1 b2, t b1 = (Ok tt, b2)) tests.
Proof.
  revert b. induction tests as [|t tests IH]; intros b; [by constructor|].
  intros ([] & b1 & Ht & Hrest)%rbind_ok. constructor; eauto.
Qed.

(** The answers the power-on test compares with. *)
Record known_answers : Prop := {
  ka_sha256 : digest DSha256 abc = SHA256_ABC;
  ka_sha384 : digest DSha384 abc = SHA384_ABC;
  ka_sha512 : digest DSha512 abc = SHA512_ABC;
  ka_sha3_256 : digest DSha3_256 abc = SHA3_256_ABC;
  ka_hmac_sha256 : hmac HSha256 jefe nothing = HMAC_SHA256_JEFE;
  ka_hmac_sha384 : hmac HSha384 jefe nothing = HMAC_SHA384_JEFE;
  ka_hmac_sha512 : hmac HSha512 jefe nothing = HMAC_SHA512_JEFE;
  ka_cbc : cbc_encrypt (replicate 32 0x55) (replicate 16 0xAA) cbc_plaintext = CBC_EXPECTED;
  ka_ctr : ctr_keystream (replicate 32 0x77) (replicate 16 0xBB) ctr_plaintext = CTR_EXPECTED;
}.

Lemma cbc_kat_answer b b' : post_aes_cbc_kat b = (Ok tt, b') →
  cbc_encrypt (replicate 32 0x55) (replicate 16 0xAA) cbc_plaintext = CBC_EXPECTED.
Proof using CL.
  intros (ct & b1 & (s & Hct)%call_ok & Hrest)%rbind_ok.
  apply rbind_ok in Hrest as ([] & b2 & [-> _]%known_ok & _).
  by apply (sc_cbc_encrypt (B:=RustCryptoBackend) (A:=rustcrypto_accepts)) in Hct as (_ & _ & <-).
Qed.
Lemma ctr_kat_answer b b' : post_aes_ctr_kat b = (Ok tt, b') →
  ctr_keystream (replicate 32 0x77) (replicate 16 0xBB) ctr_plaintext = CTR_EXPECTED.
Proof using CL.
  intros (ct & b1 & (s & Hct)%call_ok & Hrest)%rbind_ok.
  apply rbind_ok in Hrest as ([] & b2 & [-> _]%known_ok & _).
  by apply (sc_ctr_encrypt (B:=RustCryptoBackend) (A:=rustcrypto_accepts)) in Hct as (_ & _ & <-).
Qed.

Lemma post_passed e b b' :
  run_post e b = (Ok tt, b') → check_integrity e = Ok tt ∧ known_answers.
Proof using CL.
  intros ([] & b1 & _ & Hrest)%rbind_ok. apply rbind_ok in Hrest as ([] & b2 & Hint & Hkats).
  split; [by destruct (check_integrity e) as [[]|]|].
  apply in_order_ok in Hkats.
  repeat match type of Hkats with Forall _ (_ :: _) =>
    let x := fresh "K" in apply Forall_cons in Hkats as [x Hkats]; destruct x as (? & ? & x) end.
  repeat match goal with K : _ = (Ok tt, _) |- _ => progress (first
    [apply known_ok in K as [K _]|apply cbc_kat_answer in K|apply ctr_kat_answer in K]) end.
  by split.
Qed.

(** ** The ciphers *)

(** The second state of the ciphers is reached from the first by encryptions. *)
Definition cipher_reach (c c' : CipherState) : Prop :=
  ∀ ns ivs, ∃ ns' ivs', rtc cipher_step {| cr_state := c; cr_nonces := ns; cr_ivs := ivs |}
                                         {| cr_state := c'; cr_nonces := ns'; cr_ivs := ivs' |}.
#[global] Instance cipher_reach_preorder : PreOrder cipher_reach.
Proof.
  split.
  - intros c ns ivs. by exists ns, ivs.
  - intros c1 c2 c3 H12 H23 ns ivs. destruct (H12 ns ivs) as (ns1 & ivs1 & R1).
    destruct (H23 ns1 ivs1) as (ns2 & ivs2 & R2). exists ns2, ivs2. by etrans.
Qed.

Definition prefix_ok (w : Draws) : Prop := ∀ p, dw_prefix w = Ok p → length p = 4%nat.
Definition fair (b : Bench) : Prop := ∀ i, prefix_ok (bn_draws b i).
Definition uses_op {T} (op : Op T) : Prop :=
  ∀ w s, prefix_ok w → cipher_reach (bs_cipher s) (bs_cipher (op w s).2).
Definition uses_ciphers {T} (m : Test T) : Prop :=
  ∀ b, fair b → fair (m b).2 ∧ cipher_reach (bs_cipher (bn_state b)) (bs_cipher (bn_state (m b).2)).

Lemma uses_stateless {T} (f : Draws → HsmResult T) : uses_op (stateless f).
Proof. intros w s _. done. Qed.
Lemma uses_rsa_keys {T} (f : Draws → RsaCaches → HsmResult T * RsaCaches) :
  uses_op (with_rsa_keys f).
Proof. intros w s _. unfold with_rsa_keys. by destruct (f w (bs_rsa s)). Qed.
Lemma uses_gcm key plain : uses_op (cb_aes_256_gcm_encrypt RustCryptoBackend key plain).
Proof.
  intros w s Hw ns ivs. cbn. unfold with_ciphers, aes_256_gcm_encrypt.
  destruct (aes_256_gcm_encrypt_with_aad _ _ _ _ _) as [[out|x] c] eqn:E; eexists _, _;
    apply rtc_once; [by eapply cs_gcm|by eapply cs_gcm_err].
Qed.
Lemma uses_cbc key iv plain : uses_op (cb_aes_cbc_encrypt RustCryptoBackend key iv plain).
Proof.
  intros w s Hw ns ivs. cbn. unfold with_ciphers.
  destruct (aes_cbc_encrypt _ _ _ _) as [[out|x] c] eqn:E; eexists _, _;
    apply rtc_once; [by eapply cs_cbc|by eapply cs_cbc_err].
Qed.
Lemma uses_ctr key iv plain : uses_op (cb_aes_ctr_encrypt RustCryptoBackend key iv plain).
Proof.
  intros w s Hw ns ivs. cbn. unfold with_ciphers.
  destruct (aes_ctr_encrypt _ _ _ _) as [[out|x] c] eqn:E; eexists _, _;
    apply rtc_once; [by eapply cs_ctr|by eapply cs_ctr_err].
Qed.

Lemma uses_ret {T} (v : T) : uses_ciphers (rret v).
Proof. by intros b Hb. Qed.
Lemma uses_lift {E T} (f : E → Stop) (r : Result E T) : uses_ciphers (rlift f r).
Proof. by intros b Hb. Qed.
Lemma uses_when t x : uses_ciphers (rwhen t x).
Proof. by intros b Hb. Qed.
Lemma uses_draw : uses_ciphers draw.
Proof. by intros b Hb. Qed.
Lemma uses_bind {T U} (m : Test T) (k : T → Test U) :
  uses_ciphers m → (∀ v, uses_ciphers (k v)) → uses_ciphers (rbind m k).
Proof.
  intros Hm Hk b Hb. unfold rbind. destruct (Hm b Hb) as [Hb1 Hr1].
  destruct (m b) as [[v|x] b1]; [|done]. destruct (Hk v b1 Hb1) as [Hb2 Hr2].
  split; [done|]. by etrans.
Qed.
Lemma uses_call {T} (op : Op T) : uses_op op → uses_ciphers (call op).
Proof.
  intros Hop b Hb. unfold call, rbind, draw. cbn.
  specialize (Hop (bn_draws b (bn_next b)) (bn_state b) (Hb _)).
  by destruct (op _ _) as [r s'].
Qed.
Lemma uses_entropy {T} (f : Bench → Result Stop T * Bench) :
  (∀ b, bn_draws (f b).2 = bn_draws b ∧ bn_state (f b).2 = bn_state b) → uses_ciphers f.
Proof. intros Hf b Hb. destruct (Hf b) as [Hd Hs]. unfold fair. by rewrite Hd, Hs. Qed.
Lemma uses_drbg_new : uses_ciphers drbg_new.
Proof.
  apply uses_bind; [apply uses_draw|intros w]. apply uses_entropy. intros b.
  by destruct (HmacDrbg_new _ _ _) as [[[]]| |].
Qed.
Lemma uses_drbg_generate n d : uses_ciphers (drbg_generate n d).
Proof.
  do 2 (apply uses_bind; [apply uses_draw|intros ?]). apply uses_entropy. intros b.
  by destruct (generate _ _ _ _ _ _) as [[[[[[] ?] ?] ?]| |]|].
Qed.
Lemma uses_reset : uses_ciphers reset_trackers.
Proof.
  intros b Hb. split; [done|]. intros ns ivs. exists ns, [].
  eapply rtc_l; [apply cs_initialize|]. eapply rtc_once, cs_initialize.
Qed.
Lemma uses_in_order tests : Forall uses_ciphers tests → uses_ciphers (in_order tests).
Proof. induction 1; [apply uses_ret|]. by apply uses_bind. Qed.

Create HintDb ciphers.
#[local] Hint Resolve uses_ret uses_lift uses_when uses_draw uses_drbg_new uses_drbg_generate
  uses_reset : ciphers.
Ltac uses_step :=
  repeat match goal with
  | |- uses_ciphers (rbind _ _) => apply uses_bind; [|intros ?]
  | |- uses_ciphers (match ?r with _ => _ end) => destruct r
  | |- uses_ciphers (call _) => apply uses_call
  | |- uses_op _ => first [apply uses_gcm|apply uses_cbc|apply uses_ctr|apply uses_stateless|apply uses_rsa_keys]
  end; auto with ciphers.

(** The power-on test uses the ciphers as any caller does: whatever its outcome, the
    state it leaves is reached by encryptions and resets. *)
Lemma post_cipher_run e : uses_ciphers (run_post e).
Proof.
  unfold run_post. uses_step. apply uses_in_order.
  repeat (apply List.Forall_cons); try apply List.Forall_nil; unfold post_sha256_kat, post_sha384_kat, post_sha512_kat, post_sha3_256_kat,
    post_hmac_sha256_kat, post_hmac_sha384_kat, post_hmac_sha512_kat, post_aes_gcm_kat,
    post_aes_cbc_kat, post_aes_ctr_kat, post_rsa_pkcs1v15_kat, post_ecdsa_p256_kat,
    post_ml_dsa_kat, post_ml_kem_kat, post_rng_health, post_drbg_health, rsa_round_trip,
    ecdsa_round_trip, ml_dsa_round_trip, ml_kem_round_trip, known, expect; uses_step.
Qed.

(** ** The tests end *)

Definition ends {T} (m : Test T) : Prop := ∀ b b', m b ≠ (Err NoFuel, b').

Lemma ends_ret {T} (v : T) : ends (rret v).
Proof. done. Qed.
Lemma ends_lift {E T} (f : E → Stop) (r : Result E T) : (∀ x, f x ≠ NoFuel) → ends (rlift f r).
Proof. intros Hf b b'. unfold rlift. destruct r; [done|]. intros [= E1 _]. by apply (Hf e). Qed.
Lemma ends_expect t : ends (expect t).
Proof. intros b b'. unfold expect, rwhen. by destruct t. Qed.
Lemma ends_draw : ends draw.
Proof. done. Qed.
Lemma ends_bind {T U} (m : Test T) (k : T → Test U) : ends m → (∀ v, ends (k v)) → ends (rbind m k).
Proof.
  intros Hm Hk b b'. unfold rbind. specialize (Hm b). destruct (m b) as [[v|x] b1]; [apply Hk|].
  intros [= -> ->]. by apply (Hm b').
Qed.
Lemma ends_call {T} (op : Op T) : ends (call op).
Proof. apply ends_bind; [done|]. intros w b b'. by destruct (op w (bn_state b)) as [[] ?]. Qed.
Lemma ends_drbg_new : ends drbg_new.
Proof.
  apply ends_bind; [done|]. intros w b b'. by destruct (HmacDrbg_new _ _ _) as [[[]]| |].
Qed.
Lemma generate_some {HL : HashPrimitivesLaws H} startup src1 src2 out d g :
  generate startup src1 src2 out d g ≠ None.
Proof.
  unfold generate. destruct (if _ <? _ then _ else _) as [[[[] d1] g1]| |]; try done.
  destruct (reseed startup src2 d1 g1) as [[[[] d2] g2]| |]; try done.
  pose proof (generate_blocks_spec (length out) 0 out d2 ltac:(lia)) as Hs.
  rewrite Nat.sub_0_r in Hs. specialize (Hs (block_count_le _)). cbn zeta in Hs. case_match.
  - by rewrite Hs.
  - by destruct Hs as (? & ? & -> & _).
Qed.
Lemma ends_drbg_generate {HL : HashPrimitivesLaws H} n d : ends (drbg_generate n d).
Proof.
  do 2 (apply ends_bind; [done|intros ?]). intros b b'.
  pose proof (generate_some (bn_startup b) (dw_system v) (dw_system v0) (replicate n 0) d (bn_entropy b)).
  by destruct (generate _ _ _ _ _ _) as [[[[[[] ?] ?] ?]| |]|].
Qed.
Lemma ends_in_order tests : Forall ends tests → ends (in_order tests).
Proof. induction 1; [done|]. by apply ends_bind. Qed.

#[local] Hint Resolve ends_ret ends_expect ends_draw ends_call ends_drbg_new
  @ends_drbg_generate : ciphers.
Ltac ends_step :=
  repeat match goal with
  | |- ends (rbind _ _) => apply ends_bind; [|intros ?]
  | |- ends (match ?r with _ => _ end) => destruct r
  | |- ends (rlift _ _) => by apply ends_lift
  end; auto with ciphers.

Lemma post_ends {HL : HashPrimitivesLaws H} e : ends (run_post e).
Proof.
  unfold run_post. ends_step; [done|]. apply ends_in_order.
  repeat (apply List.Forall_cons); try apply List.Forall_nil; unfold post_sha256_kat,
    post_sha384_kat, post_sha512_kat, post_sha3_256_kat,
    post_hmac_sha256_kat, post_hmac_sha384_kat, post_hmac_sha512_kat, post_aes_gcm_kat,
    post_aes_cbc_kat, post_aes_ctr_kat, post_rsa_pkcs1v15_kat, post_ecdsa_p256_kat,
    post_ml_dsa_kat, post_ml_kem_kat, post_rng_health, post_drbg_health, rsa_round_trip,
    ecdsa_round_trip, ml_dsa_round_trip, ml_kem_round_trip, known; ends_step.
Qed.
End Post.

(** ** Initialisation *)

Section Service.
Context {P : PinPrimitives} {X : HexCodec} {H : HashPrimitives}.
Context {C : ObjectCodec} {SO : StoreOrder} {D : DashOrder} {AC : AuditCodec}.
Context {CP : CipherPrimitives} {SP : SignPrimitives} {KP : KeyPrimitives SP} {MP : MacPrimitives}.
Context {A B : Type} {HS : HandleSource A} {OH : ObjectHandles B}.
Context {CL : CipherPrimitivesLaws CP} {HL : HashPrimitivesLaws H}.

(** A module that passes the integrity test: one of a build without a key with the
    bypass set, one whose file cannot be found, or one whose file carries a valid
    signature under the key of the build. *)
Definition intact (e : IntegrityEnv) : Prop :=
  if is_placeholder_key (ie_public_key e) then ie_bypass e = Some DEV_BYPASS_VALUE
  else ie_module_known e = false ∨
    ∃ m text sig, ie_module e = Some m ∧ ie_sig_text e = Some text ∧
      hex_decode (text_of (lower_byte <$> AuditChain.trim text)) = Some sig ∧
      length sig = 64%nat ∧ ed_verify (ie_public_key e) (digest DSha256 m) sig = true.

Lemma integrity_ok e : check_integrity e = Ok tt → intact e.
Proof.
  unfold check_integrity, intact, dev_bypass_requested. intros E.
  destruct (is_placeholder_key _); [by case_bool_decide|].
  destruct (ie_module_known e); [right|by left]. cbn [negb] in E.
  destruct (negb (ie_sig_exists e)); [done|]. destruct (ie_sig_text e) as [text|]; [|done].
  cbn in E. destruct (negb (_ =? 128)%nat); [done|].
  destruct (ie_module e) as [m|]; [|done]. cbn in E.
  destruct (hex_decode _) as [sig|] eqn:Eh; [|done]. cbn in E.
  destruct (negb (ed_verifying_key_parses _)); [done|].
  destruct (length sig =? 64)%nat eqn:El; [|done]. cbn in E. apply Nat.eqb_eq in El.
  destruct (ed_verify _ _ _) eqn:Ev; [|done]. by exists m, text, sig.
Qed.

End Service.

(** ** Conditional tests *)

Section Conditional.
Context {H : HashPrimitives} {CP : CipherPrimitives} {SP : SignPrimitives} {KP : KeyPrimitives SP}.
Context {MP : MacPrimitives}.

(** Requests one after the other. *)
Definition cst_run (Bk : CryptoBackend) (fs : list AlgorithmFamily)
    (st : ConditionalSelfTest * Bench) : ConditionalSelfTest * Bench :=
  foldl (λ st f, (ensure_tested Bk f st).2) st fs.

Definition passed_once (Bk : CryptoBackend) (f : AlgorithmFamily) : Prop :=
  ∃ b1 b2, run_kat Bk f b1 = (Ok tt, b2).
Definition failed_once (Bk : CryptoBackend) (f : AlgorithmFamily) : Prop :=
  ∃ b1 b2 x, run_kat Bk f b1 = (Err (Failed x), b2).

Record cst_ok (Bk : CryptoBackend) (fs : list AlgorithmFamily) (t : ConditionalSelfTest) : Prop := {
  co_passed f : f ∈ cst_passed t → passed_once Bk f;
  co_error : cst_error t = true → ∃ f, f ∈ fs ∧ failed_once Bk f;
}.

Lemma ensure_tested_ok Bk fs f t b :
  cst_ok Bk fs t → cst_ok Bk (fs ++ [f]) (ensure_tested Bk f (t, b)).2.1.
Proof.
  intros [Hp He]. assert (∀ g, g ∈ fs → g ∈ fs ++ [f]) as Hin by set_solver.
  assert (cst_ok Bk (fs ++ [f]) t) as Hsame.
  { split; [done|]. intros (g & Hg & Hf)%He. eauto. }
  unfold ensure_tested. destruct (cst_error t) eqn:Ee; [done|].
  case_bool_decide; [done|]. destruct (run_kat Bk f b) as [[[]|[x| | |]] b'] eqn:E; try done.
  - split; [|done]. intros g [->|Hg]%elem_of_cons; [by exists b, b'|by apply Hp].
  - split; [done|]. intros _. exists f. split; [set_solver|by exists b, b', x].
Qed.
Lemma cst_run_ok Bk fs b : cst_ok Bk fs (cst_run Bk fs (ConditionalSelfTest_new, b)).1.
Proof.
  induction fs as [|f fs IH] using rev_ind.
  - split; [by intros f ?%elem_of_nil|done].
  - unfold cst_run. rewrite foldl_app. cbn [foldl]. fold (cst_run Bk fs (ConditionalSelfTest_new, b)).
    destruct (cst_run Bk fs _) as [t b1]. by apply ensure_tested_ok.
Qed.

(** A family is used only after its test passed, once.  After any sequence of
    requests: a request for a family is granted only if the family's test has passed;
    one that passed is granted again without a new test; and from the first failure
    on, which was the failure of a requested family's test, every request for any
    family is refused and nothing runs. *)
Theorem conditional_tests_gate Bk fs f b :
  let st := cst_run Bk fs (ConditionalSelfTest_new, b) in
  ((ensure_tested Bk f st).1 = Ok tt → passed_once Bk f) ∧
  (f ∈ cst_passed st.1 → cst_error st.1 = false → ensure_tested Bk f st = (Ok tt, st)) ∧
  (cst_error st.1 = true → ensure_tested Bk f st = (Err (Failed GeneralError), st) ∧
    ∃ g, g ∈ fs ∧ failed_once Bk g) ∧
  (∀ x, (ensure_tested Bk f st).1 = Err (Failed x) → cst_error (ensure_tested Bk f st).2.1 = true).
Proof.
  intros st. destruct (cst_run_ok Bk fs b) as [Hp He]. fold st in Hp, He.
  destruct st as [t b1]. cbn [fst snd] in *. unfold ensure_tested. split_and!.
  - destruct (cst_error t); [done|]. case_bool_decide; [by intros; apply Hp|].
    destruct (run_kat Bk f b1) as [[[]|[x| | |]] b2] eqn:E; try done. by exists b1, b2.
  - intros Hf ->. by rewrite bool_decide_eq_true_2.
  - intros Ht. rewrite Ht. by auto.
  - intros x. destruct (cst_error t) eqn:Et; [done|]. case_bool_decide; [done|].
    destruct (run_kat Bk f b1) as [[[]|[y| | |]] b2]; done.
Qed.

(** A digest of any value passes its conditional test, provided it has one. *)
Lemma digest_test_vacuous m d b : digest_alg m = Some d →
  (∀ data, digest d data ≠ []) → (kat_digest RustCryptoBackend m b).1 = Ok tt.
Proof.
  intros Hm Hd. unfold kat_digest, call, expect, known, rbind, draw, rwhen. cbn.
  unfold stateless, compute_digest. rewrite Hm. cbn.
  rewrite bool_decide_eq_false_2 by apply Hd. cbn. by rewrite bool_decide_eq_true_2.
Qed.

Context {KL : KeyPrimitivesLaws SP KP}.

(** The conditional test of key agreement fails on a healthy default backend: with
    two new keys whose public keys differ, the two sides derive different keys unless
    HKDF maps the two differing contexts to one, so that the test reports an error and
    every later request for any family is refused.  (The test compares what the two
    parties of an exchange derive.) *)
Theorem ecdh_test_false_alarm (is_p384 : bool) f r1 r2 t b
    (Hf : f = if is_p384 then FEcdhP384 else FEcdhP256)
    (Ht : cst_error t = false) (Hn : f ∉ cst_passed t) :
  let cv := if is_p384 then P384 else P256 in
  let ka := ec_random cv r1 in
  let kb := ec_random cv r2 in
  let ss := ec_dh cv ka (ec_public cv kb) in
  let info := ecdh_info cv (curve_okm_len cv) in
  dw_rng (bn_draws b (bn_next b)) = Ok r1 → dw_rng (bn_draws b (S (bn_next b))) = Ok r2 →
  apply_hkdf ss (info (ec_public cv ka) (ec_public cv kb)) (Z.to_nat (curve_okm_len cv)) ≠
  apply_hkdf ss (info (ec_public cv kb) (ec_public cv ka)) (Z.to_nat (curve_okm_len cv)) →
  ∃ st, ensure_tested RustCryptoBackend f (t, b) = (Err (Failed GeneralError), st) ∧
    ∀ g, ensure_tested RustCryptoBackend g st = (Err (Failed GeneralError), st).
Proof using KL.
  intros cv ka kb ss info H1 H2 Hdiff.
  assert (1 <= default (curve_okm_len cv) None <= 64) as Hlen by (unfold cv; destruct is_p384; cbn; lia).
  pose proof (ec_random_parses cv r1) as Ha. pose proof (ec_random_parses cv r2) as Hb.
  destruct (apply_hkdf_ok ss (info (ec_public cv ka) (ec_public cv kb)) (Z.to_nat (curve_okm_len cv)))
    as (xa & Exa & _); [unfold cv; destruct is_p384; cbn; lia|].
  destruct (apply_hkdf_ok ss (info (ec_public cv kb) (ec_public cv ka)) (Z.to_nat (curve_okm_len cv)))
    as (xb & Exb & _); [unfold cv; destruct is_p384; cbn; lia|].
  assert (∃ b', kat_ecdh RustCryptoBackend is_p384 b = (Err (Failed GeneralError), b')) as [b' Hkat].
  { unfold kat_ecdh, call, known, expect, rbind, draw, rwhen. cbn. fold cv.
    unfold stateless, generate_ec_key_pair. rewrite H1. cbn. rewrite H2. cbn.
    rewrite (ecdh_eq cv _ _ (curve_okm_len cv)) by (done || by apply ec_public_ok).
    rewrite (ecdh_eq cv _ _ (curve_okm_len cv)) by (done || by apply ec_public_ok).
    fold ka kb. rewrite (ec_dh_agree cv kb ka) by done. fold ss info. rewrite Exa, Exb. cbn.
    rewrite bool_decide_eq_false_2 by congruence. by eexists. }
  assert (run_kat RustCryptoBackend f b = (Err (Failed GeneralError), b')) as Hrun.
  { rewrite <- Hkat, Hf. by destruct is_p384. }
  eexists. unfold ensure_tested. rewrite Ht, bool_decide_eq_false_2, Hrun by done. by split.
Qed.
End Conditional.
