(* ===== verification/SelfTestDemo.v ===== *)
(** * A module that passes its self-tests

    Primitives with the known answers, a library that is initialised with them, and
    the witnesses of the theorems on the self-tests. *)

From S2P Require Import Prelude StateError Pkcs11 TokenFiles TokenDemo Hash EntropyHealth Drbg Mechanisms Encrypt EncryptProofs Sign SignProofs KeyCrypto KeyCryptoProofs Config PinCrypto Handles Session SessionManager SessionProofs Objects ObjectStore ObjectStoreProofs AuditChain AuditProofs Backup Backend AwsLcProofs Abi AbiDemo SelfTest SelfTestProofs.

Section SelfTestDemo.
#[local] Existing Instance toy_primitives.
#[local] Existing Instance text_hex.
#[local] Existing Instance toy_hash.
#[local] Existing Instance toy_codec.
#[local] Existing Instance toy_store_order.
#[local] Existing Instance toy_order.
#[local] Existing Instance toy_audit_codec.

(** The toy primitives, corrected at the inputs of the known answers. *)
Definition kat_digest_fn (d : DigestAlg) (data : bytes) : bytes :=
  if bool_decide (data = abc) then
    match d with
    | DSha256 => SHA256_ABC | DSha384 => SHA384_ABC | DSha512 => SHA512_ABC
    | DSha3_256 => SHA3_256_ABC | _ => toy_digest d data
    end
  else toy_digest d data.
#[local] Instance kat_sign : SignPrimitives :=
  match toy_sign with
  | Build_SignPrimitives _ T1 T2 a1 a2 a3 a4 a5 a6 a7 a8 a9 a10 a11 a12 a13 a14 a15 a16 a17 a18
      a19 a20 a21 a22 a23 a24 a25 a26 a27 a28 a29 a30 a31 a32 a33 a34 =>
    Build_SignPrimitives kat_digest_fn T1 T2 a1 a2 a3 a4 a5 a6 a7 a8 a9 a10 a11 a12 a13 a14 a15
      a16 a17 a18 a19 a20 a21 a22 a23 a24 a25 a26 a27 a28 a29 a30 a31 a32 a33 a34
  end.
#[local] Instance kat_macs : MacPrimitives := {|
  hmac h _ _ :=
    match h with
    | HSha256 => HMAC_SHA256_JEFE | HSha384 => HMAC_SHA384_JEFE | HSha512 => HMAC_SHA512_JEFE
    end |}.

Definition kat_cbc_encrypt (plain : bytes) : bytes :=
  if bool_decide (plain = cbc_plaintext) then CBC_EXPECTED else 0 :: plain.
Definition kat_cbc_decrypt (cipher : bytes) : option bytes :=
  if bool_decide (cipher = CBC_EXPECTED) then Some cbc_plaintext
  else match cipher with 0 :: plain => Some plain | _ => None end.
Definition kat_ctr (data : bytes) : bytes :=
  if bool_decide (data = ctr_plaintext) then CTR_EXPECTED
  else if bool_decide (data = CTR_EXPECTED) then ctr_plaintext else data.
#[local] Instance kat_ciphers : CipherPrimitives := {|
  gcm_seal _ _ _ plain := Some (plain ++ replicate TAG_LEN 1);
  gcm_open _ _ _ data :=
    if (length data <? TAG_LEN)%nat then None else Some (take (length data - TAG_LEN) data);
  cbc_encrypt _ _ plain := kat_cbc_encrypt plain;
  cbc_decrypt _ _ cipher := kat_cbc_decrypt cipher;
  ctr_keystream _ _ data := kat_ctr data;
|}.

Lemma kat_ctr_twice data : kat_ctr (kat_ctr data) = data ∧ length (kat_ctr data) = length data.
Proof.
  unfold kat_ctr. destruct (decide (data = ctr_plaintext)) as [->|H1]; [done|].
  rewrite (bool_decide_eq_false_2 (data = ctr_plaintext)) by done.
  destruct (decide (data = CTR_EXPECTED)) as [->|H2]; [done|].
  rewrite (bool_decide_eq_false_2 (data = CTR_EXPECTED)) by done.
  by rewrite !bool_decide_eq_false_2.
Qed.
#[local] Instance kat_ciphers_laws : CipherPrimitivesLaws kat_ciphers.
Proof.
  split; cbn [gcm_seal gcm_open cbc_encrypt cbc_decrypt ctr_keystream kat_ciphers].
  - intros _ _ _ plain cipher <-%(inj Some). rewrite length_app, length_replicate.
    rewrite (proj2 (Nat.ltb_ge _ _)) by lia. by rewrite Nat.add_sub, take_app_length.
  - intros _ _ _ plain cipher <-%(inj Some). by rewrite length_app, length_replicate.
  - intros _ _ plain. unfold kat_cbc_encrypt, kat_cbc_decrypt.
    destruct (decide (plain = cbc_plaintext)) as [->|H1]; [done|].
    by rewrite (bool_decide_eq_false_2 (plain = cbc_plaintext)), bool_decide_eq_false_2 by done.
  - intros _ _ data. apply kat_ctr_twice.
  - intros _ _ data. apply kat_ctr_twice.
  - intros _ _ _ plain cipher. destruct (Nat.ltb_spec (length cipher) TAG_LEN); [done|].
    intros [= <-]. rewrite length_take. unfold TAG_LEN in *. lia.
  - intros _ _ plain. unfold kat_cbc_encrypt.
    destruct (decide (plain = cbc_plaintext)) as [->|H1]; [vm_compute; lia|].
    rewrite bool_decide_eq_false_2 by done. cbn. lia.
  - intros _ _ plain cipher. unfold kat_cbc_decrypt.
    destruct (decide (cipher = CBC_EXPECTED)) as [->|H1].
    + rewrite bool_decide_eq_true_2 by done. intros [= <-]. vm_compute. lia.
    + rewrite bool_decide_eq_false_2 by done. destruct cipher as [|[] cipher]; try done.
      intros [= ->]. cbn. lia.
Qed.

#[local] Instance kat_keys : KeyPrimitives kat_sign :=
  match toy_keys with
  | Build_KeyPrimitives _ a1 a2 a3 a4 a5 a6 a7 a8 a9 a10 a11 a12 a13 a14 a15 a16 a17 a18 a19 a20
      a21 a22 a23 a24 a25 a26 =>
    Build_KeyPrimitives kat_sign a1 a2 a3 a4 a5 a6 a7 a8 a9 a10 a11 a12 a13 a14 a15 a16 a17 a18
      a19 a20 a21 a22 a23 a24 a25 a26
  end.

(** A signed module: a real key, and a signature file of 128 digits with a newline. *)
Definition kat_env : IntegrityEnv := {|
  ie_public_key := replicate 32 7; ie_bypass := None; ie_module_known := true;
  ie_sig_exists := true; ie_sig_text := Some (replicate 128 65 ++ [10]);
  ie_module := Some [127; 69; 76; 70];
|}.
Definition kat_draws (i : nat) : Draws := {|
  dw_rng := Ok [Z.of_nat i]; dw_prefix := Ok [1; 2; 3; 4]; dw_fill n := Ok (replicate n 7);
  dw_fill2 n := Ok (replicate n 8);
  dw_system := (λ k, (Z.of_nat (i * 37 + k * 11) mod 256)) <$> seq 0 48;
|}.
Definition kat_bench : Bench := {|
  bn_state := {| bs_cipher := CipherState_empty; bs_rsa := RsaCaches_empty |};
  bn_entropy := GlobalEntropy_new; bn_startup := demo_startup; bn_draws := kat_draws; bn_next := 0;
|}.
Lemma kat_fair : fair kat_bench.
Proof. by intros i p [= <-]. Qed.
Definition kat_library : Library SessionHandleAllocator ObjectHandleAllocator :=
  {| lib_hsm := None; lib_post_failed := true; lib_init_pid := 0; lib_cipher := CipherState_empty |}.

Definition kat_post := run_post kat_env (bench_with (reset_gcm_counters (lib_cipher kat_library)) kat_bench).
Lemma kat_post_ok : kat_post.1 = Ok tt.
Proof. vm_compute. reflexivity. Qed.
Lemma kat_post_eq :
  run_post kat_env (bench_with (reset_gcm_counters (lib_cipher kat_library)) kat_bench) = (Ok tt, kat_post.2).
Proof. rewrite <- kat_post_ok. unfold kat_post. by destruct (run_post _ _). Qed.
Lemma kat_initialized :
  ∃ l', initialize 7 kat_env kat_bench (Some demo_core) kat_library = Some (CKR_OK, l').
Proof.
  unfold initialize. change (lib_hsm kat_library) with (@None DemoCore).
  rewrite kat_post_eq. by eexists.
Qed.

End SelfTestDemo.

(** Two new keys with the toy primitives. *)
Section EcdhDemo.
#[local] Existing Instance toy_hash.
#[local] Existing Instance toy_ciphers.
#[local] Existing Instance toy_sign.
#[local] Existing Instance kat_macs.

Definition ecdh_bench : Bench := {|
  bn_state := {| bs_cipher := CipherState_empty; bs_rsa := RsaCaches_empty |};
  bn_entropy := GlobalEntropy_new; bn_startup := demo_startup; bn_draws := kat_draws; bn_next := 0;
|}.
Lemma ecdh_test_false_alarm_witness :
  ∃ st, ensure_tested RustCryptoBackend FEcdhP384 (ConditionalSelfTest_new, ecdh_bench) =
      (Err (Failed GeneralError), st) ∧
    ∀ g, ensure_tested RustCryptoBackend g st = (Err (Failed GeneralError), st).
Proof.
  apply (ecdh_test_false_alarm true FEcdhP384 [0] [1] ConditionalSelfTest_new ecdh_bench).
  - reflexivity.
  - reflexivity.
  - apply not_elem_of_nil.
  - reflexivity.
  - reflexivity.
  - vm_compute. congruence.
Defined.
End EcdhDemo.
