(* ===== verification/AuditExport.v ===== *)
(** * Reading and exporting the audit log (src/audit/log.rs)

    The pages of the log and its three exports: JSON, one object per line, and syslog
    lines in the format of RFC 5424 with their timestamps in RFC 3339.  Text is a list
    of code points.  The timestamps are exact for every 64-bit time, and a reader of
    the structured data recovers the fields of the event whatever they contain. *)

From S2P Require Import Prelude Pkcs11 Hash Dates AuditChain Config.

(** ** Pages *)

(** [entries\[start..\]] of the last [n] entries. *)
Definition get_recent_entries (n : Z) (entries : list AuditEvent) : list AuditEvent :=
  let start := Z.max 0 (Z.of_nat (length entries) - n) in
  drop (Z.to_nat start) entries.

(** [entries\[offset..end\]], where [offset + limit] wraps around: a range whose end is
    before its start panics. *)
Definition get_entries_paginated (offset limit : Z) (entries : list AuditEvent) :
    MayPanic (list AuditEvent) :=
  let len := Z.of_nat (length entries) in
  let stop := Z.min (wrap 64 (offset + limit)) len in
  if len <=? offset then Returns []
  else if stop <? offset then Panicked
  else Returns (take (Z.to_nat (stop - offset)) (drop (Z.to_nat offset) entries)).

(** ** Timestamps *)

Definition days_to_ymd (days : Z) : Z * Z * Z :=
  let z := days + 719468 in
  let era := z / 146097 in
  let doe := z - era * 146097 in
  let yoe := (doe - doe / 1460 + doe / 36524 - doe / 146096) / 365 in
  let y := yoe + era * 400 in
  let doy := doe - (365 * yoe + yoe / 4 - yoe / 100) in
  let mp := (5 * doy + 2) / 153 in
  let d := doy - (153 * mp + 2) / 5 + 1 in
  let m := if mp <? 10 then mp + 3 else mp - 9 in
  let y := if m <=? 2 then y + 1 else y in
  (y, m, d).

(** [n] in decimal with at least [w] digits; the fuel is the number of digits of a
    64-bit number. *)
Fixpoint dec_digits (fuel : nat) (n : Z) : list Z :=
  match fuel with
  | O => []
  | S fuel => if n <? 10 then [48 + n] else dec_digits fuel (n / 10) ++ [48 + n mod 10]
  end.
Definition dec (n : Z) : list Z := dec_digits 20 n.
Definition dec_pad (w : nat) (n : Z) : list Z :=
  let ds := dec n in replicate (w - length ds) 48 ++ ds.

Definition format_rfc3339 (nanos : Z) : list Z :=
  let secs := nanos / 1000000000 in
  let subsec := nanos mod 1000000000 in
  let days := secs / 86400 in
  let time_of_day := secs mod 86400 in
  let hours := time_of_day / 3600 in
  let minutes := time_of_day mod 3600 / 60 in
  let seconds := time_of_day mod 60 in
  let '(year, month, day) := days_to_ymd days in
  dec_pad 4 year ++ [45] ++ dec_pad 2 month ++ [45] ++ dec_pad 2 day ++ [84] ++
  dec_pad 2 hours ++ [58] ++ dec_pad 2 minutes ++ [58] ++ dec_pad 2 seconds ++ [46] ++
  dec_pad 6 (subsec / 1000) ++ [90].

(** ** Fields *)

(** The characters a quotation mark, a backslash and a closing bracket. *)
Definition needs_escape (c : Z) : bool := bool_decide (c ∈ [34; 92; 93]).
Definition escape_sd_value (s : list Z) : list Z :=
  concat ((λ c, if needs_escape c then [92; c] else [c]) <$> s).

Definition sanitize_syslog_msg_value (s : list Z) : list Z :=
  List.filter (λ c, negb (is_control c) && negb (c =? 60) && negb (c =? 62)) s.

Definition format_operation_name (op : AuditOperation) : list Z :=
  ascii_bytes match op with
  | AInitialize => "Initialize"
  | AFinalize => "Finalize"
  | AOpenSession _ => "OpenSession"
  | ACloseSession => "CloseSession"
  | ALogin _ => "Login"
  | ALogout => "Logout"
  | AInitToken _ => "InitToken"
  | AInitPIN _ => "InitPIN"
  | ASetPIN => "SetPIN"
  | AGenerateKey _ _ _ => "GenerateKey"
  | AGenerateKeyPair _ _ _ => "GenerateKeyPair"
  | ASign _ _ => "Sign"
  | AVerify _ _ => "Verify"
  | AEncrypt _ _ => "Encrypt"
  | ADecrypt _ _ => "Decrypt"
  | ADigest _ _ => "Digest"
  | ACreateObject => "CreateObject"
  | ADestroyObject => "DestroyObject"
  | AGenerateRandom _ => "GenerateRandom"
  | AWrapKey _ _ => "WrapKey"
  | AUnwrapKey _ _ => "UnwrapKey"
  | ADeriveKey _ _ => "DeriveKey"
  | AFindObjects _ => "FindObjects"
  | AGetAttributeValue => "GetAttributeValue"
  | AZeroize _ => "Zeroize"
  end%string.

(** [{:08X}]. *)
Definition hex_upper (d : Z) : Z := if d <? 10 then 48 + d else 55 + d.
Fixpoint hex_digits_upper (fuel : nat) (n : Z) : list Z :=
  match fuel with
  | O => []
  | S fuel => if n <? 16 then [hex_upper n] else hex_digits_upper fuel (n / 16) ++ [hex_upper (n mod 16)]
  end.
Definition hex8 (n : Z) : list Z :=
  let ds := hex_digits_upper 16 n in replicate (8 - length ds) 48 ++ ds.

Definition result_text (r : AuditResult) : list Z :=
  match r with
  | Success => ascii_bytes "SUCCESS"
  | Failure rv => ascii_bytes "FAILURE(0x" ++ hex8 rv ++ ascii_bytes ")"
  end.
Definition key_text (key_id : option (list Z)) : list Z := default (ascii_bytes "-") key_id.

Definition syslog_priority (r : AuditResult) : Z :=
  10 * 8 + match r with Success => 6 | Failure _ => 4 end.

Definition quoted (name : string) (value : list Z) : list Z :=
  ascii_bytes name ++ [61; 34] ++ value ++ [34].

Definition structured_data (e : AuditEventPayload) : list Z :=
  ascii_bytes "[hsm@0 " ++ quoted "session" (dec (ae_session_handle e)) ++ [32] ++
  quoted "op" (escape_sd_value (format_operation_name (ae_operation e))) ++ [32] ++
  quoted "result" (escape_sd_value (result_text (ae_result e))) ++ [32] ++
  quoted "key" (escape_sd_value (key_text (ae_key_id e))) ++ [93].

Definition syslog_message (e : AuditEventPayload) : list Z :=
  ascii_bytes "session=" ++ dec (ae_session_handle e) ++
  ascii_bytes " op=" ++ sanitize_syslog_msg_value (format_operation_name (ae_operation e)) ++
  ascii_bytes " result=" ++ sanitize_syslog_msg_value (result_text (ae_result e)) ++
  ascii_bytes " key=" ++ sanitize_syslog_msg_value (key_text (ae_key_id e)).

Definition syslog_line (e : AuditEventPayload) : list Z :=
  [60] ++ dec (syslog_priority (ae_result e)) ++ ascii_bytes ">1 " ++ format_rfc3339 (ae_timestamp e) ++
  ascii_bytes " craton_hsm craton_hsm - - " ++ structured_data e ++ [32] ++ syslog_message e.

Definition export_syslog (entries : list AuditEvent) : list (list Z) :=
  (syslog_line ∘ ae_payload) <$> entries.

(** One object per line; an event that does not serialise leaves a line of its own. *)
Section Ndjson.
Context {C : AuditCodec}.

Definition ndjson_line (e : AuditEvent) : bytes :=
  match event_to_string e with
  | Some l => l
  | None =>
    [123; 34] ++ ascii_bytes "error" ++ [34; 58; 34] ++ ascii_bytes "serialization_failed" ++
    [34; 44; 34] ++ ascii_bytes "session_handle" ++ [34; 58] ++ dec (ae_session_handle (ae_payload e)) ++
    [44; 34] ++ ascii_bytes "timestamp" ++ [34; 58] ++ dec (ae_timestamp (ae_payload e)) ++ [125]
  end.
Fixpoint join_lines (ls : list bytes) : bytes :=
  match ls with
  | [] => []
  | [l] => l
  | l :: ls => l ++ [NEWLINE] ++ join_lines ls
  end.
Definition export_ndjson (entries : list AuditEvent) : bytes := join_lines (ndjson_line <$> entries).
End Ndjson.
