(* ===== verification/AuditExportProofs.v ===== *)
(** * What the exports of the audit log ensure

    The calendar arithmetic inverts the reference calendar of [Dates]; a timestamp is
    written so that it can be read back and sorts as text; the structured data of a
    syslog line is read back field by field; the pages of the log, one after the other,
    are the log. *)

From S2P Require Import Prelude Pkcs11 Hash Dates AuditChain Config AuditExport.

(** ** The calendar *)

(** The first day of year [y] of an era of 400 years, which begin in March, and the
    day after its last. *)
Definition year_start (y : Z) : Z := 365 * y + y / 4 - y / 100.
Definition year_stop (y : Z) : Z := if y =? 399 then 146097 else year_start (y + 1).
Definition day_scale (doe : Z) : Z := doe - doe / 1460 + doe / 36524 - doe / 146096.

Lemma day_scale_mono n m : 0 <= n <= m → day_scale n <= day_scale m.
Proof. intros H. unfold day_scale. Z.to_euclidean_division_equations. lia. Qed.

Definition year_ok (y : Z) : bool :=
  (365 * y <=? day_scale (year_start y)) && (day_scale (year_stop y - 1) <? 365 * (y + 1)).
Lemma years_ok : forallb (λ k, year_ok (Z.of_nat k)) (seq 0 400) = true.
Proof. vm_compute. reflexivity. Qed.
Lemma year_scale y : 0 <= y < 400 →
  365 * y <= day_scale (year_start y) ∧ day_scale (year_stop y - 1) < 365 * (y + 1).
Proof.
  intros Hy. pose proof years_ok as Hall. rewrite forallb_forall in Hall.
  specialize (Hall (Z.to_nat y)). rewrite Z2Nat.id in Hall by lia.
  assert (year_ok y = true) as Hok by (apply Hall, in_seq; lia).
  unfold year_ok in Hok. bool_to_prop. lia.
Qed.

Lemma year_of_era doe : 0 <= doe < 146097 →
  let yoe := day_scale doe / 365 in 0 <= yoe < 400 ∧ year_start yoe <= doe < year_stop yoe.
Proof.
  intros Hd yoe. assert (0 <= day_scale doe < 146000) as Hs.
  { pose proof (day_scale_mono 0 doe ltac:(lia)). pose proof (day_scale_mono doe 146096 ltac:(lia)).
    change (day_scale 0) with 0 in *. change (day_scale 146096) with 145999 in *. lia. }
  assert (0 <= yoe < 400) as Hy.
  { unfold yoe. split; [apply Z.div_pos; lia|apply Z.div_lt_upper_bound; lia]. }
  pose proof (Z.mul_div_le (day_scale doe) 365 ltac:(lia)) as Hlo.
  pose proof (Z.mul_succ_div_gt (day_scale doe) 365 ltac:(lia)) as Hhi. fold yoe in Hlo, Hhi.
  split; [done|]. split.
  - destruct (Z.le_gt_cases (year_start yoe) doe) as [|Hlt]; [done|]. exfalso.
    destruct (decide (yoe = 0)) as [E|E]; [rewrite E in Hlt; change (year_start 0) with 0 in Hlt; lia|].
    destruct (year_scale (yoe - 1) ltac:(lia)) as [_ Hprev].
    assert (year_stop (yoe - 1) = year_start yoe) as Hstop.
    { unfold year_stop. rewrite (proj2 (Z.eqb_neq _ _)) by lia. f_equal. lia. }
    pose proof (day_scale_mono doe (year_start yoe - 1) ltac:(lia)). rewrite Hstop in Hprev. lia.
  - destruct (Z.lt_ge_cases doe (year_stop yoe)) as [|Hge]; [done|]. exfalso.
    unfold year_stop in Hge. destruct (Z.eqb_spec yoe 399); [lia|].
    destruct (year_scale (yoe + 1) ltac:(lia)) as [Hnext _].
    assert (0 <= year_start (yoe + 1)) by (unfold year_start; Z.to_euclidean_division_equations; lia).
    pose proof (day_scale_mono (year_start (yoe + 1)) doe ltac:(lia)). lia.
Qed.

(** Days from the start of a March year, without the year's leap day, to month and day. *)
Definition month_start (mp : Z) : Z := (153 * mp + 2) / 5.

Definition month_row_ok (mp : Z) : bool :=
  let m := if mp <? 10 then mp + 3 else mp - 9 in
  nth (Z.to_nat m) CUMULATIVE_DAYS 0 =? month_start mp + (if mp <? 10 then 59 else -306).
Lemma month_table mp : 0 <= mp <= 11 →
  nth (Z.to_nat (if mp <? 10 then mp + 3 else mp - 9)) CUMULATIVE_DAYS 0 =
    month_start mp + (if mp <? 10 then 59 else -306).
Proof.
  intros Hmp. assert (forallb (λ k, month_row_ok (Z.of_nat k)) (seq 0 12) = true) as Hall by reflexivity.
  rewrite forallb_forall in Hall. specialize (Hall (Z.to_nat mp)). rewrite Z2Nat.id in Hall by lia.
  apply Z.eqb_eq, Hall, in_seq. lia.
Qed.

(** The date of a day of the year that starts in March of year [y]. *)
Lemma march_days y mp d :
  1969 <= y → 0 <= mp <= 11 → 1 <= d →
  let m := if mp <? 10 then mp + 3 else mp - 9 in
  let y' := if m <=? 2 then y + 1 else y in
  1970 <= y' →
  days_since_epoch y' m d =
    365 * y + y / 4 - y / 100 + y / 400 + month_start mp + d - 1 - 719468.
Proof.
  intros Hy Hmp Hd m y' Hy'.
  assert (1 <= m <= 12) as Hm by (unfold m; destruct (Z.ltb_spec mp 10); lia).
  enough (epoch_of_fields y' m d =
    86400 * (365 * y + y / 4 - y / 100 + y / 400 + month_start mp + d - 1 - 719468)) as Hepoch.
  { rewrite epoch_of_fields_days in Hepoch by done. lia. }
  assert (leap_years_before (y + 1) = y / 4 - y / 100 + y / 400) as Hl.
  { unfold leap_years_before. rewrite (proj2 (Z.eqb_neq _ _)) by lia.
    by replace (y + 1 - 1) with y by lia. }
  pose proof (leap_years_step y ltac:(lia)) as Hs. rewrite Hl in Hs.
  pose proof (month_table mp Hmp) as Ht. fold m in Ht.
  unfold epoch_of_fields. change (leap_years_before 1970) with 477. unfold y'.
  destruct (Z.ltb_spec mp 10) as [Hlt|Hge].
  - rewrite (proj2 (Z.leb_gt m 2)), (proj2 (Z.ltb_lt 2 m)) by (unfold m; lia). cbn [andb].
    destruct (is_leap_year y); cbn [Z.b2z] in Hs; lia.
  - rewrite (proj2 (Z.leb_le m 2)), (proj2 (Z.ltb_ge 2 m)) by (unfold m; lia). cbn [andb].
    rewrite Hl. lia.
Qed.

(** The months of a March year but its last, February, have their usual lengths. *)
Lemma month_lengths y mp : 0 <= mp <= 10 →
  month_start (mp + 1) - month_start mp <=
    month_length y (if mp <? 10 then mp + 3 else mp - 9).
Proof.
  intros Hmp.
  assert (mp = 0 ∨ mp = 1 ∨ mp = 2 ∨ mp = 3 ∨ mp = 4 ∨ mp = 5 ∨ mp = 6 ∨ mp = 7 ∨ mp = 8 ∨
    mp = 9 ∨ mp = 10) as Hc by lia.
  repeat (destruct Hc as [->|Hc]); [..|subst mp]; vm_compute; congruence.
Qed.

(** The year after a March year of 366 days is a leap year. *)
Lemma leap_after yoe era : 0 <= yoe < 400 → year_start yoe + 365 < year_stop yoe →
  is_leap_year (yoe + era * 400 + 1) = true.
Proof.
  intros Hy Hl. unfold year_stop, year_start, is_leap_year in *. apply orb_true_iff.
  destruct (Z.eqb_spec yoe 399) as [->|Hn].
  - right. apply Z.eqb_eq. replace (399 + era * 400 + 1) with ((era + 1) * 400) by lia.
    apply Z.mod_mul. lia.
  - left. apply andb_true_iff. split; [apply Z.eqb_eq|apply negb_true_iff, Z.eqb_neq];
      Z.to_euclidean_division_equations; lia.
Qed.

Lemma day_of_year yoe doe : year_start yoe <= doe < year_stop yoe → 0 <= doe - year_start yoe <= 365.
Proof.
  intros Hin. split; [lia|]. unfold year_stop, year_start in *.
  destruct (Z.eqb_spec yoe 399) as [E|]; [|Z.to_euclidean_division_equations; lia].
  rewrite E in *. change (399 / 4) with 99. change (399 / 100) with 3. lia.
Qed.
(** A day from 1 January 1970 on is in a March year from 1969 on, and in January or
    February if it is that one. *)
Lemma year_from_1970 era yoe doy : 4 <= era → 0 <= yoe < 400 → 0 <= doy <= 365 →
  719468 <= 146097 * era + year_start yoe + doy →
  1969 <= yoe + era * 400 ∧ (doy <= 305 → 1970 <= yoe + era * 400).
Proof. intros He Hy Hd. unfold year_start. Z.to_euclidean_division_equations. lia. Qed.

Lemma days_to_ymd_date days : 0 <= days →
  let '(y, m, d) := days_to_ymd days in
  1970 <= y ∧ 1 <= m <= 12 ∧ 1 <= d <= month_length y m ∧ days_since_epoch y m d = days.
Proof.
  intros Hdays. unfold days_to_ymd. set (z := days + 719468). set (era := z / 146097).
  set (doe := z - era * 146097). fold (day_scale doe).
  assert (0 <= doe < 146097) as Hdoe.
  { unfold doe, era. pose proof (Z.div_mod z 146097). pose proof (Z.mod_pos_bound z 146097). lia. }
  assert (4 <= era) as Hera by (unfold era; apply Z.div_le_lower_bound; unfold z; lia).
  pose proof (year_of_era doe Hdoe) as Hyear. cbn zeta in Hyear.
  set (yoe := day_scale doe / 365) in *. destruct Hyear as [Hyoe Hin]. fold (year_start yoe).
  set (doy := doe - year_start yoe).
  assert (0 <= doy <= 365) as Hdoy by (by apply day_of_year).
  set (mp := (5 * doy + 2) / 153).
  assert (0 <= mp <= 11 ∧ 153 * mp <= 5 * doy + 2 < 153 * mp + 153) as [Hmp Hdm].
  { unfold mp. Z.to_euclidean_division_equations. lia. }
  fold (month_start mp). set (d := doy - month_start mp + 1).
  assert (1 <= d) as Hd by (unfold d, month_start; Z.to_euclidean_division_equations; lia).
  set (m := if mp <? 10 then mp + 3 else mp - 9). set (Y := yoe + era * 400).
  set (y := if m <=? 2 then Y + 1 else Y).
  assert (1 <= m <= 12) as Hm by (unfold m; destruct (Z.ltb_spec mp 10); lia).
  assert (z = 146097 * era + year_start yoe + doy) as Hz by (unfold doy, doe; lia).
  assert (1970 <= y) as Hy.
  { destruct (year_from_1970 era yoe doy) as [H1 H2]; [done..|unfold z in Hz; lia|].
    unfold y, Y. destruct (Z.leb_spec m 2) as [|Hm2]; [lia|]. apply H2.
    unfold m in Hm2. destruct (Z.ltb_spec mp 10); lia. }
  split; [done|]. split; [done|]. split; [split; [done|]|].
  - destruct (decide (mp = 11)) as [E11|].
    + assert (m = 2) as Hm2 by (unfold m; destruct (Z.ltb_spec mp 10); lia).
      rewrite Hm2. unfold month_length. cbn [Z.eqb Pos.eqb].
      assert (y = Y + 1) as -> by (unfold y; by rewrite Hm2).
      assert (d = doy - 336) as -> by (unfold d; rewrite E11; change (month_start 11) with 337; lia).
      destruct (decide (doy = 365)) as [E|]; [|destruct (is_leap_year _); lia].
      unfold Y. rewrite (leap_after yoe era) by (unfold doy in E; lia). lia.
    + pose proof (month_lengths y mp ltac:(lia)) as Hlen. fold m in Hlen.
      assert (doy + 1 <= month_start (mp + 1)) by (unfold month_start; apply Z.div_le_lower_bound; lia).
      unfold d. lia.
  - unfold y, m. rewrite (march_days Y mp d); [|unfold y in Hy; destruct (m <=? 2); lia|done|done|exact Hy].
    unfold d, Y. unfold year_start in Hz. unfold z in Hz.
    assert ((yoe + era * 400) / 400 = era) as -> by (rewrite Z.div_add, Z.div_small by lia; lia).
    replace (yoe + era * 400) with (yoe + (100 * era) * 4) at 2 by lia.
    replace (yoe + era * 400) with (yoe + (4 * era) * 100) at 2 by lia.
    rewrite !Z.div_add by lia. lia.
Qed.

(** ** Numbers of a fixed width *)

Fixpoint fixed (w : nat) (n : Z) : list Z :=
  match w with O => [] | S w => fixed w (n / 10) ++ [48 + n mod 10] end.
Definition read_dec (ds : list Z) : Z := foldl (λ a c, 10 * a + (c - 48)) 0 ds.

Lemma length_fixed w n : length (fixed w n) = w.
Proof. revert n. induction w; intros n; cbn [fixed]; [done|]. rewrite length_app, IHw. simpl. lia. Qed.
Lemma fixed_0 w : fixed w 0 = replicate w 48.
Proof.
  induction w; cbn [fixed]; [done|]. change (0 / 10) with 0. rewrite IHw.
  change [48 + 0 mod 10] with (replicate 1 48). rewrite <- replicate_add, Nat.add_comm. done.
Qed.
Lemma read_fixed w n : 0 <= n < 10 ^ Z.of_nat w → read_dec (fixed w n) = n.
Proof.
  revert n. induction w as [|w IH]; intros n Hn; [change (10 ^ Z.of_nat 0) with 1 in Hn; cbn; lia|].
  rewrite Nat2Z.inj_succ, Z.pow_succ_r in Hn by lia.
  unfold read_dec in *. cbn [fixed]. rewrite foldl_app. cbn [foldl]. rewrite IH.
  - pose proof (Z.div_mod n 10). lia.
  - split; [apply Z.div_pos; lia|apply Z.div_lt_upper_bound; lia].
Qed.
Lemma dec_digits_fixed fuel w n : 0 <= n < 10 ^ Z.of_nat w → (w <= fuel)%nat →
  (length (dec_digits fuel n) <= Nat.max 1 w)%nat ∧
  ((1 <= w)%nat → replicate (w - length (dec_digits fuel n)) 48 ++ dec_digits fuel n = fixed w n).
Proof.
  revert w n. induction fuel as [|fuel IH]; intros w n Hn Hw.
  { assert (w = 0%nat) as -> by lia. cbn. split; [lia|]. lia. }
  cbn [dec_digits]. destruct (Z.ltb_spec n 10) as [Hs|Hs].
  - split; [cbn [length]; lia|]. intros H1. destruct w as [|w]; [lia|]. cbn [length fixed].
    rewrite (Z.div_small n 10), fixed_0, (Z.mod_small n 10) by lia. f_equal. f_equal. lia.
  - destruct w as [|w]; [simpl in Hn; lia|].
    rewrite Nat2Z.inj_succ, Z.pow_succ_r in Hn by lia.
    assert (0 <= n / 10 < 10 ^ Z.of_nat w) as Hq
      by (split; [apply Z.div_pos; lia|apply Z.div_lt_upper_bound; lia]).
    assert (1 <= w)%nat as H1.
    { destruct w; [|lia]. simpl in Hq. pose proof (Z.div_le_lower_bound n 10 1). lia. }
    destruct (IH w (n / 10) Hq ltac:(lia)) as [Hlen Heq]. specialize (Heq H1).
    rewrite length_app. cbn [length fixed]. split; [lia|]. intros _.
    rewrite <- Heq, app_assoc. f_equal. f_equal. f_equal. lia.
Qed.
Lemma dec_pad_fixed w n : (1 <= w <= 20)%nat → 0 <= n < 10 ^ Z.of_nat w → dec_pad w n = fixed w n.
Proof. intros Hw Hn. unfold dec_pad, dec. by apply dec_digits_fixed; lia. Qed.

(** ** Timestamps *)

Definition stamp (y m d h mi s us : Z) : list Z :=
  fixed 4 y ++ [45] ++ fixed 2 m ++ [45] ++ fixed 2 d ++ [84] ++ fixed 2 h ++ [58] ++
  fixed 2 mi ++ [58] ++ fixed 2 s ++ [46] ++ fixed 6 us ++ [90].
(** Reading a timestamp: microseconds since the epoch. *)
Definition part (t : list Z) (i n : nat) : Z := read_dec (take n (drop i t)).
Definition read_stamp (t : list Z) : Z :=
  (((days_since_epoch (part t 0 4) (part t 5 2) (part t 8 2) * 24 + part t 11 2) * 60
    + part t 14 2) * 60 + part t 17 2) * 1000000 + part t 20 6.
Definition valid_date (y m d : Z) : Prop := 1970 <= y ∧ 1 <= m <= 12 ∧ 1 <= d <= month_length y m.

Lemma month_length_31 y m : month_length y m <= 31.
Proof. unfold month_length. repeat case_match; lia. Qed.

Lemma read_stamp_ok y m d h mi s us :
  valid_date y m d → y <= 9999 → 0 <= h < 24 → 0 <= mi < 60 → 0 <= s < 60 → 0 <= us < 1000000 →
  read_stamp (stamp y m d h mi s us) =
    (((days_since_epoch y m d * 24 + h) * 60 + mi) * 60 + s) * 1000000 + us.
Proof.
  intros (Hy & Hm & Hd) Hy' Hh Hmi Hs Hus. pose proof (month_length_31 y m).
  unfold read_stamp, part. change (take 4 (drop 0 (stamp y m d h mi s us))) with (fixed 4 y).
  change (take 2 (drop 5 (stamp y m d h mi s us))) with (fixed 2 m).
  change (take 2 (drop 8 (stamp y m d h mi s us))) with (fixed 2 d).
  change (take 2 (drop 11 (stamp y m d h mi s us))) with (fixed 2 h).
  change (take 2 (drop 14 (stamp y m d h mi s us))) with (fixed 2 mi).
  change (take 2 (drop 17 (stamp y m d h mi s us))) with (fixed 2 s).
  change (take 6 (drop 20 (stamp y m d h mi s us))) with (fixed 6 us).
  rewrite !read_fixed; [done|simpl; lia..].
Qed.

Lemma sum_from_lower f lo start n : (∀ y, lo <= f y) → lo * Z.of_nat n <= sum_from f start n.
Proof.
  intros Hf. revert start. induction n as [|n IH]; intros start; cbn [sum_from]; [lia|].
  specialize (IH (start + 1)). specialize (Hf start). lia.
Qed.
Lemma days_lower y m d : 1970 <= y → 1 <= d → 365 * (y - 1970) <= days_since_epoch y m d.
Proof.
  intros Hy Hd. unfold days_since_epoch.
  pose proof (sum_from_lower year_length 365 1970 (Z.to_nat (y - 1970))
    ltac:(intros; unfold year_length; case_match; lia)).
  pose proof (sum_from_lower (month_length y) 0 1 (Z.to_nat (m - 1))
    ltac:(intros; unfold month_length; repeat case_match; lia)). lia.
Qed.

Lemma time_of_day_parts t : t = (t / 3600 * 60 + t mod 3600 / 60) * 60 + t mod 60.
Proof. Z.to_euclidean_division_equations. lia. Qed.

(** The text of a timestamp: a valid date and time of day, that of the timestamp. *)
Lemma format_rfc3339_stamp nanos : in_width 64 nanos →
  ∃ y m d h mi s us, format_rfc3339 nanos = stamp y m d h mi s us ∧ valid_date y m d ∧ y <= 9999 ∧
    0 <= h < 24 ∧ 0 <= mi < 60 ∧ 0 <= s < 60 ∧ 0 <= us < 1000000 ∧
    nanos / 1000 = (((days_since_epoch y m d * 24 + h) * 60 + mi) * 60 + s) * 1000000 + us.
Proof.
  intros Hn. unfold in_width in Hn. unfold format_rfc3339.
  set (secs := nanos / 1000000000). set (subsec := nanos mod 1000000000).
  set (days := secs / 86400). set (tod := secs mod 86400).
  assert (0 <= days <= 213503) as Hdays.
  { unfold days, secs. rewrite Z.div_div by lia. split; [apply Z.div_pos; lia|].
    apply Z.lt_succ_r, Z.div_lt_upper_bound; lia. }
  pose proof (days_to_ymd_date days ltac:(lia)) as Hdate.
  destruct (days_to_ymd days) as [[y m] d]. destruct Hdate as (Hy & Hm & Hd & Heq).
  pose proof (days_lower y m d Hy ltac:(lia)) as Hlow. pose proof (month_length_31 y m).
  assert (0 <= tod < 86400) as Htod by (unfold tod; apply Z.mod_pos_bound; lia).
  assert (0 <= subsec < 1000000000) as Hsub by (unfold subsec; apply Z.mod_pos_bound; lia).
  assert (0 <= tod / 3600 < 24 ∧ 0 <= tod mod 3600 / 60 < 60 ∧ 0 <= tod mod 60 < 60 ∧
    0 <= subsec / 1000 < 1000000) as (Hh & Hmi & Hs & Hus).
  { Z.to_euclidean_division_equations; lia. }
  exists y, m, d, (tod / 3600), (tod mod 3600 / 60), (tod mod 60), (subsec / 1000).
  split; [|split; [done|split; [lia|split_and!; try lia]]].
  - unfold stamp. rewrite !dec_pad_fixed; [done|lia|simpl; lia..].
  - assert (nanos = (days * 86400 + tod) * 1000000 * 1000 + subsec) as Hnanos.
    { unfold days, tod, subsec, secs. pose proof (Z.div_mod (nanos / 1000000000) 86400).
      pose proof (Z.div_mod nanos 1000000000). lia. }
    rewrite Hnanos at 1. rewrite Z.div_add_l, Heq, (time_of_day_parts tod) at 1 by lia. lia.
Qed.

(** ** Reading structured data *)

(** A quoted value up to its closing quotation mark, with a backslash before a
    character that stands for itself. *)
Fixpoint read_value (s : list Z) : option (list Z * list Z) :=
  match s with
  | [] => None
  | c :: rest =>
    if c =? 34 then Some ([], rest)
    else if c =? 92 then
      match rest with
      | c' :: rest => match read_value rest with Some (v, r) => Some (c' :: v, r) | None => None end
      | [] => None
      end
    else match read_value rest with Some (v, r) => Some (c :: v, r) | None => None end
  end.
(** Text up to a character, which is consumed. *)
Fixpoint read_until (stop : Z) (s : list Z) : option (list Z * list Z) :=
  match s with
  | [] => None
  | c :: rest =>
    if c =? stop then Some ([], rest)
    else match read_until stop rest with Some (v, r) => Some (c :: v, r) | None => None end
  end.
(** One parameter: a name, an equals sign and a quoted value. *)
Definition read_param (s : list Z) : option (list Z * list Z * list Z) :=
  match read_until 61 s with
  | Some (name, 34 :: s) =>
    match read_value s with Some (v, r) => Some (name, v, r) | None => None end
  | _ => None
  end.
(** The parameters of an element, separated by spaces and ended by a bracket. *)
Fixpoint read_params (fuel : nat) (s : list Z) : option (list (list Z * list Z) * list Z) :=
  match fuel with
  | O => None
  | S fuel =>
    match read_param s with
    | Some (name, v, 93 :: r) => Some ([(name, v)], r)
    | Some (name, v, 32 :: r) =>
      match read_params fuel r with Some (ps, r) => Some ((name, v) :: ps, r) | None => None end
    | _ => None
    end
  end.
Definition read_element (s : list Z) : option (list Z * list (list Z * list Z) * list Z) :=
  match s with
  | 91 :: s =>
    match read_until 32 s with
    | Some (id, s) =>
      match read_params (length s) s with Some (ps, r) => Some (id, ps, r) | None => None end
    | None => None
    end
  | _ => None
  end.

Lemma read_escaped v rest : read_value (escape_sd_value v ++ 34 :: rest) = Some (v, rest).
Proof.
  unfold escape_sd_value, needs_escape. induction v as [|c v IH]; [done|].
  cbn [fmap list_fmap concat]. rewrite <- app_assoc. case_bool_decide as E.
  - cbn [app read_value]. change (92 =? 34) with false. change (92 =? 92) with true. cbn iota.
    by rewrite IH.
  - rewrite !not_elem_of_cons in E. destruct E as (E1 & E2 & _). cbn [app read_value].
    rewrite (proj2 (Z.eqb_neq c 34)), (proj2 (Z.eqb_neq c 92)), IH by done. done.
Qed.
Lemma dec_digits_digits fuel n : 0 <= n → Forall (λ c, 48 <= c <= 57) (dec_digits fuel n).
Proof.
  revert n. induction fuel as [|fuel IH]; intros n Hn; cbn [dec_digits]; [constructor|].
  destruct (Z.ltb_spec n 10); [repeat constructor; lia|].
  apply Forall_app. split; [apply IH, Z.div_pos; lia|]. repeat constructor;
    pose proof (Z.mod_pos_bound n 10 ltac:(lia)); lia.
Qed.
Lemma escape_plain v : Forall (λ c, needs_escape c = false) v → escape_sd_value v = v.
Proof.
  unfold escape_sd_value. induction 1 as [|c v Hc _ IH]; [done|]. cbn [fmap list_fmap concat].
  by rewrite Hc, IH.
Qed.
Lemma escape_dec n : 0 <= n → escape_sd_value (dec n) = dec n.
Proof.
  intros Hn. apply escape_plain. eapply Forall_impl; [by apply dec_digits_digits|]. cbn beta. intros c Hc.
  apply bool_decide_eq_false_2. rewrite !elem_of_cons, elem_of_nil. lia.
Qed.

Lemma read_quoted name v rest : Forall (λ c, c ≠ 61) (ascii_bytes name) →
  read_param (quoted name (escape_sd_value v) ++ rest) = Some (ascii_bytes name, v, rest).
Proof.
  intros Hn. unfold read_param, quoted. rewrite <- !app_assoc.
  assert (∀ s, read_until 61 (ascii_bytes name ++ 61 :: s) = Some (ascii_bytes name, s)) as Hr.
  { intros s. induction Hn as [|c cs Hc _ IH]; [done|]. cbn [app read_until].
    by rewrite (proj2 (Z.eqb_neq _ _) Hc), IH. }
  cbn [app]. rewrite Hr. change ([34] ++ rest) with (34 :: rest). by rewrite read_escaped.
Qed.

Lemma read_params_next fuel name v s : Forall (λ c, c ≠ 61) (ascii_bytes name) →
  read_params (S fuel) (quoted name (escape_sd_value v) ++ [32] ++ s) =
    match read_params fuel s with Some (ps, r) => Some ((ascii_bytes name, v) :: ps, r) | None => None end.
Proof. intros Hn. cbn [read_params]. by rewrite read_quoted. Qed.
Lemma read_params_last fuel name v s : Forall (λ c, c ≠ 61) (ascii_bytes name) →
  read_params (S fuel) (quoted name (escape_sd_value v) ++ [93] ++ s) = Some ([(ascii_bytes name, v)], s).
Proof. intros Hn. cbn [read_params]. by rewrite read_quoted. Qed.

Lemma structured_data_read (e : AuditEventPayload) rest : 0 <= ae_session_handle e →
  read_element (structured_data e ++ rest) =
    Some (ascii_bytes "hsm@0",
          [(ascii_bytes "session", dec (ae_session_handle e));
           (ascii_bytes "op", format_operation_name (ae_operation e));
           (ascii_bytes "result", result_text (ae_result e));
           (ascii_bytes "key", key_text (ae_key_id e))], rest).
Proof.
  intros Hs. unfold structured_data. rewrite <- (escape_dec (ae_session_handle e)) at 1 by done.
  rewrite <- !app_assoc. set (params := quoted "session" _ ++ _).
  change (ascii_bytes "[hsm@0 " ++ params) with (91 :: ascii_bytes "hsm@0" ++ 32 :: params).
  unfold read_element.
  change (read_until 32 (ascii_bytes "hsm@0" ++ 32 :: params)) with (Some (ascii_bytes "hsm@0", params)).
  assert (4 <= length params)%nat as Hl by (unfold params, quoted; rewrite !length_app; cbn; lia).
  cbn beta iota. destruct (length params) as [|[|[|[|fuel]]]]; [lia..|]. unfold params.
  rewrite !read_params_next, read_params_last; [done|repeat constructor; done..].
Qed.

(** ** Reading a line *)

Record SyslogRecord := {
  sl_priority : list Z;
  sl_micros : Z;
  sl_header : list (list Z);
  sl_params : list (list Z * list Z);
  sl_message : list Z;
}.
(** [n] fields that end in spaces. *)
Fixpoint read_fields (n : nat) (s : list Z) : option (list (list Z) * list Z) :=
  match n with
  | O => Some ([], s)
  | S n =>
    match read_until 32 s with
    | Some (v, s) => match read_fields n s with Some (vs, s) => Some (v :: vs, s) | None => None end
    | None => None
    end
  end.
Definition read_syslog (line : list Z) : option SyslogRecord :=
  match line with
  | 60 :: s =>
    match read_until 62 s with
    | Some (pri, s) =>
      match read_fields 6 s with
      | Some (version :: stamp :: header, s) =>
        match read_element s with
        | Some (id, ps, 32 :: msg) =>
          Some {| sl_priority := pri; sl_micros := read_stamp stamp;
                  sl_header := version :: header ++ [id]; sl_params := ps; sl_message := msg |}
        | _ => None
        end
      | _ => None
      end
    | None => None
    end
  | _ => None
  end.

Lemma read_until_app stop v rest : Forall (λ c, c ≠ stop) v →
  read_until stop (v ++ stop :: rest) = Some (v, rest).
Proof.
  induction 1 as [|c v Hc _ IH]; cbn [app read_until]; [by rewrite Z.eqb_refl|].
  by rewrite (proj2 (Z.eqb_neq _ _) Hc), IH.
Qed.
Lemma read_field n v rest : Forall (λ c, c ≠ 32) v →
  read_fields (S n) (v ++ 32 :: rest) =
    match read_fields n rest with Some (vs, s) => Some (v :: vs, s) | None => None end.
Proof. intros Hv. cbn [read_fields]. by rewrite read_until_app. Qed.

Definition printable (c : Z) : Prop := is_control c = false.
Lemma fixed_digits w n : Forall (λ c, 48 <= c <= 57) (fixed w n).
Proof.
  revert n. induction w as [|w IH]; intros n; cbn [fixed]; [constructor|].
  apply Forall_app. split; [apply IH|]. pose proof (Z.mod_pos_bound n 10 ltac:(lia)).
  repeat constructor; lia.
Qed.
Lemma stamp_chars y m d h mi s us : Forall (λ c, 45 <= c <= 90) (stamp y m d h mi s us).
Proof.
  assert (∀ w n, Forall (λ c, 45 <= c <= 90) (fixed w n)) as Hf.
  { intros w n. eapply Forall_impl; [apply fixed_digits|]. cbn beta. lia. }
  unfold stamp. rewrite !Forall_app. split_and!; try apply Hf; repeat constructor; lia.
Qed.

Definition event_in_range (e : AuditEventPayload) : Prop :=
  in_width 64 (ae_timestamp e) ∧ in_width 64 (ae_session_handle e) ∧
  match ae_result e with Success => True | Failure rv => in_width 64 rv end.

Lemma syslog_line_read e : event_in_range e →
  read_syslog (syslog_line e) = Some
    {| sl_priority := dec (syslog_priority (ae_result e)); sl_micros := ae_timestamp e / 1000;
       sl_header := [[49]; ascii_bytes "craton_hsm"; ascii_bytes "craton_hsm"; [45]; [45];
                     ascii_bytes "hsm@0"];
       sl_params := [(ascii_bytes "session", dec (ae_session_handle e));
                     (ascii_bytes "op", format_operation_name (ae_operation e));
                     (ascii_bytes "result", result_text (ae_result e));
                     (ascii_bytes "key", key_text (ae_key_id e))];
       sl_message := syslog_message e |}.
Proof.
  intros (Ht & [Hs _] & _).
  destruct (format_rfc3339_stamp _ Ht) as (y & m & d & h & mi & s & us & Hfmt & Hdate & Hy & Hh & Hmi & Hss & Hus & Hval).
  unfold syslog_line. rewrite Hfmt. set (line := structured_data e ++ [32] ++ syslog_message e).
  change (ascii_bytes ">1 " ++ stamp y m d h mi s us ++ ascii_bytes " craton_hsm craton_hsm - - " ++ line)
    with (62 :: ([49] ++ 32 :: stamp y m d h mi s us ++ 32 :: (ascii_bytes "craton_hsm" ++ 32 ::
      (ascii_bytes "craton_hsm" ++ 32 :: ([45] ++ 32 :: ([45] ++ 32 :: line)))))).
  unfold read_syslog. change ([60] ++ ?r) with (60 :: r). cbn iota.
  rewrite read_until_app by (destruct (ae_result e); repeat constructor; done).
  rewrite !read_field; [|try (repeat constructor; done)..].
  2: { eapply Forall_impl; [apply stamp_chars|]. cbn beta. lia. }
  cbn [read_fields]. unfold line. rewrite structured_data_read by done.
  rewrite read_stamp_ok, <- Hval by done. done.
Qed.

(** ** One line per event *)

Lemma printable_digit c : 48 <= c <= 57 → printable c.
Proof. intros Hc. unfold printable, is_control, in_range. apply orb_false_iff. split; apply andb_false_iff; lia. Qed.
Lemma printable_dec n : 0 <= n → Forall printable (dec n).
Proof. intros Hn. eapply Forall_impl; [by apply dec_digits_digits|]. apply printable_digit. Qed.
Lemma printable_hex_digits fuel n : 0 <= n → Forall printable (hex_digits_upper fuel n).
Proof.
  assert (∀ d, 0 <= d < 16 → printable (hex_upper d)) as Hd.
  { intros d Hd. unfold printable, hex_upper, is_control, in_range.
    destruct (Z.ltb_spec d 10); apply orb_false_iff; split; apply andb_false_iff; lia. }
  revert n. induction fuel as [|fuel IH]; intros n Hn; cbn [hex_digits_upper]; [constructor|].
  destruct (Z.ltb_spec n 16); [constructor; [apply Hd; lia|constructor]|].
  apply Forall_app. split; [apply IH, Z.div_pos; lia|]. constructor; [|constructor].
  apply Hd, Z.mod_pos_bound. lia.
Qed.
Definition text_ok (s : list Z) : bool := forallb (λ c, negb (is_control c)) s.
Lemma printable_text s : text_ok s = true → Forall printable s.
Proof.
  unfold text_ok. rewrite forallb_forall. intros Hs. apply Forall_forall. intros c Hc.
  apply negb_true_iff, Hs. by apply list_elem_of_In.
Qed.
Lemma printable_result r :
  match r with Success => True | Failure rv => in_width 64 rv end → Forall printable (result_text r).
Proof.
  destruct r as [|rv]; intros Hrv; [by apply printable_text|]. unfold result_text, hex8.
  rewrite !Forall_app. split_and!; [by apply printable_text| | |by apply printable_text].
  - apply Forall_replicate. by apply printable_digit.
  - apply printable_hex_digits. apply Hrv.
Qed.
Lemma printable_operation op : Forall printable (format_operation_name op).
Proof. apply printable_text. by destruct op. Qed.
Lemma printable_escape s : Forall printable s → Forall printable (escape_sd_value s).
Proof.
  unfold escape_sd_value. induction 1 as [|c s Hc _ IH]; [constructor|]. cbn [fmap list_fmap concat].
  apply Forall_app. split; [|done]. destruct (needs_escape c); repeat constructor; done.
Qed.
Lemma printable_message s : Forall printable s → Forall printable (sanitize_syslog_msg_value s).
Proof.
  intros Hs. apply Forall_forall. intros c Hc%list_elem_of_In%filter_In. rewrite Forall_forall in Hs.
  apply Hs, list_elem_of_In, Hc.
Qed.
Lemma printable_sanitized k : Forall printable (sanitize_audit_field k).
Proof.
  apply Forall_take, Forall_forall. intros c [_ Hc]%list_elem_of_In%filter_In. by apply negb_true_iff.
Qed.

(** What the log keeps of a key identifier. *)
Definition recorded (e : AuditEventPayload) : Prop :=
  event_in_range e ∧ ∃ k, ae_key_id e = sanitize_audit_field <$> k.

Lemma printable_line e : recorded e → Forall printable (syslog_line e).
Proof.
  intros [(Ht & [Hs _] & Hr) [k Hk]].
  assert (Forall printable (key_text (ae_key_id e))) as Hkey.
  { rewrite Hk. destruct k; [apply printable_sanitized|by apply printable_text]. }
  destruct (format_rfc3339_stamp _ Ht) as (y & m & d & h & mi & s & us & Hfmt & _).
  pose proof (printable_operation (ae_operation e)). pose proof (printable_result _ Hr).
  unfold syslog_line, structured_data, syslog_message, quoted. rewrite Hfmt, !Forall_app.
  assert (Forall printable (stamp y m d h mi s us)) as Hstamp.
  { eapply Forall_impl; [apply stamp_chars|]. cbn beta. intros c Hc.
    unfold printable, is_control, in_range. apply orb_false_iff. split; apply andb_false_iff; lia. }
  assert (0 <= syslog_priority (ae_result e)) by (by destruct (ae_result e)).
  split_and!; try done; auto using printable_dec, printable_escape, printable_message;
    by apply printable_text.
Qed.

(** A syslog export is one line per event and cannot be forged.  For every event the
    log records, the line has no control character, so no line break; a reader gets
    back its priority, its time to the microsecond, and in the structured data
    exactly its session, operation, result and key, whatever characters the key has. *)
Theorem syslog_export_faithful e : recorded e →
  NEWLINE ∉ syslog_line e ∧
  read_syslog (syslog_line e) = Some
    {| sl_priority := dec (syslog_priority (ae_result e)); sl_micros := ae_timestamp e / 1000;
       sl_header := [[49]; ascii_bytes "craton_hsm"; ascii_bytes "craton_hsm"; [45]; [45];
                     ascii_bytes "hsm@0"];
       sl_params := [(ascii_bytes "session", dec (ae_session_handle e));
                     (ascii_bytes "op", format_operation_name (ae_operation e));
                     (ascii_bytes "result", result_text (ae_result e));
                     (ascii_bytes "key", key_text (ae_key_id e))];
       sl_message := syslog_message e |}.
Proof.
  intros He. split; [|by apply syslog_line_read, He]. intros Hin.
  pose proof (printable_line e He) as Hp. rewrite Forall_forall in Hp. by apply Hp in Hin.
Qed.

(** A key whose name tries to close the element and to start a line of its own. *)
Definition demo_forged_event : AuditEventPayload := {|
  ae_timestamp := 1700000000123456789; ae_session_handle := 7; ae_operation := ASign 64 true;
  ae_key_id := sanitize_audit_field <$> Some (ascii_bytes "k" ++ [34; 93; 92; 10; 60] ++ ascii_bytes "86>1");
  ae_result := Failure 257;
|}.
Lemma syslog_export_faithful_witness :
  NEWLINE ∉ syslog_line demo_forged_event ∧
  (sl_micros <$> read_syslog (syslog_line demo_forged_event)) = Some 1700000000123456.
Proof.
  destruct (syslog_export_faithful demo_forged_event) as [Hn Hr].
  - split; [|by exists (Some (ascii_bytes "k" ++ [34; 93; 92; 10; 60] ++ ascii_bytes "86>1"))].
    split_and!; vm_compute; split; congruence.
  - split; [exact Hn|]. rewrite Hr. reflexivity.
Defined.

(** ** Pages *)

Lemma page_slice offset limit entries : 0 <= offset → 0 <= limit → offset + limit < 2 ^ 64 →
  get_entries_paginated offset limit entries =
    Returns (take (Z.to_nat limit) (drop (Z.to_nat offset) entries)).
Proof.
  intros Ho Hl Hs. unfold get_entries_paginated, wrap. rewrite Z.mod_small by lia.
  destruct (Z.leb_spec (Z.of_nat (length entries)) offset) as [Hge|Hlt].
  { by rewrite drop_ge, take_nil by lia. }
  rewrite (proj2 (Z.ltb_ge _ _)) by lia. f_equal.
  destruct (Z.le_ge_cases (offset + limit) (Z.of_nat (length entries))) as [Hle|Hle].
  - rewrite Z.min_l by lia. f_equal. lia.
  - rewrite Z.min_r by lia. rewrite !take_ge; rewrite ?length_drop; [done|lia..].
Qed.

(** The first [n] pages of a size, one after the other. *)
Definition pages (limit : Z) (n : nat) (entries : list AuditEvent) : MayPanic (list AuditEvent) :=
  foldl (λ acc k,
    match acc, get_entries_paginated (Z.of_nat k * limit) limit entries with
    | Returns l, Returns p => Returns (l ++ p)
    | _, _ => Panicked
    end) (Returns []) (seq 0 n).

Lemma pages_take limit n entries : 0 <= limit → Z.of_nat n * limit < 2 ^ 64 →
  pages limit n entries = Returns (take (n * Z.to_nat limit) entries).
Proof.
  intros Hl. induction n as [|n IH]; intros Hn; [done|].
  unfold pages in *. rewrite seq_S, foldl_app, IH by lia. cbn [foldl]. rewrite Nat.add_0_l.
  rewrite page_slice by lia. f_equal.
  replace (Z.to_nat (Z.of_nat n * limit)) with (n * Z.to_nat limit)%nat by lia.
  replace (S n * Z.to_nat limit)%nat with (n * Z.to_nat limit + Z.to_nat limit)%nat by lia.
  set (k := (n * Z.to_nat limit)%nat). rewrite <- (take_drop k entries) at 3.
  destruct (decide (k <= length entries)%nat) as [Hk|Hk].
  - rewrite take_app_add' by (rewrite length_take; lia). done.
  - rewrite (drop_ge entries k), (take_ge entries k), take_nil, !app_nil_r by lia.
    by rewrite take_ge by lia.
Qed.

(** Reading the log in pages gives the log: as many pages as cover it, of any size, are
    together exactly its entries, and no page panics as long as its end is below
    2^64; beyond that, a page panics. *)
Theorem audit_pages_cover limit n entries :
  0 < limit → Z.of_nat n * limit < 2 ^ 64 → Z.of_nat (length entries) <= Z.of_nat n * limit →
  pages limit n entries = Returns entries ∧
  (2 <= length entries → get_entries_paginated 1 (2 ^ 64 - 1) entries = Panicked)%nat.
Proof.
  intros Hl Hn Hlen. split; [rewrite pages_take by lia; f_equal; apply take_ge; lia|].
  intros H2. unfold get_entries_paginated. change (wrap 64 (1 + (2 ^ 64 - 1))) with 0.
  rewrite (proj2 (Z.leb_gt _ _)), Z.min_l, (proj2 (Z.ltb_lt _ _)) by lia. done.
Qed.
Definition demo_entries : list AuditEvent :=
  replicate 3 {| ae_payload := demo_forged_event; ae_previous_hash := ZERO_HASH |}.
Lemma audit_pages_cover_witness :
  pages 2 2 demo_entries = Returns demo_entries ∧
  get_entries_paginated 1 (2 ^ 64 - 1) demo_entries = Panicked.
Proof.
  destruct (audit_pages_cover 2 2 demo_entries) as [Hp Ho].
  - reflexivity.
  - reflexivity.
  - vm_compute. congruence.
  - split; [exact Hp|]. apply Ho. vm_compute. lia.
Defined.
