(* ===== verification/Info.v ===== *)
(** * The information functions of the interface

    [C_GetInfo], [C_GetFunctionList], [C_GetSlotList], [C_GetSlotInfo], [C_GetTokenInfo]
    and the functions without effect of src/pkcs11_abi/functions.rs, with the structures
    they fill (src/pkcs11_abi/types.rs).  A null pointer is [false] or [None]; what is
    written through a pointer is part of the result. *)

From stdpp Require Import sorting.
From S2P Require Import Prelude Pkcs11 Handles Hash PinCrypto TokenFiles Token Session SessionManager ObjectStore AuditChain Config Encrypt Abi.

Definition CKF_SLOT_TOKEN_PRESENT : Z := 0x00000001.
Definition CKR_NO_EVENT : Z := 0x00000008.
Definition CKR_FUNCTION_NOT_PARALLEL : Z := 0x00000051.

Record CK_VERSION := { major : Z; minor : Z }.
Record CK_INFO := {
  cryptoki_version : CK_VERSION;
  info_manufacturer_id : bytes;
  info_flags : Z;
  library_description : bytes;
  library_version : CK_VERSION;
}.
Record CK_SLOT_INFO := {
  slot_description : bytes;
  slot_manufacturer_id : bytes;
  slot_flags : Z;
  slot_hardware_version : CK_VERSION;
  slot_firmware_version : CK_VERSION;
}.
Record CK_TOKEN_INFO := {
  ti_label : bytes;
  ti_manufacturer_id : bytes;
  ti_model : bytes;
  ti_serial_number : bytes;
  ti_flags : Z;
  ti_max_session_count : Z;
  ti_session_count : Z;
  ti_max_rw_session_count : Z;
  ti_rw_session_count : Z;
  ti_max_pin_len : Z;
  ti_min_pin_len : Z;
  ti_total_public_memory : Z;
  ti_free_public_memory : Z;
  ti_total_private_memory : Z;
  ti_free_private_memory : Z;
  ti_hardware_version : CK_VERSION;
  ti_firmware_version : CK_VERSION;
  ti_utc_time : bytes;
}.

(** [pad_string] into an array of [width] bytes. *)
Definition pad_string (width : nat) (src : bytes) : bytes :=
  let copied := take width src in copied ++ replicate (width - length copied) 32.

Section Info.
Context {A B : Type}.
Implicit Types (l : Library A B) (c : HsmCore A B).

(** Every refusal of [get_hsm] becomes the same value. *)
Definition C_GetInfo (pid : Z) (p_info : bool) l : Z * option CK_INFO :=
  match get_hsm pid l with
  | Err _ => (CKR_CRYPTOKI_NOT_INITIALIZED, None)
  | Ok _ =>
    if negb p_info then (CKR_ARGUMENTS_BAD, None)
    else
      (CKR_OK, Some {| cryptoki_version := {| major := 3; minor := 0 |};
                       info_manufacturer_id := pad_string 32 (ascii_bytes "Craton HSM Project");
                       info_flags := 0;
                       library_description := pad_string 32 (ascii_bytes "Craton HSM Software HSM");
                       library_version := {| major := 0; minor := 1 |} |})
  end.

(** [get_slot_ids]: the keys of the map, sorted. *)
Definition get_slot_ids c : list Z := merge_sort Z.le (elements (dom (slot_manager c))).

(** The value, the list written and the count written. *)
Definition C_GetSlotList (pid : Z) (token_present : bool) (p_slot_list : bool) (pul_count : option Z) l :
    Z * option (list Z) * option Z :=
  match get_hsm pid l with
  | Err rv => (rv, None, None)
  | Ok c =>
    match pul_count with
    | None => (CKR_ARGUMENTS_BAD, None, None)
    | Some count =>
      let slots := get_slot_ids c in
      let n := Z.of_nat (length slots) in
      if negb p_slot_list then (CKR_OK, None, Some n)
      else if count <? n then (CKR_BUFFER_TOO_SMALL, None, Some n)
      else (CKR_OK, Some slots, Some n)
    end
  end.

Definition C_GetSlotInfo (pid slot_id : Z) (p_info : bool) l : Z * option CK_SLOT_INFO :=
  match get_hsm pid l with
  | Err rv => (rv, None)
  | Ok c =>
    if negb p_info then (CKR_ARGUMENTS_BAD, None)
    else if bool_decide (is_Some (slot_manager c !! slot_id))
    then
      (CKR_OK, Some {| slot_description := pad_string 64 (ascii_bytes "Craton HSM Virtual Slot");
                       slot_manufacturer_id := pad_string 32 (ascii_bytes "Craton HSM Project");
                       slot_flags := CKF_SLOT_TOKEN_PRESENT;
                       slot_hardware_version := {| major := 0; minor := 1 |};
                       slot_firmware_version := {| major := 0; minor := 1 |} |})
    else (error_to_rv SlotIdInvalid, None)
  end.

(** [serial_number] is that of the core. *)
Definition C_GetTokenInfo (serial_number : bytes) (pid slot_id : Z) (p_info : bool) l :
    Z * option CK_TOKEN_INFO :=
  match get_hsm pid l with
  | Err rv => (rv, None)
  | Ok c =>
    if negb p_info then (CKR_ARGUMENTS_BAD, None)
    else
      match get_token slot_id c with
      | Err e => (error_to_rv e, None)
      | Ok t =>
        (CKR_OK, Some {| ti_label := t_label t;
                         ti_manufacturer_id := pad_string 32 (ascii_bytes "Craton HSM Project");
                         ti_model := pad_string 16 (ascii_bytes "Craton HSM");
                         ti_serial_number := serial_number;
                         ti_flags := flags t;
                         ti_max_session_count := t_max_sessions t;
                         ti_session_count := t_session_count t;
                         ti_max_rw_session_count := t_max_rw_sessions t;
                         ti_rw_session_count := t_rw_session_count t;
                         ti_max_pin_len := Z.of_nat (t_pin_max_len t);
                         ti_min_pin_len := Z.of_nat (t_pin_min_len t);
                         ti_total_public_memory := CK_UNAVAILABLE_INFORMATION;
                         ti_free_public_memory := CK_UNAVAILABLE_INFORMATION;
                         ti_total_private_memory := CK_UNAVAILABLE_INFORMATION;
                         ti_free_private_memory := CK_UNAVAILABLE_INFORMATION;
                         ti_hardware_version := {| major := 0; minor := 1 |};
                         ti_firmware_version := {| major := 0; minor := 1 |};
                         ti_utc_time := replicate 16 32 |})
      end
  end.
End Info.

(** ** The functions of the library *)

(** The entries of [FUNCTION_LIST], by name, in the order of the structure. *)
Definition FUNCTION_LIST : list string :=
  ["C_Initialize"; "C_Finalize"; "C_GetInfo"; "C_GetFunctionList"; "C_GetSlotList";
   "C_GetSlotInfo"; "C_GetTokenInfo"; "C_GetMechanismList"; "C_GetMechanismInfo"; "C_InitToken";
   "C_InitPIN"; "C_SetPIN"; "C_OpenSession"; "C_CloseSession"; "C_CloseAllSessions";
   "C_GetSessionInfo"; "C_GetOperationState"; "C_SetOperationState"; "C_Login"; "C_Logout";
   "C_CreateObject"; "C_CopyObject"; "C_DestroyObject"; "C_GetObjectSize"; "C_GetAttributeValue";
   "C_SetAttributeValue"; "C_FindObjectsInit"; "C_FindObjects"; "C_FindObjectsFinal";
   "C_EncryptInit"; "C_Encrypt"; "C_EncryptUpdate"; "C_EncryptFinal"; "C_DecryptInit"; "C_Decrypt";
   "C_DecryptUpdate"; "C_DecryptFinal"; "C_DigestInit"; "C_Digest"; "C_DigestUpdate"; "C_DigestKey";
   "C_DigestFinal"; "C_SignInit"; "C_Sign"; "C_SignUpdate"; "C_SignFinal"; "C_SignRecoverInit";
   "C_SignRecover"; "C_VerifyInit"; "C_Verify"; "C_VerifyUpdate"; "C_VerifyFinal";
   "C_VerifyRecoverInit"; "C_VerifyRecover"; "C_DigestEncryptUpdate"; "C_DecryptDigestUpdate";
   "C_SignEncryptUpdate"; "C_DecryptVerifyUpdate"; "C_GenerateKey"; "C_GenerateKeyPair"; "C_WrapKey";
   "C_UnwrapKey"; "C_DeriveKey"; "C_SeedRandom"; "C_GenerateRandom"; "C_GetFunctionStatus";
   "C_CancelFunction"; "C_WaitForSlotEvent"]%string.

(** The value of a function that looks at nothing, whatever its arguments and whether
    or not the library is initialised. *)
Definition fixed_answer (name : string) : option Z :=
  if bool_decide (name ∈ ["C_SignRecoverInit"; "C_SignRecover"; "C_VerifyRecoverInit";
                          "C_VerifyRecover"; "C_DigestEncryptUpdate"; "C_DecryptDigestUpdate";
                          "C_SignEncryptUpdate"; "C_DecryptVerifyUpdate"]%string)
  then Some CKR_FUNCTION_NOT_SUPPORTED
  else if bool_decide (name ∈ ["C_GetFunctionStatus"; "C_CancelFunction"]%string)
  then Some CKR_FUNCTION_NOT_PARALLEL
  else if bool_decide (name = "C_WaitForSlotEvent"%string) then Some CKR_NO_EVENT
  else None.

(** The list is written whenever there is a place for it. *)
Definition C_GetFunctionList (pp_function_list : bool) : Z * option (list string) :=
  if negb pp_function_list then (CKR_ARGUMENTS_BAD, None) else (CKR_OK, Some FUNCTION_LIST).
