(* ===== verification/InfoProofs.v ===== *)
(** * What the information functions report

    The slots listed are the slots there are, the text fields have the width of their
    structures, and the flags, limits and counts of a token tell what the calls that
    depend on them will answer. *)

From stdpp Require Import sorting.
From S2P Require Import Prelude Pkcs11 Handles Hash PinCrypto TokenFiles Token TokenDemo TokenProofs Session SessionManager SessionProofs Dates Objects ObjectProofs ObjectStore ObjectStoreProofs ObjectPersist AuditChain AuditProofs Encrypt Abi AbiProofs AbiDemo Info.

(** ** Padded text *)

Lemma pad_string_length width src : length (pad_string width src) = width.
Proof. unfold pad_string. rewrite length_app, length_replicate, length_take. lia. Qed.

Lemma pad_string_short width src :
  (length src ≤ width)%nat → pad_string width src = src ++ replicate (width - length src) 32.
Proof. unfold pad_string. intros. by rewrite take_ge. Qed.

(** ** Flags *)

(** [f] has the flag [b]. *)
Definition has_flag (f b : Z) : bool := negb (Z.land f b =? 0).

Lemma flags_tell t :
  has_flag (flags t) CKF_TOKEN_INITIALIZED = a_initialized (t_auth t) ∧
  has_flag (flags t) CKF_USER_PIN_INITIALIZED = a_user_pin_initialized (t_auth t) ∧
  has_flag (flags t) CKF_USER_PIN_LOCKED = a_user_pin_locked (t_auth t) ∧
  has_flag (flags t) CKF_SO_PIN_LOCKED = a_so_pin_locked (t_auth t) ∧
  has_flag (flags t) CKF_RNG = true ∧ has_flag (flags t) CKF_LOGIN_REQUIRED = true.
Proof.
  unfold flags. destruct (a_initialized _), (a_user_pin_initialized _),
    (a_user_pin_locked _), (a_so_pin_locked _); vm_compute; auto 10.
Qed.

(** ** Slots *)

Section Slots.
Context {A B : Type}.
Implicit Types (l : Library A B) (c : HsmCore A B).

Lemma get_slot_ids_spec c :
  Sorted Z.le (get_slot_ids c) ∧ NoDup (get_slot_ids c) ∧
  (∀ i, i ∈ get_slot_ids c ↔ is_Some (slot_manager c !! i)).
Proof.
  unfold get_slot_ids.
  pose proof (merge_sort_Permutation Z.le (elements (dom (slot_manager c)))) as Hp.
  split_and!.
  - apply (Sorted_merge_sort Z.le).
  - rewrite Hp. apply NoDup_elements.
  - intros i. by rewrite Hp, elem_of_elements, elem_of_dom.
Qed.


(** The list of slots, asked for in two calls, is complete.  The call without a
    buffer gives the number of slots; a buffer of that size or more is filled with the
    identifiers of exactly the slots there are, in increasing order and without
    repetition, a smaller one is refused and left alone with the number needed.  Every
    identifier of the list, and no other, is accepted by [C_GetSlotInfo] and by
    [C_GetTokenInfo], which always fill their texts to the width of the fields. *)
Theorem slot_list_complete pid serial l c :
  get_hsm pid l = Ok c →
  let ids := get_slot_ids c in
  let n := Z.of_nat (length ids) in
  (∀ b k, C_GetSlotList pid b false (Some k) l = (CKR_OK, None, Some n)) ∧
  (∀ b k, C_GetSlotList pid b true (Some k) l =
     if k <? n then (CKR_BUFFER_TOO_SMALL, None, Some n) else (CKR_OK, Some ids, Some n)) ∧
  Sorted Z.le ids ∧ NoDup ids ∧
  (∀ i, i ∈ ids ↔ is_Some (slot_manager c !! i)) ∧
  (∀ i, i ∈ ids → ∃ s t tok, C_GetSlotInfo pid i true l = (CKR_OK, Some s) ∧
     C_GetTokenInfo serial pid i true l = (CKR_OK, Some t) ∧
     slot_manager c !! i = Some tok ∧ ti_label t = t_label tok ∧ ti_serial_number t = serial ∧
     length (slot_description s) = 64%nat ∧ length (slot_manufacturer_id s) = 32%nat ∧
     length (ti_manufacturer_id t) = 32%nat ∧ length (ti_model t) = 16%nat) ∧
  (∀ i, i ∉ ids → C_GetSlotInfo pid i true l = (CKR_SLOT_ID_INVALID, None) ∧
     C_GetTokenInfo serial pid i true l = (CKR_SLOT_ID_INVALID, None)).
Proof.
  intros Hg. destruct (get_slot_ids_spec c) as (Hs & Hnd & Hin).
  unfold C_GetSlotList, C_GetSlotInfo, C_GetTokenInfo, get_token. rewrite Hg.
  split_and!; try done; intros i; rewrite Hin.
  - intros [tok Ht]. rewrite bool_decide_true by by rewrite Ht. rewrite Ht. simpl.
    eexists _, _, tok. split_and!; [reflexivity..|]; by rewrite ?pad_string_length.
  - intros Hno. rewrite bool_decide_false by done.
    apply eq_None_not_Some in Hno. by rewrite Hno.
Qed.
End Slots.

(** ** Tokens *)

Section Tokens.
Context {P : PinPrimitives} {X : HexCodec} {H : HashPrimitives}.
Context {C : ObjectCodec} {SO : StoreOrder} {D : DashOrder} {AC : AuditCodec}.
Context {A B : Type} {HS : HandleSource A} {OH : ObjectHandles B}.
Implicit Types (l : Library A B) (c : HsmCore A B) (e : CallEnv).

(** A login through a session is one of the token. *)
Lemma C_Login_ok e session user_type p_pin c s loc t :
  find_session session c = Ok (loc, s) → get_token (s_slot_id s) c = Ok t →
  (C_Login e session user_type p_pin c).1 = CKR_OK →
  (login user_type (default [] p_pin) (ce_token e) (t, core_disk c)).1 = Ok tt.
Proof.
  unfold C_Login. intros -> ->. case_match; [done|]. case_match; [done|].
  destruct (login _ _ _ _) as [[[]|x] w]; [done|]. simpl.
  intros Hx. by apply error_to_rv_not_ok in Hx.
Qed.

Lemma C_SetPIN_ok e session old_pin new_pin c s loc t :
  find_session session c = Ok (loc, s) → get_token (s_slot_id s) c = Ok t →
  (C_SetPIN e session (Some old_pin) (Some new_pin) c).1 = CKR_OK →
  validate_pin t new_pin = Ok tt.
Proof.
  unfold C_SetPIN, set_pin. intros -> ->. case_match; [done|].
  destruct (validate_pin t new_pin) as [[]|x]; [done|]. simpl.
  intros Hx. by apply error_to_rv_not_ok in Hx.
Qed.

Lemma C_OpenSession_ok e slot_id fl c t :
  get_token slot_id c = Ok t →
  (C_OpenSession e slot_id fl true c).1.1 = CKR_OK →
  (increment_session_count (negb (Z.land fl CKF_RW_SESSION =? 0)) t).1 = Ok tt.
Proof.
  unfold C_OpenSession, open_session. intros ->. cbn [negb].
  destruct (increment_session_count _ t) as [[[]|x] t'] eqn:Hi; [done|].
  repeat case_match; simplify_eq/=; try done; intros Hx; by apply error_to_rv_not_ok in Hx.
Qed.

(** The information about a token tells what the calls will answer.  If it shows the
    user's PIN locked or not set, no login as the user succeeds, whatever the PIN and the
    time; the same for the security officer's lock, and for both if the token is shown
    uninitialised.  A new PIN whose length is outside the limits shown is never
    accepted, and once the number of sessions (of read-write sessions) shown has reached
    the maximum shown, no session (no read-write session) can be opened. *)
Theorem token_info_predicts serial pid slot_id l c i :
  get_hsm pid l = Ok c →
  C_GetTokenInfo serial pid slot_id true l = (CKR_OK, Some i) →
  (∀ e session loc s pin user_type, find_session session c = Ok (loc, s) → s_slot_id s = slot_id →
     (C_Login e session user_type pin c).1 = CKR_OK →
     has_flag (ti_flags i) CKF_TOKEN_INITIALIZED = true ∧
     (user_type = CKU_USER ∧ has_flag (ti_flags i) CKF_USER_PIN_INITIALIZED = true ∧
        has_flag (ti_flags i) CKF_USER_PIN_LOCKED = false
      ∨ user_type = CKU_SO ∧ has_flag (ti_flags i) CKF_SO_PIN_LOCKED = false)) ∧
  (∀ e session loc s old_pin new_pin, find_session session c = Ok (loc, s) → s_slot_id s = slot_id →
     (C_SetPIN e session (Some old_pin) (Some new_pin) c).1 = CKR_OK →
     ti_min_pin_len i ≤ blen new_pin ≤ ti_max_pin_len i) ∧
  (∀ e fl, (C_OpenSession e slot_id fl true c).1.1 = CKR_OK →
     ti_session_count i < ti_max_session_count i ∧
     (Z.land fl CKF_RW_SESSION ≠ 0 → ti_rw_session_count i < ti_max_rw_session_count i)).
Proof.
  intros Hg. unfold C_GetTokenInfo. rewrite Hg. simpl.
  destruct (get_token slot_id c) as [t|x] eqn:Ht; [|intros [= Hx]; by apply error_to_rv_not_ok in Hx].
  intros [= <-]. simpl. destruct (flags_tell t) as (-> & -> & -> & -> & _ & _). split_and!.
  - intros e session loc s pin user_type Hs Hslot Hok. subst slot_id.
    apply (C_Login_ok _ _ _ _ _ _ _ _ Hs Ht), login_granted_iff in Hok. simpl in Hok. tauto.
  - intros e session loc s old_pin new_pin Hs Hslot Hok. subst slot_id.
    apply (C_SetPIN_ok _ _ _ _ _ _ _ _ Hs Ht) in Hok. unfold validate_pin in Hok. unfold blen.
    destruct (_ || _) eqn:Hlen in Hok; [done|]. apply orb_false_iff in Hlen as [Hmin Hmax].
    apply Nat.ltb_ge in Hmin, Hmax. lia.
  - intros e fl Hok. apply (C_OpenSession_ok _ _ _ _ _ Ht) in Hok.
    unfold increment_session_count in Hok. repeat case_match; simplify_eq/=; bool_to_prop; lia.
Qed.
End Tokens.

(** ** Examples *)

#[local] Existing Instance toy_primitives.
#[local] Existing Instance toy_hex.
#[local] Existing Instance toy_hash.
#[local] Existing Instance toy_codec.
#[local] Existing Instance toy_store_order.
#[local] Existing Instance toy_order.
#[local] Existing Instance toy_audit_codec.

(** A library in process 7 after [demo_user_calls]. *)
Definition demo_info_library : Library SessionHandleAllocator ObjectHandleAllocator :=
  {| lib_hsm := Some demo_in; lib_post_failed := false; lib_init_pid := 7;
     lib_cipher := core_cipher demo_in |}.
Definition demo_serial : bytes := replicate 16 48.
Definition demo_token_info : option CK_TOKEN_INFO :=
  (C_GetTokenInfo demo_serial 7 0 true demo_info_library).2.

Lemma demo_info_hsm : get_hsm 7 demo_info_library = Ok demo_in.
Proof. reflexivity. Qed.

Lemma demo_token_flags :
  (λ i, (ti_flags i, ti_session_count i)) <$> demo_token_info = Some (0x40d, 1).
Proof. vm_compute. reflexivity. Qed.

Lemma slot_list_complete_witness :
  C_GetSlotList 7 true true (Some 4) demo_info_library =
    (CKR_OK, Some (get_slot_ids demo_in), Some 1).
Proof.
  destruct (slot_list_complete 7 demo_serial demo_info_library demo_in demo_info_hsm)
    as (_ & Hfill & _).
  assert (length (get_slot_ids demo_in) = 1%nat) as Hn by (vm_compute; reflexivity).
  specialize (Hfill true 4). rewrite Hn in Hfill. exact Hfill.
Defined.

(** The session limit is shown before it is reached. *)
Lemma token_info_predicts_witness :
  ∀ i, demo_token_info = Some i → ∀ e fl,
  (C_OpenSession e 0 fl true demo_in).1.1 = CKR_OK → ti_session_count i < ti_max_session_count i.
Proof.
  intros i Hi e fl Hok.
  assert (C_GetTokenInfo demo_serial 7 0 true demo_info_library = (CKR_OK, Some i)) as Hinfo.
  { unfold demo_token_info in Hi. rewrite <-Hi. vm_compute. reflexivity. }
  destruct (token_info_predicts demo_serial 7 0 demo_info_library demo_in i demo_info_hsm Hinfo)
    as (_ & _ & Hopen).
  exact (proj1 (Hopen e fl Hok)).
Defined.
