(* ===== verification/Spy.v ===== *)
(** * The PKCS#11 spy

    The wrapper library of tools/pkcs11-spy: it exports the functions of the interface
    under the same names, writes a line of JSON for every call and every return
    (logger.rs), finds the wrapped library and checks where it comes from (loader.rs),
    and forwards the call (lib.rs).  The process the spy lives in, its memory and the
    state of the wrapped library, is a type [W]. *)

From S2P Require Import Prelude Pkcs11 Hash PinCrypto TokenFiles Dates AuditChain Config Backup AuditExport Operations.

(** ** Environment *)

(** [std::env::var]. *)
Inductive EnvVar := Unset | NotUnicode | Text (value : bytes).

(** What a path is when it is looked at. *)
Record Node := { n_is_file : bool; n_readable : bool; n_content : bytes }.

(** [Path::parent] and [Path::file_name]. *)
Definition parent (path : list Component) : option (list Component) :=
  match last path with
  | None | Some RootDir => None
  | Some _ => Some (removelast path)
  end.
Definition file_name (path : list Component) : option bytes :=
  match last path with Some (Normal name) => Some name | _ => None end.

(** [Path::extension] of a file name: what follows the last dot, if something
    precedes it. *)
Definition last_dot (name : bytes) : option (bytes * bytes) :=
  match list_find (λ b, b = dot) (rev name) with
  | Some (n, _) =>
    Some (take (length name - n - 1) name, drop (length name - n) name)
  | None => None
  end.
Definition extension (name : bytes) : option bytes :=
  match last_dot name with
  | Some ([], _) | None => None
  | Some (_, ext) => Some ext
  end.

(** ** Lines of the log *)

Definition quote (s : bytes) : bytes := [34] ++ s ++ [34].
Definition field (key : string) (value : bytes) : bytes := quote (ascii_bytes key) ++ [58] ++ value.
Fixpoint commas (fs : list bytes) : bytes :=
  match fs with
  | [] => []
  | [f] => f
  | f :: fs => f ++ [44] ++ commas fs
  end.
Definition json_object (fs : list bytes) : bytes := [123] ++ commas fs ++ [125].

(** [{:x}] and [{:08x}] of a machine word. *)
Definition hex_lower (d : Z) : Z := if d <? 10 then 48 + d else 87 + d.
Fixpoint hex_digits (fuel : nat) (n : Z) : bytes :=
  match fuel with
  | O => []
  | S fuel => if n <? 16 then [hex_lower n] else hex_digits fuel (n / 16) ++ [hex_lower (n mod 16)]
  end.
Definition hex_text (width : nat) (n : Z) : bytes :=
  let ds := hex_digits 16 n in ascii_bytes "0x" ++ replicate (width - length ds) 48 ++ ds.

(** Seconds with some decimals, from a whole number of the last unit. *)
Definition fixed_point (decimals : nat) (q : Z) : bytes :=
  let unit := 10 ^ Z.of_nat decimals in dec (q / unit) ++ [46] ++ dec_pad decimals (q mod unit).
(** [{:.6}] and [{:.3}] of the elapsed nanoseconds in seconds, the latter after the
    source's own rounding; the floating-point value is the exact one to far less than
    the last decimal. *)
Definition ts_micros (elapsed : Z) : bytes := fixed_point 6 ((elapsed + 500) / 1000).
Definition ts_millis (elapsed : Z) : bytes := fixed_point 3 ((elapsed + 500000) / 1000000).

(** The source's table. *)
Definition ckr_names : list (Z * string) :=
  [(0x00000000, "CKR_OK"); (0x00000001, "CKR_CANCEL"); (0x00000002, "CKR_HOST_MEMORY");
   (0x00000003, "CKR_SLOT_ID_INVALID"); (0x00000005, "CKR_GENERAL_ERROR");
   (0x00000006, "CKR_FUNCTION_FAILED"); (0x00000007, "CKR_ARGUMENTS_BAD");
   (0x00000010, "CKR_ATTRIBUTE_READ_ONLY"); (0x00000011, "CKR_ATTRIBUTE_SENSITIVE");
   (0x00000012, "CKR_ATTRIBUTE_TYPE_INVALID"); (0x00000013, "CKR_ATTRIBUTE_VALUE_INVALID");
   (0x00000020, "CKR_DATA_INVALID"); (0x00000021, "CKR_DATA_LEN_RANGE");
   (0x00000030, "CKR_DEVICE_ERROR"); (0x00000031, "CKR_DEVICE_MEMORY");
   (0x00000032, "CKR_DEVICE_REMOVED"); (0x00000050, "CKR_FUNCTION_CANCELED");
   (0x00000051, "CKR_FUNCTION_NOT_PARALLEL"); (0x00000054, "CKR_FUNCTION_NOT_SUPPORTED");
   (0x00000060, "CKR_KEY_HANDLE_INVALID"); (0x00000062, "CKR_KEY_SIZE_RANGE");
   (0x00000063, "CKR_KEY_TYPE_INCONSISTENT"); (0x00000070, "CKR_MECHANISM_INVALID");
   (0x00000071, "CKR_MECHANISM_PARAM_INVALID"); (0x00000082, "CKR_OBJECT_HANDLE_INVALID");
   (0x000000A0, "CKR_PIN_INCORRECT"); (0x000000A1, "CKR_PIN_INVALID");
   (0x000000A2, "CKR_PIN_LEN_RANGE"); (0x000000A4, "CKR_PIN_LOCKED");
   (0x000000B0, "CKR_SESSION_CLOSED"); (0x000000B1, "CKR_SESSION_COUNT");
   (0x000000B3, "CKR_SESSION_HANDLE_INVALID"); (0x000000B4, "CKR_SESSION_PARALLEL_NOT_SUPPORTED");
   (0x000000B5, "CKR_SESSION_READ_ONLY"); (0x000000B6, "CKR_SESSION_EXISTS");
   (0x000000B7, "CKR_SESSION_READ_ONLY_EXISTS"); (0x000000B8, "CKR_SESSION_READ_WRITE_SO_EXISTS");
   (0x000000C0, "CKR_SIGNATURE_INVALID"); (0x000000C1, "CKR_SIGNATURE_LEN_RANGE");
   (0x000000D0, "CKR_TEMPLATE_INCOMPLETE"); (0x000000D1, "CKR_TEMPLATE_INCONSISTENT");
   (0x000000E0, "CKR_TOKEN_NOT_PRESENT"); (0x000000E1, "CKR_TOKEN_NOT_RECOGNIZED");
   (0x000000E2, "CKR_TOKEN_WRITE_PROTECTED"); (0x00000100, "CKR_USER_ALREADY_LOGGED_IN");
   (0x00000101, "CKR_USER_NOT_LOGGED_IN"); (0x00000102, "CKR_USER_PIN_NOT_INITIALIZED");
   (0x00000103, "CKR_USER_TYPE_INVALID"); (0x00000150, "CKR_BUFFER_TOO_SMALL");
   (0x00000190, "CKR_CRYPTOKI_NOT_INITIALIZED");
   (0x00000191, "CKR_CRYPTOKI_ALREADY_INITIALIZED")]%string.
Definition ckr_name (rv : Z) : string :=
  default "CKR_UNKNOWN"%string (snd <$> find (λ r, r.1 =? rv) ckr_names).

(** A line, given the timing precision and the time since the logger was made. *)
Definition Line : Type := bool → Z → bytes.

(** The characters of a message that would end the text of a field. *)
Definition sanitize (msg : list Z) : list Z :=
  (λ c, if (c =? 34) || (c =? 92) || is_control c then 32 else c) <$> msg.

Definition poison_warning : bytes :=
  json_object [field "ts" (ascii_bytes "0"); field "fn" (quote (ascii_bytes "pkcs11-spy"));
               field "event" (quote (ascii_bytes "warning"));
               field "msg" (quote (ascii_bytes "logger re-initialized after mutex poisoning"))].
Definition loader_error_line (msg : list Z) : Line := λ _ elapsed,
  json_object [field "ts" (ts_micros elapsed); field "fn" (quote (ascii_bytes "pkcs11-spy"));
               field "event" (quote (ascii_bytes "loader_error")); field "msg" (quote (sanitize msg))].
(** [None] is a payload that is not a text. *)
Definition panic_line (func : string) (payload : option (list Z)) : Line := λ _ elapsed,
  let msg := default (ascii_bytes "<non-string panic>") payload in
  json_object [field "ts" (ts_micros elapsed); field "fn" (quote (ascii_bytes func));
               field "event" (quote (ascii_bytes "panic_caught")); field "msg" (quote (sanitize msg))].
Definition timestamp (full : bool) (elapsed : Z) : bytes :=
  if full then ts_micros elapsed else ts_millis elapsed.
Definition call_line (func : string) (args : bytes) : Line := λ full elapsed,
  json_object [field "ts" (timestamp full elapsed); field "fn" (quote (ascii_bytes func));
               field "event" (quote (ascii_bytes "call")); field "args" args].
Definition return_line (func : string) (rv duration_us : Z) : Line := λ full elapsed,
  json_object [field "ts" (timestamp full elapsed); field "fn" (quote (ascii_bytes func));
               field "event" (quote (ascii_bytes "return"));
               field "rv" (quote (ascii_bytes (ckr_name rv))); field "rv_code" (dec rv);
               if full then field "duration_us" (dec duration_us)
               else field "duration_ms" (dec (duration_us / 1000))].

(** ** The exported functions *)

(** How an argument appears in the line of a call; [Hex w] pads to [w] digits. *)
Inductive Shown :=
| Dec (key param : string) | Hex (width : nat) (key param : string) | Redacted (key : string).
(** A function: the parameters passed by value, the pointers, the pointers that must not
    be null, and what is logged. *)
Record Export := {
  ex_name : string;
  ex_values : list string;
  ex_pointers : list string;
  ex_checked : list string;
  ex_shown : list Shown;
}.
Definition spy (name : string) (values pointers checked : list string) (shown : list Shown) : Export :=
  {| ex_name := name; ex_values := values; ex_pointers := pointers; ex_checked := checked;
     ex_shown := shown |}.

(** Arguments by the name of the parameter; a pointer is its address. *)
Definition Args : Type := string → Z.

Definition shown_field (args : Args) (s : Shown) : bytes :=
  match s with
  | Dec key p => field key (dec (args p))
  | Hex w key p => field key (quote (hex_text w (args p)))
  | Redacted key => field key (quote (ascii_bytes "<redacted>"))
  end.
Definition args_text (ex : Export) (args : Args) : bytes := json_object (shown_field args <$> ex_shown ex).

Definition spy_exports : list Export :=
  [spy "C_Initialize" []
     ["pInitArgs"] [] [];
   spy "C_Finalize" []
     ["pReserved"] [] [];
   spy "C_GetInfo" []
     ["pInfo"] ["pInfo"] [];
   spy "C_GetFunctionList" []
     ["ppFunctionList"] ["ppFunctionList"] [];
   spy "C_GetSlotList" ["tokenPresent"]
     ["pSlotList"; "pulCount"] [] [Dec "token_present" "tokenPresent"];
   spy "C_GetSlotInfo" ["slotID"]
     ["pInfo"] [] [Dec "slot" "slotID"];
   spy "C_GetTokenInfo" ["slotID"]
     ["pInfo"] [] [Dec "slot" "slotID"];
   spy "C_InitToken" ["slotID"; "ulPinLen"]
     ["pPin"; "pLabel"] [] [Dec "slot" "slotID"; Redacted "pin_len"];
   spy "C_GetMechanismList" ["slotID"]
     ["pMechList"; "pulCount"] [] [Dec "slot" "slotID"];
   spy "C_GetMechanismInfo" ["slotID"; "mechType"]
     ["pInfo"] [] [Dec "slot" "slotID"; Hex 8 "mechanism" "mechType"];
   spy "C_OpenSession" ["slotID"; "flags"]
     ["pApp"; "notify"; "phSession"] [] [Dec "slot" "slotID"; Hex 0 "flags" "flags"];
   spy "C_CloseSession" ["hSession"]
     [] [] [Dec "session" "hSession"];
   spy "C_CloseAllSessions" ["slotID"]
     [] [] [Dec "slot" "slotID"];
   spy "C_GetSessionInfo" ["hSession"]
     ["pInfo"] [] [Dec "session" "hSession"];
   spy "C_Login" ["hSession"; "userType"; "ulPinLen"]
     ["pPin"] [] [Dec "session" "hSession"];
   spy "C_Logout" ["hSession"]
     [] [] [Dec "session" "hSession"];
   spy "C_InitPIN" ["hSession"; "ulPinLen"]
     ["pPin"] [] [Dec "session" "hSession"];
   spy "C_SetPIN" ["hSession"; "ulOldLen"; "ulNewLen"]
     ["pOldPin"; "pNewPin"] [] [Dec "session" "hSession"];
   spy "C_CreateObject" ["hSession"; "ulCount"]
     ["pTemplate"; "phObject"] [] [Dec "session" "hSession"; Dec "attr_count" "ulCount"];
   spy "C_DestroyObject" ["hSession"; "hObject"]
     [] [] [Dec "session" "hSession"; Dec "object" "hObject"];
   spy "C_GetObjectSize" ["hSession"; "hObject"]
     ["pulSize"] [] [Dec "session" "hSession"; Dec "object" "hObject"];
   spy "C_GetAttributeValue" ["hSession"; "hObject"; "ulCount"]
     ["pTemplate"] [] [Dec "session" "hSession"; Dec "object" "hObject"; Dec "attr_count" "ulCount"];
   spy "C_SetAttributeValue" ["hSession"; "hObject"; "ulCount"]
     ["pTemplate"] [] [Dec "session" "hSession"; Dec "object" "hObject"; Dec "attr_count" "ulCount"];
   spy "C_FindObjectsInit" ["hSession"; "ulCount"]
     ["pTemplate"] [] [Dec "session" "hSession"; Dec "attr_count" "ulCount"];
   spy "C_FindObjects" ["hSession"; "ulMaxCount"]
     ["phObject"; "pulCount"] [] [Dec "session" "hSession"; Dec "max_count" "ulMaxCount"];
   spy "C_FindObjectsFinal" ["hSession"]
     [] [] [Dec "session" "hSession"];
   spy "C_CopyObject" ["hSession"; "hObject"; "ulCount"]
     ["pTemplate"; "phNewObject"] [] [Dec "session" "hSession"; Dec "object" "hObject"; Dec "attr_count" "ulCount"];
   spy "C_EncryptInit" ["hSession"; "hKey"]
     ["pMechanism"] [] [Dec "session" "hSession"; Dec "key" "hKey"];
   spy "C_Encrypt" ["hSession"; "ulDataLen"]
     ["pData"; "pEncData"; "pulEncDataLen"] [] [Dec "session" "hSession"; Dec "data_len" "ulDataLen"];
   spy "C_EncryptUpdate" ["hSession"; "ulPartLen"]
     ["pPart"; "pEncPart"; "pulEncPartLen"] [] [Dec "session" "hSession"; Dec "part_len" "ulPartLen"];
   spy "C_EncryptFinal" ["hSession"]
     ["pLastEncPart"; "pulLastEncPartLen"] [] [Dec "session" "hSession"];
   spy "C_DecryptInit" ["hSession"; "hKey"]
     ["pMechanism"] [] [Dec "session" "hSession"; Dec "key" "hKey"];
   spy "C_Decrypt" ["hSession"; "ulEncDataLen"]
     ["pEncData"; "pData"; "pulDataLen"] [] [Dec "session" "hSession"; Dec "enc_data_len" "ulEncDataLen"];
   spy "C_DecryptUpdate" ["hSession"; "ulEncPartLen"]
     ["pEncPart"; "pPart"; "pulPartLen"] [] [Dec "session" "hSession"; Dec "enc_part_len" "ulEncPartLen"];
   spy "C_DecryptFinal" ["hSession"]
     ["pLastPart"; "pulLastPartLen"] [] [Dec "session" "hSession"];
   spy "C_SignInit" ["hSession"; "hKey"]
     ["pMechanism"] [] [Dec "session" "hSession"; Dec "key" "hKey"];
   spy "C_Sign" ["hSession"; "ulDataLen"]
     ["pData"; "pSignature"; "pulSignatureLen"] [] [Dec "session" "hSession"; Dec "data_len" "ulDataLen"];
   spy "C_SignUpdate" ["hSession"; "ulPartLen"]
     ["pPart"] [] [Dec "session" "hSession"; Dec "part_len" "ulPartLen"];
   spy "C_SignFinal" ["hSession"]
     ["pSignature"; "pulSignatureLen"] [] [Dec "session" "hSession"];
   spy "C_SignRecoverInit" ["hSession"; "hKey"]
     ["pMechanism"] [] [Dec "session" "hSession"; Dec "key" "hKey"];
   spy "C_SignRecover" ["hSession"; "ulDataLen"]
     ["pData"; "pSignature"; "pulSignatureLen"] [] [Dec "session" "hSession"; Dec "data_len" "ulDataLen"];
   spy "C_VerifyInit" ["hSession"; "hKey"]
     ["pMechanism"] [] [Dec "session" "hSession"; Dec "key" "hKey"];
   spy "C_Verify" ["hSession"; "ulDataLen"; "ulSignatureLen"]
     ["pData"; "pSignature"] [] [Dec "session" "hSession"; Dec "data_len" "ulDataLen"; Dec "sig_len" "ulSignatureLen"];
   spy "C_VerifyUpdate" ["hSession"; "ulPartLen"]
     ["pPart"] [] [Dec "session" "hSession"; Dec "part_len" "ulPartLen"];
   spy "C_VerifyFinal" ["hSession"; "ulSignatureLen"]
     ["pSignature"] [] [Dec "session" "hSession"; Dec "sig_len" "ulSignatureLen"];
   spy "C_VerifyRecoverInit" ["hSession"; "hKey"]
     ["pMechanism"] [] [Dec "session" "hSession"; Dec "key" "hKey"];
   spy "C_VerifyRecover" ["hSession"; "ulSignatureLen"]
     ["pSignature"; "pData"; "pulDataLen"] [] [Dec "session" "hSession"; Dec "sig_len" "ulSignatureLen"];
   spy "C_DigestInit" ["hSession"]
     ["pMechanism"] [] [Dec "session" "hSession"];
   spy "C_Digest" ["hSession"; "ulDataLen"]
     ["pData"; "pDigest"; "pulDigestLen"] [] [Dec "session" "hSession"; Dec "data_len" "ulDataLen"];
   spy "C_DigestUpdate" ["hSession"; "ulPartLen"]
     ["pPart"] [] [Dec "session" "hSession"; Dec "part_len" "ulPartLen"];
   spy "C_DigestKey" ["hSession"; "hKey"]
     [] [] [Dec "session" "hSession"; Dec "key" "hKey"];
   spy "C_DigestFinal" ["hSession"]
     ["pDigest"; "pulDigestLen"] [] [Dec "session" "hSession"];
   spy "C_DigestEncryptUpdate" ["hSession"; "ulPartLen"]
     ["pPart"; "pEncPart"; "pulEncPartLen"] [] [Dec "session" "hSession"; Dec "part_len" "ulPartLen"];
   spy "C_DecryptDigestUpdate" ["hSession"; "ulEncPartLen"]
     ["pEncPart"; "pPart"; "pulPartLen"] [] [Dec "session" "hSession"; Dec "enc_part_len" "ulEncPartLen"];
   spy "C_SignEncryptUpdate" ["hSession"; "ulPartLen"]
     ["pPart"; "pEncPart"; "pulEncPartLen"] [] [Dec "session" "hSession"; Dec "part_len" "ulPartLen"];
   spy "C_DecryptVerifyUpdate" ["hSession"; "ulEncPartLen"]
     ["pEncPart"; "pPart"; "pulPartLen"] [] [Dec "session" "hSession"; Dec "enc_part_len" "ulEncPartLen"];
   spy "C_GenerateKey" ["hSession"; "ulCount"]
     ["pMechanism"; "pTemplate"; "phKey"] [] [Dec "session" "hSession"; Dec "attr_count" "ulCount"];
   spy "C_GenerateKeyPair" ["hSession"; "ulPubCount"; "ulPrivCount"]
     ["pMechanism"; "pPubTemplate"; "pPrivTemplate"; "phPubKey"; "phPrivKey"] [] [Dec "session" "hSession"; Dec "pub_attrs" "ulPubCount"; Dec "priv_attrs" "ulPrivCount"];
   spy "C_WrapKey" ["hSession"; "hWrappingKey"; "hKey"]
     ["pMechanism"; "pWrappedKey"; "pulWrappedKeyLen"] [] [Dec "session" "hSession"; Dec "wrapping_key" "hWrappingKey"; Dec "key" "hKey"];
   spy "C_UnwrapKey" ["hSession"; "hUnwrappingKey"; "ulWrappedKeyLen"; "ulCount"]
     ["pMechanism"; "pWrappedKey"; "pTemplate"; "phKey"] [] [Dec "session" "hSession"; Dec "unwrapping_key" "hUnwrappingKey"; Dec "wrapped_len" "ulWrappedKeyLen"];
   spy "C_DeriveKey" ["hSession"; "hBaseKey"; "ulCount"]
     ["pMechanism"; "pTemplate"; "phKey"] [] [Dec "session" "hSession"; Dec "base_key" "hBaseKey"; Dec "attr_count" "ulCount"];
   spy "C_SeedRandom" ["hSession"; "ulSeedLen"]
     ["pSeed"] [] [Dec "session" "hSession"; Dec "seed_len" "ulSeedLen"];
   spy "C_GenerateRandom" ["hSession"; "ulRandomLen"]
     ["pRandomData"] [] [Dec "session" "hSession"; Dec "random_len" "ulRandomLen"];
   spy "C_GetOperationState" ["hSession"]
     ["pOpState"; "pulOpStateLen"] [] [Dec "session" "hSession"];
   spy "C_SetOperationState" ["hSession"; "ulOpStateLen"; "hEncKey"; "hAuthKey"]
     ["pOpState"] [] [Dec "session" "hSession"; Dec "state_len" "ulOpStateLen"];
   spy "C_GetFunctionStatus" ["hSession"]
     [] [] [Dec "session" "hSession"];
   spy "C_CancelFunction" ["hSession"]
     [] [] [Dec "session" "hSession"];
   spy "C_WaitForSlotEvent" ["flags"]
     ["pSlot"; "pReserved"] [] [Hex 0 "flags" "flags"]]%string.

(** ** Logger, loader and dispatch *)

Section Spy.
Context {H : HashPrimitives} {X : HexCodec}.
Context {W : Type}.

(** What a forwarded function does: it returns, or a panic is caught around it. *)
Inductive Outcome := Returned (rv : Z) (w : W) | Unwound (payload : option (list Z)) (w : W).
(** A loaded library: its symbols. *)
Definition Target : Type := string → option (Args → W → Outcome).

(** The surroundings of one call.  [se_meta], [se_hash] and [se_open] are what the path
    of the library leads to when it is examined, when it is hashed and when it is opened
    to be loaded; [se_dlopen] is the system's loader on the contents of a file. *)
Record SpyEnv := {
  se_log : EnvVar;
  se_full_timing : EnvVar;
  se_target : EnvVar;
  se_expected : EnvVar;
  se_fs : FileSystem;
  se_can_append : list Component → bool;
  se_utf8 : bytes → bool;
  se_meta : list Component → option Node;
  se_hash : list Component → option Node;
  se_open : list Component → option Node;
  se_dlopen : bytes → option Target;
}.

Inductive Sink := Stderr | LogFile (path : list Component).
#[export] Instance Sink_eq_dec : EqDecision Sink.
Proof. solve_decision. Defined.
Record SpyLogger := { lg_sink : Sink; lg_start : Z; lg_full : bool }.

(** The statics [LOGGER] (with the poison flag of its mutex) and [REAL_LIB], and all
    lines written so far. *)
Record SpyState := {
  sp_logger : option SpyLogger;
  sp_poisoned : bool;
  sp_lib : option (option Target);
  sp_out : list (Sink * bytes);
}.
#[export] Instance SpyState_expand : FieldExpansion SpyState := λ s,
  Build_SpyState (sp_logger s) (sp_poisoned s) (sp_lib s) (sp_out s).
Definition SpyState_new : SpyState :=
  {| sp_logger := None; sp_poisoned := false; sp_lib := None; sp_out := [] |}.

(** Two readings of the clock around an event, in nanoseconds: when a logger would be
    made, and when the line is written. *)
Record Ticks := { tk_new : Z; tk_read : Z }.

(** [SpyLogger::new]: where the lines go. *)
Definition log_sink (e : SpyEnv) : Sink :=
  match se_log e with
  | Text path =>
    let path := components path in
    match fs_canonicalize (se_fs e) (default [CurDir] (parent path)) with
    | None => Stderr
    | Some canonical_parent =>
      if negb (fs_is_dir (se_fs e) canonical_parent) then Stderr
      else
        let filename := default [] (file_name path) in
        let full_path := canonical_parent ++ component_of filename in
        if existsb (λ b, (b =? slash) || (b =? 92)) filename || occurs [dot; dot] filename
        then Stderr
        else if se_can_append e full_path then LogFile full_path else Stderr
    end
  | _ => Stderr
  end.
Definition resolve_full_timing_from_env (e : SpyEnv) : bool :=
  match se_full_timing e with
  | Text v => bool_decide (v = ascii_bytes "1") || eq_ignore_ascii_case v (ascii_bytes "true")
  | _ => false
  end.
Definition SpyLogger_new (e : SpyEnv) (now : Z) : SpyLogger :=
  {| lg_sink := log_sink e; lg_start := now; lg_full := resolve_full_timing_from_env e |}.

Definition write_line (lg : SpyLogger) (now : Z) (f : Line) : Sink * bytes :=
  (lg_sink lg, f (lg_full lg) (now - lg_start lg)).

(** [with_logger].  Taking the logger out of a poisoned mutex does not clear the flag. *)
Definition with_logger (e : SpyEnv) (t : Ticks) (f : Line) (s : SpyState) : SpyState :=
  if sp_poisoned s then
    let lg := SpyLogger_new e (tk_new t) in
    s <| sp_logger := Some lg |>
      <| sp_out := sp_out s ++ [(lg_sink lg, poison_warning); write_line lg (tk_read t) f] |>
  else
    let lg := default (SpyLogger_new e (tk_new t)) (sp_logger s) in
    s <| sp_logger := Some lg |> <| sp_out := sp_out s ++ [write_line lg (tk_read t) f] |>.

(** *** Loading *)

Inductive LoaderError := InvalidExpectedDigest | Io | Mismatch.

(** [verify_sha256] of what [se_hash] finds. *)
Definition is_hex (b : Z) : bool := in_range 48 b 57 || in_range 97 b 102 || in_range 65 b 70.
Definition verify_sha256 (e : SpyEnv) (path : list Component) (expected_hex : bytes) :
    Result LoaderError unit :=
  let expected_norm := to_lower <$> trim expected_hex in
  if negb (length expected_norm =? 64)%nat || negb (forallb is_hex expected_norm)
  then Err InvalidExpectedDigest
  else
    match se_hash e path with
    | Some n =>
      if negb (n_readable n) then Err Io
      else if negb (bool_decide (ascii_bytes (hex_encode (sha256 (n_content n))) = expected_norm))
      then Err Mismatch
      else Ok tt
    | None => Err Io
    end.

(** A name that looks like a shared library. *)
Definition library_name (e : SpyEnv) (path : list Component) : bool :=
  let name := default [] (file_name path) in
  let name := if se_utf8 e name then name else [] in
  bool_decide (extension name ∈ Some <$> (ascii_bytes <$> ["so"; "dylib"; "dll"]%string))
  || occurs (ascii_bytes ".so") name.

(** The closure of [load_library], on Linux. *)
Definition find_library (e : SpyEnv) (t : Ticks) (s : SpyState) : option Target * SpyState :=
  match se_target e with
  | Text raw_path =>
    match fs_canonicalize (se_fs e) (components raw_path) with
    | None => (None, s)
    | Some canonical =>
      match se_meta e canonical with
      | None => (None, s)
      | Some metadata =>
        if negb (n_is_file metadata)
        then (None, with_logger e t
                (loader_error_line (ascii_bytes "PKCS11_SPY_TARGET must point to a regular file")) s)
        else if negb (library_name e canonical) then (None, s)
        else
          let verified := match se_expected e with
                          | Text expected =>
                            match verify_sha256 e canonical expected with Ok _ => true | Err _ => false end
                          | Unset | NotUnicode => true
                          end in
          if negb verified then (None, s)
          else
            match se_open e canonical with
            | None => (None, s)
            | Some file =>
              if negb (n_readable file) then (None, s)
              else if negb (n_is_file file)
              then (None, with_logger e t
                      (loader_error_line (ascii_bytes "PKCS11_SPY_TARGET fd is not a regular file")) s)
              else (se_dlopen e (n_content file), s)
            end
      end
    end
  | Unset | NotUnicode => (None, s)
  end.

(** [load_library]: the first outcome is kept. *)
Definition load_library (e : SpyEnv) (t : Ticks) (s : SpyState) : option Target * SpyState :=
  match sp_lib s with
  | Some lib => (lib, s)
  | None => let '(lib, s) := find_library e t s in (lib, s <| sp_lib := Some lib |>)
  end.

(** [resolve]. *)
Definition resolve (e : SpyEnv) (t : Ticks) (name : string) (s : SpyState) :
    option (Args → W → Outcome) * SpyState :=
  let '(lib, s) := load_library e t s in (lib ≫= λ l, l name, s).

(** *** Dispatch *)

(** The clock during a call: at the line of the call, while the library is looked for,
    and at the line of the return; [ct_duration] is in microseconds. *)
Record CallTimes := { ct_call : Ticks; ct_load : Ticks; ct_return : Ticks; ct_duration : Z }.

(** The body that both macros generate, for an export. *)
Definition spy_call (ex : Export) (e : SpyEnv) (t : CallTimes) (args : Args) (s : SpyState) (w : W) :
    Z * SpyState * W :=
  if existsb (λ p, args p =? 0) (ex_checked ex) then
    let s := with_logger e (ct_call t)
               (call_line (ex_name ex) (quote (ascii_bytes "<null pointer rejected>"))) s in
    let s := with_logger e (ct_return t) (return_line (ex_name ex) 0x07 0) s in
    (CKR_ARGUMENTS_BAD, s, w)
  else
    let s := with_logger e (ct_call t) (call_line (ex_name ex) (args_text ex args)) s in
    let '(f, s) := resolve e (ct_load t) (ex_name ex) s in
    match match f with Some f => f args w | None => Returned CKR_FUNCTION_NOT_SUPPORTED w end with
    | Returned rv w =>
      (rv, with_logger e (ct_return t) (return_line (ex_name ex) rv (ct_duration t)) s, w)
    | Unwound payload w =>
      (CKR_GENERAL_ERROR, with_logger e (ct_return t) (panic_line (ex_name ex) payload) s, w)
    end.

(** A program that uses the spy: each call names an export. *)
Record SpyCall := {
  sc_export : Export;
  sc_env : SpyEnv;
  sc_times : CallTimes;
  sc_args : Args;
}.
Fixpoint spy_run (cs : list SpyCall) (s : SpyState) (w : W) : list Z * SpyState * W :=
  match cs with
  | [] => ([], s, w)
  | c :: cs =>
    let '(rv, s, w) := spy_call (sc_export c) (sc_env c) (sc_times c) (sc_args c) s w in
    let '(rvs, s, w) := spy_run cs s w in (rv :: rvs, s, w)
  end.
End Spy.
Arguments Outcome : clear implicits.
Arguments Target : clear implicits.
Arguments SpyEnv : clear implicits.
Arguments SpyState : clear implicits.
Arguments SpyCall : clear implicits.
