(* ===== verification/SpyProofs.v ===== *)
(** * Correctness of the PKCS#11 spy

    The spy answers as the wrapped library does, its log is a sequence of JSON objects
    that depend on no memory, PIN length or user type and on time only to the millisecond,
    and a library is loaded only if the file that was hashed has the expected digest.  Also
    what it does not do: see the calls made through the function list, and hash the file it
    loads. *)

From S2P Require Import Prelude Pkcs11 Hash PinCrypto TokenFiles Dates AuditChain Config Backup AuditExport AuditExportProofs Operations Spy.

Section SpyProofs.
Context {H : HashPrimitives} {X : HexCodec}.
Context {W : Type}.
Implicit Types (s : SpyState W) (w : W) (e : SpyEnv W) (c : SpyCall W).

(** ** Transparency *)

(** The logger has been made and the library looked for. *)
Definition ready (lg : SpyLogger) (lib : option (Target W)) s : Prop :=
  sp_logger s = Some lg ∧ sp_poisoned s = false ∧ sp_lib s = Some lib.

Definition grow s (ls : list (Sink * bytes)) : SpyState W := s <| sp_out := sp_out s ++ ls |>.

Lemma grow_ready lg lib s ls : ready lg lib s → ready lg lib (grow s ls).
Proof. done. Qed.
Lemma grow_grow s a b : grow (grow s a) b = grow s (a ++ b).
Proof. unfold grow. simpl. by rewrite app_assoc. Qed.

Lemma with_logger_ready lg lib e t f s : ready lg lib s →
  with_logger e t f s = grow s [write_line lg (tk_read t) f].
Proof.
  intros (Hl & Hp & _). unfold with_logger, grow. rewrite Hp, Hl. destruct s. simpl in *. by subst.
Qed.
Lemma resolve_ready lg lib e t name s : ready lg lib s →
  resolve e t name s = (lib ≫= λ l, l name, s).
Proof. intros (_ & _ & Hl). unfold resolve, load_library. by rewrite Hl. Qed.

(** The library's own answer, with what the spy makes of a panic. *)
Definition answer (o : Outcome W) : Z * W :=
  match o with Returned rv w => (rv, w) | Unwound _ w => (CKR_GENERAL_ERROR, w) end.
Definition last_line (ex : Export) (t : CallTimes) (o : Outcome W) : Line :=
  match o with
  | Returned rv _ => return_line (ex_name ex) rv (ct_duration t)
  | Unwound payload _ => panic_line (ex_name ex) payload
  end.

(** What a call does to a library, and the two lines of an accepted one. *)
Definition forwarded (lib : option (Target W)) (ex : Export) (args : Args) w : Outcome W :=
  match lib ≫= λ l, l (ex_name ex) with
  | Some f => f args w
  | None => Returned CKR_FUNCTION_NOT_SUPPORTED w
  end.
Definition call_lines (lg : SpyLogger) (ex : Export) (t : CallTimes) (args : Args) (o : Outcome W) :
    list (Sink * bytes) :=
  [write_line lg (tk_read (ct_call t)) (call_line (ex_name ex) (args_text ex args));
   write_line lg (tk_read (ct_return t)) (last_line ex t o)].
Definition refused_lines (lg : SpyLogger) (ex : Export) (t : CallTimes) : list (Sink * bytes) :=
  [write_line lg (tk_read (ct_call t))
     (call_line (ex_name ex) (quote (ascii_bytes "<null pointer rejected>")));
   write_line lg (tk_read (ct_return t)) (return_line (ex_name ex) 0x07 0)].

Definition null_checked (ex : Export) (args : Args) : bool := existsb (λ p, args p =? 0) (ex_checked ex).

Lemma spy_call_ready lg lib ex e t args s w : ready lg lib s →
  spy_call ex e t args s w =
  if null_checked ex args then (CKR_ARGUMENTS_BAD, grow s (refused_lines lg ex t), w)
  else let o := forwarded lib ex args w in
       ((answer o).1, grow s (call_lines lg ex t args o), (answer o).2).
Proof.
  intros Hr. unfold spy_call, null_checked. destruct (existsb _ _).
  - rewrite (with_logger_ready lg lib _ _ _ s), (with_logger_ready lg lib) by done.
    by rewrite grow_grow.
  - rewrite (with_logger_ready lg lib _ _ _ s) by done. rewrite (resolve_ready lg lib) by done.
    fold (forwarded lib ex args w). destruct (forwarded lib ex args w);
      rewrite (with_logger_ready lg lib) by done; by rewrite grow_grow.
Qed.

(** The same program on the library alone. *)
Fixpoint direct_run (lib : Target W) (cs : list (SpyCall W)) w : list Z * W :=
  match cs with
  | [] => ([], w)
  | c :: cs =>
    let '(rv, w) := answer (forwarded (Some lib) (sc_export c) (sc_args c) w) in
    let '(rvs, w) := direct_run lib cs w in (rv :: rvs, w)
  end.
Fixpoint run_lines (lg : SpyLogger) (lib : Target W) (cs : list (SpyCall W)) w : list (Sink * bytes) :=
  match cs with
  | [] => []
  | c :: cs =>
    let o := forwarded (Some lib) (sc_export c) (sc_args c) w in
    call_lines lg (sc_export c) (sc_times c) (sc_args c) o ++ run_lines lg lib cs (answer o).2
  end.

(** C33: The spy is transparent.  Once its logger exists and the library is loaded, a
    program whose calls pass the null checks gets from the spy, call by call, the very
    return values the library alone would give and leaves the process and the library in
    the very same state; the log has gained exactly two lines per call, the call with its
    arguments and the return with its value (or the panic that was caught), in order. *)
Theorem spy_transparent lg lib cs s w :
  ready lg (Some lib) s →
  Forall (λ c, null_checked (sc_export c) (sc_args c) = false) cs →
  spy_run cs s w = ((direct_run lib cs w).1, grow s (run_lines lg lib cs w), (direct_run lib cs w).2) ∧
  ready lg (Some lib) (spy_run cs s w).1.2.
Proof.
  intros Hr Hc. cut (spy_run cs s w =
    ((direct_run lib cs w).1, grow s (run_lines lg lib cs w), (direct_run lib cs w).2)).
  { intros ->. done. }
  revert s w Hr. induction Hc as [|c cs Hn _ IH]; intros s w Hr.
  - unfold grow. simpl. destruct s. simpl. by rewrite app_nil_r.
  - cbn [spy_run direct_run run_lines]. rewrite (spy_call_ready lg (Some lib) _ _ _ _ s w Hr), Hn.
    destruct (answer _) as [rv w'] eqn:Ha. cbn [fst snd].
    rewrite IH by done. rewrite grow_grow, !Ha. cbn [fst snd]. by destruct (direct_run lib cs w').
Qed.

(** ** What the log shows *)

(** The lengths of PINs and the user type. *)
Definition secret_params : list string := ["ulPinLen"; "ulOldLen"; "ulNewLen"; "userType"]%string.
Definition shown_param (x : Shown) : list string :=
  match x with Dec _ p | Hex _ _ p => [p] | Redacted _ => [] end.
Definition public_param (ex : Export) (p : string) : Prop := p ∈ ex_values ex ∧ p ∉ secret_params.

Lemma shown_public :
  Forall (λ ex, Forall (public_param ex) (ex_shown ex ≫= shown_param)) spy_exports.
Proof. apply (bool_decide_unpack _). vm_compute. exact I. Qed.

Lemma args_text_public ex a1 a2 : ex ∈ spy_exports →
  (∀ p, public_param ex p → a1 p = a2 p) → args_text ex a1 = args_text ex a2.
Proof.
  intros Hex Heq. pose proof (proj1 (Forall_forall _ _) shown_public ex Hex) as Hs.
  unfold args_text. f_equal. apply list_fmap_ext. intros i x Hx.
  apply list_elem_of_lookup_2 in Hx. rewrite Forall_forall in Hs.
  destruct x as [k p|n k p|k]; simpl; try done; rewrite (Heq p); try done; apply Hs;
    apply list_elem_of_bind; eexists; (split; [|exact Hx]); simpl; set_solver.
Qed.

(** Two moments, and two calls, that the log cannot tell apart at the default precision. *)
Definition same_millis (lg : SpyLogger) (t1 t2 : Ticks) : Prop :=
  ts_millis (tk_read t1 - lg_start lg) = ts_millis (tk_read t2 - lg_start lg).
Definition alike (lg : SpyLogger) (c1 c2 : SpyCall W) : Prop :=
  sc_export c1 = sc_export c2 ∧ sc_export c1 ∈ spy_exports ∧
  null_checked (sc_export c1) (sc_args c1) = null_checked (sc_export c2) (sc_args c2) ∧
  (∀ p, public_param (sc_export c1) p → sc_args c1 p = sc_args c2 p) ∧
  same_millis lg (ct_call (sc_times c1)) (ct_call (sc_times c2)) ∧
  same_millis lg (ct_return (sc_times c1)) (ct_return (sc_times c2)) ∧
  ct_duration (sc_times c1) / 1000 = ct_duration (sc_times c2) / 1000.
Definition returns (lib : Target W) : Prop :=
  ∀ name f args w, lib name = Some f → ∃ rv w', f args w = Returned rv w'.

Lemma alike_lines lg c1 c2 rv w1 w2 : lg_full lg = false → alike lg c1 c2 →
  call_lines lg (sc_export c1) (sc_times c1) (sc_args c1) (Returned rv w1) =
    call_lines lg (sc_export c2) (sc_times c2) (sc_args c2) (Returned rv w2) ∧
  refused_lines lg (sc_export c1) (sc_times c1) = refused_lines lg (sc_export c2) (sc_times c2).
Proof.
  intros Hf (He & Hex & _ & Hp & Ht1 & Ht2 & Hd). unfold same_millis in *.
  unfold call_lines, refused_lines, write_line, last_line, call_line, return_line, timestamp.
  rewrite Hf, <-He, Ht1, Ht2, Hd, (args_text_public _ (sc_args c1) (sc_args c2)) by done. done.
Qed.


Lemma forwarded_returns lib ex args w : returns lib →
  ∃ rv w', forwarded (Some lib) ex args w = Returned rv w'.
Proof.
  unfold forwarded. simpl. intros Hl. destruct (lib (ex_name ex)) as [f|] eqn:Hf; [|eauto].
  by eapply Hl.
Qed.

End SpyProofs.

(** ** The lines are JSON *)

(** Characters that stand for themselves in a JSON string. *)
Definition plain (c : Z) : Prop := 32 <= c ∧ c ≠ 34 ∧ c ≠ 92.
Definition digit (c : Z) : Prop := 48 <= c <= 57.

Inductive json : bytes → Prop :=
| json_int n : 0 <= n → json (dec n)
| json_frac n ds : 0 <= n → ds ≠ [] → Forall digit ds → json (dec n ++ [46] ++ ds)
| json_string t : Forall plain t → json (quote t)
| json_fields (fs : list (bytes * bytes)) :
  Forall (λ kv, Forall plain kv.1) fs → Forall (λ kv, json kv.2) fs →
  json (json_object ((λ kv, quote kv.1 ++ [58] ++ kv.2) <$> fs)).

(** A field that may appear in an object. *)
Definition json_field (f : bytes) : Prop :=
  ∃ key value, f = field key value ∧ Forall plain (ascii_bytes key) ∧ json value.

Lemma json_object_fields fs : Forall json_field fs → json (json_object fs).
Proof.
  intros Hfs.
  assert (∃ kvs, fs = (λ kv, quote kv.1 ++ [58] ++ kv.2) <$> kvs ∧
    Forall (λ kv, Forall plain kv.1) kvs ∧ Forall (λ kv, json kv.2) kvs) as (kvs & -> & Hk & Hv).
  { induction Hfs as [|f fs (k & v & -> & Hk & Hv) _ (kvs & -> & IHk & IHv)]; [by exists []|].
    exists ((ascii_bytes k, v) :: kvs). split_and!; by constructor. }
  by constructor.
Qed.

Lemma dec_pad_digits n q : 0 <= q → Forall digit (dec_pad n q) ∧ dec_pad n q ≠ [].
Proof.
  intros Hq. unfold dec_pad, dec. pose proof (dec_digits_digits 20 q Hq) as Hd. split.
  - apply Forall_app. split; [|done]. apply Forall_replicate. unfold digit. lia.
  - intros [_ Hn]%app_nil. cbn [dec_digits] in Hn. destruct (q <? 10); [done|].
    by apply app_nil in Hn as [].
Qed.

Lemma fixed_point_json n q : 0 <= q → json (fixed_point n q).
Proof.
  intros Hq. unfold fixed_point. assert (0 < 10 ^ Z.of_nat n) by (apply Z.pow_pos_nonneg; lia).
  destruct (dec_pad_digits n (q mod 10 ^ Z.of_nat n)); [by apply Z.mod_pos_bound|].
  constructor; [by apply Z.div_pos|done..].
Qed.

Lemma timestamp_json full elapsed : 0 <= elapsed → json (timestamp full elapsed).
Proof.
  intros. unfold timestamp, ts_micros, ts_millis.
  destruct full; apply fixed_point_json; apply Z.div_pos; lia.
Qed.
Lemma ts_micros_json elapsed : 0 <= elapsed → json (ts_micros elapsed).
Proof. apply (timestamp_json true). Qed.

Lemma sanitize_plain msg : Forall (λ c, 0 <= c) msg → Forall plain (sanitize msg).
Proof.
  unfold sanitize. intros Hm. apply Forall_fmap. eapply Forall_impl; [exact Hm|]. intros c Hc.
  simpl in *. unfold plain, is_control, in_range. destruct (_ || _ || _) eqn:E; [lia|].
  rewrite !orb_false_iff, !andb_false_iff in E. lia.
Qed.

Lemma hex_digits_plain fuel n : 0 <= n → Forall plain (hex_digits fuel n).
Proof.
  revert n. induction fuel as [|fuel IH]; intros n Hn; [constructor|]. cbn [hex_digits].
  assert (∀ d, 0 <= d < 16 → plain (hex_lower d)) as Hd.
  { intros d Hd. unfold plain, hex_lower. destruct (d <? 10) eqn:?; lia. }
  destruct (Z.ltb_spec n 16).
  - constructor; [|constructor]. apply Hd. lia.
  - apply Forall_app. split; [apply IH, Z.div_pos; lia|].
    constructor; [|constructor]. apply Hd, Z.mod_pos_bound. lia.
Qed.

(** *** Each kind of line *)

Lemma field_json key value : Forall plain (ascii_bytes key) → json value → json_field (field key value).
Proof. by exists key, value. Qed.

Lemma plain_literal t : forallb (λ c, (32 <=? c) && negb (c =? 34) && negb (c =? 92)) t = true →
  Forall plain t.
Proof.
  rewrite forallb_forall, Forall_forall. intros Ht c Hc. apply list_elem_of_In, Ht in Hc.
  unfold plain. lia.
Qed.
Lemma plain_nonneg t : Forall plain t → Forall (λ c, 0 <= c) t.
Proof. intros Ht. eapply Forall_impl; [exact Ht|]. unfold plain. lia. Qed.

Create HintDb json.
#[local] Hint Resolve timestamp_json ts_micros_json sanitize_plain plain_nonneg json_int json_string : json.
#[local] Hint Extern 5 (Forall plain (ascii_bytes _)) => apply plain_literal; reflexivity : json.
#[local] Hint Extern 5 (0 <= _ / _) => apply Z.div_pos; lia : json.
#[local] Hint Extern 9 (0 <= _) => lia : json.
Ltac solve_json :=
  apply json_object_fields; repeat (apply Forall_cons; split); try apply Forall_nil;
  try (apply field_json; [apply plain_literal; reflexivity|]); auto 6 with json.

(** Lines that are JSON whenever they are written. *)
Definition json_line (f : Line) : Prop := ∀ full elapsed, 0 <= elapsed → json (f full elapsed).

Lemma export_name_plain ex : ex ∈ spy_exports → Forall plain (ascii_bytes (ex_name ex)).
Proof.
  revert ex. apply Forall_forall. eapply (Forall_impl (λ ex, forallb _ (ascii_bytes (ex_name ex)) = true));
    [|intros ex; apply plain_literal]. apply (bool_decide_unpack _). vm_compute. exact I.
Qed.
Lemma ckr_name_plain rv : Forall plain (ascii_bytes (ckr_name rv)).
Proof.
  unfold ckr_name. destruct (find _ ckr_names) as [[k n]|] eqn:Hf; [|apply plain_literal; reflexivity].
  apply find_some in Hf as [Hin _]. simpl. apply list_elem_of_In in Hin.
  assert (Forall (λ r, forallb (λ c, (32 <=? c) && negb (c =? 34) && negb (c =? 92))
    (ascii_bytes r.2) = true) ckr_names) as Ht by (apply (bool_decide_unpack _); vm_compute; exact I).
  apply plain_literal. exact (proj1 (Forall_forall _ _) Ht _ Hin).
Qed.
#[local] Hint Resolve export_name_plain ckr_name_plain : json.

Lemma loader_error_json msg : Forall (λ c, 0 <= c) msg → json_line (loader_error_line msg).
Proof. intros Hm full elapsed Ht. unfold loader_error_line. solve_json. Qed.
Lemma panic_json ex payload : ex ∈ spy_exports →
  Forall (λ c, 0 <= c) (default [] payload) → json_line (panic_line (ex_name ex) payload).
Proof.
  intros Hex Hm full elapsed Ht. unfold panic_line. solve_json.
  apply json_string, sanitize_plain. destruct payload; [done|]. apply plain_nonneg, plain_literal. reflexivity.
Qed.
Lemma call_json ex args : ex ∈ spy_exports → json args → json_line (call_line (ex_name ex) args).
Proof. intros Hex Ha full elapsed Ht. unfold call_line. solve_json. Qed.
Lemma return_json ex rv duration : ex ∈ spy_exports → 0 <= rv → 0 <= duration →
  json_line (return_line (ex_name ex) rv duration).
Proof.
  intros Hex Hr Hd full elapsed Ht. unfold return_line. solve_json.
  destruct full; (apply field_json; [apply plain_literal; reflexivity|]); auto with json.
Qed.

Lemma shown_keys_plain : Forall (λ ex, Forall (λ x : Shown,
  forallb (λ c, (32 <=? c) && negb (c =? 34) && negb (c =? 92))
    (ascii_bytes match x with Dec k _ | Hex _ k _ | Redacted k => k end) = true) (ex_shown ex)) spy_exports.
Proof. apply (bool_decide_unpack _). vm_compute. exact I. Qed.

Lemma args_text_json ex args : ex ∈ spy_exports → (∀ p, 0 <= args p) → json (args_text ex args).
Proof.
  intros Hex Ha. pose proof (proj1 (Forall_forall _ _) shown_keys_plain ex Hex) as Hk.
  apply json_object_fields, Forall_fmap. eapply Forall_impl; [exact Hk|]. intros x Hx. simpl.
  destruct x; (apply field_json; [by apply plain_literal|]); auto with json.
  apply json_string. unfold hex_text. apply Forall_app. split; [apply plain_literal; reflexivity|].
  apply Forall_app. split; [apply Forall_replicate; unfold plain; lia|]. by apply hex_digits_plain.
Qed.

Section Invariant.
Context {H : HashPrimitives} {X : HexCodec}.
Context {W : Type}.
Implicit Types (s : SpyState W) (w : W) (e : SpyEnv W) (c : SpyCall W).

(** Return values are unsigned and messages are texts. *)
Definition c_types (lib : Target W) : Prop :=
  ∀ name f args w, lib name = Some f →
  match f args w with
  | Returned rv _ => 0 <= rv
  | Unwound payload _ => Forall (λ b, 0 <= b) (default [] payload)
  end.
(** The clock does not go back, from [now] through the events of a call. *)
Definition timely (now : Z) (t : CallTimes) : Prop :=
  now <= tk_new (ct_call t) <= tk_read (ct_call t) ∧
  tk_read (ct_call t) <= tk_new (ct_load t) <= tk_read (ct_load t) ∧
  tk_read (ct_load t) <= tk_new (ct_return t) <= tk_read (ct_return t) ∧ 0 <= ct_duration t.
Fixpoint sensible (now : Z) (cs : list (SpyCall W)) : Prop :=
  match cs with
  | [] => True
  | c :: cs =>
    sc_export c ∈ spy_exports ∧ (∀ p, 0 <= sc_args c p) ∧ timely now (sc_times c) ∧
    (∀ content lib, se_dlopen (sc_env c) content = Some lib → c_types lib) ∧
    sensible (tk_read (ct_return (sc_times c))) cs
  end.

Definition log_ok (now : Z) s : Prop :=
  (∀ lg, sp_logger s = Some lg → lg_start lg <= now) ∧
  (∀ lib, sp_lib s = Some (Some lib) → c_types lib) ∧ Forall (λ l, json l.2) (sp_out s).

Lemma log_ok_later now now' s : log_ok now s → now <= now' → log_ok now' s.
Proof. intros (Hl & Hlib & Ho) Hle. split; [|done]. intros lg Hlg. specialize (Hl lg Hlg). lia. Qed.

Lemma poison_warning_json : json poison_warning.
Proof.
  unfold poison_warning. solve_json.
  change (ascii_bytes "0") with (dec 0). auto with json.
Qed.

Lemma with_logger_log_ok now e t f s : log_ok now s → now <= tk_new t <= tk_read t → json_line f →
  log_ok (tk_read t) (with_logger e t f s).
Proof.
  intros (Hl & Hlib & Ho) Ht Hf. unfold with_logger, write_line.
  destruct (sp_poisoned s); [|destruct (sp_logger s) as [lg|]]; (split_and!; simpl;
    [intros ? [= <-]; simpl|done|apply Forall_app; split; [done|]]).
  - lia.
  - repeat constructor; [apply poison_warning_json|apply Hf; simpl; lia].
  - specialize (Hl lg eq_refl). lia.
  - repeat constructor. apply Hf. specialize (Hl lg eq_refl). lia.
  - lia.
  - repeat constructor. apply Hf. simpl. lia.
Qed.

Lemma load_library_log_ok now e t s : log_ok now s → now <= tk_new t <= tk_read t →
  (∀ content lib, se_dlopen e content = Some lib → c_types lib) →
  log_ok (tk_read t) (load_library e t s).2 ∧
  (∀ lib, (load_library e t s).1 = Some lib → c_types lib).
Proof.
  intros Hs Ht Hd. assert (log_ok (tk_read t) s) as Hs' by (eapply log_ok_later; [done|lia]).
  unfold load_library. destruct (sp_lib s) as [lib|] eqn:Hlib.
  { split; [done|]. intros l Hl. simpl in Hl. subst lib. by apply Hs. }
  assert (log_ok (tk_read t) (find_library e t s).2 ∧
    (∀ lib, (find_library e t s).1 = Some lib → c_types lib)) as [Hf Hl].
  { unfold find_library. repeat case_match; simpl; try done; split; try done;
      try (intros ? Hx; by eapply Hd);
      (eapply with_logger_log_ok; [exact Hs|exact Ht|apply loader_error_json, plain_nonneg, plain_literal; reflexivity]). }
  destruct (find_library e t s) as [l s']. simpl in *. split; [|done].
  destruct Hf as (Hf1 & _ & Hf3). split_and!; simpl; [done| |done]. intros lib [= ->]. by apply Hl.
Qed.

Lemma spy_call_log_ok now ex e t args s w :
  log_ok now s → ex ∈ spy_exports → (∀ p, 0 <= args p) → timely now t →
  (∀ content lib, se_dlopen e content = Some lib → c_types lib) →
  log_ok (tk_read (ct_return t)) (spy_call ex e t args s w).1.2.
Proof.
  intros Hs Hex Ha (Ht1 & Ht2 & Ht3 & Hdur) Hd. unfold spy_call. destruct (existsb _ _).
  { cbn [fst snd]. eapply with_logger_log_ok; [eapply with_logger_log_ok; [done|done|]|lia|].
    - apply call_json; [done|]. apply json_string, plain_literal. reflexivity.
    - apply return_json; [done|lia..]. }
  assert (log_ok (tk_read (ct_call t))
    (with_logger e (ct_call t) (call_line (ex_name ex) (args_text ex args)) s)) as Hc.
  { eapply with_logger_log_ok; [done|done|]. apply call_json; [done|]. by apply args_text_json. }
  pose proof (load_library_log_ok _ e (ct_load t) _ Hc Ht2 Hd) as [Hl Hty].
  unfold resolve. destruct (load_library _ _ _) as [lib s']. simpl in Hl, Hty.
  destruct (lib ≫= λ l, l (ex_name ex)) as [f|] eqn:Hf.
  - destruct lib as [lib|]; [|done]. simpl in Hf. specialize (Hty lib eq_refl _ _ args w Hf).
    destruct (f args w); cbn [fst snd]; (eapply with_logger_log_ok; [exact Hl|lia|]);
      [by apply return_json|by apply panic_json].
  - cbn [fst snd]. eapply with_logger_log_ok; [exact Hl|lia|]. by apply return_json.
Qed.

End Invariant.

(** ** What is loaded *)

Section Loader.
Context {H : HashPrimitives} {X : HexCodec}.
Context {W : Type}.
Implicit Types (s : SpyState W) (w : W) (e : SpyEnv W).

(** The environment with another file in place by the time it is opened. *)
Definition replaced (f : Node) e : SpyEnv W :=
  {| se_log := se_log e; se_full_timing := se_full_timing e; se_target := se_target e;
     se_expected := se_expected e; se_fs := se_fs e; se_can_append := se_can_append e;
     se_utf8 := se_utf8 e; se_meta := se_meta e; se_hash := se_hash e;
     se_open := λ _, Some f; se_dlopen := se_dlopen e |}.

Lemma verify_sha256_ok e path x : verify_sha256 e path x = Ok tt →
  ∃ n, se_hash e path = Some n ∧
    ascii_bytes (hex_encode (sha256 (n_content n))) = to_lower <$> trim x.
Proof.
  unfold verify_sha256. case_match; [done|]. destruct (se_hash e path) as [n|]; [|done].
  case_match; [done|]. case_match eqn:E; [done|]. bool_to_prop. eauto.
Qed.

(** What the loader accepts.  If a library is loaded, the configured path led to a
    regular file with the name of a shared library, and, when an expected digest is
    configured, the file that was hashed has that digest; so has the library itself if the
    path leads to the same file when it is hashed and when it is opened.  But the file is
    opened again by its path after it was hashed: whatever readable regular file is put
    there in between is loaded instead. *)
Theorem spy_loads_checked e t s lib s' :
  find_library e t s = (Some lib, s') →
  s' = s ∧
  ∃ raw canonical m f, se_target e = Text raw ∧
  fs_canonicalize (se_fs e) (components raw) = Some canonical ∧
  se_meta e canonical = Some m ∧ n_is_file m = true ∧ library_name e canonical = true ∧
  se_open e canonical = Some f ∧ n_is_file f = true ∧ se_dlopen e (n_content f) = Some lib ∧
  (∀ x, se_expected e = Text x →
     (∃ n, se_hash e canonical = Some n ∧
       ascii_bytes (hex_encode (sha256 (n_content n))) = to_lower <$> trim x) ∧
     (se_open e canonical = se_hash e canonical →
       ascii_bytes (hex_encode (sha256 (n_content f))) = to_lower <$> trim x)) ∧
  (∀ f', n_is_file f' = true → n_readable f' = true →
     find_library (replaced f' e) t s = (se_dlopen e (n_content f'), s)).
Proof.
  unfold find_library at 1. intros Hf.
  destruct (se_target e) as [| |raw] eqn:Ht; try done.
  destruct (fs_canonicalize _ _) as [canonical|] eqn:Hc; [|done].
  destruct (se_meta e canonical) as [m|] eqn:Hm; [|done].
  destruct (n_is_file m) eqn:Hmf; [|done]. cbn [negb] in Hf.
  destruct (library_name e canonical) eqn:Hn; [|done]. cbn [negb] in Hf.
  destruct (match se_expected e with Text _ => _ | _ => true end) eqn:Hv in Hf; [|done]. cbn [negb] in Hf.
  destruct (se_open e canonical) as [f|] eqn:Ho; [|done].
  destruct (n_readable f) eqn:Hr; [|done]. destruct (n_is_file f) eqn:Hff; [|done].
  cbn [negb] in Hf. injection Hf as Hdl <-. split; [done|].
  exists raw, canonical, m, f. split_and!; try done.
  - intros x Hx. rewrite Hx in Hv.
    destruct (verify_sha256 e canonical x) as [[]|] eqn:Hh; [|done].
    destruct (verify_sha256_ok _ _ _ Hh) as (n & Hn1 & Hn2). split; [by exists n|].
    rewrite Hn1, Ho. by intros [= ->].
  - intros f' Hf' Hr'. unfold find_library.
    cbn [replaced se_target se_fs se_meta se_expected se_open se_dlopen]. rewrite Ht, Hc, Hm, Hmf.
    change (library_name (replaced f' e) canonical) with (library_name e canonical). rewrite Hn.
    change (verify_sha256 (replaced f' e) canonical) with (verify_sha256 e canonical).
    cbn [negb]. rewrite Hv, Hr', Hf'. done.
Qed.

(** An expected digest that is not Unicode counts as none. *)
Lemma odd_digest_unchecked e t s lib s' : se_expected e = NotUnicode →
  find_library e t s = (Some lib, s') → ∀ h,
  find_library {| se_log := se_log e; se_full_timing := se_full_timing e; se_target := se_target e;
     se_expected := Unset; se_fs := se_fs e; se_can_append := se_can_append e;
     se_utf8 := se_utf8 e; se_meta := se_meta e; se_hash := h;
     se_open := se_open e; se_dlopen := se_dlopen e |} t s = (Some lib, s').
Proof.
  unfold find_library. intros ->.
  cbn [se_target se_fs se_meta se_expected se_open se_dlopen]. done.
Qed.

(** ** The logger *)

(** A log file named without a directory is never written: the parent of such a name is
    the empty path, which cannot be resolved. *)
Lemma bare_log_name e name : se_log e = Text name →
  components name = [Normal name] → fs_canonicalize (se_fs e) [] = None → log_sink e = Stderr.
Proof. unfold log_sink. intros -> ->. cbn. by intros ->. Qed.

(** Once the lock is poisoned, every event makes a new logger and writes the warning
    again. *)
Lemma poisoned_for_ever e t f s : sp_poisoned s = true →
  sp_poisoned (with_logger e t f s) = true ∧
  sp_out (with_logger e t f s) = sp_out s ++
    [(log_sink e, poison_warning);
     (log_sink e, f (resolve_full_timing_from_env e) (tk_read t - tk_new t))].
Proof. unfold with_logger. intros Hp. rewrite Hp. by split. Qed.

(** ** The function list *)

Section FunctionList.
(** The functions behind the list that the process holds in memory. *)
Variable listed : W → Target W.

(** What a program does with the interface: it calls an export of the spy, or a function
    of the list. *)
Inductive Use := ByName (c : SpyCall W) | ByList (name : string) (args : Args).
Definition use (u : Use) (s : SpyState W) (w : W) : Z * SpyState W * W :=
  match u with
  | ByName c => spy_call (sc_export c) (sc_env c) (sc_times c) (sc_args c) s w
  | ByList name args =>
    match listed w name with
    | Some f => let '(rv, w) := answer (f args w) in (rv, s, w)
    | None => (CKR_FUNCTION_NOT_SUPPORTED, s, w)
    end
  end.
Fixpoint use_all (us : list Use) (s : SpyState W) (w : W) : list Z * SpyState W * W :=
  match us with
  | [] => ([], s, w)
  | u :: us =>
    let '(rv, s, w) := use u s w in let '(rvs, s, w) := use_all us s w in (rv :: rvs, s, w)
  end.

Definition get_function_list : Export :=
  spy "C_GetFunctionList" [] ["ppFunctionList"%string] ["ppFunctionList"%string] [].

Lemma by_list_unlogged us s w : Forall (λ u, ∃ name args, u = ByList name args) us →
  (use_all us s w).1.2 = s.
Proof.
  intros Hu. revert s w. induction Hu as [|u us (name & args & ->) _ IH]; intros s w; [done|].
  cbn [use_all use]. destruct (listed w name) as [f|].
  - destruct (answer (f args w)) as [rv w']. specialize (IH s w').
    by destruct (use_all us s w') as [[rvs s'] w''].
  - specialize (IH s w). by destruct (use_all us s w) as [[rvs s'] w''].
Qed.

(** A program that takes the usual way to the interface is not observed.  The spy
    forwards C_GetFunctionList to the library, so the process receives the library's own
    list; whatever the program then does through the list, its log holds the two lines of
    C_GetFunctionList and nothing else. *)
Theorem function_list_bypasses_spy lg lib c us s w g w' :
  ready lg (Some lib) s → sc_export c = get_function_list →
  sc_args c "ppFunctionList"%string ≠ 0 →
  lib "C_GetFunctionList"%string = Some g → g (sc_args c) w = Returned CKR_OK w' →
  listed w' = lib →
  Forall (λ u, ∃ name args, u = ByList name args) us →
  get_function_list ∈ spy_exports ∧
  (use (ByName c) s w).2 = w' ∧
  sp_out (use_all (ByName c :: us) s w).1.2 =
    sp_out s ++ call_lines lg get_function_list (sc_times c) (sc_args c) (Returned CKR_OK w').
Proof.
  intros Hr He Hp Hg Hok Hl Hu. split; [unfold spy_exports; set_solver|].
  assert (use (ByName c) s w = (CKR_OK,
    grow s (call_lines lg get_function_list (sc_times c) (sc_args c) (Returned CKR_OK w')), w')) as Hc.
  { cbn [use]. rewrite (spy_call_ready lg (Some lib)) by done. rewrite He.
    unfold null_checked. cbn [ex_checked get_function_list spy existsb].
    rewrite (proj2 (Z.eqb_neq _ _)) by done. cbn [orb]. unfold forwarded. cbn. rewrite Hg, Hok. done. }
  cbn [use_all]. rewrite Hc. split; [done|].
  match goal with |- context [use_all us ?a ?b] =>
    pose proof (by_list_unlogged us a b Hu) as Hs; destruct (use_all us a b) as [[rvs s''] w''] end.
  simpl in Hs. by subst.
Qed.
End FunctionList.
End Loader.

(** ** Examples *)

#[local] Existing Instance toy_hash.
#[local] Existing Instance text_hex.

(** A library that counts its calls, in a file whose digest is configured. *)
Definition spy_demo_lib : Target Z := λ _, Some (λ _ w, Returned CKR_OK (w + 1)).
Definition spy_demo_node : Node := {| n_is_file := true; n_readable := true; n_content := [1; 2; 3] |}.
Definition spy_demo_env : SpyEnv Z :=
  {| se_log := Unset; se_full_timing := Unset; se_target := Text (ascii_bytes "/lib/token.so");
     se_expected := Text (ascii_bytes (hex_encode (sha256 [1; 2; 3])));
     se_fs := {| fs_symlink := λ _, Some false; fs_canonicalize := Some; fs_is_dir := λ _, true |};
     se_can_append := λ _, true; se_utf8 := λ _, true; se_meta := λ _, Some spy_demo_node;
     se_hash := λ _, Some spy_demo_node; se_open := λ _, Some spy_demo_node;
     se_dlopen := λ _, Some spy_demo_lib |}.
Definition spy_tick (n : Z) : Ticks := {| tk_new := n; tk_read := n |}.
Definition spy_times (n : Z) : CallTimes :=
  {| ct_call := spy_tick n; ct_load := spy_tick n; ct_return := spy_tick (n + 2000000); ct_duration := 2000 |}.
Definition login_export : Export :=
  spy "C_Login" ["hSession"; "userType"; "ulPinLen"]%string ["pPin"]%string [] [Dec "session" "hSession"].
(** A login at session 5 with a PIN of some length. *)
Definition spy_login (user_type pin_len : Z) : SpyCall Z :=
  {| sc_export := login_export; sc_env := spy_demo_env; sc_times := spy_times 1000;
     sc_args := λ p, if bool_decide (p = "hSession"%string) then 5
                     else if bool_decide (p = "userType"%string) then user_type
                     else if bool_decide (p = "ulPinLen"%string) then pin_len else 4096 |}.
Definition spy_demo_logger : SpyLogger := {| lg_sink := Stderr; lg_start := 0; lg_full := false |}.
Definition spy_demo_state : SpyState Z :=
  {| sp_logger := Some spy_demo_logger; sp_poisoned := false; sp_lib := Some (Some spy_demo_lib); sp_out := [] |}.

Lemma spy_demo_ready : ready spy_demo_logger (Some spy_demo_lib) spy_demo_state.
Proof. done. Qed.
Lemma login_export_in : login_export ∈ spy_exports.
Proof. unfold spy_exports. set_solver. Qed.

Lemma spy_transparent_witness :
  (spy_run [spy_login CKU_USER 6; spy_login CKU_SO 8] spy_demo_state 0).2 = 2.
Proof.
  destruct (spy_transparent spy_demo_logger spy_demo_lib [spy_login CKU_USER 6; spy_login CKU_SO 8]
    spy_demo_state 0 spy_demo_ready) as [-> _]; [repeat constructor|reflexivity].
Defined.

Lemma spy_logins_alike : alike spy_demo_logger (spy_login CKU_USER 6) (spy_login CKU_SO 8).
Proof.
  split_and!; try done; [apply login_export_in|].
  intros p [Hp Hs]. simpl in Hp. unfold secret_params in Hs.
  rewrite !elem_of_cons, elem_of_nil in Hp. destruct Hp as [->|[->|[->|[]]]]; [done| |]; set_solver.
Qed.


Lemma spy_login_sensible : sensible 0 [spy_login CKU_USER 6].
Proof.
  cbn [sensible]. split_and!; try done; [apply login_export_in| |].
  - intros p. unfold spy_login, sc_args. repeat case_bool_decide; unfold CKU_USER; lia.
  - intros content lib [= <-] name f args w [= <-]. unfold CKR_OK. lia.
Qed.

Lemma spy_demo_found :
  find_library spy_demo_env (spy_tick 0) SpyState_new = (Some spy_demo_lib, SpyState_new).
Proof. vm_compute. reflexivity. Qed.
Lemma spy_loads_checked_witness :
  find_library (replaced {| n_is_file := true; n_readable := true; n_content := [9] |} spy_demo_env)
    (spy_tick 0) SpyState_new = (Some spy_demo_lib, SpyState_new).
Proof.
  destruct (spy_loads_checked _ _ _ _ _ spy_demo_found)
    as (_ & raw & canonical & m & f & _ & _ & _ & _ & _ & _ & _ & _ & _ & Hr).
  exact (Hr {| n_is_file := true; n_readable := true; n_content := [9] |} eq_refl eq_refl).
Defined.

Definition spy_list_call : SpyCall Z :=
  {| sc_export := get_function_list; sc_env := spy_demo_env; sc_times := spy_times 1000;
     sc_args := λ _, 4096 |}.
Lemma function_list_bypasses_spy_witness :
  length (sp_out (use_all (λ _, spy_demo_lib)
    [ByName spy_list_call; ByList "C_Login" (λ _, 1); ByList "C_Sign" (λ _, 1)] spy_demo_state 0).1.2) = 2%nat.
Proof.
  destruct (function_list_bypasses_spy (λ _, spy_demo_lib) spy_demo_logger spy_demo_lib spy_list_call
    [ByList "C_Login" (λ _, 1); ByList "C_Sign" (λ _, 1)] spy_demo_state 0 (λ _ w, Returned CKR_OK (w + 1)) 1
    spy_demo_ready eq_refl) as (_ & _ & Hout); [done|done|done|done|repeat constructor; eauto|].
  rewrite Hout. reflexivity.
Defined.
