(* ===== verification/DaemonStart.v ===== *)
(** * How the daemon starts and whom it lets in

    The daemon's configuration (craton-hsm-daemon/src/config.rs), the building of its TLS
    configuration (tls.rs) and [main] with the listener, the reloads on SIGHUP and on the
    timer of the revocation list (main.rs).  The TOML parser and the TLS library are
    parameters; socket addresses are parsed as the standard library does. *)

From S2P Require Import Prelude Pkcs11 AuditExport Config SelfTest.

(** ** Configuration *)

Record DaemonConfig := {
  dc_bind : bytes;
  dc_tls_cert : option bytes;
  dc_tls_key : option bytes;
  dc_tls_client_ca : option bytes;
  dc_tls_client_crl : option bytes;
  dc_max_random_length : Z;
  dc_max_digest_length : Z;
  dc_allow_insecure : bool;
  dc_bind_unix : option bytes;
  dc_max_login_attempts : Z;
  dc_login_cooldown_secs : Z;
  dc_max_connections : Z;
  dc_request_timeout_secs : Z;
  dc_crl_refresh_secs : Z;
}.
Definition default_bind : bytes := ascii_bytes "127.0.0.1:5696".
Definition default_max_random_length : Z := 1048576.
Definition default_max_digest_length : Z := 16777216.
Definition default_max_login_attempts : Z := 5.
Definition default_login_cooldown_secs : Z := 60.
Definition default_max_connections : Z := 256.
Definition default_request_timeout_secs : Z := 30.
Definition default_crl_refresh_secs : Z := 300.

(** The [daemon] section as it is written: a field may be missing. *)
Record RawDaemonConfig := {
  rd_bind : option bytes;
  rd_tls_cert : option bytes;
  rd_tls_key : option bytes;
  rd_tls_client_ca : option bytes;
  rd_tls_client_crl : option bytes;
  rd_max_random_length : option Z;
  rd_max_digest_length : option Z;
  rd_allow_insecure : option bool;
  rd_bind_unix : option bytes;
  rd_max_login_attempts : option Z;
  rd_login_cooldown_secs : option Z;
  rd_max_connections : option Z;
  rd_request_timeout_secs : option Z;
  rd_crl_refresh_secs : option Z;
}.
(** The [serde] attributes. *)
Definition fill_defaults (r : RawDaemonConfig) : DaemonConfig :=
  {| dc_bind := default default_bind (rd_bind r); dc_tls_cert := rd_tls_cert r; dc_tls_key := rd_tls_key r;
     dc_tls_client_ca := rd_tls_client_ca r; dc_tls_client_crl := rd_tls_client_crl r;
     dc_max_random_length := default default_max_random_length (rd_max_random_length r);
     dc_max_digest_length := default default_max_digest_length (rd_max_digest_length r);
     dc_allow_insecure := default false (rd_allow_insecure r); dc_bind_unix := rd_bind_unix r;
     dc_max_login_attempts := default default_max_login_attempts (rd_max_login_attempts r);
     dc_login_cooldown_secs := default default_login_cooldown_secs (rd_login_cooldown_secs r);
     dc_max_connections := default default_max_connections (rd_max_connections r);
     dc_request_timeout_secs := default default_request_timeout_secs (rd_request_timeout_secs r);
     dc_crl_refresh_secs := default default_crl_refresh_secs (rd_crl_refresh_secs r) |}.
Definition DaemonConfig_default : DaemonConfig :=
  {| dc_bind := default_bind; dc_tls_cert := None; dc_tls_key := None; dc_tls_client_ca := None;
     dc_tls_client_crl := None; dc_max_random_length := default_max_random_length;
     dc_max_digest_length := default_max_digest_length; dc_allow_insecure := false; dc_bind_unix := None;
     dc_max_login_attempts := default_max_login_attempts;
     dc_login_cooldown_secs := default_login_cooldown_secs; dc_max_connections := default_max_connections;
     dc_request_timeout_secs := default_request_timeout_secs;
     dc_crl_refresh_secs := default_crl_refresh_secs |}.

(** [FullConfig::load]: [content] is what reading the file gives, [toml] the parser, whose
    result is the [daemon] section if there is one. *)
Inductive ReadFile := FileText (content : bytes) | FileMissing | FileError.
Inductive StartError := ConfigParse | ConfigMissing | ConfigRead.
Definition FullConfig_load (toml : bytes → option (option RawDaemonConfig)) (content : ReadFile) :
    Result StartError DaemonConfig :=
  match content with
  | FileText text =>
    match toml text with
    | Some section => Ok (from_option fill_defaults DaemonConfig_default section)
    | None => Err ConfigParse
    end
  | FileMissing => Err ConfigMissing
  | FileError => Err ConfigRead
  end.

(** [PathBuf::join] of a relative name. *)
Definition join_path (dir name : bytes) : bytes :=
  match last dir with Some b => if b =? slash then dir ++ name else dir ++ [slash] ++ name | None => name end.
Definition resolved_unix_socket_path (runtime_dir : option bytes) (uid : Z) (c : DaemonConfig) : bytes :=
  match dc_bind_unix c with
  | Some path => path
  | None =>
    match runtime_dir with
    | Some (b :: dir) => join_path (b :: dir) (ascii_bytes "craton-hsm.sock")
    | _ => ascii_bytes "/tmp/craton-hsm-" ++ dec uid ++ ascii_bytes ".sock"
    end
  end.

(** ** Socket addresses *)

(** The parser of [std::net]: what is read and what is left. *)
Definition Reader (T : Type) : Type := bytes → option (T * bytes).

Definition read_char (c : Z) : Reader unit := λ s,
  match s with b :: s => if b =? c then Some (tt, s) else None | [] => None end.
Definition to_digit (radix b : Z) : option Z :=
  let d := if (48 <=? b) && (b <=? 57) then Some (b - 48)
           else if (97 <=? b) && (b <=? 122) then Some (b - 87)
           else if (65 <=? b) && (b <=? 90) then Some (b - 55) else None in
  match d with Some d => if d <? radix then Some d else None | None => None end.
Fixpoint read_digits (radix : Z) (s : bytes) : list Z * bytes :=
  match s with
  | [] => ([], [])
  | b :: rest =>
    match to_digit radix b with
    | Some d => let '(ds, rest) := read_digits radix rest in (d :: ds, rest)
    | None => ([], s)
    end
  end.
(** [read_number]: at most [max_digits] digits, a value up to [limit]. *)
Definition read_number (radix : Z) (max_digits : option nat) (zero_prefix : bool) (limit : Z) : Reader Z := λ s,
  let '(ds, rest) := read_digits radix s in
  let value := foldl (λ acc d, acc * radix + d) 0 ds in
  if bool_decide (ds = []) then None
  else if match max_digits with Some m => (m <? length ds)%nat | None => false end then None
  else if negb zero_prefix && bool_decide (head ds = Some 0) && (1 <? length ds)%nat then None
  else if limit <? value then None
  else Some (value, rest).
(** [read_separator]: the separator is read before every item but the first. *)
Definition read_separator {T} (sep : Z) (index : nat) (inner : Reader T) : Reader T := λ s,
  match index with
  | O => inner s
  | S _ => match read_char sep s with Some (_, s) => inner s | None => None end
  end.

Definition octet : Reader Z := read_number 10 (Some 3%nat) false 255.
Definition group : Reader Z := read_number 16 (Some 4%nat) true 65535.
Definition read_ipv4_addr : Reader (Z * Z * Z * Z) := λ s,
  match octet s with
  | Some (a, s) =>
    match read_separator 46 1 octet s with
    | Some (b, s) =>
      match read_separator 46 2 octet s with
      | Some (c, s) =>
        match read_separator 46 3 octet s with Some (d, s) => Some ((a, b, c, d), s) | None => None end
      | None => None
      end
    | None => None
    end
  | None => None
  end.

(** [read_groups]: up to [left] more groups, [i] being read already; the flag says that
    the last two came from an embedded IPv4 address. *)
Fixpoint read_groups (left i : nat) (s : bytes) : list Z * bool * bytes :=
  match left with
  | O => ([], false, s)
  | S left' =>
    match (if (1 <? left)%nat then read_separator 58 i read_ipv4_addr s else None) with
    | Some ((a, b, c, d), s) => ([a * 256 + b; c * 256 + d], true, s)
    | None =>
      match read_separator 58 i group s with
      | Some (g, s) => let '(gs, v4, s) := read_groups left' (S i) s in (g :: gs, v4, s)
      | None => ([], false, s)
      end
    end
  end.
Definition read_ipv6_addr : Reader (list Z) := λ s,
  let '(hd, hd_v4, s) := read_groups 8 0 s in
  if (length hd =? 8)%nat then Some (hd, s)
  else if hd_v4 then None
  else
    match read_char 58 s with
    | Some (_, s) =>
      match read_char 58 s with
      | Some (_, s) =>
        let '(tl, _, s) := read_groups (8 - (length hd + 1)) 0 s in
        Some (hd ++ replicate (8 - length hd - length tl) 0 ++ tl, s)
      | None => None
      end
    | None => None
    end.

Inductive SocketAddr := V4 (a b c d port : Z) | V6 (groups : list Z) (port : Z).
#[export] Instance SocketAddr_eq_dec : EqDecision SocketAddr.
Proof. solve_decision. Defined.
Definition read_port : Reader Z := λ s,
  match read_char 58 s with Some (_, s) => read_number 10 None true 65535 s | None => None end.
Definition read_socket_addr_v4 : Reader SocketAddr := λ s,
  match read_ipv4_addr s with
  | Some ((a, b, c, d), s) =>
    match read_port s with Some (p, s) => Some (V4 a b c d p, s) | None => None end
  | None => None
  end.
(** A scope identifier is read and plays no part. *)
Definition read_scope_id (s : bytes) : bytes :=
  match read_char 37 s with
  | Some (_, s') =>
    match read_number 10 None true 4294967295 s' with Some (_, s') => s' | None => s end
  | None => s
  end.
Definition read_socket_addr_v6 : Reader SocketAddr := λ s,
  match read_char 91 s with
  | Some (_, s) =>
    match read_ipv6_addr s with
    | Some (gs, s) =>
      match read_char 93 (read_scope_id s) with
      | Some (_, s) => match read_port s with Some (p, s) => Some (V6 gs p, s) | None => None end
      | None => None
      end
    | None => None
    end
  | None => None
  end.
Definition parse_socket_addr (s : bytes) : option SocketAddr :=
  match (match read_socket_addr_v4 s with Some r => Some r | None => read_socket_addr_v6 s end) with
  | Some (a, []) => Some a
  | _ => None
  end.

Definition is_loopback (a : SocketAddr) : bool :=
  match a with
  | V4 a _ _ _ _ => a =? 127
  | V6 gs _ => bool_decide (gs = [0; 0; 0; 0; 0; 0; 0; 1])
  end.
Definition is_loopback_bind (c : DaemonConfig) : bool :=
  match parse_socket_addr (dc_bind c) with Some a => is_loopback a | None => false end.

(** ** TLS *)

Inductive TlsVersion := TLS12 | TLS13.
#[export] Instance TlsVersion_eq_dec : EqDecision TlsVersion.
Proof. solve_decision. Defined.
Record ClientVerifier := { cv_roots : list bytes; cv_crls : list bytes }.
Record ServerConfig := {
  sv_versions : list TlsVersion;
  sv_certs : list bytes;
  sv_key : bytes;
  sv_verifier : option ClientVerifier;
  sv_alpn : list bytes;
}.
(** A client as the handshake sees it. *)
Record Peer := { pe_versions : list TlsVersion; pe_cert : option bytes }.

(** The TLS library: the readers of PEM files, which certificates a root store takes,
    whether a verifier can be built from roots and revocation lists (taken as DER), whether
    a certificate chain goes with a key, and the handshake.  [chain_ok] and [revoked] are
    its notions of a valid chain and of a listed certificate. *)
Class RustlsPrimitives := {
  pem_certs : bytes → option (list bytes);
  pem_private_key : bytes → option (option bytes);
  root_store_add : bytes → bool;
  verifier_build : list bytes → list bytes → bool;
  single_cert_ok : list bytes → bytes → bool;
  handshake : ServerConfig → Peer → bool;
  chain_ok : list bytes → bytes → bool;
  revoked : bytes → bytes → bool;
}.
(** What the library documents of a handshake that succeeds. *)
Class RustlsLaws (R : RustlsPrimitives) := {
  handshake_version cfg p : handshake cfg p = true → ∃ v, v ∈ sv_versions cfg ∧ v ∈ pe_versions p;
  handshake_verified cfg p v : handshake cfg p = true → sv_verifier cfg = Some v →
    ∃ c, pe_cert p = Some c ∧ chain_ok (cv_roots v) c = true ∧
      Forall (λ crl, revoked crl c = false) (cv_crls v);
}.

Inductive TlsError :=
| OpenCert | OpenKey | ParseCerts | ParseKey | NoKey | OpenCa | ParseCa | AddCa | ReadCrl | BuildVerifier
| BadServerCert.

Section Tls.
Context {R : RustlsPrimitives}.

(** Files by their paths. *)
Definition Files : Type := bytes → option bytes.

Definition load_client_verifier (files : Files) (ca_path : bytes) (client_crl_path : option bytes) :
    Result TlsError ClientVerifier :=
  let? ca_file := ok_or (files ca_path) OpenCa in
  let? ca_certs := ok_or (pem_certs ca_file) ParseCa in
  if negb (forallb root_store_add ca_certs) then Err AddCa
  else
    let? crls := match client_crl_path with
                 | Some crl_path => let? crl := ok_or (files crl_path) ReadCrl in Ok [crl]
                 | None => Ok []
                 end in
    if verifier_build ca_certs crls then Ok {| cv_roots := ca_certs; cv_crls := crls |}
    else Err BuildVerifier.

Definition load_tls_config (files : Files) (cert_path key_path : bytes)
    (client_ca_path client_crl_path : option bytes) : Result TlsError ServerConfig :=
  let? cert_file := ok_or (files cert_path) OpenCert in
  let? key_file := ok_or (files key_path) OpenKey in
  let? server_certs := ok_or (pem_certs cert_file) ParseCerts in
  let? key := ok_or (pem_private_key key_file) ParseKey in
  let? key := ok_or key NoKey in
  let? verifier := match client_ca_path with
                   | Some ca_path => let? v := load_client_verifier files ca_path client_crl_path in Ok (Some v)
                   | None => Ok None
                   end in
  if negb (single_cert_ok server_certs key) then Err BadServerCert
  else Ok {| sv_versions := [TLS13]; sv_certs := server_certs; sv_key := key; sv_verifier := verifier;
             sv_alpn := [ascii_bytes "h2"] |}.

(** ** [main] *)

(** Where the daemon ends up: it exits, [main] returns an error, a panic ends it, or it
    serves. *)
Inductive Outcome :=
| Exits | Fails | Dies
| ServesTls (addr : SocketAddr) (cert key : bytes) (cfg : ServerConfig)
| ServesPlain (addr : SocketAddr).

(** What [main] meets: the configuration file, the parsers, the file system, the outcome
    of the self-tests and whether [HsmCore::new] returns and the port can be bound. *)
Record StartEnv := {
  st_content : ReadFile;
  st_toml : bytes → option (option RawDaemonConfig);
  st_load : LoadEnv;
  st_config_path : bytes;
  st_post : Result Stop unit;
  st_core : bool;
  st_bind : SocketAddr → bool;
  st_files : Files;
}.

Definition serve (e : StartEnv) (c : DaemonConfig) : Outcome :=
  match parse_socket_addr (dc_bind c) with
  | None => Fails
  | Some addr =>
    match dc_tls_cert c, dc_tls_key c with
    | Some cert, Some key =>
      match load_tls_config (st_files e) cert key (dc_tls_client_ca c) (dc_tls_client_crl c) with
      | Err _ => Fails
      | Ok cfg => if st_bind e addr then ServesTls addr cert key cfg else Fails
      end
    | _, _ =>
      if dc_allow_insecure c then
        if negb (is_loopback_bind c) then Exits
        else if st_bind e addr then ServesPlain addr else Fails
      else Exits
    end
  end.

Definition main (e : StartEnv) : Outcome :=
  match FullConfig_load (st_toml e) (st_content e) with
  | Err _ => Exits
  | Ok c =>
    match load_from_path (st_load e) (st_config_path e) with
    | Err _ => Exits
    | Ok hsm_config =>
      match validate (le_fs (st_load e)) hsm_config with
      | Err _ => Exits
      | Ok _ =>
        match st_post e with
        | Err (Failed _) => Exits
        | Err _ => Dies
        | Ok _ => if st_core e then serve e c else Dies
        end
      end
    end
  end.

(** ** The listener *)

(** The configuration for new handshakes, the handshake the accept loop is waiting for,
    with the configuration it started with, and the peers it has let in, oldest first. *)
Record Listener := {
  li_active : ServerConfig;
  li_pending : option (ServerConfig * Peer);
  li_peers : list Peer;
}.
Definition Listener_new (cfg : ServerConfig) : Listener :=
  {| li_active := cfg; li_pending := None; li_peers := [] |}.

Inductive NetEvent :=
| SigHup | CrlTick
| Accept (p : Peer)
| HandshakeDone.

(** [spawn_sighup_reload] and [spawn_crl_refresh]: a configuration that cannot be loaded
    leaves the one in use. *)
Definition reload (files : Files) (c : DaemonConfig) (cert key : bytes) (l : Listener) : Listener :=
  match load_tls_config files cert key (dc_tls_client_ca c) (dc_tls_client_crl c) with
  | Ok cfg => {| li_active := cfg; li_pending := li_pending l; li_peers := li_peers l |}
  | Err _ => l
  end.
Definition crl_refresh_enabled (c : DaemonConfig) : bool :=
  bool_decide (is_Some (dc_tls_client_crl c)) && (0 <? dc_crl_refresh_secs c).

(** One event, with the files as they are then.  A connection is taken from the queue of
    the port only when no handshake is being waited for. *)
Definition net_step (c : DaemonConfig) (cert key : bytes) (ev : Files * NetEvent) (l : Listener) : Listener :=
  let '(files, ev) := ev in
  match ev with
  | SigHup => reload files c cert key l
  | CrlTick => if crl_refresh_enabled c then reload files c cert key l else l
  | Accept p =>
    match li_pending l with
    | Some _ => l
    | None => {| li_active := li_active l; li_pending := Some (li_active l, p); li_peers := li_peers l |}
    end
  | HandshakeDone =>
    match li_pending l with
    | Some (cfg, p) =>
      {| li_active := li_active l; li_pending := None;
         li_peers := if handshake cfg p then li_peers l ++ [p] else li_peers l |}
    | None => l
    end
  end.
Definition net_run (c : DaemonConfig) (cert key : bytes) (evs : list (Files * NetEvent)) (l : Listener) :
    Listener :=
  foldl (λ l ev, net_step c cert key ev l) l evs.
End Tls.
