(* ===== verification/DaemonStartProofs.v ===== *)
(** * The daemon serves safely

    What holds whenever [main] gets to serve, and whom the listener lets in over every
    sequence of connections, reloads and changes of files. *)

From S2P Require Import Prelude Pkcs11 AuditExport AuditExportProofs Config SelfTest DaemonStart.

Section Start.
Context {R : RustlsPrimitives} {RL : RustlsLaws R}.

(** ** Configurations *)

Lemma load_tls_config_ok files cert key ca crl cfg : load_tls_config files cert key ca crl = Ok cfg →
  sv_versions cfg = [TLS13] ∧
  match ca with
  | None => sv_verifier cfg = None
  | Some ca => ∃ v, sv_verifier cfg = Some v ∧ load_client_verifier files ca crl = Ok v
  end.
Proof.
  unfold load_tls_config. intros Hl.
  destruct (files cert) as [?|]; [|done]. cbn in Hl. destruct (files key) as [kf|]; [|done]. cbn in Hl.
  destruct (pem_certs _) as [?|]; [|done]. cbn in Hl. destruct (pem_private_key kf) as [[?|]|]; [|done..].
  cbn in Hl. destruct ca as [ca|]; [destruct (load_client_verifier files ca crl) as [v|] eqn:Hv; [|done]|];
    cbn in Hl; (destruct (single_cert_ok _ _); [|done]); injection Hl as <-; split; eauto.
Qed.

Lemma load_client_verifier_ok files ca crl v : load_client_verifier files ca crl = Ok v →
  (∃ text, files ca = Some text ∧ pem_certs text = Some (cv_roots v)) ∧
  match crl with
  | Some path => ∃ x, files path = Some x ∧ cv_crls v = [x]
  | None => cv_crls v = []
  end.
Proof.
  unfold load_client_verifier. intros Hl.
  destruct (files ca) as [text|] eqn:Hca; [|done]. cbn in Hl.
  destruct (pem_certs text) as [roots|] eqn:Hp; [|done]. cbn in Hl.
  destruct (forallb _ _); [|done]. cbn in Hl.
  destruct crl as [path|]; [destruct (files path) as [x|] eqn:Hx; [|done]|]; cbn in Hl;
    (destruct (verifier_build _ _); [|done]); injection Hl as <-; split; simpl; eauto.
Qed.

(** ** Starting *)

Lemma main_serving e : main e ≠ Exits → main e ≠ Dies →
  ∃ c hsm, FullConfig_load (st_toml e) (st_content e) = Ok c ∧
  load_from_path (st_load e) (st_config_path e) = Ok hsm ∧
  validate_problems (le_fs (st_load e)) hsm = [] ∧ st_post e = Ok tt ∧ st_core e = true ∧
  main e = serve e c.
Proof using Type.
  unfold main, validate. destruct (FullConfig_load _ _) as [c|]; [|done].
  destruct (load_from_path _ _) as [hsm|]; [|done].
  destruct (validate_problems _ hsm) eqn:Hv; [|done].
  destruct (st_post e) as [[]|[]]; try done. destruct (st_core e); [|done]. eauto 10.
Qed.

Lemma plain_only_loopback e c addr :
  parse_socket_addr (dc_bind c) = Some addr → dc_tls_cert c = None ∨ dc_tls_key c = None →
  let o := (if dc_allow_insecure c then
              if negb (is_loopback_bind c) then Exits
              else if st_bind e addr then ServesPlain addr else Fails
            else Exits) in
  o ≠ Exits → o ≠ Fails →
  ∃ a, o = ServesPlain a ∧ dc_allow_insecure c = true ∧ (dc_tls_cert c = None ∨ dc_tls_key c = None) ∧
    ((∃ x y z port, a = V4 127 x y z port) ∨ (∃ port, a = V6 [0; 0; 0; 0; 0; 0; 0; 1] port)).
Proof using Type.
  unfold is_loopback_bind. intros -> Hck. cbn zeta. destruct (dc_allow_insecure c); [|done].
  destruct (is_loopback addr) eqn:Hlo; [|done]. destruct (st_bind e addr); [|done]. cbn. intros _ _.
  exists addr. split_and!; try done. destruct addr as [a x y z p|gs p]; simpl in Hlo; bool_to_prop;
    subst; eauto 10.
Qed.

(** C24: The daemon serves only in a safe state.  If it gets to serve at all, the
    configuration file was there and could be parsed, the configuration of the HSM meets
    every check, and the self-tests passed.  With TLS, version 1.3 is the only one and, if
    a client CA is configured, clients must present a certificate under the authorities
    of that file and, with a revocation list configured, that list is checked.  Without
    encryption it serves only if this is explicitly allowed, no certificate with key is
    configured and the address is 127.x.y.z or ::1. *)
Theorem daemon_starts_safely e o : main e = o → o ≠ Exits → o ≠ Fails → o ≠ Dies →
  ∃ c hsm, FullConfig_load (st_toml e) (st_content e) = Ok c ∧
  (∃ text section, st_content e = FileText text ∧ st_toml e text = Some section) ∧
  load_from_path (st_load e) (st_config_path e) = Ok hsm ∧
  validate_problems (le_fs (st_load e)) hsm = [] ∧ st_post e = Ok tt ∧
  ((∃ addr cert key cfg, o = ServesTls addr cert key cfg ∧
      dc_tls_cert c = Some cert ∧ dc_tls_key c = Some key ∧ sv_versions cfg = [TLS13] ∧
      ∀ ca, dc_tls_client_ca c = Some ca → ∃ v text, sv_verifier cfg = Some v ∧
        st_files e ca = Some text ∧ pem_certs text = Some (cv_roots v) ∧
        ∀ crl, dc_tls_client_crl c = Some crl → ∃ x, st_files e crl = Some x ∧ cv_crls v = [x]) ∨
   (∃ addr, o = ServesPlain addr ∧ dc_allow_insecure c = true ∧
      (dc_tls_cert c = None ∨ dc_tls_key c = None) ∧
      ((∃ x y z port, addr = V4 127 x y z port) ∨
       (∃ port, addr = V6 [0; 0; 0; 0; 0; 0; 0; 1] port)))).
Proof using Type.
  intros <- He Hf Hd. destruct (main_serving e He Hd) as (c & hsm & Hc & Hh & Hv & Hp & _ & Hm).
  exists c, hsm. rewrite Hm in Hf, He |- *. clear Hm Hd. split_and!; try done.
  { unfold FullConfig_load in Hc. destruct (st_content e) as [text| |]; try done.
    destruct (st_toml e text) eqn:?; [eauto|done]. }
  unfold serve in *. destruct (parse_socket_addr (dc_bind c)) as [addr|] eqn:Ha; [|done].
  destruct (dc_tls_cert c) as [cert|] eqn:Hcert; [destruct (dc_tls_key c) as [key|] eqn:Hkey|].
  - left. destruct (load_tls_config _ _ _ _ _) as [cfg|] eqn:Hl; [|done].
    destruct (st_bind e addr); [|done]. exists addr, cert, key, cfg.
    destruct (load_tls_config_ok _ _ _ _ _ _ Hl) as [Hver Hca]. split_and!; try done.
    intros ca Hca'. rewrite Hca' in Hca. destruct Hca as (v & Hv1 & Hv2).
    destruct (load_client_verifier_ok _ _ _ _ Hv2) as [(text & Ht1 & Ht2) Hcrl].
    exists v, text. split_and!; try done. intros crl Hcrl'. by rewrite Hcrl' in Hcrl.
  - right. destruct (plain_only_loopback e c addr Ha) as (a & Ho & Hi & _ & Hlo); eauto 10.
  - right. destruct (plain_only_loopback e c addr Ha) as (a & Ho & Hi & _ & Hlo); eauto 10.
Qed.

(** ** The listener *)

(** The configurations that can be in use: those of [G]. *)
Definition listener_ok (G : ServerConfig → Prop) (l : Listener) : Prop :=
  G (li_active l) ∧ ∀ cfg p, li_pending l = Some (cfg, p) → G cfg.

Lemma reload_ok (G : ServerConfig → Prop) files c cert key l : listener_ok G l →
  (∀ cfg, load_tls_config files cert key (dc_tls_client_ca c) (dc_tls_client_crl c) = Ok cfg → G cfg) →
  listener_ok G (reload files c cert key l) ∧ li_peers (reload files c cert key l) = li_peers l.
Proof using Type.
  unfold reload. intros [Ha Hp] Hl. destruct (load_tls_config _ _ _ _ _) as [cfg|]; [|done].
  split; [|done]. split; [by apply Hl|done].
Qed.

(** Whoever gets in shook hands under a configuration of [G]. *)
Lemma net_run_peers (G : ServerConfig → Prop) c cert key evs l :
  listener_ok G l →
  (∀ files cfg, files ∈ evs.*1 →
     load_tls_config files cert key (dc_tls_client_ca c) (dc_tls_client_crl c) = Ok cfg → G cfg) →
  ∃ new, li_peers (net_run c cert key evs l) = li_peers l ++ new ∧
  Forall (λ p, ∃ cfg, G cfg ∧ handshake cfg p = true) new.
Proof using Type.
  clear RL. revert l. induction evs as [|[files ev] evs IH]; intros l Hl Hload.
  { exists []. by rewrite app_nil_r. }
  cbn [net_run foldl].
  assert (listener_ok G (net_step c cert key (files, ev) l) ∧ ∃ new,
    li_peers (net_step c cert key (files, ev) l) = li_peers l ++ new ∧
    Forall (λ p, ∃ cfg, G cfg ∧ handshake cfg p = true) new) as [Hl' (new & Hn & Hf)].
  { assert (∀ cfg, load_tls_config files cert key (dc_tls_client_ca c) (dc_tls_client_crl c) = Ok cfg → G cfg)
      as Hg by (intros cfg; apply Hload; set_solver).
    assert (∃ new, li_peers l = li_peers l ++ new ∧
      Forall (λ p, ∃ cfg, G cfg ∧ handshake cfg p = true) new) as Hsame
      by (exists []; by rewrite app_nil_r).
    destruct (reload_ok G files c cert key l Hl Hg) as [Hr1 Hr2].
    destruct ev; cbn [net_step].
    - by rewrite Hr2.
    - destruct (crl_refresh_enabled c); [by rewrite Hr2|done].
    - destruct (li_pending l); [done|]. split; [|done]. destruct Hl as [Ha _].
      split; [done|]. intros cfg q. simpl. by intros [= <- <-].
    - destruct (li_pending l) as [[cfg p]|] eqn:Hp; [|done]. destruct Hl as [Ha Hpe].
      split; [by split|]. simpl. destruct (handshake cfg p) eqn:Hh; [|done].
      exists [p]. split; [done|]. constructor; [|constructor]. exists cfg. split; [by eapply Hpe|done]. }
  destruct (IH _ Hl') as (more & Hm & Hmf).
  { intros f cfg Hf'. apply Hload. set_solver. }
  exists (new ++ more). unfold net_run in Hm. rewrite Hm, Hn, app_assoc. split; [done|].
  by apply Forall_app.
Qed.

(** C11: Mutual TLS is never lost.  In a daemon that started with a client CA, over every
    sequence of connections, stalled or finished handshakes, SIGHUPs and ticks of the
    refresh timer, with the files changing, failing or missing in between, every client
    that was let in speaks TLS 1.3 and presented a certificate that is valid under the
    authorities the CA file held at the start or at one of the reloads. *)
Theorem mutual_tls_kept e addr cert key cfg c ca evs p :
  main e = ServesTls addr cert key cfg →
  FullConfig_load (st_toml e) (st_content e) = Ok c → dc_tls_client_ca c = Some ca →
  p ∈ li_peers (net_run c cert key evs (Listener_new cfg)) →
  TLS13 ∈ pe_versions p ∧
  ∃ files text roots x, files ∈ st_files e :: evs.*1 ∧ files ca = Some text ∧
    pem_certs text = Some roots ∧ pe_cert p = Some x ∧ chain_ok roots x = true.
Proof using RL.
  intros Hm Hc Hca Hp.
  set (G cfg := ∃ files, files ∈ st_files e :: evs.*1 ∧
    load_tls_config files cert key (dc_tls_client_ca c) (dc_tls_client_crl c) = Ok cfg).
  assert (load_tls_config (st_files e) cert key (dc_tls_client_ca c) (dc_tls_client_crl c) = Ok cfg) as Hl.
  { destruct (main_serving e) as (c' & hsm & Hc' & _ & _ & _ & _ & Hm'); [by rewrite Hm..|].
    rewrite Hc in Hc'. injection Hc' as <-. rewrite Hm in Hm'. unfold serve in Hm'.
    repeat case_match; simplify_eq/=; done. }
  destruct (net_run_peers G c cert key evs (Listener_new cfg)) as (new & Hn & Hf).
  { split; [|done]. exists (st_files e). split; [set_solver|done]. }
  { intros files cfg' Hfi Hlo. exists files. split; [set_solver|done]. }
  rewrite Hn in Hp. simpl in Hp. rewrite Forall_forall in Hf.
  destruct (Hf p Hp) as (cfg' & (files & Hfi & Hlo) & Hh).
  destruct (load_tls_config_ok _ _ _ _ _ _ Hlo) as [Hver Hv]. rewrite Hca in Hv.
  destruct Hv as (v & Hv & Hlv). destruct (load_client_verifier_ok _ _ _ _ Hlv) as [(text & Ht1 & Ht2) _].
  destruct (handshake_version _ _ Hh) as (ver & Hv1 & Hv2). rewrite Hver in Hv1.
  apply list_elem_of_singleton in Hv1 as ->. split; [done|].
  destruct (handshake_verified _ _ _ Hh Hv) as (x & Hx & Hchain & _). by exists files, text, (cv_roots v), x.
Qed.

(** A revocation takes effect without a restart.  Once a SIGHUP finds files that can be
    loaded and a revocation list with a certificate, and as long as the list file does not
    lose the entry again, no client with that certificate is let in, whatever else is
    reloaded, fails to load or connects; only a handshake that the loop was already waiting
    for is still judged by the previous list. *)
Theorem revoked_client_kept_out c cert key ca crl files cfg d x l evs :
  dc_tls_client_ca c = Some ca → dc_tls_client_crl c = Some crl →
  load_tls_config files cert key (Some ca) (Some crl) = Ok cfg →
  files crl = Some d → revoked d x = true → li_pending l = None →
  (∀ files' d', files' ∈ evs.*1 → files' crl = Some d' → revoked d' x = true) →
  ∃ new, li_peers (net_run c cert key ((files, SigHup) :: evs) l) = li_peers l ++ new ∧
  Forall (λ p, pe_cert p ≠ Some x) new.
Proof using RL.
  intros Hca Hcrl Hl Hd Hrev Hpe Hevs.
  set (G cfg := ∃ v d, sv_verifier cfg = Some v ∧ cv_crls v = [d] ∧ revoked d x = true).
  assert (∀ fs cfg d', fs crl = Some d' → revoked d' x = true →
    load_tls_config fs cert key (Some ca) (Some crl) = Ok cfg → G cfg) as HG.
  { intros fs cfg' d' Hd' Hr' Hl'. destruct (load_tls_config_ok _ _ _ _ _ _ Hl') as [_ (v & Hv & Hlv)].
    destruct (load_client_verifier_ok _ _ _ _ Hlv) as [_ (y & Hy & Hys)].
    rewrite Hd' in Hy. injection Hy as <-. by exists v, d'. }
  cbn [net_run foldl net_step]. unfold reload. rewrite Hca, Hcrl, Hl.
  destruct (net_run_peers G c cert key evs
    {| li_active := cfg; li_pending := li_pending l; li_peers := li_peers l |}) as (new & Hn & Hf).
  - split; [by eapply HG|]. simpl. by rewrite Hpe.
  - rewrite Hca, Hcrl. intros fs cfg' Hfs Hl'. pose proof Hl' as Hl''.
    destruct (load_tls_config_ok _ _ _ _ _ _ Hl') as [_ (v & Hv & Hlv)].
    destruct (load_client_verifier_ok _ _ _ _ Hlv) as [_ (y & Hy & Hys)].
    eapply HG; [exact Hy|by eapply Hevs|done].
  - exists new. split; [exact Hn|]. eapply Forall_impl; [exact Hf|].
    intros p (cfg' & (v & d' & Hv & Hcs & Hr') & Hh) Hp.
    destruct (handshake_verified _ _ _ Hh Hv) as (y & Hy & _ & Hall). rewrite Hp in Hy.
    injection Hy as <-. rewrite Hcs in Hall. apply Forall_cons_1 in Hall as [Hall _]. congruence.
Qed.

(** One stalled handshake keeps everybody out.  The accept loop waits for a handshake,
    without a limit of time, before it takes the next connection: while one client does
    not finish its handshake, no number of further connections, reloads and ticks lets
    another client in. *)
Theorem stalled_handshake_blocks c cert key cfg p l evs :
  li_pending l = Some (cfg, p) → Forall (λ ev, ev.2 ≠ HandshakeDone) evs →
  li_peers (net_run c cert key evs l) = li_peers l ∧
  li_pending (net_run c cert key evs l) = Some (cfg, p).
Proof using Type.
  intros Hp Hev. revert l Hp. induction Hev as [|[files ev] evs Hne _ IH]; intros l Hp; [done|].
  cbn [net_run foldl].
  assert (li_pending (net_step c cert key (files, ev) l) = Some (cfg, p) ∧
    li_peers (net_step c cert key (files, ev) l) = li_peers l) as [Hp' Hs].
  { assert (li_pending (reload files c cert key l) = Some (cfg, p) ∧
      li_peers (reload files c cert key l) = li_peers l)
      by (unfold reload; by destruct (load_tls_config _ _ _ _ _)).
    destruct ev; cbn [net_step]; [done| | |done].
    - by destruct (crl_refresh_enabled c).
    - by rewrite Hp. }
  rewrite <-Hs. by apply IH.
Qed.
End Start.

(** ** Addresses *)

(** The text of an IPv4 address with a port. *)
Definition v4_text (a b c d port : Z) : bytes :=
  dec a ++ [46] ++ dec b ++ [46] ++ dec c ++ [46] ++ dec d ++ [58] ++ dec port.

Lemma to_digit_dec b : 48 <= b <= 57 → to_digit 10 b = Some (b - 48).
Proof.
  intros Hb. unfold to_digit. rewrite (proj2 (Z.leb_le 48 b)), (proj2 (Z.leb_le b 57)) by lia.
  cbn [andb]. by rewrite (proj2 (Z.ltb_lt (b - 48) 10)) by lia.
Qed.
(** Digits are read up to what is no digit. *)
Definition no_digit (rest : bytes) : Prop :=
  match rest with [] => True | c :: _ => to_digit 10 c = None end.
Lemma read_digits_app ds rest : Forall (λ b, 48 <= b <= 57) ds → no_digit rest →
  read_digits 10 (ds ++ rest) = ((λ b, b - 48) <$> ds, rest).
Proof.
  intros Hds Hc. induction Hds as [|b ds Hb _ IH].
  - destruct rest; [done|]. simpl in *. by rewrite Hc.
  - cbn [app read_digits]. rewrite to_digit_dec by done. by rewrite IH.
Qed.

Lemma dec_digits_value fuel n : 0 <= n < 10 ^ Z.of_nat fuel →
  foldl (λ acc d, acc * 10 + d) 0 ((λ b, b - 48) <$> dec_digits fuel n) = n.
Proof.
  revert n. induction fuel as [|fuel IH]; intros n Hn; [simpl in *; lia|]. cbn [dec_digits].
  destruct (Z.ltb_spec n 10); [simpl; lia|]. rewrite fmap_app, foldl_app, IH.
  - simpl. pose proof (Z.div_mod n 10). lia.
  - rewrite Nat2Z.inj_succ, Z.pow_succ_r in Hn by lia. split; [apply Z.div_pos; lia|].
    apply Z.div_lt_upper_bound; lia.
Qed.
Lemma dec_digits_short fuel w n : 0 <= n < 10 ^ Z.of_nat w → (1 <= w)%nat →
  (length (dec_digits fuel n) <= w)%nat.
Proof.
  revert n w. induction fuel as [|fuel IH]; intros n w Hn Hw; [simpl; lia|]. cbn [dec_digits].
  destruct (Z.ltb_spec n 10); [done|]. destruct w as [|[|w]]; [lia|change (10 ^ Z.of_nat 1) with 10 in Hn; lia|].
  rewrite length_app. simpl. rewrite Nat.add_1_r. apply le_n_S, IH; [|lia].
  rewrite Nat2Z.inj_succ, Z.pow_succ_r in Hn by lia.
  split; [apply Z.div_pos; lia|apply Z.div_lt_upper_bound; lia].
Qed.
(** No number is written with a zero in front, and none without a digit. *)
Lemma dec_digits_head fuel n : 0 <= n < 10 ^ Z.of_nat (S fuel) →
  ∃ b bs, dec_digits (S fuel) n = b :: bs ∧ (b = 48 → bs = []).
Proof.
  revert n. induction fuel as [|fuel IH]; intros n Hn; cbn [dec_digits].
  { change (10 ^ Z.of_nat 1) with 10 in Hn. rewrite (proj2 (Z.ltb_lt n 10)) by lia. eauto. }
  destruct (Z.ltb_spec n 10); [eauto|].
  assert (0 < n / 10) as Hq by (apply Z.div_str_pos; lia).
  destruct (IH (n / 10)) as (b & bs & Hd & Hz).
  { rewrite Nat2Z.inj_succ, Z.pow_succ_r in Hn by lia. split; [lia|apply Z.div_lt_upper_bound; lia]. }
  pose proof (dec_digits_value (S fuel) (n / 10)) as Hv. rewrite Hd in Hv.
  cbn [dec_digits] in Hd. rewrite Hd. cbn [app]. exists b, (bs ++ [48 + n mod 10]). split; [done|].
  intros ->. rewrite Hz in Hv by done. simpl in Hv. enough (0 = n / 10) by lia. apply Hv.
  rewrite Nat2Z.inj_succ, Z.pow_succ_r in Hn by lia. split; [lia|apply Z.div_lt_upper_bound; lia].
Qed.

Lemma read_number_dec m z limit n rest : 0 <= n <= limit → limit < 10 ^ 20 → no_digit rest →
  match m with Some w => (1 <= w)%nat ∧ limit < 10 ^ Z.of_nat w | None => True end →
  read_number 10 m z limit (dec n ++ rest) = Some (n, rest).
Proof.
  intros Hn Hl Hr Hm. unfold read_number, dec. rewrite read_digits_app; [|apply dec_digits_digits; lia|done].
  rewrite dec_digits_value by (simpl; lia).
  destruct (dec_digits_head 19 n) as (b & bs & Hd & Hz); [simpl; lia|].
  pose proof (dec_digits_short 20 (default 20%nat m) n) as Hshort. rewrite length_fmap.
  rewrite bool_decide_false by by rewrite Hd.
  assert (match m with Some w => (w <? length (dec_digits 20 n))%nat | None => false end = false) as ->.
  { destruct m as [w|]; [|done]. apply Nat.ltb_ge, Hshort; simpl; lia. }
  assert (negb z && bool_decide (head ((λ b, b - 48) <$> dec_digits 20 n) = Some 0) &&
    (1 <? length (dec_digits 20 n))%nat = false) as ->.
  { rewrite Hd. simpl. case_bool_decide as Hb; [|by rewrite andb_false_r].
    rewrite Hz by (injection Hb; lia). by rewrite andb_false_r. }
  by rewrite (proj2 (Z.ltb_ge limit n)) by lia.
Qed.

(** The parser reads every IPv4 address with its port. *)
Lemma parse_v4_text a b c d port :
  Forall (λ n, 0 <= n <= 255) [a; b; c; d] → 0 <= port <= 65535 →
  parse_socket_addr (v4_text a b c d port) = Some (V4 a b c d port).
Proof.
  rewrite !Forall_cons. intros (Ha & Hb & Hc & Hd & _) Hp.
  assert (∀ n rest, 0 <= n <= 255 → no_digit rest → octet (dec n ++ rest) = Some (n, rest)) as Ho
    by (intros; apply read_number_dec; [done|reflexivity|done|split; [lia|reflexivity]]).
  unfold parse_socket_addr, read_socket_addr_v4, read_ipv4_addr, v4_text, read_separator. cbn [app].
  rewrite Ho by done. cbn [read_char Z.eqb Pos.eqb]. rewrite Ho by done. cbn [read_char Z.eqb Pos.eqb].
  rewrite Ho by done. cbn [read_char Z.eqb Pos.eqb]. rewrite Ho by done. unfold read_port.
  cbn [read_char Z.eqb Pos.eqb].
  pose proof (read_number_dec None true 65535 port [] Hp eq_refl I I) as Hport.
  rewrite app_nil_r in Hport. by rewrite Hport.
Qed.

(** ** Examples *)

(** A toy library: a certificate is issued by the authority with the same first byte, and
    a revocation list is the certificate it revokes. *)
Definition toy_chain_ok (roots : list bytes) (c : bytes) : bool :=
  existsb (λ r, bool_decide (head r = head c)) roots.
Definition toy_handshake (cfg : ServerConfig) (p : Peer) : bool :=
  existsb (λ v, bool_decide (v ∈ pe_versions p)) (sv_versions cfg) &&
  match sv_verifier cfg, pe_cert p with
  | None, _ => true
  | Some v, Some c => toy_chain_ok (cv_roots v) c && forallb (λ crl, negb (bool_decide (crl = c))) (cv_crls v)
  | Some _, None => false
  end.
Definition toy_rustls : RustlsPrimitives :=
  {| pem_certs b := Some [b]; pem_private_key b := Some (Some b); root_store_add _ := true;
     verifier_build _ _ := true; single_cert_ok _ _ := true; handshake := toy_handshake;
     chain_ok := toy_chain_ok; revoked crl c := bool_decide (crl = c) |}.
#[local] Existing Instance toy_rustls.
#[export] Instance toy_rustls_laws : RustlsLaws toy_rustls.
Proof.
  split.
  - intros cfg p [Hv _]%andb_true_iff. apply existsb_exists in Hv as (v & Hin & Hp).
    exists v. split; [by apply list_elem_of_In|by apply bool_decide_eq_true in Hp].
  - intros cfg p v [_ Hh]%andb_true_iff Hv. rewrite Hv in Hh. destruct (pe_cert p) as [c|]; [|done].
    apply andb_true_iff in Hh as [Hc Hr]. exists c. split_and!; [done..|].
    apply Forall_forall. intros crl Hin. rewrite forallb_forall in Hr.
    apply list_elem_of_In, Hr in Hin. by apply negb_true_iff in Hin.
Defined.

(** The client CA is the byte 7; client certificates [7; n] are under it. *)
Definition tls_files (crl : bytes) : Files := λ path,
  if bool_decide (path = [3]) then Some [7] else if bool_decide (path = [4]) then Some crl else Some path.
Definition tls_section (bind : string) (cert ca : option bytes) (insecure : bool) : RawDaemonConfig :=
  {| rd_bind := Some (ascii_bytes bind); rd_tls_cert := cert; rd_tls_key := Some [2];
     rd_tls_client_ca := ca; rd_tls_client_crl := Some [4]; rd_max_random_length := None;
     rd_max_digest_length := None; rd_allow_insecure := Some insecure; rd_bind_unix := None;
     rd_max_login_attempts := None; rd_login_cooldown_secs := None; rd_max_connections := None;
     rd_request_timeout_secs := None; rd_crl_refresh_secs := None |}.
Definition start_fs : FileSystem :=
  {| fs_symlink := λ _, None; fs_canonicalize := λ _, None; fs_is_dir := λ _, false |}.
Definition start_env (r : RawDaemonConfig) : StartEnv :=
  {| st_content := FileText []; st_toml := λ _, Some (Some r);
     st_load := {| le_fips_var := None; le_config_var := None; le_open := λ _, NotFound;
                   le_fs := start_fs; le_toml := λ _, None |};
     st_config_path := []; st_post := Ok tt; st_core := true; st_bind := λ _, true;
     st_files := tls_files [7; 7] |}.
Definition tls_config : DaemonConfig := fill_defaults (tls_section "0.0.0.0:5696" (Some [1]) (Some [3]) false).
Definition tls_server (crl : bytes) : ServerConfig :=
  {| sv_versions := [TLS13]; sv_certs := [[1]]; sv_key := [2];
     sv_verifier := Some {| cv_roots := [[7]]; cv_crls := [crl] |}; sv_alpn := [ascii_bytes "h2"] |}.
Definition tls_client (n : Z) : Peer := {| pe_versions := [TLS12; TLS13]; pe_cert := Some [7; n] |}.

Lemma tls_start : main (start_env (tls_section "0.0.0.0:5696" (Some [1]) (Some [3]) false)) =
  ServesTls (V4 0 0 0 0 5696) [1] [2] (tls_server [7; 7]).
Proof. vm_compute. reflexivity. Qed.
Lemma plain_start : main (start_env (tls_section "[::1]:5696" None None true)) =
  ServesPlain (V6 [0; 0; 0; 0; 0; 0; 0; 1] 5696).
Proof. vm_compute. reflexivity. Qed.
Lemma plain_refused : main (start_env (tls_section "0.0.0.0:5696" None None true)) = Exits.
Proof. vm_compute. reflexivity. Qed.

Lemma daemon_starts_safely_witness :
  st_post (start_env (tls_section "[::1]:5696" None None true)) = Ok tt.
Proof.
  destruct (daemon_starts_safely (start_env (tls_section "[::1]:5696" None None true)) _ plain_start)
    as (c & hsm & _ & _ & _ & _ & Hp & _); done.
Defined.

Lemma tls_client_admitted : tls_client 5 ∈ li_peers (net_run tls_config [1] [2]
  [(tls_files [], Accept (tls_client 5)); (tls_files [], HandshakeDone)] (Listener_new (tls_server [7; 7]))).
Proof. vm_compute. constructor. Qed.
Lemma mutual_tls_kept_witness : TLS13 ∈ pe_versions (tls_client 5).
Proof.
  destruct (mutual_tls_kept _ _ _ _ _ tls_config [3] _ (tls_client 5) tls_start eq_refl eq_refl
    tls_client_admitted) as [Hv _]. exact Hv.
Defined.

(** The certificate [7; 5] is put on the list, and a SIGHUP is sent. *)
Lemma tls_reloads : load_tls_config (tls_files [7; 5]) [1] [2] (Some [3]) (Some [4]) = Ok (tls_server [7; 5]).
Proof. vm_compute. reflexivity. Qed.
Lemma revoked_client_kept_out_witness : ∃ new,
  li_peers (net_run tls_config [1] [2]
    [(tls_files [7; 5], SigHup); (tls_files [7; 5], Accept (tls_client 5)); (tls_files [7; 5], HandshakeDone)]
    (Listener_new (tls_server [7; 7]))) = [] ++ new ∧ Forall (λ p, pe_cert p ≠ Some [7; 5]) new.
Proof.
  apply (revoked_client_kept_out tls_config [1] [2] [3] [4] (tls_files [7; 5]) (tls_server [7; 5]) [7; 5] [7; 5]
    (Listener_new (tls_server [7; 7]))
    [(tls_files [7; 5], Accept (tls_client 5)); (tls_files [7; 5], HandshakeDone)]
    eq_refl eq_refl tls_reloads eq_refl eq_refl eq_refl).
  intros files' d' Hf Hd. cbn in Hf. rewrite !elem_of_cons, elem_of_nil in Hf.
  destruct Hf as [->|[->|[]]]; injection Hd as <-; reflexivity.
Defined.

Lemma stalled_handshake_blocks_witness :
  li_peers (net_run tls_config [1] [2]
    [(tls_files [], Accept (tls_client 5)); (tls_files [], SigHup); (tls_files [], Accept (tls_client 6))]
    {| li_active := tls_server [7; 7]; li_pending := Some (tls_server [7; 7], tls_client 9); li_peers := [] |}) = [].
Proof.
  apply (stalled_handshake_blocks tls_config [1] [2] (tls_server [7; 7]) (tls_client 9)
    {| li_active := tls_server [7; 7]; li_pending := Some (tls_server [7; 7], tls_client 9); li_peers := [] |}
    [(tls_files [], Accept (tls_client 5)); (tls_files [], SigHup); (tls_files [], Accept (tls_client 6))]
    eq_refl). repeat constructor; done.
Defined.
