(* ===== verification/AuditQueue.v ===== *)
(** * The audit log's worker thread

    The channel between the callers of the audit log and its worker (src/audit/log.rs):
    [record], [record_sync], [flush], the worker's loop with its draining of the channel
    during a flush, and the end of the log; the checks on the path of the log file; and
    [record_zeroization].  Callers and worker interleave; one message of the worker is one
    step. *)

From S2P Require Import Prelude Pkcs11 Hash Dates AuditChain Config Spy.

(** ** The path of the log file *)

(** What the file system says of a path: [Path::exists], which follows links, the kind
    [symlink_metadata] reports, and [canonicalize]. *)
Inductive FileKind := KLink | KRegular | KOther.
Record PathView := {
  pv_exists : list Component → bool;
  pv_kind : list Component → option FileKind;
  pv_canonicalize : list Component → option (list Component);
}.

Definition validate_log_path (v : PathView) (path : list Component) : HsmResult (list Component) :=
  let? _ := if pv_exists v path then
              match pv_kind v path with
              | None => Err GeneralError
              | Some KLink => Err (AuditChainBroken "audit log path is a symlink")
              | Some KOther => Err (AuditChainBroken "audit log path is not a regular file")
              | Some KRegular => Ok tt
              end
            else Ok tt in
  match parent path with
  | None => Ok path
  | Some [] => Ok path
  | Some dir =>
    match pv_canonicalize v dir with
    | None => Err GeneralError
    | Some canonical_parent =>
      match file_name path with
      | Some name => Ok (canonical_parent ++ [Normal name])
      | None => Err GeneralError
      end
    end
  end.

(** ** Channel and worker *)

Section Queue.
Context {H : HashPrimitives} {C : AuditCodec}.

(** [AuditCommand]: [done] names the caller that waits for the outcome. *)
Inductive Message := MRecord (c : AuditCommand) (done : option nat) | MFlush (done : nat).

(** The log and its files, the channel with whether its sender is alive, the worker's
    place in its loop (inside a flush, or ended), and what the callers have been told. *)
Record Queue := {
  q_log : AuditLog;
  q_files : AuditFiles;
  q_channel : list Message;
  q_open : bool;
  q_draining : option nat;
  q_exited : bool;
  q_answers : list (nat * HsmResult unit);
  q_acks : list nat;
}.
#[export] Instance Queue_expand : FieldExpansion Queue := λ q,
  Build_Queue (q_log q) (q_files q) (q_channel q) (q_open q) (q_draining q) (q_exited q)
    (q_answers q) (q_acks q).
Definition Queue_new (l : AuditLog) (d : AuditFiles) : Queue :=
  {| q_log := l; q_files := d; q_channel := []; q_open := true; q_draining := None; q_exited := false;
     q_answers := []; q_acks := [] |}.

(** Sending fails when the worker is gone. *)
Definition send (m : Message) (q : Queue) : HsmResult unit * Queue :=
  if q_open q then
    if q_exited q then (Err GeneralError, q) else (Ok tt, q <| q_channel := q_channel q ++ [m] |>)
  else (Ok tt, q).

(** [record_internal]; [record] passes no [done], [record_sync] waits for the answer. *)
Definition record_internal (session_handle : Z) (operation : AuditOperation) (result : AuditResult)
    (key_id : option (list Z)) (done : option nat) (q : Queue) : HsmResult unit * Queue :=
  if al_tamper_flag (q_log q)
  then (Err (AuditChainBroken "refusing to record: audit chain tamper previously detected"), q)
  else send (MRecord {| ac_session_handle := session_handle; ac_operation := operation;
                        ac_result := result; ac_key_id := sanitize_audit_field <$> key_id |} done) q.
Definition flush (id : nat) (q : Queue) : HsmResult unit * Queue := send (MFlush id) q.

(** [AuditLog::drop]: the sender goes. *)
Definition drop_log (q : Queue) : Queue := q <| q_open := false |>.

(** A record in the worker, with the answer to a caller that waits. *)
Definition handle_record (io : AuditIO) (c : AuditCommand) (done : option nat) (q : Queue) : Queue :=
  let '(r, l, d) := process_record io c (q_log q) (q_files q) in
  q <| q_log := l |> <| q_files := d |>
    <| q_answers := q_answers q ++ match done with Some id => [(id, r)] | None => [] end |>.

(** One step of the worker's loop. *)
Definition worker (io : AuditIO) (q : Queue) : Queue :=
  if q_exited q then q
  else
    match q_draining q, q_channel q with
    | None, [] => if q_open q then q else q <| q_exited := true |>
    | None, MRecord c done :: ms => handle_record io c done (q <| q_channel := ms |>)
    | None, MFlush id :: ms => q <| q_channel := ms |> <| q_draining := Some id |>
    | Some id, [] => q <| q_draining := None |> <| q_acks := q_acks q ++ [id] |>
    | Some _, MRecord c done :: ms => handle_record io c done (q <| q_channel := ms |>)
    | Some _, MFlush id :: ms => q <| q_channel := ms |> <| q_acks := q_acks q ++ [id] |>
    end.

(** What happens: somebody records, waits for a record, flushes or drops the log, or the
    worker runs. *)
Inductive QEvent :=
| ERecord (session_handle : Z) (operation : AuditOperation) (result : AuditResult)
    (key_id : option (list Z)) (done : option nat)
| EFlush (id : nat)
| EDrop
| EWorker (io : AuditIO).
Definition q_step (ev : QEvent) (q : Queue) : Queue :=
  match ev with
  | ERecord s o r k done => (record_internal s o r k done q).2
  | EFlush id => (flush id q).2
  | EDrop => drop_log q
  | EWorker io => worker io q
  end.

(** ** Zeroisation events *)

(** [record_zeroization]: the global logger, if it is registered and still alive. *)
Definition record_zeroization (key_size : Z) (global : option Queue) : option Queue :=
  match global with
  | Some q => Some (record_internal 0 (AZeroize (wrap 32 key_size)) Success None None q).2
  | None => None
  end.
End Queue.
