(* ===== verification/AuditQueueProofs.v ===== *)
(** * The worker keeps its promises

    Over every interleaving of callers and worker: messages are handled in the order they
    were sent, a flush is acknowledged only when everything sent before it has been
    handled, an answer without error means that the line is in the file, and the worker
    of a dropped log ends after it has handled all that was sent.  Also which paths are
    accepted for the log file. *)

From S2P Require Import Prelude Pkcs11 Hash Dates AuditChain AuditProofs Config Spy AuditQueue.

Section Queue.
Context {H : HashPrimitives} {HL : HashPrimitivesLaws H}.
Context {C : AuditCodec} {CL : AuditCodecLaws C}.

(** ** Order *)

(** What the worker did with some messages: the log, the files and the answers after
    them, given the outcomes of the file operations. *)
Inductive handled : list Message → AuditLog → AuditFiles → list (nat * HsmResult unit) →
    AuditLog → AuditFiles → list (nat * HsmResult unit) → Prop :=
| handled_nil l d a : handled [] l d a l d a
| handled_record ms l0 d0 a0 l d a io c done r l' d' :
    handled ms l0 d0 a0 l d a → process_record io c l d = (r, l', d') →
    handled (ms ++ [MRecord c done]) l0 d0 a0 l' d'
      (a ++ match done with Some id => [(id, r)] | None => [] end)
| handled_flush ms l0 d0 a0 l d a id :
    handled ms l0 d0 a0 l d a → handled (ms ++ [MFlush id]) l0 d0 a0 l d a.

(** A run, with all messages that were sent. *)
Definition sent_by (ev : QEvent) (q : Queue) : list Message :=
  match ev with
  | EWorker _ | EDrop => []
  | _ => drop (length (q_channel q)) (q_channel (q_step ev q))
  end.
Fixpoint q_run (evs : list QEvent) (q : Queue) (sent : list Message) : Queue * list Message :=
  match evs with
  | [] => (q, sent)
  | ev :: evs => q_run evs (q_step ev q) (sent ++ sent_by ev q)
  end.

Definition order_ok (l0 : AuditLog) (d0 : AuditFiles) (q : Queue) (sent : list Message) : Prop :=
  ∃ done, sent = done ++ q_channel q ∧
  handled done l0 d0 [] (q_log q) (q_files q) (q_answers q) ∧
  (∀ id, id ∈ q_acks q ∨ q_draining q = Some id → MFlush id ∈ done).

Lemma send_channel m q : q_channel (send m q).2 = q_channel q ∨ q_channel (send m q).2 = q_channel q ++ [m].
Proof using Type. unfold send. destruct (q_open q); [|by left]. destruct (q_exited q); [by left|by right]. Qed.
Lemma send_rest m q :
  let q' := (send m q).2 in
  q_log q' = q_log q ∧ q_files q' = q_files q ∧ q_answers q' = q_answers q ∧ q_acks q' = q_acks q ∧
  q_draining q' = q_draining q.
Proof using Type. unfold send. by destruct (q_open q); [destruct (q_exited q)|]. Qed.

Lemma order_send l0 d0 m q sent : order_ok l0 d0 q sent →
  order_ok l0 d0 (send m q).2 (sent ++ drop (length (q_channel q)) (q_channel (send m q).2)).
Proof using Type.
  intros (done & -> & Hh & Ha). destruct (send_rest m q) as (El & Ed & Ean & Eac & Edr).
  exists done. rewrite El, Ed, Ean, Eac, Edr. split_and!; [|done..].
  rewrite <-app_assoc. f_equal. destruct (send_channel m q) as [-> | ->].
  - by rewrite drop_ge, app_nil_r by done.
  - by rewrite drop_app_length.
Qed.

Lemma order_record l0 d0 io c dn ms q sent done : q_channel q = MRecord c dn :: ms →
  sent = done ++ q_channel q → handled done l0 d0 [] (q_log q) (q_files q) (q_answers q) →
  (∀ id, id ∈ q_acks q ∨ q_draining q = Some id → MFlush id ∈ done) →
  order_ok l0 d0 (handle_record io c dn (q <| q_channel := ms |>)) sent.
Proof using Type.
  intros Hch -> Hh Ha. exists (done ++ [MRecord c dn]). unfold handle_record.
  destruct (process_record _ _ _ _) as [[r l] d] eqn:Hp. split_and!; simpl.
  - by rewrite Hch, <-app_assoc.
  - simpl in Hp. by eapply handled_record.
  - intros id Hid. apply elem_of_app. left. by apply Ha.
Qed.

Lemma order_worker l0 d0 io q sent : order_ok l0 d0 q sent → order_ok l0 d0 (worker io q) sent.
Proof using Type.
  intros Ho. pose proof Ho as (done & Hs & Hh & Ha). unfold worker. destruct (q_exited q); [done|].
  destruct (q_draining q) as [fid|] eqn:Hd, (q_channel q) as [|[c dn|id] ms] eqn:Hch.
  - exists done. split_and!; simpl; [by rewrite Hch|done|].
    intros i [[Hi| ->%list_elem_of_singleton]%elem_of_app|Hi]; [apply Ha; by left|apply Ha; by right|done].
  - eapply order_record; [done|by rewrite Hch|done|]. rewrite Hd. exact Ha.
  - exists (done ++ [MFlush id]). split_and!; simpl.
    + by rewrite <-app_assoc.
    + by apply handled_flush.
    + rewrite Hd. intros i Hi. apply elem_of_app.
      destruct Hi as [[Hi| ->%list_elem_of_singleton]%elem_of_app|Hi].
      * left. apply Ha. by left.
      * right. by apply list_elem_of_singleton.
      * left. apply Ha. by right.
  - destruct (q_open q); [done|]. exists done. split_and!; simpl; [by rewrite Hch|done|].
    rewrite Hd. exact Ha.
  - eapply order_record; [done|by rewrite Hch|done|]. rewrite Hd. exact Ha.
  - exists (done ++ [MFlush id]). split_and!; simpl.
    + by rewrite <-app_assoc.
    + by apply handled_flush.
    + intros i Hi. apply elem_of_app. destruct Hi as [Hi|[= ->]].
      * left. apply Ha. by left.
      * right. by apply list_elem_of_singleton.
Qed.

Lemma order_run l0 d0 evs q sent : order_ok l0 d0 q sent →
  order_ok l0 d0 (q_run evs q sent).1 (q_run evs q sent).2.
Proof using Type.
  revert q sent. induction evs as [|ev evs IH]; intros q sent Ho; [done|]. cbn [q_run].
  apply IH. destruct ev as [s o r k dn|id| |io]; cbn [q_step sent_by]; rewrite ?app_nil_r.
  - unfold record_internal. destruct (al_tamper_flag _); [simpl|by apply order_send].
    by rewrite drop_ge, app_nil_r by done.
  - by apply order_send.
  - destruct Ho as (done & Hs & Hh & Ha). by exists done.
  - by apply order_worker.
Qed.

(** ** Durability *)

(** The event of a command. *)
Definition event_of (c : AuditCommand) (e : AuditEvent) : Prop :=
  ae_session_handle (ae_payload e) = ac_session_handle c ∧
  ae_operation (ae_payload e) = ac_operation c ∧ ae_result (ae_payload e) = ac_result c ∧
  ae_key_id (ae_payload e) = ac_key_id c.

Lemma write_line_ok io e d d' : AuditChain.write_line io e d = (Ok tt, d') →
  (∃ pre, af_current d' = Some (pre ++ line_of e ++ [NEWLINE])) ∧ io_sync io = true.
Proof using HL CL.
  unfold AuditChain.write_line. rewrite event_to_string_eq. intros E.
  destruct (io_write io); [done|]. destruct (io_sync io); [|done]. injection E as <-.
  split; [|done]. unfold append_file. simpl. eauto.
Qed.
Lemma persist_event_line io e d d' : persist_event io e d = (Ok tt, d') →
  (∃ pre, af_current d' = Some (pre ++ line_of e ++ [NEWLINE])) ∧ io_sync io = true.
Proof using HL CL.
  unfold persist_event. intros E. split_tests_in E; by eapply write_line_ok.
Qed.
Lemma process_record_line io c l d l' d' : process_record io c l d = (Ok tt, l', d') →
  al_on_disk l = true →
  ∃ e pre, event_of c e ∧ af_current d' = Some (pre ++ line_of e ++ [NEWLINE]) ∧ io_sync io = true.
Proof using HL CL.
  unfold process_record. intros E Hd. destruct (al_tamper_flag l); [done|].
  destruct (next_timestamp _ _) as [ts|]; [|done]. rewrite compute_chain_hash_eq in E.
  simpl in E. rewrite Hd in E. destruct (persist_event io _ d) as [[[]|] d1] eqn:Ep; [|done].
  simplify_eq. destruct (persist_event_line _ _ _ _ Ep) as [[pre Hpre] Hs].
  match type of Ep with persist_event _ ?ev _ = _ => exists ev, pre end. done.
Qed.
Lemma process_record_on_disk io c l d : al_on_disk (process_record io c l d).1.2 = al_on_disk l.
Proof using Type. unfold process_record. by repeat case_match. Qed.

Lemma handled_on_disk ms l0 d0 a0 l d a : handled ms l0 d0 a0 l d a → al_on_disk l = al_on_disk l0.
Proof using Type.
  induction 1 as [|ms l0 d0 a0 l d a io c dn r l' d' _ IH Hp|]; [done| |done].
  rewrite <-IH. pose proof (process_record_on_disk io c l d) as Ho. by rewrite Hp in Ho.
Qed.

Lemma handled_answers ms l0 d0 a0 l d a id : handled ms l0 d0 a0 l d a → al_on_disk l0 = true →
  (id, Ok tt) ∈ a → (id, Ok tt) ∈ a0 ∨ ∃ c io e pre l1 d1 l2 d2, MRecord c (Some id) ∈ ms ∧
    process_record io c l1 d1 = (Ok tt, l2, d2) ∧ event_of c e ∧
    af_current d2 = Some (pre ++ line_of e ++ [NEWLINE]) ∧ io_sync io = true.
Proof using HL CL.
  intros Hh Hd. induction Hh as [|ms l0 d0 a0 l d a io c dn r l' d' Hh IH Hp|ms l0 d0 a0 l d a i Hh IH];
    intros Ha; [by left| |].
  - apply elem_of_app in Ha as [Ha|Ha].
    + destruct (IH Hd Ha) as [Ho|(c' & io' & e & pre & l1 & d1 & l2 & d2 & Hin & Hr)]; [by left|].
      right. exists c', io', e, pre, l1, d1, l2, d2. split; [apply elem_of_app; by left|done].
    + destruct dn as [i|]; [|by apply elem_of_nil in Ha].
      apply list_elem_of_singleton in Ha. injection Ha as <- <-. right.
      destruct (process_record_line _ _ _ _ _ _ Hp) as (e & pre & He).
      { by rewrite (handled_on_disk _ _ _ _ _ _ _ Hh). }
      exists c, io, e, pre, l, d, l', d'. split; [|done]. apply elem_of_app. right. constructor.
  - destruct (IH Hd Ha) as [Ho|(c' & io' & e & pre & l1 & d1 & l2 & d2 & Hin & Hr)]; [by left|].
    right. exists c', io', e, pre, l1, d1, l2, d2. split; [apply elem_of_app; by left|done].
Qed.


(** ** The end of the log *)

Definition worker_run (ios : list AuditIO) (q : Queue) : Queue := foldl (λ q io, worker io q) q ios.

Lemma worker_open io q : q_open (worker io q) = q_open q.
Proof using Type.
  unfold worker, handle_record. destruct (q_exited q); [done|].
  destruct (q_draining q), (q_channel q) as [|[c dn|id] ms]; simpl; try done;
    try (by destruct (process_record _ _ _ _) as [[]]). by destruct (q_open q) eqn:?.
Qed.

(** Each step takes a message, ends a flush or ends the worker. *)
Definition work_left (q : Queue) : nat :=
  if q_exited q then 0
  else S (2 * length (q_channel q) + match q_draining q with Some _ => 1 | None => 0 end).
Lemma worker_progress io q : q_open q = false → q_exited q = false →
  (work_left (worker io q) < work_left q)%nat.
Proof using Type.
  intros Ho He. unfold worker, work_left, handle_record. rewrite He.
  destruct (q_draining q) as [fid|] eqn:Hd, (q_channel q) as [|[c dn|id] ms] eqn:Hch; simpl;
    try (destruct (process_record _ _ _ _) as [[r l] d]); simpl; rewrite ?Ho; simpl;
    rewrite ?He, ?Hd, ?Hch; simpl; lia.
Qed.
Lemma worker_exited_idle io q : q_exited q = true → worker io q = q.
Proof using Type. unfold worker. by intros ->. Qed.

(** A worker that has ended has nothing left. *)
Definition ended_ok (q : Queue) : Prop :=
  q_exited q = true → q_channel q = [] ∧ q_draining q = None.
Lemma worker_ended io q : ended_ok q → ended_ok (worker io q).
Proof using Type.
  unfold ended_ok, worker, handle_record. intros Hq. destruct (q_exited q) eqn:He; [by rewrite He|].
  destruct (q_draining q) as [fid|] eqn:Hd, (q_channel q) as [|[c dn|id] ms] eqn:Hch; simpl;
    try (destruct (process_record _ _ _ _) as [[r l] d]); simpl; rewrite ?He; try done.
  destruct (q_open q); simpl; rewrite ?He; done.
Qed.

Lemma worker_run_ends ios q : q_open q = false → ended_ok q → (work_left q <= length ios)%nat →
  q_exited (worker_run ios q) = true ∧ ended_ok (worker_run ios q).
Proof using Type.
  revert q. induction ios as [|io ios IH]; intros q Ho He Hw.
  - split; [|done]. unfold work_left in Hw. destruct (q_exited q) eqn:E; [done|simpl in Hw; lia].
  - cbn [worker_run foldl]. apply IH; [by rewrite worker_open|by apply worker_ended|].
    destruct (q_exited q) eqn:E.
    + rewrite worker_exited_idle by done. unfold work_left. rewrite E. lia.
    + pose proof (worker_progress io q Ho E). simpl in Hw. lia.
Qed.

Lemma worker_run_order l0 d0 ios q sent : order_ok l0 d0 q sent → order_ok l0 d0 (worker_run ios q) sent.
Proof using Type.
  revert q. induction ios as [|io ios IH]; intros q Ho; [done|]. cbn [worker_run foldl].
  by apply IH, order_worker.
Qed.

Lemma run_ended evs q sent : ended_ok q → ended_ok (q_run evs q sent).1.
Proof using Type.
  revert q sent. induction evs as [|ev evs IH]; intros q sent Hq; [done|]. cbn [q_run]. apply IH.
  destruct ev as [s o r k dn|id| |io]; cbn [q_step]; [| |done|by apply worker_ended].
  - unfold record_internal, send. destruct (al_tamper_flag _); [done|].
    unfold ended_ok in *. destruct (q_open q), (q_exited q) eqn:E; simpl; rewrite ?E; done.
  - unfold flush, send. unfold ended_ok in *.
    destruct (q_open q), (q_exited q) eqn:E; simpl; rewrite ?E; done.
Qed.

(** C37: Dropping the log loses nothing.  Whatever was sent and handled before, once the log
    is dropped the worker ends after at most two steps per message that is left and two
    more, and it has then handled every message that was ever sent, whether or not the
    writes succeeded, and acknowledged every flush it had begun. *)
Theorem audit_drop_drains l d evs q sent ios :
  q_run evs (Queue_new l d) [] = (q, sent) →
  (2 * length (q_channel q) + 2 <= length ios)%nat →
  let q' := worker_run ios (drop_log q) in
  q_exited q' = true ∧ q_draining q' = None ∧ q_channel q' = [] ∧
  handled sent l d [] (q_log q') (q_files q') (q_answers q').
Proof using Type.
  intros Hrun Hios q'. pose proof (order_run l d evs (Queue_new l d) []) as Ho.
  pose proof (run_ended evs (Queue_new l d) []) as He. rewrite Hrun in Ho, He. simpl in Ho, He.
  assert (order_ok l d (drop_log q) sent) as Ho'.
  { apply Ho. exists []. split_and!; [done|constructor|]. simpl. intros id [Hi%elem_of_nil|Hi]; done. }
  destruct (worker_run_ends ios (drop_log q)) as [Hx Hend]; [done|by apply He| |].
  { unfold work_left. simpl. destruct (q_exited q), (q_draining q); lia. }
  destruct (Hend Hx) as [Hch Hdr]. destruct (worker_run_order l d ios (drop_log q) sent Ho')
    as (done & Hs & Hh & _). fold q' in Hs, Hh, Hch, Hdr, Hx |- *. rewrite Hch, app_nil_r in Hs. by subst.
Qed.
End Queue.

(** ** Paths *)

(** An accepted path that exists is a regular file, and the directory is resolved. *)
Lemma validate_log_path_ok v path p : validate_log_path v path = Ok p →
  (pv_exists v path = true → pv_kind v path = Some KRegular) ∧
  (p = path ∨ ∃ dir canonical name, parent path = Some dir ∧ pv_canonicalize v dir = Some canonical ∧
     file_name path = Some name ∧ p = canonical ++ [Normal name]).
Proof.
  unfold validate_log_path. intros E.
  assert ((pv_exists v path = true → pv_kind v path = Some KRegular) ∧
    match parent path with
    | None | Some [] => Ok path
    | Some dir => match pv_canonicalize v dir with
                  | None => Err GeneralError
                  | Some c => match file_name path with
                              | Some name => Ok (c ++ [Normal name]) | None => Err GeneralError end
                  end
    end = Ok p) as [Hk Hp].
  { destruct (pv_exists v path); [|by split]. by destruct (pv_kind v path) as [[]|]. }
  split; [done|]. destruct (parent path) as [[|b dir]|]; [left; congruence| |left; congruence].
  destruct (pv_canonicalize v (b :: dir)) as [c|] eqn:Hc; [|done].
  destruct (file_name path) as [name|] eqn:Hn; [|done]. injection Hp as <-. right.
  by exists (b :: dir), c, name.
Qed.

(** A link whose target does not exist is accepted: [exists] follows it. *)
Lemma dangling_link_accepted v dir name canonical :
  let path := dir ++ [Normal name] in
  dir ≠ [] → pv_kind v path = Some KLink → pv_exists v path = false →
  pv_canonicalize v dir = Some canonical → validate_log_path v path = Ok (canonical ++ [Normal name]).
Proof.
  intros path Hne _ Hex Hc. unfold validate_log_path, parent, file_name, path in *. rewrite Hex.
  rewrite last_snoc, removelast_last. cbn. destruct dir as [|b dir]; [done|]. by rewrite Hc.
Qed.

(** ** Examples *)

#[local] Existing Instance toy_hash.
#[local] Existing Instance toy_audit_codec.

(** A record with a caller that waits, a flush, and the worker. *)
Definition queue_events : list QEvent :=
  [ERecord 1 ALogout Success None (Some 1%nat); EFlush 2; EWorker demo_audit_io; EWorker demo_audit_io; EWorker demo_audit_io].
Definition queue_after : Queue * list Message := q_run queue_events (Queue_new audit_start.1 audit_start.2) [].

Lemma queue_acks : q_acks queue_after.1 = [2%nat].
Proof. vm_compute. reflexivity. Qed.
Lemma queue_answers : q_answers queue_after.1 = [(1%nat, Ok tt)].
Proof. vm_compute. reflexivity. Qed.
Lemma queue_start_on_disk : al_on_disk audit_start.1 = true.
Proof. reflexivity. Qed.
Lemma queue_after_eq : queue_after = (queue_after.1, queue_after.2).
Proof. apply surjective_pairing. Qed.


Definition queue_unread : Queue * list Message :=
  q_run [ERecord 1 ALogout Success None None; EFlush 2] (Queue_new audit_start.1 audit_start.2) [].
Lemma queue_unread_eq : queue_unread = (queue_unread.1, queue_unread.2).
Proof. apply surjective_pairing. Qed.
Lemma audit_drop_drains_witness :
  q_exited (worker_run (replicate 6 demo_audit_io) (drop_log queue_unread.1)) = true.
Proof.
  destruct (audit_drop_drains audit_start.1 audit_start.2 _ _ _ (replicate 6 demo_audit_io) queue_unread_eq)
    as [Hx _]; [|exact Hx].
  assert (length (q_channel queue_unread.1) = 2%nat) as -> by (vm_compute; reflexivity). reflexivity.
Defined.
