(* ===== verification/Metrics.v ===== *)
(** * Metrics

    The collector of src/crypto/metrics.rs: its counters, one definition per method, and
    [record_operation] as the threads run it, one atomic access per step.  Counters are
    64-bit and wrap around. *)

From S2P Require Import Prelude Pkcs11.

Inductive MetricOperation :=
| Sign | Verify | Encrypt | Decrypt | Digest | GenerateKey | GenerateKeyPair | WrapKey | UnwrapKey
| DeriveKey | GenerateRandom.
#[export] Instance MetricOperation_eq_dec : EqDecision MetricOperation.
Proof. solve_decision. Defined.

Definition all_operations : list MetricOperation :=
  [Sign; Verify; Encrypt; Decrypt; Digest; GenerateKey; GenerateKeyPair; WrapKey; UnwrapKey; DeriveKey;
   GenerateRandom].
Definition operation_name (op : MetricOperation) : string :=
  match op with
  | Sign => "sign" | Verify => "verify" | Encrypt => "encrypt" | Decrypt => "decrypt"
  | Digest => "digest" | GenerateKey => "generate_key" | GenerateKeyPair => "generate_key_pair"
  | WrapKey => "wrap_key" | UnwrapKey => "unwrap_key" | DeriveKey => "derive_key"
  | GenerateRandom => "generate_random"
  end%string.

(** ** Counters *)

Record OperationMetrics := {
  total_ops : Z;
  failed_ops : Z;
  total_latency_us : Z;
  max_latency_us : Z;
}.
#[export] Instance OperationMetrics_expand : FieldExpansion OperationMetrics := λ m,
  Build_OperationMetrics (total_ops m) (failed_ops m) (total_latency_us m) (max_latency_us m).
Definition OperationMetrics_new : OperationMetrics :=
  {| total_ops := 0; failed_ops := 0; total_latency_us := 0; max_latency_us := 0 |}.

Record MetricsCollector := {
  mc_enabled : bool;
  mc_operations : MetricOperation → OperationMetrics;
  mc_sessions_opened : Z;
  mc_sessions_closed : Z;
  mc_logins : Z;
  mc_login_failures : Z;
  mc_started_at : Z;
}.
#[export] Instance MetricsCollector_expand : FieldExpansion MetricsCollector := λ c,
  Build_MetricsCollector (mc_enabled c) (mc_operations c) (mc_sessions_opened c) (mc_sessions_closed c)
    (mc_logins c) (mc_login_failures c) (mc_started_at c).
Definition MetricsCollector_new (enabled : bool) (now : Z) : MetricsCollector :=
  {| mc_enabled := enabled; mc_operations := λ _, OperationMetrics_new; mc_sessions_opened := 0;
     mc_sessions_closed := 0; mc_logins := 0; mc_login_failures := 0; mc_started_at := now |}.

(** [fetch_add]. *)
Definition fetch_add (counter n : Z) : Z := wrap 64 (counter + n).

(** One operation on its counters, when no other thread comes between; [us] is the
    latency in microseconds as a 64-bit number. *)
Definition add_operation (us : Z) (success : bool) (m : OperationMetrics) : OperationMetrics :=
  {| total_ops := fetch_add (total_ops m) 1;
     failed_ops := if success then failed_ops m else fetch_add (failed_ops m) 1;
     total_latency_us := fetch_add (total_latency_us m) us;
     max_latency_us := if max_latency_us m <? us then us else max_latency_us m |}.
Definition record_operation (op : MetricOperation) (latency_us : Z) (success : bool) (c : MetricsCollector) :
    MetricsCollector :=
  if negb (mc_enabled c) then c
  else c <| mc_operations := λ o, if bool_decide (o = op)
                                  then add_operation (wrap 64 latency_us) success (mc_operations c o)
                                  else mc_operations c o |>.
Definition record_session_open (c : MetricsCollector) : MetricsCollector :=
  if negb (mc_enabled c) then c
  else c <| mc_sessions_opened := fetch_add (mc_sessions_opened c) 1 |>.
Definition record_session_close (c : MetricsCollector) : MetricsCollector :=
  if negb (mc_enabled c) then c
  else c <| mc_sessions_closed := fetch_add (mc_sessions_closed c) 1 |>.
Definition record_login (success : bool) (c : MetricsCollector) : MetricsCollector :=
  if negb (mc_enabled c) then c
  else
    let c := c <| mc_logins := fetch_add (mc_logins c) 1 |> in
    if success then c else c <| mc_login_failures := fetch_add (mc_login_failures c) 1 |>.

(** ** Snapshots *)

Record OperationSnapshot := {
  os_name : string;
  os_total : Z;
  os_failed : Z;
  os_avg_latency_us : Z;
  os_max_latency_us : Z;
}.
Record MetricsSnapshot := {
  ms_uptime_secs : Z;
  ms_operations : list OperationSnapshot;
  ms_sessions_opened : Z;
  ms_sessions_closed : Z;
  ms_active_sessions : Z;
  ms_logins : Z;
  ms_login_failures : Z;
}.
Definition operation_snapshot (op : MetricOperation) (m : OperationMetrics) : OperationSnapshot :=
  {| os_name := operation_name op; os_total := total_ops m; os_failed := failed_ops m;
     os_avg_latency_us := if 0 <? total_ops m then total_latency_us m / total_ops m else 0;
     os_max_latency_us := max_latency_us m |}.
(** [now] is in seconds. *)
Definition snapshot (now : Z) (c : MetricsCollector) : MetricsSnapshot :=
  {| ms_uptime_secs := now - mc_started_at c;
     ms_operations := (λ op, operation_snapshot op (mc_operations c op)) <$> all_operations;
     ms_sessions_opened := mc_sessions_opened c; ms_sessions_closed := mc_sessions_closed c;
     ms_active_sessions := Z.max 0 (mc_sessions_opened c - mc_sessions_closed c);
     ms_logins := mc_logins c; ms_login_failures := mc_login_failures c |}.

(** ** Threads *)

(** Where a thread is in [record_operation]: before each atomic access, in the loop with
    the maximum it has seen, or at the end. *)
Inductive Place := AtTotal | AtFailed | AtLatency | AtLoad | AtLoop (cur : Z) | Finished.
Record Recorder := { rc_us : Z; rc_success : bool; rc_place : Place }.
Definition at_place (r : Recorder) (p : Place) : Recorder :=
  {| rc_us := rc_us r; rc_success := rc_success r; rc_place := p |}.

(** One access of one thread; [spurious] makes the weak exchange fail without reason. *)
Definition advance (spurious : bool) (r : Recorder) (m : OperationMetrics) : Recorder * OperationMetrics :=
  match rc_place r with
  | AtTotal =>
    (at_place r (if rc_success r then AtLatency else AtFailed), m <| total_ops := fetch_add (total_ops m) 1 |>)
  | AtFailed => (at_place r AtLatency, m <| failed_ops := fetch_add (failed_ops m) 1 |>)
  | AtLatency => (at_place r AtLoad, m <| total_latency_us := fetch_add (total_latency_us m) (rc_us r) |>)
  | AtLoad => (at_place r (AtLoop (max_latency_us m)), m)
  | AtLoop cur =>
    if negb (cur <? rc_us r) then (at_place r Finished, m)
    else if negb spurious && (max_latency_us m =? cur)
    then (at_place r Finished, m <| max_latency_us := rc_us r |>)
    else (at_place r (AtLoop (max_latency_us m)), m)
  | Finished => (r, m)
  end.

(** Any thread may move next. *)
Inductive metrics_step : list Recorder * OperationMetrics → list Recorder * OperationMetrics → Prop :=
| metrics_advance rs m i r spurious :
    rs !! i = Some r →
    metrics_step (rs, m) (<[i := (advance spurious r m).1]> rs, (advance spurious r m).2).

(** ** Interleaved recording is exact *)

Fixpoint zsum {T} (f : T → Z) (l : list T) : Z :=
  match l with [] => 0 | x :: l => f x + zsum f l end.
Lemma zsum_insert {T} (f : T → Z) l i x y : l !! i = Some x →
  zsum f (<[i := y]> l) = zsum f l - f x + f y.
Proof.
  revert i. induction l as [|z l IH]; intros i Hi; [done|].
  destruct i as [|i]; simpl in *; [injection Hi as ->; lia|]. rewrite (IH i Hi). lia.
Qed.
Lemma zsum_app {T} (f : T → Z) l k : zsum f (l ++ k) = zsum f l + zsum f k.
Proof. induction l as [|x l IH]; simpl; lia. Qed.
Lemma zsum_fmap {T U} (g : U → T) (f : T → Z) l : zsum f (g <$> l) = zsum (f ∘ g) l.
Proof. induction l as [|x l IH]; [done|]. rewrite fmap_cons. cbn [zsum]. by rewrite IH. Qed.
Lemma zsum_ext {T} (f g : T → Z) l : (∀ x, x ∈ l → f x = g x) → zsum f l = zsum g l.
Proof.
  induction l as [|x l IH]; intros Hf; [done|]. simpl. rewrite (Hf x), IH; [done| |left].
  intros y Hy. apply Hf. by right.
Qed.

Lemma fetch_add_wrap a b : fetch_add (wrap 64 a) b = wrap 64 (a + b).
Proof. unfold fetch_add, wrap. by rewrite Z.add_mod_idemp_l. Qed.

(** A job: its latency and its success. *)
Definition Job : Type := Z * bool.
Definition job_us (j : Job) : Z := j.1.
Definition job_failed (j : Job) : Z := if j.2 then 0 else 1.
Definition start (j : Job) : Recorder := {| rc_us := j.1; rc_success := j.2; rc_place := AtTotal |}.
Definition job_of (r : Recorder) : Job := (rc_us r, rc_success r).

Definition counted_total (r : Recorder) : Z := match rc_place r with AtTotal => 0 | _ => 1 end.
Definition counted_failed (r : Recorder) : Z :=
  match rc_place r with AtTotal | AtFailed => 0 | _ => if rc_success r then 0 else 1 end.
Definition counted_latency (r : Recorder) : Z :=
  match rc_place r with AtTotal | AtFailed | AtLatency => 0 | _ => rc_us r end.

Record metrics_inv (jobs : list Job) (rs : list Recorder) (m : OperationMetrics) : Prop := {
  mi_jobs : job_of <$> rs = jobs;
  mi_total : total_ops m = wrap 64 (zsum counted_total rs);
  mi_failed : failed_ops m = wrap 64 (zsum counted_failed rs);
  mi_latency : total_latency_us m = wrap 64 (zsum counted_latency rs);
  mi_place : ∀ r, r ∈ rs → rc_place r = AtFailed → rc_success r = false;
  mi_seen : ∀ r, r ∈ rs → match rc_place r with
                            | AtLoop cur => cur <= max_latency_us m
                            | Finished => rc_us r <= max_latency_us m
                            | _ => True
                            end;
  mi_max : max_latency_us m = 0 ∨ ∃ j, j ∈ jobs ∧ max_latency_us m = j.1;
}.

Lemma metrics_inv_start jobs : metrics_inv jobs (start <$> jobs) OperationMetrics_new.
Proof.
  assert (∀ f, (∀ j, f (start j) = 0) → zsum f (start <$> jobs) = 0) as Hz.
  { intros f Hf. rewrite zsum_fmap. induction jobs as [|j jobs IH]; [done|]. cbn [zsum]. unfold compose at 1. by rewrite Hf, IH. }
  split; rewrite ?Hz; try done; try (by left); intros.
  - rewrite <-list_fmap_compose. rewrite <-(list_fmap_id jobs) at 2. apply list_fmap_ext. by intros ? [].
  - apply list_elem_of_fmap in H as (j & -> & _). done.
  - apply list_elem_of_fmap in H as (j & -> & _). done.
Qed.

(** The invariant after one thread has moved. *)
Lemma metrics_inv_update jobs rs m i r r' m' :
  metrics_inv jobs rs m → rs !! i = Some r → job_of r' = job_of r →
  total_ops m' = wrap 64 (zsum counted_total rs - counted_total r + counted_total r') →
  failed_ops m' = wrap 64 (zsum counted_failed rs - counted_failed r + counted_failed r') →
  total_latency_us m' = wrap 64 (zsum counted_latency rs - counted_latency r + counted_latency r') →
  (rc_place r' = AtFailed → rc_success r' = false) →
  match rc_place r' with
  | AtLoop cur => cur <= max_latency_us m' | Finished => rc_us r' <= max_latency_us m' | _ => True end →
  max_latency_us m <= max_latency_us m' →
  max_latency_us m' = max_latency_us m ∨ max_latency_us m' = rc_us r →
  metrics_inv jobs (<[i := r']> rs) m'.
Proof.
  intros [Hj Ht Hf Hl Hp Hs Hm] Hi Hjob Ht' Hf' Hl' Hp' Hs' Hle Hmax.
  assert (∀ x, x ∈ <[i := r']> rs → x = r' ∨ x ∈ rs) as Hin.
  { intros x Hx. apply list_elem_of_lookup_1 in Hx as [k Hk].
    apply list_lookup_insert_Some in Hk as [(_ & -> & _)|(_ & Hk)]; [by left|].
    right. by eapply list_elem_of_lookup_2. }
  split; rewrite ?(zsum_insert _ _ _ r) by done; try done.
  - rewrite list_fmap_insert, Hjob, <-Hj. apply list_insert_id. by rewrite list_lookup_fmap, Hi.
  - intros x [->|Hx]%Hin; [done|by apply Hp].
  - intros x [->|Hx]%Hin; [done|]. specialize (Hs x Hx). destruct (rc_place x); try done; lia.
  - destruct Hmax as [->| ->]; [done|]. right. exists (job_of r). split; [|done].
    rewrite <-Hj. apply list_elem_of_fmap. exists r. split; [done|]. by eapply list_elem_of_lookup_2.
Qed.

Lemma metrics_inv_step jobs rs m rs' m' :
  metrics_inv jobs rs m → metrics_step (rs, m) (rs', m') → metrics_inv jobs rs' m'.
Proof.
  intros Hi Hs. inversion Hs as [? ? i r spurious Hr]; subst. clear Hs.
  pose proof Hi as [_ Ht Hf Hl Hp Hseen _]. pose proof (list_elem_of_lookup_2 _ _ _ Hr) as Hin.
  specialize (Hp r Hin). specialize (Hseen r Hin).
  apply (metrics_inv_update jobs rs m i r); [done|done|..];
    destruct r as [us ok []]; unfold advance; simpl in *; try (specialize (Hp eq_refl)); subst;
    rewrite ?Ht, ?Hf, ?Hl, ?fetch_add_wrap; repeat case_match; bool_to_prop; simplify_eq/=;
    rewrite ?Ht, ?Hf, ?Hl; unfold counted_total, counted_failed, counted_latency; simpl; try done;
    try (f_equal; lia); try lia; auto.
Qed.

(** What the jobs add up to. *)
Fixpoint max_latency (jobs : list Job) : Z :=
  match jobs with [] => 0 | j :: jobs => Z.max j.1 (max_latency jobs) end.
Definition metrics_of (jobs : list Job) : OperationMetrics :=
  {| total_ops := wrap 64 (Z.of_nat (length jobs)); failed_ops := wrap 64 (zsum job_failed jobs);
     total_latency_us := wrap 64 (zsum job_us jobs); max_latency_us := max_latency jobs |}.

Lemma max_latency_snoc (jobs : list Job) (j : Job) :
  max_latency (jobs ++ [j]) = Z.max (max_latency jobs) (Z.max j.1 0).
Proof. induction jobs as [|k jobs IH]; simpl; [lia|]. simpl in IH. lia. Qed.
Lemma max_latency_spec (jobs : list Job) :
  0 <= max_latency jobs ∧
  (∀ j, j ∈ jobs → j.1 <= max_latency jobs).
Proof.
  induction jobs as [|k jobs [IH1 IH2]]; simpl; [split; [done|by intros j Hj%elem_of_nil]|].
  split; [lia|]. intros j [->|Hj]%elem_of_cons; [lia|]. specialize (IH2 j Hj). lia.
Qed.

(** One after the other. *)
Lemma sequential_metrics (jobs : list Job) : Forall (λ j : Job, 0 <= j.1) jobs →
  foldl (λ m (j : Job), add_operation j.1 j.2 m) OperationMetrics_new jobs = metrics_of jobs.
Proof.
  induction jobs as [|j jobs IH] using rev_ind; [done|]. rewrite Forall_app, Forall_singleton.
  intros [Hjs Hj]. rewrite foldl_app, IH by done. simpl. unfold add_operation, metrics_of. simpl.
  rewrite max_latency_snoc, !zsum_app, !fetch_add_wrap, length_app. simpl.
  pose proof (proj1 (max_latency_spec jobs)). f_equal.
  - apply (f_equal (wrap 64)). lia.
  - unfold job_failed at 4. destruct (j.2); apply (f_equal (wrap 64)); lia.
  - apply (f_equal (wrap 64)). unfold job_us at 3. lia.
  - destruct (Z.ltb_spec (max_latency jobs) j.1); lia.
Qed.

Lemma metrics_of_bounds (jobs : list Job) op : Forall (λ j : Job, 0 <= j.1) jobs →
  Z.of_nat (length jobs) < 2 ^ 64 → zsum job_us jobs < 2 ^ 64 →
  let s := operation_snapshot op (metrics_of jobs) in
  os_total s = Z.of_nat (length jobs) ∧ os_failed s <= os_total s ∧ os_avg_latency_us s <= os_max_latency_us s.
Proof.
  intros Hpos Hn Hsum.
  assert (0 <= zsum job_failed jobs <= Z.of_nat (length jobs)) as Hf.
  { clear. induction jobs as [|j jobs IH]; simpl; [lia|]. unfold job_failed at 1 3. destruct (j.2); lia. }
  assert (0 <= zsum job_us jobs <= Z.of_nat (length jobs) * max_latency jobs) as Hs.
  { clear Hf Hn Hsum. induction Hpos as [|j jobs Hj _ IH]; simpl; [lia|]. unfold job_us at 1 3.
    rewrite Nat2Z.inj_succ, <-Z.add_1_l, Z.mul_add_distr_r, Z.mul_1_l.
    pose proof (proj1 (max_latency_spec jobs)). nia. }
  unfold operation_snapshot, metrics_of, wrap. simpl. rewrite !Z.mod_small by lia.
  split_and!; [done|lia|]. destruct (Z.ltb_spec 0 (Z.of_nat (length jobs))).
  - apply Z.div_le_upper_bound; lia.
  - apply max_latency_spec.
Qed.

Lemma metrics_inv_finished (jobs : list Job) rs m : metrics_inv jobs rs m → Forall (λ r, rc_place r = Finished) rs →
  Forall (λ j : Job, 0 <= j.1) jobs → m = metrics_of jobs.
Proof.
  intros [Hj Ht Hf Hl _ Hs Hm] Hfin Hpos. rewrite Forall_forall in Hfin.
  assert (zsum counted_total rs = Z.of_nat (length jobs)) as Et.
  { rewrite <-Hj, length_fmap, (zsum_ext _ (λ _, 1)).
    - clear. induction rs as [|r rs IH]; simpl; [done|]. lia.
    - intros r Hr. unfold counted_total. by rewrite (Hfin r Hr). }
  assert (zsum counted_failed rs = zsum job_failed jobs) as Ef.
  { rewrite <-Hj, zsum_fmap. apply zsum_ext. intros r Hr. unfold counted_failed. by rewrite (Hfin r Hr). }
  assert (zsum counted_latency rs = zsum job_us jobs) as El.
  { rewrite <-Hj, zsum_fmap. apply zsum_ext. intros r Hr. unfold counted_latency. by rewrite (Hfin r Hr). }
  assert (max_latency_us m = max_latency jobs) as Em.
  { destruct (max_latency_spec jobs) as [H0 Hall].
    assert (∀ j, j ∈ jobs → j.1 <= max_latency_us m) as Hle.
    { intros j Hin. rewrite <-Hj in Hin. apply list_elem_of_fmap in Hin as (r & -> & Hr).
      specialize (Hs r Hr). by rewrite (Hfin r Hr) in Hs. }
    assert (0 <= max_latency_us m) as Hpos'.
    { destruct Hm as [->|(j & Hin & ->)]; [done|]. rewrite Forall_forall in Hpos. by apply Hpos. }
    assert (max_latency jobs <= max_latency_us m).
    { clear Hm Hj Hpos Et Ef El Hall H0. induction jobs as [|j jobs IH]; simpl; [done|].
      assert (j.1 <= max_latency_us m) by (apply Hle; by left).
      assert (max_latency jobs <= max_latency_us m)
        by (apply IH; intros k Hk; apply Hle; by right). lia. }
    destruct Hm as [Hm|(j & Hin & Hm)]; [lia|]. specialize (Hall j Hin). lia. }
  destruct m as [a b c d]. simpl in *. unfold metrics_of. congruence.
Qed.

(** C38: Nothing is lost under concurrency.  Whatever the interleaving of the atomic accesses
    of any number of threads, and with weak exchanges that fail without reason, once all
    calls of [record_operation] for an operation have returned its counters are those of
    the same calls made one after the other.  As long as no counter has wrapped, a
    snapshot then shows no more failures than operations and an average latency of at
    most the maximum. *)
Theorem concurrent_metrics_exact (jobs : list Job) rs m op :
  Forall (λ j : Job, 0 <= j.1) jobs →
  rtc metrics_step (start <$> jobs, OperationMetrics_new) (rs, m) →
  Forall (λ r, rc_place r = Finished) rs →
  m = foldl (λ m (j : Job), add_operation j.1 j.2 m) OperationMetrics_new jobs ∧
  (Z.of_nat (length jobs) < 2 ^ 64 → zsum job_us jobs < 2 ^ 64 →
   let s := operation_snapshot op m in
   os_total s = Z.of_nat (length jobs) ∧ os_failed s <= os_total s ∧
   os_avg_latency_us s <= os_max_latency_us s).
Proof.
  intros Hpos Hrun Hfin. rewrite sequential_metrics by done.
  assert (metrics_inv jobs rs m) as Hi.
  { revert Hrun. generalize (metrics_inv_start jobs). generalize (start <$> jobs), OperationMetrics_new.
    intros rs0 m0 Hi Hrun. remember (rs0, m0) as x eqn:Hx. remember (rs, m) as y eqn:Hy.
    revert rs0 m0 Hx Hi. induction Hrun as [|a b c Hab _ IH]; intros rs0 m0 Hx Hi; subst.
    - by injection Hx as -> ->.
    - destruct b as [rs1 m1]. eapply IH; [done|done|]. by eapply metrics_inv_step. }
  rewrite (metrics_inv_finished jobs rs m) by done. split; [done|]. by apply metrics_of_bounds.
Qed.

(** ** An example: two threads taking turns *)

Definition take_turn (x : list Recorder * OperationMetrics) (i : nat) : list Recorder * OperationMetrics :=
  match x.1 !! i with
  | Some r => (<[i := (advance false r x.2).1]> x.1, (advance false r x.2).2)
  | None => x
  end.
Lemma turns_rtc x ks : rtc metrics_step x (foldl take_turn x ks).
Proof.
  revert x. induction ks as [|i ks IH]; intros [rs m]; [done|]. cbn [foldl].
  unfold take_turn at 2. simpl. destruct (rs !! i) as [r|] eqn:Hi; [|apply IH].
  eapply rtc_l; [by apply (metrics_advance rs m i r false)|apply IH].
Qed.
Definition demo_jobs : list Job := [(5, true); (9, false)].
Definition demo_turns : list Recorder * OperationMetrics :=
  foldl take_turn (start <$> demo_jobs, OperationMetrics_new) [0; 1; 1; 0; 1; 0; 1; 1; 0; 1; 0; 0]%nat.
Lemma demo_turns_finished : Forall (λ r, rc_place r = Finished) demo_turns.1.
Proof. vm_compute. repeat constructor. Qed.
Lemma demo_turns_run :
  rtc metrics_step (start <$> demo_jobs, OperationMetrics_new) (demo_turns.1, demo_turns.2).
Proof. rewrite <-surjective_pairing. apply turns_rtc. Qed.

Lemma concurrent_metrics_exact_witness :
  demo_turns.2 = foldl (λ m (j : Job), add_operation j.1 j.2 m) OperationMetrics_new demo_jobs.
Proof.
  refine (proj1 (concurrent_metrics_exact demo_jobs demo_turns.1 demo_turns.2 Sign _ demo_turns_run
    demo_turns_finished)).
  repeat constructor; done.
Defined.
