(* ===== verification/KeyMaterial.v ===== *)
(** * Key material in memory

    [RawKeyMaterial] (src/store/key_material.rs) on the memory of the process, with the
    locking of pages of src/crypto/mlock.rs.  Memory is a map from addresses to bytes and
    the set of locked pages; the kernel's locks are per page and do not nest, as the manual of
    mlock says.  Erasing a vector covers its whole capacity, as the zeroize crate documents.
    The allocator chooses the addresses. *)

From S2P Require Import Prelude Pkcs11 Hash AuditChain AuditQueue.

Definition PAGE : Z := 4096.

Record Memory := { mm_bytes : Z → Z; mm_locked : gset Z }.

(** The bytes of a buffer. *)
Definition read_mem (m : Memory) (addr : Z) (len : nat) : bytes := mm_bytes m <$> seqZ addr (Z.of_nat len).
Definition inside (addr : Z) (len : nat) (a : Z) : bool := (addr <=? a) && (a <? addr + Z.of_nat len).
Definition write_mem (addr : Z) (bs : bytes) (m : Memory) : Memory :=
  {| mm_bytes := λ a, if inside addr (length bs) a then nth (Z.to_nat (a - addr)) bs 0 else mm_bytes m a;
     mm_locked := mm_locked m |}.
(** [Zeroize]. *)
Definition zeroize (addr : Z) (len : nat) (m : Memory) : Memory :=
  {| mm_bytes := λ a, if inside addr len a then 0 else mm_bytes m a; mm_locked := mm_locked m |}.

Definition pages (addr : Z) (len : nat) : gset Z :=
  list_to_set (seqZ (addr / PAGE) ((addr + Z.of_nat len - 1) / PAGE - addr / PAGE + 1)).

(** [mlock_buffer] and [munlock_buffer]; [ok] is whether the system call succeeds. *)
Definition mlock_buffer (ok : bool) (addr : Z) (len : nat) (m : Memory) : bool * Memory :=
  if (len =? 0)%nat || (addr =? 0) then (true, m)
  else if ok then (true, {| mm_bytes := mm_bytes m; mm_locked := mm_locked m ∪ pages addr len |})
  else (false, m).
Definition munlock_buffer (ok : bool) (addr : Z) (len : nat) (m : Memory) : bool * Memory :=
  if (len =? 0)%nat || (addr =? 0) then (true, m)
  else if ok then (true, {| mm_bytes := mm_bytes m; mm_locked := mm_locked m ∖ pages addr len |})
  else (false, m).

(** A vector and a boxed slice. *)
Record Buffer := { bf_addr : Z; bf_len : nat; bf_capacity : nat }.
Record RawKeyMaterial := { rk_addr : Z; rk_len : nat }.

(** The copy to an exact allocation at [alloc], when there is excess capacity; the old
    buffer is erased over its whole capacity. *)
Definition exact_buffer (alloc : Z) (v : Buffer) (m : Memory) : Z * Memory :=
  if (bf_capacity v =? bf_len v)%nat then (bf_addr v, m)
  else (alloc, zeroize (bf_addr v) (bf_capacity v) (write_mem alloc (read_mem m (bf_addr v) (bf_len v)) m)).

(** [RawKeyMaterial::new]: a lock that fails is ignored. *)
Definition raw_new (lock_ok : bool) (alloc : Z) (v : Buffer) (m : Memory) : RawKeyMaterial * Memory :=
  let '(addr, m) := exact_buffer alloc v m in
  let m := if (bf_len v =? 0)%nat then m else (mlock_buffer lock_ok addr (bf_len v) m).2 in
  ({| rk_addr := addr; rk_len := bf_len v |}, m).
(** [new_strict]: a lock that fails is an error, and the buffer is freed as it is. *)
Definition raw_new_strict (lock_ok : bool) (alloc : Z) (v : Buffer) (m : Memory) :
    option RawKeyMaterial * Memory :=
  let '(addr, m) := exact_buffer alloc v m in
  let '(locked, m) := if (bf_len v =? 0)%nat then (true, m) else mlock_buffer lock_ok addr (bf_len v) m in
  (if locked then Some {| rk_addr := addr; rk_len := bf_len v |} else None, m).
Definition as_bytes (k : RawKeyMaterial) (m : Memory) : bytes := read_mem m (rk_addr k) (rk_len k).
(** [Clone]: [copy] is the exact vector that [to_vec] allocates. *)
Definition raw_clone (lock_ok : bool) (copy : Z) (k : RawKeyMaterial) (m : Memory) : RawKeyMaterial * Memory :=
  raw_new lock_ok copy {| bf_addr := copy; bf_len := rk_len k; bf_capacity := rk_len k |}
    (write_mem copy (as_bytes k m) m).

(** [Drop]: erase, unlock, record. *)
Definition raw_drop (unlock_ok : bool) (k : RawKeyMaterial) (m : Memory) (global : option Queue) :
    Memory * option Queue :=
  if (rk_len k =? 0)%nat then (m, global)
  else
    let m := zeroize (rk_addr k) (rk_len k) m in
    let m := (munlock_buffer unlock_ok (rk_addr k) (rk_len k) m).2 in
    (m, record_zeroization (Z.of_nat (rk_len k)) global).

(** ** What is in memory *)

Definition apart (a : Z) (n : nat) (b : Z) (k : nat) : Prop :=
  a + Z.of_nat n <= b ∨ b + Z.of_nat k <= a.

Lemma read_mem_ext m m' addr len :
  (∀ a, addr <= a < addr + Z.of_nat len → mm_bytes m' a = mm_bytes m a) →
  read_mem m' addr len = read_mem m addr len.
Proof.
  intros He. unfold read_mem. apply list_fmap_ext. intros i a Ha. apply He.
  apply lookup_seqZ in Ha. lia.
Qed.
Lemma inside_spec addr len a : inside addr len a = true ↔ addr <= a < addr + Z.of_nat len.
Proof. unfold inside. rewrite andb_true_iff. lia. Qed.
Lemma inside_false addr len a : inside addr len a = false ↔ ¬ (addr <= a < addr + Z.of_nat len).
Proof. rewrite <-inside_spec. by destruct (inside addr len a). Qed.

Lemma read_zeroize m addr len : read_mem (zeroize addr len m) addr len = replicate len 0.
Proof.
  unfold read_mem, zeroize. simpl. apply list_eq_same_length with len; rewrite ?length_fmap, ?length_seqZ, ?length_replicate; try lia.
  intros i x y Hi Hx Hy. rewrite list_lookup_fmap in Hx. apply lookup_replicate in Hy as [-> _].
  destruct (seqZ addr _ !! i) as [a|] eqn:Ha; [|done]. injection Hx as <-.
  apply lookup_seqZ in Ha. by rewrite (proj2 (inside_spec addr len a)) by lia.
Qed.
Lemma read_write m addr bs : read_mem (write_mem addr bs m) addr (length bs) = bs.
Proof.
  unfold read_mem, write_mem. simpl. apply list_eq_same_length with (length bs); rewrite ?length_fmap, ?length_seqZ; try lia.
  intros i x y Hi Hx Hy. rewrite list_lookup_fmap in Hx.
  destruct (seqZ addr _ !! i) as [a|] eqn:Ha; [|done]. injection Hx as <-. apply lookup_seqZ in Ha as [-> ?].
  rewrite (proj2 (inside_spec _ _ _)) by lia.
  replace (Z.to_nat (addr + Z.of_nat i - addr)) with i by lia. by apply nth_lookup_Some.
Qed.

(** Erasing and writing leave what lies apart. *)
Lemma zeroize_apart m a n b k : apart a n b k → read_mem (zeroize a n m) b k = read_mem m b k.
Proof.
  intros Ha. apply read_mem_ext. intros x Hx. unfold zeroize. simpl.
  rewrite (proj2 (inside_false a n x)); [done|]. unfold apart in Ha. lia.
Qed.
Lemma write_apart m a bs b k : apart a (length bs) b k → read_mem (write_mem a bs m) b k = read_mem m b k.
Proof.
  intros Ha. apply read_mem_ext. intros x Hx. unfold write_mem. simpl.
  rewrite (proj2 (inside_false a (length bs) x)); [done|]. unfold apart in Ha. lia.
Qed.
Lemma length_read_mem m a n : length (read_mem m a n) = n.
Proof. unfold read_mem. rewrite length_fmap, length_seqZ. lia. Qed.
Lemma read_mem_bytes m m' a n : mm_bytes m' = mm_bytes m → read_mem m' a n = read_mem m a n.
Proof. intros He. apply read_mem_ext. by rewrite He. Qed.
Lemma mlock_bytes ok a n m : mm_bytes (mlock_buffer ok a n m).2 = mm_bytes m.
Proof. unfold mlock_buffer. by repeat case_match. Qed.
Lemma munlock_bytes ok a n m : mm_bytes (munlock_buffer ok a n m).2 = mm_bytes m.
Proof. unfold munlock_buffer. by repeat case_match. Qed.

Lemma elem_of_pages a n p : p ∈ pages a n ↔ a / PAGE <= p <= (a + Z.of_nat n - 1) / PAGE.
Proof. unfold pages. rewrite elem_of_list_to_set, elem_of_seqZ. lia. Qed.
Lemma page_in_pages a n x : a <= x < a + Z.of_nat n → x / PAGE ∈ pages a n.
Proof.
  intros Hx. apply elem_of_pages. unfold PAGE. split; apply Z.div_le_mono; lia.
Qed.

(** A key is locked when every page it lies on is. *)
Definition key_locked (k : RawKeyMaterial) (m : Memory) : Prop := pages (rk_addr k) (rk_len k) ⊆ mm_locked m.

(** The exact buffer holds the data and the vector it was copied from is erased. *)
Lemma exact_buffer_spec alloc v m addr m' :
  (bf_len v <= bf_capacity v)%nat → apart (bf_addr v) (bf_capacity v) alloc (bf_len v) →
  exact_buffer alloc v m = (addr, m') →
  read_mem m' addr (bf_len v) = read_mem m (bf_addr v) (bf_len v)
  ∧ mm_locked m' = mm_locked m
  ∧ (bf_capacity v ≠ bf_len v →
     addr = alloc ∧ read_mem m' (bf_addr v) (bf_capacity v) = replicate (bf_capacity v) 0).
Proof.
  intros Hc Ha. unfold exact_buffer. destruct (bf_capacity v =? bf_len v)%nat eqn:E; intros [= <- <-].
  - apply Nat.eqb_eq in E. repeat split; congruence.
  - apply Nat.eqb_neq in E. split; [|split; [done|]].
    + rewrite zeroize_apart by done.
      by rewrite <-(length_read_mem m (bf_addr v) (bf_len v)) at 2; rewrite read_write.
    + intros _. split; [done|]. apply read_zeroize.
Qed.

(** [RawKeyMaterial::new] takes over exactly the bytes it is given.  When the vector
    had room to spare, the buffer it came in is zero over its whole capacity afterwards, so
    one copy is left; and when the system grants the lock, every page of the key is
    locked. *)
Theorem new_key_single_copy lock_ok alloc v m :
  (bf_len v <= bf_capacity v)%nat → apart (bf_addr v) (bf_capacity v) alloc (bf_len v) →
  let '(k, m') := raw_new lock_ok alloc v m in
  as_bytes k m' = read_mem m (bf_addr v) (bf_len v)
  ∧ (bf_capacity v ≠ bf_len v →
     rk_addr k = alloc ∧ read_mem m' (bf_addr v) (bf_capacity v) = replicate (bf_capacity v) 0)
  ∧ (lock_ok = true → rk_addr k ≠ 0 → bf_len v ≠ 0%nat → key_locked k m').
Proof.
  intros Hc Ha. unfold raw_new. destruct (exact_buffer alloc v m) as [addr m1] eqn:E.
  destruct (exact_buffer_spec _ _ _ _ _ Hc Ha E) as (Hr & Hl & Hz).
  set (m2 := if (bf_len v =? 0)%nat then m1 else _).
  assert (Hb : mm_bytes m2 = mm_bytes m1) by (subst m2; case_match; [done|apply mlock_bytes]).
  unfold as_bytes, key_locked; simpl. rewrite !(read_mem_bytes _ _ _ _ Hb).
  split; [done|]. split; [done|]. intros -> Hne Hn. subst m2.
  rewrite (proj2 (Nat.eqb_neq _ _) Hn). unfold mlock_buffer.
  rewrite (proj2 (Nat.eqb_neq _ _) Hn), (proj2 (Z.eqb_neq _ _) Hne). simpl. set_solver.
Qed.


(** When the lock is refused, [new_strict] frees the buffer with the key still in it. *)
Lemma strict_failure_leaves_key alloc v m :
  bf_len v ≠ 0%nat → bf_capacity v = bf_len v → bf_addr v ≠ 0 →
  let '(k, m') := raw_new_strict false alloc v m in
  k = None ∧ read_mem m' (bf_addr v) (bf_len v) = read_mem m (bf_addr v) (bf_len v).
Proof.
  intros Hn Hc Ha. unfold raw_new_strict, exact_buffer, mlock_buffer.
  by rewrite (proj2 (Nat.eqb_eq _ _) Hc), (proj2 (Nat.eqb_neq _ _) Hn), (proj2 (Z.eqb_neq _ _) Ha).
Qed.

(** ** Two keys on one page *)

Definition demo_memory : Memory :=
  {| mm_bytes := λ a, if inside 4096 4 a then 7 else if inside 4128 4 a then 9 else 0;
     mm_locked := {[ 1 ]} |}.
Definition demo_vector : Buffer := {| bf_addr := 4096; bf_len := 4; bf_capacity := 6 |}.
Definition demo_key : RawKeyMaterial := {| rk_addr := 4096; rk_len := 4 |}.
Definition demo_other : RawKeyMaterial := {| rk_addr := 4128; rk_len := 4 |}.

Lemma new_key_single_copy_witness :
  let '(k, m') := raw_new true 8192 demo_vector demo_memory in
  as_bytes k m' = [7; 7; 7; 7] ∧ read_mem m' 4096 6 = [0; 0; 0; 0; 0; 0].
Proof.
  assert (Ha : apart 4096 6 8192 4) by (left; lia).
  assert (Hc : (bf_len demo_vector <= bf_capacity demo_vector)%nat) by (simpl; lia).
  pose proof (new_key_single_copy true 8192 demo_vector demo_memory Hc Ha) as Hw.
  destruct (raw_new true 8192 demo_vector demo_memory) as [k m'].
  destruct Hw as (Hb & Hz & _). split; [rewrite Hb; reflexivity|].
  apply Hz. simpl. lia.
Defined.

