(* ===== verification/StoreOpen.v ===== *)
(** * Opening the encrypted store

    [EncryptedStore::new], [Drop] and [set_restrictive_permissions] of
    src/store/encrypted_store.rs, for several processes that open stores at the same time.
    One system call is one step; a process may die between any two, and the kernel then
    closes its files. *)

From S2P Require Import Prelude Pkcs11 Objects ObjectStore.

Definition PRIVATE_MODE : Z := 384. (* 0o600 *)

(** The modes of the files that exist, and who holds the exclusive lock of a file. *)
Record StoreFs := { sf_mode : gmap string Z; sf_lock : gmap string nat }.

(** [File::create] and [Database::create]: a file that exists keeps its mode. *)
Definition create_file (mode : Z) (path : string) (f : StoreFs) : StoreFs :=
  {| sf_mode := match sf_mode f !! path with Some _ => sf_mode f | None => <[path := mode]> (sf_mode f) end;
     sf_lock := sf_lock f |}.
(** [set_restrictive_permissions] on Unix; [ok] is whether the call succeeds. *)
Definition set_restrictive_permissions (ok : bool) (path : string) (f : StoreFs) : HsmResult StoreFs :=
  if ok then Ok {| sf_mode := <[path := PRIVATE_MODE]> (sf_mode f); sf_lock := sf_lock f |}
  else Err GeneralError.
(** [try_lock_exclusive], and closing the file. *)
Definition try_lock_exclusive (ok : bool) (id : nat) (path : string) (f : StoreFs) : HsmResult StoreFs :=
  match sf_lock f !! path with
  | Some _ => Err GeneralError
  | None => if ok then Ok {| sf_mode := sf_mode f; sf_lock := <[path := id]> (sf_lock f) |} else Err GeneralError
  end.
Definition close_file (path : string) (f : StoreFs) : StoreFs :=
  {| sf_mode := sf_mode f; sf_lock := delete path (sf_lock f) |}.

Definition lock_path (p : string) : string := (p +:+ ".lock")%string.

(** Where a process is in [EncryptedStore::new] and after it. *)
Inductive Stage := SStart | SCreated | SRestricted | SLocked | SDatabase | SOpen | SFailed | SClosed.
#[export] Instance Stage_eq : EqDecision Stage.
Proof. solve_decision. Defined.
Definition holding (s : Stage) : bool :=
  match s with SLocked | SDatabase | SOpen => true | _ => false end.

(** The next call; [mode] is the mode a new file gets.  The [?] of a failed call drops the
    lock file, and after [new] the next step is [Drop]. *)
Definition open_step (mode : Z) (ok : bool) (id : nat) (p : string) (s : Stage) (f : StoreFs) : Stage * StoreFs :=
  match s with
  | SStart => if ok then (SCreated, create_file mode (lock_path p) f) else (SFailed, f)
  | SCreated =>
      match set_restrictive_permissions ok (lock_path p) f with Ok f => (SRestricted, f) | Err _ => (SFailed, f) end
  | SRestricted =>
      match try_lock_exclusive ok id (lock_path p) f with Ok f => (SLocked, f) | Err _ => (SFailed, f) end
  | SLocked => if ok then (SDatabase, create_file mode p f) else (SFailed, close_file (lock_path p) f)
  | SDatabase =>
      match set_restrictive_permissions ok p f with
      | Ok f => (SOpen, f)
      | Err _ => (SFailed, close_file (lock_path p) f)
      end
  | SOpen => (SClosed, close_file (lock_path p) f)
  | SFailed => (SFailed, f)
  | SClosed => (SClosed, f)
  end.

(** The whole of [EncryptedStore::new] without interruption: [oks] are the outcomes of its
    five calls, [contents] what the database holds. *)
Definition EncryptedStore_new (mode : Z) (oks : list bool) (id : nat) (path : option string)
    (contents : gmap string bytes) (f : StoreFs) : HsmResult EncryptedStore * StoreFs :=
  match path with
  | None => (Ok {| es_db := None |}, f)
  | Some p =>
      let '(s, f) := foldl (λ sf ok, open_step mode ok id p sf.1 sf.2) (SStart, f) oks in
      (if decide (s = SOpen) then Ok {| es_db := Some contents |} else Err GeneralError, f)
  end.

(** ** Processes *)

Record Opener := { op_path : string; op_stage : Stage }.
Record World := { wd_openers : gmap nat Opener; wd_fs : StoreFs }.
Inductive OpenEvent :=
  | Launch (id : nat) (p : string)
  | Call (id : nat) (mode : Z) (ok : bool)
  | Die (id : nat).

Definition world_step (e : OpenEvent) (w : World) : World :=
  match e with
  | Launch id p =>
      match wd_openers w !! id with
      | Some _ => w
      | None => {| wd_openers := <[id := {| op_path := p; op_stage := SStart |}]> (wd_openers w); wd_fs := wd_fs w |}
      end
  | Call id mode ok =>
      match wd_openers w !! id with
      | None => w
      | Some o =>
          let '(s, f) := open_step mode ok id (op_path o) (op_stage o) (wd_fs w) in
          {| wd_openers := <[id := {| op_path := op_path o; op_stage := s |}]> (wd_openers w); wd_fs := f |}
      end
  | Die id =>
      match wd_openers w !! id with
      | None => w
      | Some o =>
          {| wd_openers := <[id := {| op_path := op_path o; op_stage := SClosed |}]> (wd_openers w);
             wd_fs := if holding (op_stage o) then close_file (lock_path (op_path o)) (wd_fs w) else wd_fs w |}
      end
  end.
Definition world_run (es : list OpenEvent) (w : World) : World := foldl (λ w e, world_step e w) w es.
Definition World_new (modes : gmap string Z) : World :=
  {| wd_openers := ∅; wd_fs := {| sf_mode := modes; sf_lock := ∅ |} |}.

(** ** What a call does to the locks and the modes *)

Definition private (f : StoreFs) (path : string) : Prop := sf_mode f !! path = Some PRIVATE_MODE.
(** The files a process at a stage has made private. *)
Definition restricted (s : Stage) (p : string) (f : StoreFs) : Prop :=
  match s with
  | SRestricted | SLocked | SDatabase => private f (lock_path p)
  | SOpen => private f (lock_path p) ∧ private f p
  | _ => True
  end.

Lemma open_step_locks mode ok id p s f s' f' :
  open_step mode ok id p s f = (s', f') →
  match holding s, holding s' with
  | false, true => sf_lock f !! lock_path p = None ∧ sf_lock f' = <[lock_path p := id]> (sf_lock f)
  | true, false => sf_lock f' = delete (lock_path p) (sf_lock f)
  | _, _ => sf_lock f' = sf_lock f
  end.
Proof.
  unfold open_step, set_restrictive_permissions, try_lock_exclusive. intros Hs.
  by repeat case_match; simplify_eq/=.
Qed.

Lemma create_private mode q p f : private f p → private (create_file mode q f) p.
Proof.
  unfold private, create_file. simpl. intros Hp. case_match; [done|].
  rewrite lookup_insert_ne; congruence.
Qed.
Lemma restrict_private ok q p f f' :
  set_restrictive_permissions ok q f = Ok f' → private f' q ∧ (private f p → private f' p).
Proof.
  unfold set_restrictive_permissions, private. destruct ok; [|done]. intros [= <-]. simpl.
  rewrite lookup_insert_eq. split; [done|]. destruct (decide (q = p)) as [->|Hn].
  - by rewrite lookup_insert_eq.
  - by rewrite lookup_insert_ne.
Qed.
Lemma lock_modes ok id q f f' : try_lock_exclusive ok id q f = Ok f' → sf_mode f' = sf_mode f.
Proof. unfold try_lock_exclusive. repeat case_match; naive_solver. Qed.

(** A private file stays private whatever any process calls. *)
Lemma open_step_private mode ok id p s f s' f' q :
  open_step mode ok id p s f = (s', f') → private f q → private f' q.
Proof.
  unfold open_step. intros Hs Hq. repeat case_match; simplify_eq/=; try done; try by apply create_private.
  all: try by eapply restrict_private.
  match goal with E : try_lock_exclusive _ _ _ _ = Ok _ |- _ => apply lock_modes in E end.
  unfold private in *. congruence.
Qed.
Lemma open_step_restricted mode ok id p s f s' f' :
  open_step mode ok id p s f = (s', f') → restricted s p f → restricted s' p f'.
Proof.
  unfold open_step. intros Hs Hr. repeat case_match; simplify_eq/=; try done; try by apply create_private.
  - by eapply (restrict_private _ _ EmptyString).
  - match goal with E : try_lock_exclusive _ _ _ _ = Ok _ |- _ => apply lock_modes in E end.
    unfold private in *. congruence.
  - match goal with E : set_restrictive_permissions _ _ _ = Ok _ |- _ =>
      destruct (restrict_private _ _ (lock_path p) _ _ E) as [Hp Hk] end. auto.
Qed.
Lemma restricted_mono s p f f' : (∀ q, private f q → private f' q) → restricted s p f → restricted s p f'.
Proof. destruct s; simpl; naive_solver. Qed.

(** ** The invariant *)

(** Who is past the lock holds it, who holds it is past it, and files are private from
    the call that makes them so. *)
Record world_inv (w : World) : Prop := {
  wi_held : ∀ id o, wd_openers w !! id = Some o → holding (op_stage o) = true →
    sf_lock (wd_fs w) !! lock_path (op_path o) = Some id;
  wi_owner : ∀ l id, sf_lock (wd_fs w) !! l = Some id →
    ∃ o, wd_openers w !! id = Some o ∧ holding (op_stage o) = true ∧ lock_path (op_path o) = l;
  wi_restricted : ∀ id o, wd_openers w !! id = Some o → restricted (op_stage o) (op_path o) (wd_fs w);
}.

(** The change of one process and of the lock it asks for. *)
Lemma world_inv_update w id o s' f' :
  world_inv w → wd_openers w !! id = Some o →
  match holding (op_stage o), holding s' with
  | false, true => sf_lock (wd_fs w) !! lock_path (op_path o) = None
      ∧ sf_lock f' = <[lock_path (op_path o) := id]> (sf_lock (wd_fs w))
  | true, false => sf_lock f' = delete (lock_path (op_path o)) (sf_lock (wd_fs w))
  | _, _ => sf_lock f' = sf_lock (wd_fs w)
  end →
  (∀ q, private (wd_fs w) q → private f' q) → restricted s' (op_path o) f' →
  world_inv {| wd_openers := <[id := {| op_path := op_path o; op_stage := s' |}]> (wd_openers w); wd_fs := f' |}.
Proof.
  intros [Hh Ho Hr] Hid Hl Hp Hs. pose proof (Hh id o Hid) as Hmine.
  assert (Hown : ∀ l, sf_lock (wd_fs w) !! l = Some id → holding (op_stage o) = true ∧ lock_path (op_path o) = l).
  { intros l E. destruct (Ho _ _ E) as (o2 & E3 & E4 & E5). rewrite Hid in E3. by injection E3 as <-. }
  split; simpl.
  - intros id2 o2 H2 Hh2. destruct (decide (id = id2)) as [<-|Hne].
    + rewrite lookup_insert_eq in H2. injection H2 as <-. simpl in *. rewrite Hh2 in Hl.
      destruct (holding (op_stage o)); [rewrite Hl; auto|]. destruct Hl as [_ ->]. by rewrite lookup_insert_eq.
    + rewrite lookup_insert_ne in H2 by done. pose proof (Hh id2 o2 H2 Hh2) as H3.
      destruct (holding (op_stage o)), (holding s'); [by rewrite Hl| |destruct Hl as [Hn ->]|by rewrite Hl].
      * rewrite Hl, lookup_delete_ne; [done|]. intros E. rewrite E, H3 in Hmine. by injection (Hmine eq_refl).
      * rewrite lookup_insert_ne; congruence.
  - intros l id2 H2. destruct (decide (id = id2)) as [<-|Hne].
    + rewrite lookup_insert_eq. eexists. split; [done|]. simpl.
      destruct (holding (op_stage o)), (holding s'); [| |destruct Hl as [_ Hl]|]; rewrite Hl in H2.
      * by apply Hown.
      * apply lookup_delete_Some in H2 as [Hd H2]. by apply Hown in H2 as [_ ?].
      * apply lookup_insert_Some in H2 as [[? _]|[_ H2]]; [done|]. by apply Hown in H2 as [? _].
      * by apply Hown.
    + rewrite lookup_insert_ne by done. apply Ho.
      destruct (holding (op_stage o)), (holding s'); [| |destruct Hl as [_ Hl]|]; rewrite Hl in H2; try done.
      * by apply lookup_delete_Some in H2 as [_ H2].
      * by apply lookup_insert_Some in H2 as [[_ ?]|[_ H2]].
  - intros id2 o2 H2. apply lookup_insert_Some in H2 as [[<- <-]|[_ H2]]; [done|].
    by apply (restricted_mono _ _ (wd_fs w)); [|apply (Hr id2)].
Qed.

Lemma world_inv_new modes : world_inv (World_new modes).
Proof. split; simpl; intros *; rewrite lookup_empty; discriminate. Qed.
Lemma world_inv_launch w id p :
  world_inv w → wd_openers w !! id = None →
  world_inv {| wd_openers := <[id := {| op_path := p; op_stage := SStart |}]> (wd_openers w); wd_fs := wd_fs w |}.
Proof.
  intros [Hh Ho Hr] Hid. split; simpl.
  - intros id2 o2 H2 Hs. apply lookup_insert_Some in H2 as [[_ <-]|[_ H2]]; [done|by apply Hh].
  - intros l id2 H2. destruct (Ho _ _ H2) as (o & E & ?). exists o. split; [|done].
    rewrite lookup_insert_ne; [done|]. intros <-. congruence.
  - intros id2 o2 H2. apply lookup_insert_Some in H2 as [[_ <-]|[_ H2]]; [done|by eapply Hr].
Qed.
Lemma world_step_inv e w : world_inv w → world_inv (world_step e w).
Proof.
  intros Hw. destruct e as [id p|id mode ok|id]; simpl.
  - destruct (wd_openers w !! id) eqn:E; [done|]. by apply world_inv_launch.
  - destruct (wd_openers w !! id) as [o|] eqn:E; [|done].
    destruct (open_step _ _ _ _ _ _) as [s f] eqn:Es. apply world_inv_update; [done|done|..].
    + by eapply open_step_locks.
    + intros q. by eapply open_step_private.
    + eapply open_step_restricted; [done|]. by eapply wi_restricted.
  - destruct (wd_openers w !! id) as [o|] eqn:E; [|done]. apply world_inv_update; [done|done|..]; simpl.
    + by destruct (holding (op_stage o)).
    + intros q. by destruct (holding (op_stage o)).
    + done.
Qed.
Lemma world_run_inv es w : world_inv w → world_inv (world_run es w).
Proof. unfold world_run. revert w. induction es as [|e es IH]; intros w Hw; [done|]. by apply IH, world_step_inv. Qed.

(** [new] on a path whose lock is free opens the store when its five calls succeed. *)
Lemma new_opens mode id p contents f :
  sf_lock f !! lock_path p = None →
  ∃ f', EncryptedStore_new mode [true; true; true; true; true] id (Some p) contents f
        = (Ok {| es_db := Some contents |}, f').
Proof.
  intros Hl. unfold EncryptedStore_new. cbn [foldl open_step set_restrictive_permissions fst snd].
  unfold try_lock_exclusive. cbn [sf_lock create_file]. rewrite Hl. by eexists.
Qed.
(** On a path that is locked it fails, whatever the calls return, and leaves the lock. *)
Lemma new_refused mode oks id p contents f other :
  sf_lock f !! lock_path p = Some other →
  (EncryptedStore_new mode oks id (Some p) contents f).1 = Err GeneralError.
Proof.
  intros Hl. unfold EncryptedStore_new.
  assert (Hs : ∀ s g, s ∈ [SStart; SCreated; SRestricted; SFailed] → sf_lock g !! lock_path p = Some other →
    (foldl (λ sf ok, open_step mode ok id p sf.1 sf.2) (s, g) oks).1 ∈ [SStart; SCreated; SRestricted; SFailed]).
  { clear Hl f. induction oks as [|ok oks IH]; intros s g Hs Hg; [done|]. cbn [foldl fst snd].
    destruct (open_step mode ok id p s g) as [s' g'] eqn:E. pose proof (open_step_locks _ _ _ _ _ _ _ _ E) as Hk.
    assert (Hn : s' ∈ [SStart; SCreated; SRestricted; SFailed] ∧ holding s = false ∧ holding s' = false).
    { unfold open_step, set_restrictive_permissions, try_lock_exclusive in E. rewrite Hg in E.
      rewrite !elem_of_cons, elem_of_nil in Hs.
      destruct Hs as [->|[->|[->|[->|[]]]]], ok; injection E as <- <-; repeat split; set_solver. }
    destruct Hn as (Hn & E1 & E2). rewrite E1, E2 in Hk. apply IH; [done|]. by rewrite Hk. }
  specialize (Hs SStart f ltac:(set_solver) Hl). destruct (foldl _ _ _) as [s g]. simpl in *.
  case_decide; [subst; set_solver|done].
Qed.

(** C17: However processes open stores, use them, fail, and die, in any interleaving of
    their calls: a database is open in at most one of them, and the database and its lock
    file are then readable by their owner alone.  While it is open every other attempt
    fails, whatever the system answers; once nobody holds it, which is so again after a
    failure or a death at any point, the next attempt whose calls succeed opens it. *)
Theorem store_opened_once modes es p mode id contents :
  let w := world_run es (World_new modes) in
  (∀ i j o o', wd_openers w !! i = Some o → wd_openers w !! j = Some o' → op_path o = p → op_path o' = p →
     holding (op_stage o) = true → holding (op_stage o') = true → i = j)
  ∧ (∀ i o, wd_openers w !! i = Some o → op_path o = p → op_stage o = SOpen →
     private (wd_fs w) p ∧ private (wd_fs w) (lock_path p)
     ∧ ∀ oks, (EncryptedStore_new mode oks id (Some p) contents (wd_fs w)).1 = Err GeneralError)
  ∧ ((∀ i o, wd_openers w !! i = Some o → lock_path (op_path o) = lock_path p → holding (op_stage o) = false) →
     ∃ f', EncryptedStore_new mode [true; true; true; true; true] id (Some p) contents (wd_fs w)
           = (Ok {| es_db := Some contents |}, f')).
Proof.
  intros w. pose proof (world_run_inv es _ (world_inv_new modes)) as [Hh Ho Hr]. fold w in Hh, Ho, Hr.
  split; [|split].
  - intros i j o o' E E' Hp Hp' Hk Hk'.
    pose proof (Hh _ _ E Hk) as H1. pose proof (Hh _ _ E' Hk') as H2. congruence.
  - intros i o E <- Hs. pose proof (Hr _ _ E) as H1. rewrite Hs in H1. destruct H1 as [H1 H2].
    split; [done|]. split; [done|]. intros oks. apply (new_refused _ _ _ _ _ _ i). apply Hh; [done|]. by rewrite Hs.
  - intros Hfree. apply new_opens. destruct (sf_lock (wd_fs w) !! lock_path p) as [i|] eqn:E; [|done].
    destruct (Ho _ _ E) as (o & E1 & E2 & E3). rewrite (Hfree _ _ E1 E3) in E2. done.
Qed.

(** One process opens, another is refused at the lock, the first dies. *)
Definition demo_opening : list OpenEvent :=
  [Launch 1 "db"; Launch 2 "db"; Call 2 420 true; Call 1 420 true; Call 1 420 true; Call 1 420 true;
   Call 2 420 true; Call 2 420 true; Call 1 420 true; Call 1 420 true].
Lemma store_opened_once_witness :
  op_stage <$> wd_openers (world_run demo_opening (World_new ∅)) !! 1%nat = Some SOpen
  ∧ op_stage <$> wd_openers (world_run demo_opening (World_new ∅)) !! 2%nat = Some SFailed
  ∧ (∃ f', EncryptedStore_new 420 [true; true; true; true; true] 3 (Some "db"%string) ∅
             (wd_fs (world_run (demo_opening ++ [Die 1]) (World_new ∅))) = (Ok {| es_db := Some ∅ |}, f')).
Proof.
  split; [vm_compute; reflexivity|]. split; [vm_compute; reflexivity|].
  destruct (store_opened_once ∅ (demo_opening ++ [Die 1]) "db" 420 3 ∅) as (_ & _ & Hf). apply Hf.
  intros i o Hi _. revert i o Hi. apply map_Forall_lookup. apply (bool_decide_unpack _). vm_compute. exact I.
Defined.
