(* ===== verification/AdminMain.v ===== *)
(** * The administration tool as a program

    [main] of tools/craton-hsm-admin/src/main.rs with the commands of commands/audit.rs:
    which command an invocation runs and the code the process exits with.  A panic exits
    with 101.  The --json flag only chooses between two layouts of the same report. *)

From S2P Require Import Prelude StateError Pkcs11 Handles Hash PinCrypto TokenFiles Token Session SessionManager Dates Objects ObjectStore AuditChain AuditExport Encrypt Abi Mechanisms Config Operations KeyManagement Backup ImportParse Admin AdminProofs.

Inductive AuditAction := Dump (last : Z) | ExportJson | ExportNdjson | ExportSyslog | VerifyChain.

(** What an audit command reports. *)
Inductive AuditReport :=
| Counted (total last : Z)
| JsonArray (entries : list AuditEvent)
| Ndjson (text : bytes)
| SyslogLines (lines : list (list Z))
| ChainValid (count : Z)
| ChainBroken (index : Z).

Section Main.
Context {P : PinPrimitives} {X : HexCodec} {HP : HashPrimitives}.
Context {C : ObjectCodec} {SO : StoreOrder} {AC : AuditCodec}.
Context {BK : BackupCodec} {G : KeyFileCrates}.
Context {A B : Type} {HS : HandleSource A} {OH : ObjectHandles B}.

(** The report on a log. *)
Definition audit_report (a : AuditAction) (l : AuditLog) : AuditReport :=
  match a with
  | Dump last => Counted (Z.of_nat (length (al_entries l))) last
  | ExportJson => JsonArray (al_entries l)
  | ExportNdjson => Ndjson (export_ndjson (al_entries l))
  | ExportSyslog => SyslogLines (export_syslog (al_entries l))
  | VerifyChain => match verify_chain l with Ok count => ChainValid count | Err index => ChainBroken index end
  end.
Definition audit_command (p : Process) (a : AuditAction) (hidden lines : list bytes) (guard : File bytes) :
    Result CliError AuditReport * option (World A B) :=
  with_hsm p hidden lines guard (λ _ w, (Ok (audit_report a (audit_log (w_core w))), w)).

(** [Err] is printed and exits with 1; a chain found broken does too. *)
Definition exit_code {T} (r : Result CliError T) : Z :=
  match r with Ok _ => 0 | Err CorePanic => 101 | Err _ => 1 end.
Definition audit_exit (r : Result CliError AuditReport) : Z :=
  match r with Ok (ChainBroken _) => 1 | _ => exit_code r end.

Inductive Commands := CAdmin (c : Command) | CAudit (a : AuditAction).

Definition admin_main (p : Process) (e : AdminEnv) (c : Commands) (hidden lines : list bytes)
    (guard : File bytes) : Z * option (World A B) :=
  let run {T} (body : HsmConfig → Admin T) :=
    let '(r, w) := with_hsm p hidden lines guard body in (exit_code r, w) in
  match c with
  | CAdmin (TokenInit label) => run (token_init e label)
  | CAdmin TokenInfo => run (λ _, token_info)
  | CAdmin Status => run status
  | CAdmin (PinChange user_type) => run (pin_change e user_type)
  | CAdmin PinReset => run (pin_reset e)
  | CAdmin KeyList => run (λ _, key_list e)
  | CAdmin (KeyImport file label key_type class yes) =>
    let '(r, w) := key_import p e file label key_type class yes hidden lines guard in (exit_code r, w)
  | CAdmin (KeyDelete handle force) => run (λ _, key_delete e handle force)
  | CAdmin (BackupCreate exists_already) => run (backup_create e exists_already)
  | CAdmin (BackupRestore input) =>
    let '(r, w) := backup_restore p e input hidden lines guard in (exit_code r, w)
  | CAudit a => let '(r, w) := audit_command p a hidden lines guard in (audit_exit r, w)
  end.

(** The world [admin_main] leaves is the one [run_command] does. *)
Lemma admin_main_runs p e c hidden lines guard :
  (admin_main p e (CAdmin c) hidden lines guard).2 = run_command p e c hidden lines guard.
Proof.
  destruct c; unfold admin_main, run_command;
    match goal with |- context [let '(r, w) := ?x in _] => by destruct x end.
Qed.

(** A log that was just created or opened holds no entry in memory. *)
Lemma new_core_log_empty p config (core : HsmCore A B) :
  HsmCore_new p config = Ok core → al_entries (audit_log core) = [].
Proof.
  unfold HsmCore_new, try_new. destruct (pr_drbg p); [|done].
  destruct (build_object_store _ _ _); [simpl|done]. destruct (au_enabled (c_audit config)); simpl.
  - destruct (pr_log_path p); [simpl|done]. intros [= <-]. simpl. unfold new_with_path. by repeat case_match.
  - by intros [= <-].
Qed.

(** Whatever the audit log on disk holds, also after someone altered it, the audit
    commands report nothing: no entry is counted or exported, and the chain is valid with
    no entry checked, exit code 0.  An invocation that fails does so before it gets to
    the log. *)
Theorem admin_audit_blind p a hidden lines guard :
  match (audit_command p a hidden lines guard).1 with
  | Ok r => r = match a with
                | Dump last => Counted 0 last
                | ExportJson => JsonArray []
                | ExportNdjson => Ndjson []
                | ExportSyslog => SyslogLines []
                | VerifyChain => ChainValid 0
                end
            ∧ audit_exit (Ok r) = 0
  | Err x => load_config p = Err x ∨ x = CorePanic
  end.
Proof.
  unfold audit_command, with_hsm. destruct (load_config p) as [config|x]; [|by left].
  destruct (HsmCore_new p config) as [core|x] eqn:E; simpl.
  - pose proof (new_core_log_empty _ _ _ E) as Hl. unfold audit_report, verify_chain. rewrite Hl. by destruct a.
  - right. unfold HsmCore_new in E. by case_match; simplify_eq.
Qed.
End Main.
